(** * Life-Simulator: the simulation engine of [src/simLogic.ts]

    A shallow embedding of the engine's data store, generator, genetics,
    placement, egg and birth code, of the hydrology flood, of the tick
    [stepOnce] and of the tuning commands, followed by the properties of
    the specification that were settled against it.

    Conventions of the embedding.
    - JavaScript numbers that hold integers (indices, ticks, alleles, the
      generator state) are [Z]; the other numbers (energy, hydration, trait
      phenotypes, draws of the generator) are exact rationals [Q]: finite
      numbers, without the rounding of the [Float32Array] cells.  The
      properties below are stated so that they do not depend on that
      rounding; the numbers that a caller hands to [setBehaviorTuning]
      are of type [Num], which has [NaN] and the infinities.
    - The tick runs in [M], which tells a return from a [TypeError] on an
      [undefined] table entry: a table index drawn with [rng() = 1], or a
      [biomeMap] cell of a row or an egg that lies off the map.
    - A typed array is its length, its fill value and the finitely many
      cells written so far ([TArr]); a read out of range gives [None]
      ([undefined] in the source) and a write out of range is dropped.
    - The per-entity parallel arrays are one map from slot index to a row
      ([Entity]); a slot never written reads as the zero row, as the
      zero-filled arrays of [alloc] do.
    - Code that draws from the module-level generator runs in [Rand], a
      state monad over the generator state [RNG_S]. *)

From Stdlib Require Import ZArith QArith Qround Qabs Lia Lqa List Bool.
From stdpp Require Import base option list gmap.
Import ListNotations.

Local Open Scope Z_scope.

(** ** Numbers *)

Definition Qlt_bool (a b : Q) : bool := negb (Qle_bool b a).

(** [const clamp01 = (n) => (n < 0 ? 0 : n > 1 ? 1 : n)] *)
Definition clamp01 (n : Q) : Q :=
  if Qlt_bool n 0 then 0%Q else if Qlt_bool 1 n then 1%Q else n.

Definition Qmax (a b : Q) : Q := if Qlt_bool a b then b else a.
Definition Qmin (a b : Q) : Q := if Qlt_bool b a then b else a.

(** [Math.round]: the nearest integer, halves towards plus infinity. *)
Definition Math_round (v : Q) : Z := Qfloor (v + (1 # 2)).
(** [Math.floor]. *)
Definition Math_floor (v : Q) : Z := Qfloor v.
(** [v | 0] on the magnitudes that occur: truncation towards zero. *)
Definition trunc0 (v : Q) : Z :=
  if Qlt_bool v 0 then - Qfloor (- v) else Qfloor v.
(** [z >>> 0]: reduction to an unsigned 32-bit integer. *)
Definition to_uint32 (z : Z) : Z := z mod 2 ^ 32.
(** A store into an [Int16Array] cell. *)
Definition to_int16 (z : Z) : Z := (z + 32768) mod 65536 - 32768.

(** Constants of the module. *)
Definition MAX_ENTITIES : Z := 120000.
Definition SPECIES_MAX : Z := 2048.
Definition ALLELE_MAX : Z := 255.
Definition MATURITY_MIN : Z := 500.
Definition MATURITY_MAX : Z := 6000.
Definition MAX_AGE_MIN : Z := 12000.
Definition MAX_AGE_MAX : Z := 52000.
Definition MAX_EGGS : Z := 10000.
Definition MUT_GLW_TICKS : Z := 600.
Definition DIET_SHIFT_PENALTY_TICKS : Z := 1800.
Definition CHILD_ENERGY_START : Q := 48 # 100.

(** ** The generator

    [RNG_S = (RNG_S * 1664525 + 1013904223) >>> 0; return RNG_S / 0xffffffff]
    The product stays below 2^53, so the update is exact in the source. *)

Definition Rand (A : Type) : Type := Z -> A * Z.

Definition ret {A} (a : A) : Rand A := fun s => (a, s).
Definition bind {A B} (m : Rand A) (k : A -> Rand B) : Rand B :=
  fun s => let (a, s') := m s in k a s'.

Declare Scope rand_scope.
Delimit Scope rand_scope with rand.
Notation "x <- m ;; k" := (bind m (fun x => k))
  (at level 100, m at next level, right associativity) : rand_scope.

Definition rng_next (s : Z) : Z := to_uint32 (s * 1664525 + 1013904223).

Definition rng : Rand Q := fun s =>
  let s' := rng_next s in (inject_Z s' / inject_Z 4294967295, s')%Q.

(** ** Typed arrays *)

Record TArr (A : Type) : Type := mkTArr {
  ta_len : Z;
  ta_fill : A;
  ta_cells : gmap Z A;
}.
Arguments mkTArr {A} _ _ _.
Arguments ta_len {A} _.
Arguments ta_fill {A} _.
Arguments ta_cells {A} _.

(** [new XArray(n).fill(v)] *)
Definition ta_new {A} (n : Z) (v : A) : TArr A := mkTArr n v ∅.

(** [a[k]] as a read: [None] is the [undefined] of an index out of range. *)
Definition ta_get {A} (a : TArr A) (k : Z) : option A :=
  if decide (0 <= k < ta_len a)
  then Some (default (ta_fill a) (ta_cells a !! k))
  else None.

(** [a[k] = v]: dropped when [k] is out of range. *)
Definition ta_set {A} (a : TArr A) (k : Z) (v : A) : TArr A :=
  if decide (0 <= k < ta_len a)
  then mkTArr (ta_len a) (ta_fill a) (<[k := v]> (ta_cells a))
  else a.

(** ** Data model ([src/types.ts]) *)

Inductive LifeType := plant | animal.
Inductive Diet := photosynthesis | herbivore | carnivore | omnivore.
Inductive Reproduction := asexual | sexual.
Inductive ActivityCycle := diurnal | nocturnal | cathemeral.
Inductive SpeciesClass := fish | mammal | bird | reptile | amphibian | insect.
Inductive Biome := grassland | forest | desert | tundra | wetlands | ocean.
Inductive ReproductionState := ready | gestating | cooldown | incubating.

#[global] Instance LifeType_eq_dec : EqDecision LifeType.
Proof. solve_decision. Defined.
#[global] Instance Diet_eq_dec : EqDecision Diet.
Proof. solve_decision. Defined.
#[global] Instance Reproduction_eq_dec : EqDecision Reproduction.
Proof. solve_decision. Defined.
#[global] Instance ActivityCycle_eq_dec : EqDecision ActivityCycle.
Proof. solve_decision. Defined.
#[global] Instance SpeciesClass_eq_dec : EqDecision SpeciesClass.
Proof. solve_decision. Defined.
#[global] Instance Biome_eq_dec : EqDecision Biome.
Proof. solve_decision. Defined.
#[global] Instance ReproductionState_eq_dec : EqDecision ReproductionState.
Proof. solve_decision. Defined.

Record Genome : Type := mkGenome {
  speciesId : Z;
  lifeType : LifeType;
  speciesClass : SpeciesClass;
  diet : Diet;
  reproduction : Reproduction;
  hostility : Q;
  speed : Q;
  size : Q;
  vision : Q;
  fertility : Q;
  maturityAge : Z;
  maxAge : Z;
  camouflage : Q;
  sociality : Q;
  activity : ActivityCycle;
  temperatureTolerance : Q;
  preferredBiome : Biome;
  seedSpread : Q;
  mutationRate : Q;
  supplementalCarnivory : bool;
}.

(** [EggGenes]: the two alleles of each of the twelve quantitative traits. *)
Module EggGenes.
Record t : Type := mk {
  hostility : Z * Z;
  speed : Z * Z;
  size : Z * Z;
  vision : Z * Z;
  fertility : Z * Z;
  camouflage : Z * Z;
  sociality : Z * Z;
  temperatureTolerance : Z * Z;
  seedSpread : Z * Z;
  mutationRate : Z * Z;
  maturityAge : Z * Z;
  maxAge : Z * Z;
}.
End EggGenes.

(** One row of the parallel entity arrays.  [genomeA] gathers the genome
    columns ([speciesA], [lifeTypeA], [classA], [dietA], [reproA], the twelve
    phenotype arrays, [activityA], [prefBiomeA], [supplementalCarnA]) in
    decoded form; [genesA] gathers the 24 allele arrays ([hostG1A],
    [hostG2A], ...). *)
Record Entity : Type := mkEntity {
  idA : Z;
  xA : Z;
  yA : Z;
  energyA : Q;
  hydrationA : Q;
  ageA : Z;
  aliveA : bool;
  adultA : bool;
  genomeA : Genome;
  genesA : EggGenes.t;
  plantFeedHistoryA : Q;
  preyFeedHistoryA : Q;
  starvationStressA : Q;
  dietShiftPenaltyA : Z;
  plantTrapCooldownA : Z;
  reproStateA : ReproductionState;
  reproTimerA : Z;
  gestationTimeA : Z;
  breedingReadinessA : Q;
  lastReproTickA : Z;
  glowUntil : Z;
}.

Definition with_idA (v : Z) (r : Entity) : Entity :=
  {| idA := v; xA := xA r; yA := yA r; energyA := energyA r;
     hydrationA := hydrationA r; ageA := ageA r; aliveA := aliveA r;
     adultA := adultA r; genomeA := genomeA r; genesA := genesA r;
     plantFeedHistoryA := plantFeedHistoryA r;
     preyFeedHistoryA := preyFeedHistoryA r;
     starvationStressA := starvationStressA r;
     dietShiftPenaltyA := dietShiftPenaltyA r;
     plantTrapCooldownA := plantTrapCooldownA r;
     reproStateA := reproStateA r; reproTimerA := reproTimerA r;
     gestationTimeA := gestationTimeA r;
     breedingReadinessA := breedingReadinessA r;
     lastReproTickA := lastReproTickA r; glowUntil := glowUntil r |}.
Definition with_xA (v : Z) (r : Entity) : Entity :=
  {| idA := idA r; xA := v; yA := yA r; energyA := energyA r;
     hydrationA := hydrationA r; ageA := ageA r; aliveA := aliveA r;
     adultA := adultA r; genomeA := genomeA r; genesA := genesA r;
     plantFeedHistoryA := plantFeedHistoryA r;
     preyFeedHistoryA := preyFeedHistoryA r;
     starvationStressA := starvationStressA r;
     dietShiftPenaltyA := dietShiftPenaltyA r;
     plantTrapCooldownA := plantTrapCooldownA r;
     reproStateA := reproStateA r; reproTimerA := reproTimerA r;
     gestationTimeA := gestationTimeA r;
     breedingReadinessA := breedingReadinessA r;
     lastReproTickA := lastReproTickA r; glowUntil := glowUntil r |}.
Definition with_yA (v : Z) (r : Entity) : Entity :=
  {| idA := idA r; xA := xA r; yA := v; energyA := energyA r;
     hydrationA := hydrationA r; ageA := ageA r; aliveA := aliveA r;
     adultA := adultA r; genomeA := genomeA r; genesA := genesA r;
     plantFeedHistoryA := plantFeedHistoryA r;
     preyFeedHistoryA := preyFeedHistoryA r;
     starvationStressA := starvationStressA r;
     dietShiftPenaltyA := dietShiftPenaltyA r;
     plantTrapCooldownA := plantTrapCooldownA r;
     reproStateA := reproStateA r; reproTimerA := reproTimerA r;
     gestationTimeA := gestationTimeA r;
     breedingReadinessA := breedingReadinessA r;
     lastReproTickA := lastReproTickA r; glowUntil := glowUntil r |}.
Definition with_energyA (v : Q) (r : Entity) : Entity :=
  {| idA := idA r; xA := xA r; yA := yA r; energyA := v;
     hydrationA := hydrationA r; ageA := ageA r; aliveA := aliveA r;
     adultA := adultA r; genomeA := genomeA r; genesA := genesA r;
     plantFeedHistoryA := plantFeedHistoryA r;
     preyFeedHistoryA := preyFeedHistoryA r;
     starvationStressA := starvationStressA r;
     dietShiftPenaltyA := dietShiftPenaltyA r;
     plantTrapCooldownA := plantTrapCooldownA r;
     reproStateA := reproStateA r; reproTimerA := reproTimerA r;
     gestationTimeA := gestationTimeA r;
     breedingReadinessA := breedingReadinessA r;
     lastReproTickA := lastReproTickA r; glowUntil := glowUntil r |}.
Definition with_hydrationA (v : Q) (r : Entity) : Entity :=
  {| idA := idA r; xA := xA r; yA := yA r; energyA := energyA r;
     hydrationA := v; ageA := ageA r; aliveA := aliveA r;
     adultA := adultA r; genomeA := genomeA r; genesA := genesA r;
     plantFeedHistoryA := plantFeedHistoryA r;
     preyFeedHistoryA := preyFeedHistoryA r;
     starvationStressA := starvationStressA r;
     dietShiftPenaltyA := dietShiftPenaltyA r;
     plantTrapCooldownA := plantTrapCooldownA r;
     reproStateA := reproStateA r; reproTimerA := reproTimerA r;
     gestationTimeA := gestationTimeA r;
     breedingReadinessA := breedingReadinessA r;
     lastReproTickA := lastReproTickA r; glowUntil := glowUntil r |}.
Definition with_ageA (v : Z) (r : Entity) : Entity :=
  {| idA := idA r; xA := xA r; yA := yA r; energyA := energyA r;
     hydrationA := hydrationA r; ageA := v; aliveA := aliveA r;
     adultA := adultA r; genomeA := genomeA r; genesA := genesA r;
     plantFeedHistoryA := plantFeedHistoryA r;
     preyFeedHistoryA := preyFeedHistoryA r;
     starvationStressA := starvationStressA r;
     dietShiftPenaltyA := dietShiftPenaltyA r;
     plantTrapCooldownA := plantTrapCooldownA r;
     reproStateA := reproStateA r; reproTimerA := reproTimerA r;
     gestationTimeA := gestationTimeA r;
     breedingReadinessA := breedingReadinessA r;
     lastReproTickA := lastReproTickA r; glowUntil := glowUntil r |}.
Definition with_aliveA (v : bool) (r : Entity) : Entity :=
  {| idA := idA r; xA := xA r; yA := yA r; energyA := energyA r;
     hydrationA := hydrationA r; ageA := ageA r; aliveA := v;
     adultA := adultA r; genomeA := genomeA r; genesA := genesA r;
     plantFeedHistoryA := plantFeedHistoryA r;
     preyFeedHistoryA := preyFeedHistoryA r;
     starvationStressA := starvationStressA r;
     dietShiftPenaltyA := dietShiftPenaltyA r;
     plantTrapCooldownA := plantTrapCooldownA r;
     reproStateA := reproStateA r; reproTimerA := reproTimerA r;
     gestationTimeA := gestationTimeA r;
     breedingReadinessA := breedingReadinessA r;
     lastReproTickA := lastReproTickA r; glowUntil := glowUntil r |}.
Definition with_adultA (v : bool) (r : Entity) : Entity :=
  {| idA := idA r; xA := xA r; yA := yA r; energyA := energyA r;
     hydrationA := hydrationA r; ageA := ageA r; aliveA := aliveA r;
     adultA := v; genomeA := genomeA r; genesA := genesA r;
     plantFeedHistoryA := plantFeedHistoryA r;
     preyFeedHistoryA := preyFeedHistoryA r;
     starvationStressA := starvationStressA r;
     dietShiftPenaltyA := dietShiftPenaltyA r;
     plantTrapCooldownA := plantTrapCooldownA r;
     reproStateA := reproStateA r; reproTimerA := reproTimerA r;
     gestationTimeA := gestationTimeA r;
     breedingReadinessA := breedingReadinessA r;
     lastReproTickA := lastReproTickA r; glowUntil := glowUntil r |}.
Definition with_genomeA (v : Genome) (r : Entity) : Entity :=
  {| idA := idA r; xA := xA r; yA := yA r; energyA := energyA r;
     hydrationA := hydrationA r; ageA := ageA r; aliveA := aliveA r;
     adultA := adultA r; genomeA := v; genesA := genesA r;
     plantFeedHistoryA := plantFeedHistoryA r;
     preyFeedHistoryA := preyFeedHistoryA r;
     starvationStressA := starvationStressA r;
     dietShiftPenaltyA := dietShiftPenaltyA r;
     plantTrapCooldownA := plantTrapCooldownA r;
     reproStateA := reproStateA r; reproTimerA := reproTimerA r;
     gestationTimeA := gestationTimeA r;
     breedingReadinessA := breedingReadinessA r;
     lastReproTickA := lastReproTickA r; glowUntil := glowUntil r |}.
Definition with_genesA (v : EggGenes.t) (r : Entity) : Entity :=
  {| idA := idA r; xA := xA r; yA := yA r; energyA := energyA r;
     hydrationA := hydrationA r; ageA := ageA r; aliveA := aliveA r;
     adultA := adultA r; genomeA := genomeA r; genesA := v;
     plantFeedHistoryA := plantFeedHistoryA r;
     preyFeedHistoryA := preyFeedHistoryA r;
     starvationStressA := starvationStressA r;
     dietShiftPenaltyA := dietShiftPenaltyA r;
     plantTrapCooldownA := plantTrapCooldownA r;
     reproStateA := reproStateA r; reproTimerA := reproTimerA r;
     gestationTimeA := gestationTimeA r;
     breedingReadinessA := breedingReadinessA r;
     lastReproTickA := lastReproTickA r; glowUntil := glowUntil r |}.
Definition with_dietShiftPenaltyA (v : Z) (r : Entity) : Entity :=
  {| idA := idA r; xA := xA r; yA := yA r; energyA := energyA r;
     hydrationA := hydrationA r; ageA := ageA r; aliveA := aliveA r;
     adultA := adultA r; genomeA := genomeA r; genesA := genesA r;
     plantFeedHistoryA := plantFeedHistoryA r;
     preyFeedHistoryA := preyFeedHistoryA r;
     starvationStressA := starvationStressA r; dietShiftPenaltyA := v;
     plantTrapCooldownA := plantTrapCooldownA r;
     reproStateA := reproStateA r; reproTimerA := reproTimerA r;
     gestationTimeA := gestationTimeA r;
     breedingReadinessA := breedingReadinessA r;
     lastReproTickA := lastReproTickA r; glowUntil := glowUntil r |}.
Definition with_reproStateA (v : ReproductionState) (r : Entity) : Entity :=
  {| idA := idA r; xA := xA r; yA := yA r; energyA := energyA r;
     hydrationA := hydrationA r; ageA := ageA r; aliveA := aliveA r;
     adultA := adultA r; genomeA := genomeA r; genesA := genesA r;
     plantFeedHistoryA := plantFeedHistoryA r;
     preyFeedHistoryA := preyFeedHistoryA r;
     starvationStressA := starvationStressA r;
     dietShiftPenaltyA := dietShiftPenaltyA r;
     plantTrapCooldownA := plantTrapCooldownA r; reproStateA := v;
     reproTimerA := reproTimerA r; gestationTimeA := gestationTimeA r;
     breedingReadinessA := breedingReadinessA r;
     lastReproTickA := lastReproTickA r; glowUntil := glowUntil r |}.
Definition with_reproTimerA (v : Z) (r : Entity) : Entity :=
  {| idA := idA r; xA := xA r; yA := yA r; energyA := energyA r;
     hydrationA := hydrationA r; ageA := ageA r; aliveA := aliveA r;
     adultA := adultA r; genomeA := genomeA r; genesA := genesA r;
     plantFeedHistoryA := plantFeedHistoryA r;
     preyFeedHistoryA := preyFeedHistoryA r;
     starvationStressA := starvationStressA r;
     dietShiftPenaltyA := dietShiftPenaltyA r;
     plantTrapCooldownA := plantTrapCooldownA r;
     reproStateA := reproStateA r; reproTimerA := v;
     gestationTimeA := gestationTimeA r;
     breedingReadinessA := breedingReadinessA r;
     lastReproTickA := lastReproTickA r; glowUntil := glowUntil r |}.
Definition with_lastReproTickA (v : Z) (r : Entity) : Entity :=
  {| idA := idA r; xA := xA r; yA := yA r; energyA := energyA r;
     hydrationA := hydrationA r; ageA := ageA r; aliveA := aliveA r;
     adultA := adultA r; genomeA := genomeA r; genesA := genesA r;
     plantFeedHistoryA := plantFeedHistoryA r;
     preyFeedHistoryA := preyFeedHistoryA r;
     starvationStressA := starvationStressA r;
     dietShiftPenaltyA := dietShiftPenaltyA r;
     plantTrapCooldownA := plantTrapCooldownA r;
     reproStateA := reproStateA r; reproTimerA := reproTimerA r;
     gestationTimeA := gestationTimeA r;
     breedingReadinessA := breedingReadinessA r; lastReproTickA := v;
     glowUntil := glowUntil r |}.
Definition with_glowUntil (v : Z) (r : Entity) : Entity :=
  {| idA := idA r; xA := xA r; yA := yA r; energyA := energyA r;
     hydrationA := hydrationA r; ageA := ageA r; aliveA := aliveA r;
     adultA := adultA r; genomeA := genomeA r; genesA := genesA r;
     plantFeedHistoryA := plantFeedHistoryA r;
     preyFeedHistoryA := preyFeedHistoryA r;
     starvationStressA := starvationStressA r;
     dietShiftPenaltyA := dietShiftPenaltyA r;
     plantTrapCooldownA := plantTrapCooldownA r;
     reproStateA := reproStateA r; reproTimerA := reproTimerA r;
     gestationTimeA := gestationTimeA r;
     breedingReadinessA := breedingReadinessA r;
     lastReproTickA := lastReproTickA r; glowUntil := v |}.

Record EggData : Type := mkEgg {
  e_speciesId : Z;
  parentId1 : Z;
  parentId2 : option Z;
  e_genome : Genome;
  e_genes : EggGenes.t;
  incubationTime : Z;
  maxIncubationTime : Z;
  e_x : Z;
  e_y : Z;
  viability : Q;
  shiftedDiet : bool;
}.

(** [MutationEvent] without its two presentation payloads ([deltas], the
    rounded per-trait differences, and [ecologicalContext], a label). *)
Record MutationEvent : Type := mkMutationEvent {
  m_tick : Z;
  parentSpeciesId : Z;
  newSpeciesId : Z;
  entityId : Z;
  m_lifeType : LifeType;
  countBorn : Z;
}.

(** [DailyPopulationStats], the counters that the engine updates. *)
Record DailyPopulationStats : Type := mkDayStats {
  day : Z;
  births : Z;
  birthsPlants : Z;
  birthsAnimals : Z;
  deaths : Z;
  deathsPlants : Z;
  deathsAnimals : Z;
  startPopulation : Z;
  startPlants : Z;
  startAnimals : Z;
}.

Record BehaviorTuning : Type := mkTuning {
  thirstWeight : Q;
  hungerWeight : Q;
  mateWeight : Q;
  fearWeight : Q;
  motiveMoveBoostMax : Q;
  opportunisticFeedChance : Q;
  reproductionReadinessThreshold : Q;
  animalMetabolismMultiplier : Q;
  plantBiteAmount : Q;
  attackEnergyGain : Q;
}.

Definition DEFAULT_BEHAVIOR_TUNING : BehaviorTuning :=
  {| thirstWeight := 12 # 10; hungerWeight := 145 # 100;
     mateWeight := 14 # 10; fearWeight := 1;
     motiveMoveBoostMax := 42 # 100; opportunisticFeedChance := 8 # 100;
     reproductionReadinessThreshold := 3 # 10;
     animalMetabolismMultiplier := 44 # 100;
     plantBiteAmount := 72 # 100; attackEnergyGain := 58 # 100 |}.

(** The module-level variables of the engine.  Render caches, the species
    statistics table, the lightning markers used only for drawing, the
    movement trails and the wall-clock accumulator of [stepTime] are not
    carried: none of the modelled functions reads them. *)
Record State : Type := mkState {
  W : Z;
  H : Z;
  RNG_S : Z;
  tick : Z;
  count : Z;
  total : Z;
  animals : Z;
  plants : Z;
  occ : TArr Z;
  ents : gmap Z Entity;
  biomeMap : TArr Biome;
  waterMap : TArr bool;
  waterDistanceMap : TArr Q;
  moistureMap : TArr Q;
  fireTTLMap : TArr Z;
  activeFires : list Z;
  weatherSeed : Z;
  lastLightningTick : Z;
  eggs : list EggData;
  MUTATION_LOG : list MutationEvent;
  currentDayStats : option DailyPopulationStats;
  lastDayStats : option DailyPopulationStats;
  behaviorTuning : BehaviorTuning;
}.

Definition set_RNG_S (v : Z) (r : State) : State :=
  {| W := W r; H := H r; RNG_S := v; tick := tick r; count := count r;
     total := total r; animals := animals r; plants := plants r;
     occ := occ r; ents := ents r; biomeMap := biomeMap r;
     waterMap := waterMap r; waterDistanceMap := waterDistanceMap r;
     moistureMap := moistureMap r; fireTTLMap := fireTTLMap r;
     activeFires := activeFires r; weatherSeed := weatherSeed r;
     lastLightningTick := lastLightningTick r; eggs := eggs r;
     MUTATION_LOG := MUTATION_LOG r; currentDayStats := currentDayStats r;
     lastDayStats := lastDayStats r; behaviorTuning := behaviorTuning r |}.
Definition set_count (v : Z) (r : State) : State :=
  {| W := W r; H := H r; RNG_S := RNG_S r; tick := tick r; count := v;
     total := total r; animals := animals r; plants := plants r;
     occ := occ r; ents := ents r; biomeMap := biomeMap r;
     waterMap := waterMap r; waterDistanceMap := waterDistanceMap r;
     moistureMap := moistureMap r; fireTTLMap := fireTTLMap r;
     activeFires := activeFires r; weatherSeed := weatherSeed r;
     lastLightningTick := lastLightningTick r; eggs := eggs r;
     MUTATION_LOG := MUTATION_LOG r; currentDayStats := currentDayStats r;
     lastDayStats := lastDayStats r; behaviorTuning := behaviorTuning r |}.
Definition set_total (v : Z) (r : State) : State :=
  {| W := W r; H := H r; RNG_S := RNG_S r; tick := tick r;
     count := count r; total := v; animals := animals r;
     plants := plants r; occ := occ r; ents := ents r;
     biomeMap := biomeMap r; waterMap := waterMap r;
     waterDistanceMap := waterDistanceMap r; moistureMap := moistureMap r;
     fireTTLMap := fireTTLMap r; activeFires := activeFires r;
     weatherSeed := weatherSeed r;
     lastLightningTick := lastLightningTick r; eggs := eggs r;
     MUTATION_LOG := MUTATION_LOG r; currentDayStats := currentDayStats r;
     lastDayStats := lastDayStats r; behaviorTuning := behaviorTuning r |}.
Definition set_animals (v : Z) (r : State) : State :=
  {| W := W r; H := H r; RNG_S := RNG_S r; tick := tick r;
     count := count r; total := total r; animals := v; plants := plants r;
     occ := occ r; ents := ents r; biomeMap := biomeMap r;
     waterMap := waterMap r; waterDistanceMap := waterDistanceMap r;
     moistureMap := moistureMap r; fireTTLMap := fireTTLMap r;
     activeFires := activeFires r; weatherSeed := weatherSeed r;
     lastLightningTick := lastLightningTick r; eggs := eggs r;
     MUTATION_LOG := MUTATION_LOG r; currentDayStats := currentDayStats r;
     lastDayStats := lastDayStats r; behaviorTuning := behaviorTuning r |}.
Definition set_plants (v : Z) (r : State) : State :=
  {| W := W r; H := H r; RNG_S := RNG_S r; tick := tick r;
     count := count r; total := total r; animals := animals r;
     plants := v; occ := occ r; ents := ents r; biomeMap := biomeMap r;
     waterMap := waterMap r; waterDistanceMap := waterDistanceMap r;
     moistureMap := moistureMap r; fireTTLMap := fireTTLMap r;
     activeFires := activeFires r; weatherSeed := weatherSeed r;
     lastLightningTick := lastLightningTick r; eggs := eggs r;
     MUTATION_LOG := MUTATION_LOG r; currentDayStats := currentDayStats r;
     lastDayStats := lastDayStats r; behaviorTuning := behaviorTuning r |}.
Definition set_occ (v : TArr Z) (r : State) : State :=
  {| W := W r; H := H r; RNG_S := RNG_S r; tick := tick r;
     count := count r; total := total r; animals := animals r;
     plants := plants r; occ := v; ents := ents r; biomeMap := biomeMap r;
     waterMap := waterMap r; waterDistanceMap := waterDistanceMap r;
     moistureMap := moistureMap r; fireTTLMap := fireTTLMap r;
     activeFires := activeFires r; weatherSeed := weatherSeed r;
     lastLightningTick := lastLightningTick r; eggs := eggs r;
     MUTATION_LOG := MUTATION_LOG r; currentDayStats := currentDayStats r;
     lastDayStats := lastDayStats r; behaviorTuning := behaviorTuning r |}.
Definition set_ents (v : gmap Z Entity) (r : State) : State :=
  {| W := W r; H := H r; RNG_S := RNG_S r; tick := tick r;
     count := count r; total := total r; animals := animals r;
     plants := plants r; occ := occ r; ents := v; biomeMap := biomeMap r;
     waterMap := waterMap r; waterDistanceMap := waterDistanceMap r;
     moistureMap := moistureMap r; fireTTLMap := fireTTLMap r;
     activeFires := activeFires r; weatherSeed := weatherSeed r;
     lastLightningTick := lastLightningTick r; eggs := eggs r;
     MUTATION_LOG := MUTATION_LOG r; currentDayStats := currentDayStats r;
     lastDayStats := lastDayStats r; behaviorTuning := behaviorTuning r |}.
Definition set_eggs (v : list EggData) (r : State) : State :=
  {| W := W r; H := H r; RNG_S := RNG_S r; tick := tick r;
     count := count r; total := total r; animals := animals r;
     plants := plants r; occ := occ r; ents := ents r;
     biomeMap := biomeMap r; waterMap := waterMap r;
     waterDistanceMap := waterDistanceMap r; moistureMap := moistureMap r;
     fireTTLMap := fireTTLMap r; activeFires := activeFires r;
     weatherSeed := weatherSeed r;
     lastLightningTick := lastLightningTick r; eggs := v;
     MUTATION_LOG := MUTATION_LOG r; currentDayStats := currentDayStats r;
     lastDayStats := lastDayStats r; behaviorTuning := behaviorTuning r |}.
Definition set_MUTATION_LOG (v : list MutationEvent) (r : State) : State :=
  {| W := W r; H := H r; RNG_S := RNG_S r; tick := tick r;
     count := count r; total := total r; animals := animals r;
     plants := plants r; occ := occ r; ents := ents r;
     biomeMap := biomeMap r; waterMap := waterMap r;
     waterDistanceMap := waterDistanceMap r; moistureMap := moistureMap r;
     fireTTLMap := fireTTLMap r; activeFires := activeFires r;
     weatherSeed := weatherSeed r;
     lastLightningTick := lastLightningTick r; eggs := eggs r;
     MUTATION_LOG := v; currentDayStats := currentDayStats r;
     lastDayStats := lastDayStats r; behaviorTuning := behaviorTuning r |}.
Definition set_currentDayStats (v : option DailyPopulationStats) (r : State) : State :=
  {| W := W r; H := H r; RNG_S := RNG_S r; tick := tick r;
     count := count r; total := total r; animals := animals r;
     plants := plants r; occ := occ r; ents := ents r;
     biomeMap := biomeMap r; waterMap := waterMap r;
     waterDistanceMap := waterDistanceMap r; moistureMap := moistureMap r;
     fireTTLMap := fireTTLMap r; activeFires := activeFires r;
     weatherSeed := weatherSeed r;
     lastLightningTick := lastLightningTick r; eggs := eggs r;
     MUTATION_LOG := MUTATION_LOG r; currentDayStats := v;
     lastDayStats := lastDayStats r; behaviorTuning := behaviorTuning r |}.

(** ** Utilities and allele coding *)

(** [const idx = (x, y) => y * W + x] *)
Definition idx (s : State) (x y : Z) : Z := y * W s + x.

Definition normalizeDiet (lt : LifeType) (d : Diet) : Diet :=
  match lt with
  | plant => photosynthesis
  | animal => match d with photosynthesis => herbivore | _ => d end
  end.

Definition normalizeSpeciesClass (lt : LifeType) (c : SpeciesClass) : SpeciesClass :=
  match lt with plant => insect | animal => c end.

Definition clampU8 (v : Q) : Z := Z.max 0 (Z.min ALLELE_MAX (Math_round v)).
Definition encodeAllele01 (v : Q) : Z := clampU8 (clamp01 v * inject_Z ALLELE_MAX).
Definition decodeAllele01 (a : Z) : Q := inject_Z a / inject_Z ALLELE_MAX.
Definition decodeTrait (a1 a2 : Z) : Q :=
  (decodeAllele01 a1 + decodeAllele01 a2) * (1 # 2).
Definition decodeAgeTrait (a1 a2 min max : Z) : Z :=
  Math_round (inject_Z min + decodeTrait a1 a2 * inject_Z (max - min)).

Local Open Scope rand_scope.

(** [rng() < rate ? clampU8(a + (rng() - 0.5) * scale * 2) : a], [scale = 18] *)
Definition mutateAllele (a : Z) (rate : Q) : Rand Z :=
  u <- rng ;;
  if Qlt_bool u rate
  then v <- rng ;; ret (clampU8 (inject_Z a + (v - (1 # 2)) * 18 * 2))
  else ret a.

Definition pickAllele (a1 a2 : Z) : Rand Z :=
  u <- rng ;; ret (if Qlt_bool u (1 # 2) then a1 else a2).

(** [pick] of [createOffspringData]. *)
Definition pick {A} (a b : A) : Rand A :=
  u <- rng ;; ret (if Qlt_bool u (1 # 2) then a else b).

(** ** The entity store *)

Definition zeroGenome : Genome :=
  {| speciesId := 0; lifeType := plant; speciesClass := fish;
     diet := photosynthesis; reproduction := asexual;
     hostility := 0; speed := 0; size := 0; vision := 0; fertility := 0;
     maturityAge := 0; maxAge := 0; camouflage := 0; sociality := 0;
     activity := diurnal; temperatureTolerance := 0;
     preferredBiome := grassland; seedSpread := 0; mutationRate := 0;
     supplementalCarnivory := false |}.

Definition zeroGenes : EggGenes.t :=
  EggGenes.mk (0, 0) (0, 0) (0, 0) (0, 0) (0, 0) (0, 0)
              (0, 0) (0, 0) (0, 0) (0, 0) (0, 0) (0, 0).

(** The row of a slot of the freshly allocated (zero-filled) arrays: code 0
    is plant, fish, photosynthesis, asexual, diurnal, grassland, ready. *)
Definition zeroEnt : Entity :=
  {| idA := 0; xA := 0; yA := 0; energyA := 0; hydrationA := 0; ageA := 0;
     aliveA := false; adultA := false; genomeA := zeroGenome;
     genesA := zeroGenes; plantFeedHistoryA := 0; preyFeedHistoryA := 0;
     starvationStressA := 0; dietShiftPenaltyA := 0;
     plantTrapCooldownA := 0; reproStateA := ready; reproTimerA := 0;
     gestationTimeA := 0; breedingReadinessA := 0; lastReproTickA := 0;
     glowUntil := 0 |}.

(** Row [i] of the entity arrays. *)
Definition ent (s : State) (i : Z) : Entity := default zeroEnt (ents s !! i).

(** A write to some of the columns of row [i]. *)
Definition upd (i : Z) (f : Entity -> Entity) (s : State) : State :=
  set_ents (<[i := f (ent s i)]> (ents s)) s.

(** Running generator code against the generator state of the engine. *)
Definition draw {A} (m : Rand A) (s : State) : A * State :=
  let (a, r) := m (RNG_S s) in (a, set_RNG_S r s).

Definition setTraitAlleles (i : Z) (g : EggGenes.t) (s : State) : State :=
  upd i (with_genesA g) s.

(** [jitter] of [genesFromGenome], both alleles of one trait. *)
Definition jitter (v r : Q) : Rand Q :=
  u <- rng ;; ret (clamp01 (v + (u - (1 # 2)) * r)).

Definition jitter2 (v r : Q) : Rand (Z * Z) :=
  a <- jitter v r ;; b <- jitter v r ;;
  ret (encodeAllele01 a, encodeAllele01 b).

Definition genesFromGenome (g : Genome) : Rand EggGenes.t :=
  let isPlant := bool_decide (lifeType g = plant) in
  let maturityNorm :=
    clamp01 (inject_Z (maturityAge g - MATURITY_MIN)
             / inject_Z (MATURITY_MAX - MATURITY_MIN)) in
  let maxAgeNorm :=
    clamp01 (inject_Z (maxAge g - MAX_AGE_MIN)
             / inject_Z (MAX_AGE_MAX - MAX_AGE_MIN)) in
  ho <- jitter2 (hostility g) (8 # 100) ;;
  sp <- jitter2 (if isPlant then 0 else speed g) (8 # 100) ;;
  si <- jitter2 (size g) (8 # 100) ;;
  vi <- jitter2 (if isPlant then 0 else vision g) (8 # 100) ;;
  fe <- jitter2 (fertility g) (8 # 100) ;;
  ca <- jitter2 (camouflage g) (8 # 100) ;;
  so <- jitter2 (sociality g) (8 # 100) ;;
  te <- jitter2 (temperatureTolerance g) (8 # 100) ;;
  se <- jitter2 (if isPlant then seedSpread g else 0) (8 # 100) ;;
  mu <- jitter2 (mutationRate g) (3 # 100) ;;
  ma <- jitter2 maturityNorm (4 # 100) ;;
  mx <- jitter2 maxAgeNorm (4 # 100) ;;
  ret (EggGenes.mk ho sp si vi fe ca so te se mu ma mx).

(** [applyPhenotypeFromGenes] on one row: the twelve phenotype columns are
    recomputed from the alleles and the life type of the row. *)
Definition applyPhenotypeFromGenes_row (e : Entity) : Entity :=
  let g := genomeA e in
  let a := genesA e in
  let dec (p : Z * Z) := decodeTrait (fst p) (snd p) in
  let isPlant := bool_decide (lifeType g = plant) in
  let maturity :=
    decodeAgeTrait (fst (EggGenes.maturityAge a)) (snd (EggGenes.maturityAge a))
                   MATURITY_MIN MATURITY_MAX in
  with_genomeA
    {| speciesId := speciesId g; lifeType := lifeType g;
       speciesClass := speciesClass g; diet := diet g;
       reproduction := reproduction g;
       hostility := dec (EggGenes.hostility a);
       speed := if isPlant then 0 else dec (EggGenes.speed a);
       size := dec (EggGenes.size a);
       vision := if isPlant then 0 else dec (EggGenes.vision a);
       fertility := dec (EggGenes.fertility a);
       maturityAge := maturity;
       maxAge :=
         Z.max (maturity + 200)
               (decodeAgeTrait (fst (EggGenes.maxAge a)) (snd (EggGenes.maxAge a))
                               MAX_AGE_MIN MAX_AGE_MAX);
       camouflage := dec (EggGenes.camouflage a);
       sociality := dec (EggGenes.sociality a);
       activity := activity g;
       temperatureTolerance := dec (EggGenes.temperatureTolerance a);
       preferredBiome := preferredBiome g;
       seedSpread := if isPlant then dec (EggGenes.seedSpread a) else 0;
       mutationRate := dec (EggGenes.mutationRate a);
       supplementalCarnivory := supplementalCarnivory g |} e.

Definition applyPhenotypeFromGenes (i : Z) (s : State) : State :=
  upd i applyPhenotypeFromGenes_row s.

(** The columns that [applyGenome] writes before it derives the phenotype:
    the categorical columns (diet and class normalised for the life type,
    the species id through the [Int16Array] store), [tempTolA], the alleles
    drawn by [genesFromGenome], and the zeroed behavioural memory. *)
Definition applyGenome_cols (g : Genome) (genes : EggGenes.t) (e : Entity) : Entity :=
  let old := genomeA e in
  {| idA := idA e; xA := xA e; yA := yA e; energyA := energyA e;
     hydrationA := hydrationA e; ageA := ageA e; aliveA := aliveA e;
     adultA := adultA e;
     genomeA :=
       {| speciesId := to_int16 (speciesId g); lifeType := lifeType g;
          speciesClass := normalizeSpeciesClass (lifeType g) (speciesClass g);
          diet := normalizeDiet (lifeType g) (diet g);
          reproduction := reproduction g;
          hostility := hostility old; speed := speed old; size := size old;
          vision := vision old; fertility := fertility old;
          maturityAge := maturityAge old; maxAge := maxAge old;
          camouflage := camouflage old; sociality := sociality old;
          activity := activity g;
          temperatureTolerance := temperatureTolerance g;
          preferredBiome := preferredBiome g;
          seedSpread := seedSpread old; mutationRate := mutationRate old;
          supplementalCarnivory :=
            bool_decide (lifeType g = plant) && supplementalCarnivory g |};
     genesA := genes;
     plantFeedHistoryA := 0; preyFeedHistoryA := 0; starvationStressA := 0;
     dietShiftPenaltyA := 0; plantTrapCooldownA := 0;
     reproStateA := reproStateA e; reproTimerA := reproTimerA e;
     gestationTimeA := gestationTimeA e;
     breedingReadinessA := breedingReadinessA e;
     lastReproTickA := lastReproTickA e; glowUntil := glowUntil e |}.

Definition applyGenome (i : Z) (g : Genome) (s : State) : State :=
  let (genes, s1) := draw (genesFromGenome g) s in
  upd i (fun e => applyPhenotypeFromGenes_row (applyGenome_cols g genes e)) s1.

Record EntitySnapshot : Type := mkSnapshot {
  sn_id : Z;
  sn_x : Z;
  sn_y : Z;
  sn_genome : Genome;
  sn_energy : Q;
  sn_hydration : Q;
  sn_age : Z;
  sn_alive : bool;
  sn_isAdult : bool;
  sn_reproductionState : ReproductionState;
  sn_reproductionTimer : Z;
  sn_breedingReadiness : Q;
}.

(** The genome that [encodeEntity] reads back from the columns of a row. *)
Definition encodeGenome (e : Entity) : Genome :=
  let g := genomeA e in
  {| speciesId := speciesId g; lifeType := lifeType g;
     speciesClass := speciesClass g; diet := diet g;
     reproduction := reproduction g; hostility := hostility g;
     speed := speed g; size := size g; vision := vision g;
     fertility := fertility g; maturityAge := maturityAge g;
     maxAge := maxAge g; camouflage := camouflage g;
     sociality := sociality g; activity := activity g;
     temperatureTolerance := temperatureTolerance g;
     preferredBiome := preferredBiome g; seedSpread := seedSpread g;
     mutationRate := mutationRate g;
     supplementalCarnivory :=
       bool_decide (lifeType g = plant) && supplementalCarnivory g |}.

Definition encodeEntity (s : State) (i : Z) : EntitySnapshot :=
  let e := ent s i in
  {| sn_id := idA e; sn_x := xA e; sn_y := yA e;
     sn_genome := encodeGenome e;
     sn_energy := energyA e; sn_hydration := hydrationA e;
     sn_age := ageA e; sn_alive := aliveA e; sn_isAdult := adultA e;
     sn_reproductionState := reproStateA e;
     sn_reproductionTimer := reproTimerA e;
     sn_breedingReadiness := breedingReadinessA e |}.

(** ** Occupancy grid *)

(** [occ[k] !== -1] is false only for an in-range cell that holds -1. *)
Definition placeAt (i x y : Z) (s : State) : bool * State :=
  let k := idx s x y in
  if decide (ta_get (occ s) k = Some (-1)) then
    (true, set_occ (ta_set (occ s) k i)
                   (upd i (fun e => with_yA y (with_xA x e)) s))
  else (false, s).

Definition removeAt (i : Z) (s : State) : State :=
  if aliveA (ent s i) then
    let s1 := upd i (with_aliveA false) s in
    let k := idx s1 (xA (ent s1 i)) (yA (ent s1 i)) in
    let s2 := if decide (ta_get (occ s1) k = Some i)
              then set_occ (ta_set (occ s1) k (-1)) s1 else s1 in
    let s3 := set_total (total s2 - 1) s2 in
    match lifeType (genomeA (ent s3 i)) with
    | animal => set_animals (animals s3 - 1) s3
    | plant => set_plants (plants s3 - 1) s3
    end
  else s.

(** [moveEntity]; the trail history kept for drawing is not carried. *)
Definition moveEntity (i nx ny : Z) (s : State) : bool * State :=
  if decide (nx < 0 \/ ny < 0 \/ nx >= W s \/ ny >= H s) then (false, s)
  else
    let to := idx s nx ny in
    if decide (ta_get (occ s) to = Some (-1)) then
      let from := idx s (xA (ent s i)) (yA (ent s i)) in
      let s1 := set_occ (ta_set (ta_set (occ s) from (-1)) to i) s in
      (true, upd i (fun e => with_yA ny (with_xA nx e)) s1)
    else (false, s).

(** ** Seeding *)

Definition class_of_index (n : Z) : SpeciesClass :=
  match n with
  | 1 => mammal | 2 => bird | 3 => reptile | 4 => amphibian | 5 => insect
  | _ => fish   (* index 0; an index past the table reads [undefined],
                   which [applyGenome] stores as code 0 *)
  end.

Definition biome_of_index (n : Z) : Biome :=
  match n with
  | 1 => forest | 2 => desert | 3 => tundra | 4 => wetlands | 5 => ocean
  | _ => grassland
  end.

Definition randomGenome (life : LifeType) : Rand Genome :=
  let isPlant := bool_decide (life = plant) in
  cls <- (if isPlant then ret insect
          else u <- rng ;; ret (class_of_index (trunc0 (u * 6)))) ;;
  di <- (if isPlant then ret photosynthesis
         else u <- rng ;;
              if Qlt_bool u (55 # 100) then ret herbivore
              else v <- rng ;;
                   ret (if Qlt_bool v (1 # 2) then carnivore else omnivore)) ;;
  act <- (u <- rng ;;
          if Qlt_bool u (6 # 10) then ret diurnal
          else v <- rng ;;
               ret (if Qlt_bool v (8 # 10) then nocturnal else cathemeral)) ;;
  pb <- (u <- rng ;; ret (biome_of_index (trunc0 (u * 6)))) ;;
  sid <- (u <- rng ;; ret (trunc0 (u * inject_Z SPECIES_MAX))) ;;
  rep <- (u <- rng ;;
          ret (if isPlant
               then (if Qlt_bool u (6 # 10) then asexual else sexual)
               else (if Qlt_bool u (8 # 10) then sexual else asexual))) ;;
  ho <- (if isPlant then ret 0%Q else u <- rng ;; ret (u * u)%Q) ;;
  sp <- (if isPlant then ret 0%Q else rng) ;;
  si <- (u <- rng ;; ret (if isPlant then u * (6 # 10) else u)%Q) ;;
  vi <- (if isPlant then ret 0%Q else rng) ;;
  fe <- (u <- rng ;; ret (clamp01 ((3 # 10) + u * (5 # 10)))) ;;
  ma <- (u <- rng ;;
         ret (Math_floor (inject_Z MATURITY_MIN
                          + u * inject_Z (MATURITY_MAX - MATURITY_MIN)))) ;;
  mx <- (u <- rng ;;
         ret (Math_floor (inject_Z MAX_AGE_MIN
                          + u * inject_Z (MAX_AGE_MAX - MAX_AGE_MIN)))) ;;
  ca <- (u <- rng ;;
         ret (if isPlant then clamp01 ((4 # 10) + u * (5 # 10)) else u)) ;;
  so <- rng ;;
  te <- (u <- rng ;; ret (clamp01 ((3 # 10) + u * (6 # 10)))) ;;
  se <- (if isPlant then rng else ret 0%Q) ;;
  mr <- (u <- rng ;; ret (clamp01 ((4 # 100) + u * (12 # 100)))) ;;
  su <- (if isPlant then u <- rng ;; ret (Qlt_bool u (2 # 100))
         else ret false) ;;
  ret {| speciesId := sid; lifeType := life; speciesClass := cls; diet := di;
         reproduction := rep; hostility := ho; speed := sp; size := si;
         vision := vi; fertility := fe; maturityAge := ma; maxAge := mx;
         camouflage := ca; sociality := so; activity := act;
         temperatureTolerance := te; preferredBiome := pb; seedSpread := se;
         mutationRate := mr; supplementalCarnivory := su |}.

(** [(rng() * n) | 0] *)
Definition rng_index (n : Z) : Rand Z :=
  u <- rng ;; ret (trunc0 (u * inject_Z n)).

Definition is_fish (e : Entity) : bool :=
  bool_decide (lifeType (genomeA e) = animal)
  && bool_decide (speciesClass (genomeA e) = fish).

(** The placement loop of [addEntity]: up to [tries] random tiles. *)
Fixpoint addEntity_tries (tries : nat) (i : Z) (s : State) : State :=
  match tries with
  | O => s
  | S n =>
    let (x, s1) := draw (rng_index (W s)) s in
    let (y, s2) := draw (rng_index (H s1)) s1 in
    if is_fish (ent s2 i)
       && negb (bool_decide (ta_get (waterMap s2) (idx s2 x y) = Some true))
    then addEntity_tries n i s2
    else
      let (ok, s3) := placeAt i x y s2 in
      if ok then s3 else addEntity_tries n i s3
  end.

Definition count_birth (k : Z) (s : State) : State :=
  let s1 := set_total (total s + 1) s in
  match lifeType (genomeA (ent s1 k)) with
  | animal => set_animals (animals s1 + 1) s1
  | plant => set_plants (plants s1 + 1) s1
  end.

Definition addEntity (g : Genome) (energy : Q) (age : Z) (s : State) : State :=
  if decide (count s >= MAX_ENTITIES) then s
  else
    let i := count s in
    let s := set_count (i + 1) s in
    let s := upd i (with_idA (i + 1)) s in
    let s := applyGenome i g s in
    let s := upd i (fun e => with_ageA age (with_hydrationA 1 (with_energyA energy
                             (with_adultA false (with_aliveA true e))))) s in
    let s := addEntity_tries 20 i s in
    count_birth i s.

Definition seed_one (life : LifeType) (e0 de : Q) (amax : Z) (s : State) : State :=
  let (g, s1) := draw (randomGenome life) s in
  let (energy, s2) := draw (u <- rng ;; ret (e0 + u * de)%Q) s1 in
  let (age, s3) := draw (rng_index amax) s2 in
  addEntity g energy age s3.

Fixpoint repeat_state (n : nat) (f : State -> State) (s : State) : State :=
  match n with
  | O => s
  | S m => repeat_state m f (f s)
  end.

Definition seedWorld (plantCount animalCount : Z) (s : State) : State :=
  let s := repeat_state (Z.to_nat plantCount)
                        (seed_one plant (62 # 100) (28 # 100) 40) s in
  repeat_state (Z.to_nat animalCount)
               (seed_one animal (58 # 100) (32 # 100) 60) s.

(** [speciesA[k] = v] *)
Definition set_species (v : Z) (e : Entity) : Entity :=
  let g := genomeA e in
  with_genomeA
    {| speciesId := v; lifeType := lifeType g; speciesClass := speciesClass g;
       diet := diet g; reproduction := reproduction g;
       hostility := hostility g; speed := speed g; size := size g;
       vision := vision g; fertility := fertility g;
       maturityAge := maturityAge g; maxAge := maxAge g;
       camouflage := camouflage g; sociality := sociality g;
       activity := activity g;
       temperatureTolerance := temperatureTolerance g;
       preferredBiome := preferredBiome g; seedSpread := seedSpread g;
       mutationRate := mutationRate g;
       supplementalCarnivory := supplementalCarnivory g |} e.

(** ** The public commands [place] and [inspect] *)

Definition place (x y : Z) (g : Genome) (energy : Q) (s : State) : bool * State :=
  if decide (count s >= MAX_ENTITIES) then (false, s)
  else if decide (x < 0 \/ y < 0 \/ x >= W s \/ y >= H s) then (false, s)
  else if decide (ta_get (occ s) (idx s x y) = Some (-1)) then
    let k := count s in
    let s1 := set_count (k + 1) s in
    let s1 := applyGenome k g s1 in
    let s1 := upd k (fun e =>
                with_adultA false (with_aliveA true (with_ageA 0
                  (with_hydrationA 1 (with_energyA (clamp01 energy)
                    (with_idA (k + 1) e)))))) s1 in
    let s1 := upd k (fun e => set_species (Z.rem (speciesId (genomeA e)) SPECIES_MAX) e) s1 in
    let (ok, s2) := placeAt k x y s1 in
    if ok then (true, count_birth k s2)
    else (false, set_count (count s2 - 1) s2)
  else (false, s).

(** The state from which [placeAt] is called in [place]: slot [count s] is
    filled in, nothing else has changed but the generator. *)
Definition place_filled (g : Genome) (energy : Q) (s : State) : State :=
  let k := count s in
  upd k (fun e => set_species (Z.rem (speciesId (genomeA e)) SPECIES_MAX) e)
    (upd k (fun e =>
              with_adultA false (with_aliveA true (with_ageA 0
                (with_hydrationA 1 (with_energyA (clamp01 energy)
                  (with_idA (k + 1) e))))))
       (applyGenome k g (set_count (k + 1) s))).

(** [inspect]: [None] is the source's [null].  For a tile outside the grid
    the source reads [undefined] from [occ] and builds a snapshot of
    undefined fields; the model gives the snapshot of a row that is never
    written (all fields zero or false). *)
Definition inspect (x y : Z) (s : State) : option EntitySnapshot :=
  match ta_get (occ s) (idx s x y) with
  | Some i => if decide (i = -1) then None else Some (encodeEntity s i)
  | None => Some (encodeEntity s (-1))
  end.

Definition getCounts (s : State) : Z * Z * Z := (total s, animals s, plants s).

(** ** World set-up: [alloc], [init], [reseed] *)

Definition DAY_LENGTH : Z := 2400.

Definition makeDayStats (d startPop startPl startAn : Z) : DailyPopulationStats :=
  {| day := d; births := 0; birthsPlants := 0; birthsAnimals := 0;
     deaths := 0; deathsPlants := 0; deathsAnimals := 0;
     startPopulation := startPop; startPlants := startPl;
     startAnimals := startAn |}.

Definition normalizeWorldSize (value : Z) : Z := Z.max 120 (Z.min 2048 value).

(** What [buildEnv] leaves behind: the four terrain maps and the generator
    state after river carving. *)
Record World : Type := mkWorld {
  w_biomeMap : TArr Biome;
  w_waterMap : TArr bool;
  w_waterDistanceMap : TArr Q;
  w_moistureMap : TArr Q;
  w_RNG_S : Z;
}.

Section Engine.

(** [buildEnv(seed)] reads the seed, the grid size and the generator and
    writes the terrain maps; its value-noise terrain synthesis is not
    modelled, so the world it computes enters as a function of what it
    reads.  (Its last stage, [precomputeHydrology], is modelled on its own
    in [Hydrology] below.) *)
Variable buildEnv : Z -> Z -> Z -> Z -> World.

(** The state after [setWorldSize], the resets common to [init] and
    [reseed], [alloc] and [buildEnv]; [cnt], [tk], ... are the variables that
    only [reseed] resets. *)
Definition fresh_world (seed w h : Z) (tk cnt tot an pl : Z)
    (eg : list EggData) (lg : list MutationEvent) (s : State) : State :=
  let W' := normalizeWorldSize w in
  let H' := normalizeWorldSize h in
  let r0 := if decide (to_uint32 seed = 0) then 1 else to_uint32 seed in
  let wd := buildEnv seed W' H' r0 in
  {| W := W'; H := H'; RNG_S := w_RNG_S wd; tick := tk; count := cnt;
     total := tot; animals := an; plants := pl;
     occ := ta_new (W' * H') (-1); ents := ∅;
     biomeMap := w_biomeMap wd; waterMap := w_waterMap wd;
     waterDistanceMap := w_waterDistanceMap wd;
     moistureMap := w_moistureMap wd;
     fireTTLMap := ta_new (W' * H') 0;
     activeFires := []; weatherSeed := r0; lastLightningTick := -1;
     eggs := eg; MUTATION_LOG := lg;
     currentDayStats := currentDayStats s; lastDayStats := lastDayStats s;
     behaviorTuning := behaviorTuning s |}.

Definition resetPopulationDiagnostics (s : State) : State :=
  {| W := W s; H := H s; RNG_S := RNG_S s; tick := tick s; count := count s;
     total := total s; animals := animals s; plants := plants s;
     occ := occ s; ents := ents s; biomeMap := biomeMap s;
     waterMap := waterMap s; waterDistanceMap := waterDistanceMap s;
     moistureMap := moistureMap s; fireTTLMap := fireTTLMap s;
     activeFires := activeFires s; weatherSeed := weatherSeed s;
     lastLightningTick := lastLightningTick s;
     eggs := eggs s; MUTATION_LOG := MUTATION_LOG s;
     currentDayStats :=
       Some (makeDayStats (tick s / DAY_LENGTH + 1)
                          (total s) (plants s) (animals s));
     lastDayStats := None; behaviorTuning := behaviorTuning s |}.

(** [Sim.init]: the slot counter, the tick, the population counters, the
    egg list and the mutation log keep their values. *)
Definition init (seed startPlants startAnimals w h : Z) (s : State) : State :=
  let s := fresh_world seed w h (tick s) (count s) (total s) (animals s)
                       (plants s) (eggs s) (MUTATION_LOG s) s in
  resetPopulationDiagnostics (seedWorld startPlants startAnimals s).

(** [Sim.reseed]: as [init], after [tick = 0; count = 0;
    total = animals = plants = 0; MUTATION_LOG.length = 0; eggs.length = 0]. *)
Definition reseed (seed startPlants startAnimals w h : Z) (s : State) : State :=
  let s := fresh_world seed w h 0 0 0 0 0 [] [] s in
  resetPopulationDiagnostics (seedWorld startPlants startAnimals s).

End Engine.

(** The module as loaded, before any command: [count = 0], [tick = 0],
    [W = H = 500], [RNG_S = 1234567], no arrays allocated. *)
Definition loaded : State :=
  {| W := 500; H := 500; RNG_S := 1234567; tick := 0; count := 0;
     total := 0; animals := 0; plants := 0;
     occ := ta_new 0 (-1); ents := ∅;
     biomeMap := ta_new 0 grassland; waterMap := ta_new 0 false;
     waterDistanceMap := ta_new 0 0%Q; moistureMap := ta_new 0 0%Q;
     fireTTLMap := ta_new 0 0;
     activeFires := []; weatherSeed := 1; lastLightningTick := -1;
     eggs := []; MUTATION_LOG := [];
     currentDayStats := None; lastDayStats := None;
     behaviorTuning := DEFAULT_BEHAVIOR_TUNING |}.

(** ** Neighbourhood queries *)

Definition N8 : list (Z * Z) :=
  [(0, -1); (1, 0); (0, 1); (-1, 0); (1, -1); (1, 1); (-1, 1); (-1, -1)].

Definition in_bounds (s : State) (x y : Z) : bool :=
  negb (bool_decide (x < 0 \/ y < 0 \/ x >= W s \/ y >= H s)).

(** The offsets [-r .. r]. *)
Definition span (r : Z) : list Z := seqZ (- r) (2 * r + 1).

(** The tiles visited by [for dy in -r..r, for dx in -r..r], in that order,
    as offsets [(dx, dy)]. *)
Definition square (r : Z) : list (Z * Z) :=
  flat_map (fun dy => map (fun dx => (dx, dy)) (span r)) (span r).

(** [occ[idx(nx, ny)]] of an in-bounds tile, when it holds an entity. *)
Definition occupant (s : State) (x y : Z) : option Z :=
  match ta_get (occ s) (idx s x y) with
  | Some j => if decide (j = -1) then None else Some j
  | None => None
  end.

Definition findAllNeighbors (s : State) (i radius : Z) (pred : Z -> bool) : list Z :=
  let r := Z.max 1 radius in
  let cx := xA (ent s i) in
  let cy := yA (ent s i) in
  flat_map (fun d : Z * Z =>
    let (dx, dy) := d in
    if bool_decide (dx = 0) && bool_decide (dy = 0) then []
    else if in_bounds s (cx + dx) (cy + dy) then
      match occupant s (cx + dx) (cy + dy) with
      | Some j => if pred j then [j] else []
      | None => []
      end
    else []) (square r).

(** The ring at Chebyshev distance [r], in scan order. *)
Definition ring (r : Z) : list (Z * Z) :=
  List.filter (fun d : Z * Z =>
                 bool_decide (Z.abs (fst d) = r) || bool_decide (Z.abs (snd d) = r))
              (square r).

Definition is_water (s : State) (x y : Z) : bool :=
  bool_decide (ta_get (waterMap s) (idx s x y) = Some true).

Definition is_free (s : State) (x y : Z) : bool :=
  bool_decide (ta_get (occ s) (idx s x y) = Some (-1)).

Definition findNearbyWater (s : State) (x y radius : Z) : option (Z * Z) :=
  head (flat_map (fun r =>
          flat_map (fun d : Z * Z =>
            let nx := x + fst d in
            let ny := y + snd d in
            if in_bounds s nx ny && is_water s nx ny && is_free s nx ny
            then [(nx, ny)] else [])
          (ring r))
        (seqZ 1 radius)).

Definition is_predator_at (s : State) (j : Z) : bool :=
  let g := genomeA (ent s j) in
  bool_decide (lifeType g = animal)
  && (bool_decide (diet g = carnivore) || bool_decide (diet g = omnivore))
  && Qlt_bool (4 # 10) (hostility g).

Definition countAdjacentPredators (s : State) (x y : Z) : Z :=
  Z.of_nat (length (List.filter (fun d : Z * Z =>
    in_bounds s (x + fst d) (y + snd d)
    && match occupant s (x + fst d) (y + snd d) with
       | Some j => is_predator_at s j
       | None => false
       end) N8)).

(** ** Biome table *)

Record BiomeProps : Type := mkBiomeProps {
  foodRegen : Q; hydrationFactor : Q; moveCost : Q; temp : Q; tempRange : Q;
}.

Definition BIOME_PROPS (b : Biome) : BiomeProps :=
  match b with
  | grassland => mkBiomeProps 1 1 1 (6 # 10) (15 # 100)
  | forest => mkBiomeProps (11 # 10) (9 # 10) (11 # 10) (55 # 100) (12 # 100)
  | desert => mkBiomeProps (6 # 10) (16 # 10) 1 (9 # 10) (25 # 100)
  | tundra => mkBiomeProps (7 # 10) (12 # 10) (11 # 10) (2 # 10) (18 # 100)
  | wetlands => mkBiomeProps (12 # 10) (5 # 10) (12 # 10) (65 # 100) (1 # 10)
  | ocean => mkBiomeProps (8 # 10) (3 # 10) (8 # 10) (5 # 10) (8 # 100)
  end.

(** ** Genetic distance and diet drift *)

Definition geneticDistanceEntities (s : State) (i j : Z) : Q :=
  let a := genesA (ent s i) in
  let b := genesA (ent s j) in
  let gi := genomeA (ent s i) in
  let gj := genomeA (ent s j) in
  let dec (p : Z * Z) := decodeTrait (fst p) (snd p) in
  let df (f : EggGenes.t -> Z * Z) := Qabs (dec (f a) - dec (f b)) in
  ((df EggGenes.hostility + df EggGenes.speed + df EggGenes.size
    + df EggGenes.vision + df EggGenes.fertility
    + df EggGenes.temperatureTolerance
    + (if decide (speciesClass gi = speciesClass gj) then 0 else 12 # 100)
    + (if decide (activity gi = activity gj) then 0 else 8 # 100)
    + (if decide (diet gi = diet gj) then 0 else 8 # 100)
    + (if decide (preferredBiome gi = preferredBiome gj) then 0 else 5 # 100))
   / 10)%Q.

Definition geneticCompatibility (s : State) (i j : Z) : Q :=
  clamp01 (1 - geneticDistanceEntities s i j).

Definition genomeDistance (a b : Genome) : Q :=
  let num (x y : Q) := Qabs (x - y) in
  ((num (hostility a) (hostility b)
    + num (speed a) (speed b)
    + num (size a) (size b)
    + num (vision a) (vision b)
    + num (fertility a) (fertility b)
    + num (inject_Z (maturityAge a) / 10000) (inject_Z (maturityAge b) / 10000)
    + num (inject_Z (maxAge a) / 20000) (inject_Z (maxAge b) / 20000)
    + num (camouflage a) (camouflage b)
    + num (sociality a) (sociality b)
    + num (temperatureTolerance a) (temperatureTolerance b)
    + num (seedSpread a) (seedSpread b)
    + num (mutationRate a * 5) (mutationRate b * 5)
    + (if decide (activity a = activity b) then 0 else 2 # 10)
    + (if decide (diet a = diet b) then 0 else 2 # 10)
    + (if decide (speciesClass a = speciesClass b) then 0 else 2 # 10)
    + (if decide (preferredBiome a = preferredBiome b) then 0 else 2 # 10))
   / 16)%Q.

Definition canAdoptCarnivory (c : SpeciesClass) (sz vis host : Q) : bool :=
  let '(msz, mvis, mhost) :=
    match c with
    | fish => (28 # 100, 18 # 100, 22 # 100)
    | bird => (25 # 100, 34 # 100, 22 # 100)
    | mammal => (3 # 10, 28 # 100, 25 # 100)
    | reptile => (28 # 100, 24 # 100, 3 # 10)
    | amphibian => (22 # 100, 16 # 100, 22 # 100)
    | insect => (14 # 100, 1 # 10, 14 # 100)
    end%Q in
  Qle_bool msz sz && Qle_bool mvis vis && Qle_bool mhost host.

Definition count_of (l : list Z) : Q := inject_Z (Z.of_nat (length l)).

(** [getDietShiftContext]: starvation pressure, plant and prey opportunity. *)
Definition getDietShiftContext (s : State) (parentId : Z) : Q * Q * Q :=
  let p := ent s parentId in
  let cls := speciesClass (genomeA p) in
  let canEatPlantsNearby (j : Z) :=
    bool_decide (lifeType (genomeA (ent s j)) = plant) in
  let canEatPreyNearby (j : Z) :=
    bool_decide (lifeType (genomeA (ent s j)) = animal)
    && negb (bool_decide (j = parentId))
    && Qlt_bool (size (genomeA (ent s j))) (size (genomeA p) + (8 # 100))
    && negb (bool_decide (diet (genomeA p) = omnivore)
             && bool_decide (diet (genomeA (ent s j)) = omnivore)) in
  let nearbyPlants := count_of (findAllNeighbors s parentId 3 canEatPlantsNearby) in
  let nearbyPrey := count_of (findAllNeighbors s parentId 3 canEatPreyNearby) in
  let nearbyFish :=
    count_of (findAllNeighbors s parentId 3 (fun j =>
      bool_decide (lifeType (genomeA (ent s j)) = animal)
      && bool_decide (speciesClass (genomeA (ent s j)) = fish))) in
  let starvePressure := clamp01 (starvationStressA p) in
  let plantOpportunity :=
    clamp01 (nearbyPlants / 10 + plantFeedHistoryA p * (55 # 100)) in
  let preyOpportunity :=
    clamp01 (nearbyPrey / 8 + preyFeedHistoryA p * (65 # 100)
             + (if bool_decide (cls = bird) || bool_decide (cls = mammal)
                then nearbyFish / 12 else 0)) in
  (starvePressure, plantOpportunity, preyOpportunity).

Definition maybeMutateAnimalDiet (s : State) (parentId : Z) (inheritedDiet : Diet)
    (mutRate : Q) (c : SpeciesClass) (sz vis host : Q) : Rand (Diet * bool) :=
  let '(starvePressure, plantOpportunity, preyOpportunity) :=
    getDietShiftContext s parentId in
  let pressure :=
    clamp01 (starvePressure * (8 # 10)
             + Qmax 0 ((28 # 100) - energyA (ent s parentId)) * (16 # 10)) in
  let gateCarn := canAdoptCarnivory c sz vis host in
  let tryShift (baseChance opportunityBias : Q) : Rand bool :=
    u <- rng ;;
    ret (Qlt_bool u (clamp01 (baseChance * mutRate
                              * ((5 # 10) + pressure * (18 # 10) + opportunityBias)))) in
  let gated (m : Rand bool) : Rand bool := if gateCarn then m else ret false in
  match inheritedDiet with
  | herbivore =>
    c1 <- gated (tryShift (15 # 1000)
                   (preyOpportunity * (9 # 10) - plantOpportunity * (2 # 10))%Q) ;;
    if c1 then ret (carnivore, true)
    else c2 <- tryShift (12 # 100) (preyOpportunity * (7 # 10))%Q ;;
         ret (if c2 then (omnivore, true) else (herbivore, false))
  | omnivore =>
    c1 <- gated (tryShift (7 # 100)
                   (preyOpportunity * (9 # 10) - plantOpportunity * (3 # 10))%Q) ;;
    if c1 then ret (carnivore, true)
    else c2 <- tryShift (3 # 100)
                 (plantOpportunity * (7 # 10) - preyOpportunity * (3 # 10))%Q ;;
         ret (if c2 then (herbivore, true) else (omnivore, false))
  | carnivore =>
    c1 <- tryShift (8 # 100)
            (plantOpportunity * (6 # 10)
             + Qmax 0 ((5 # 10) - preyOpportunity) * (8 # 10))%Q ;;
    ret (if c1 then (omnivore, true) else (carnivore, false))
  | photosynthesis => ret (inheritedDiet, false)
  end.

(** [from] of [recombineGenesFromParents]: [pa] are the two alleles of the
    first parent, [pb] those of the second (of the first again when there is
    one parent).  The allele of the second parent is picked first. *)
Definition from_parents (rate : Q) (pa pb : Z * Z) : Rand (Z * Z) :=
  p2g1 <- pickAllele (fst pb) (snd pb) ;;
  a <- pickAllele (fst pa) (snd pa) ;;
  a' <- mutateAllele a rate ;;
  b' <- mutateAllele p2g1 rate ;;
  ret (a', b').

Definition recombineGenesFromParents (s : State) (p1 : Z) (p2 : option Z)
    (lt : LifeType) : Rand EggGenes.t :=
  let m1 := mutationRate (genomeA (ent s p1)) in
  let parentMutRate :=
    match p2 with
    | None => m1
    | Some q => clamp01 ((m1 + mutationRate (genomeA (ent s q))) * (1 # 2))
    end in
  let a := genesA (ent s p1) in
  let b := match p2 with None => a | Some q => genesA (ent s q) end in
  let from (f : EggGenes.t -> Z * Z) := from_parents parentMutRate (f a) (f b) in
  ho <- from EggGenes.hostility ;;
  sp <- from EggGenes.speed ;;
  si <- from EggGenes.size ;;
  vi <- from EggGenes.vision ;;
  fe <- from EggGenes.fertility ;;
  ca <- from EggGenes.camouflage ;;
  so <- from EggGenes.sociality ;;
  te <- from EggGenes.temperatureTolerance ;;
  se <- from EggGenes.seedSpread ;;
  mu <- from EggGenes.mutationRate ;;
  ma <- from EggGenes.maturityAge ;;
  mx <- from EggGenes.maxAge ;;
  ret (match lt with
       | plant => EggGenes.mk ho (0, 0) si (0, 0) fe ca so te se mu ma mx
       | animal => EggGenes.mk ho sp si vi fe ca so te (0, 0) mu ma mx
       end).

(** ** Offspring *)

Record OffspringData : Type := mkOffspring {
  o_genome : Genome;
  o_genes : EggGenes.t;
  o_shiftedDiet : bool;
}.

Definition createOffspringData (s : State) (p1 : Z) (p2 : option Z) : Rand OffspringData :=
  let g1 := sn_genome (encodeEntity s p1) in
  let g2 := option_map (fun q => sn_genome (encodeEntity s q)) p2 in
  let lt := lifeType g1 in
  let isPlant := bool_decide (lt = plant) in
  let dec (p : Z * Z) := decodeTrait (fst p) (snd p) in
  (* [g2 ? pick(f(g1), f(g2)) : f(g1)] *)
  let inherit {A} (f : Genome -> A) : Rand A :=
    match g2 with Some h => pick (f g1) (f h) | None => ret (f g1) end in
  genes <- recombineGenesFromParents s p1 p2 lt ;;
  let mr := Qmax (12 # 1000) (dec (EggGenes.mutationRate genes)) in
  (* mixSpeciesClass *)
  cls <- (inherited <- inherit speciesClass ;;
          if isPlant then ret insect
          else u <- rng ;;
               if Qlt_bool u (mr * (3 # 100))
               then v <- rng ;; ret (class_of_index (trunc0 (v * 6)))
               else ret inherited) ;;
  (* mixBiome *)
  pb <- (inherited <- inherit preferredBiome ;;
         u <- rng ;;
         if Qlt_bool u (mr * (6 # 100))
         then v <- rng ;; ret (biome_of_index (trunc0 (v * 6)))
         else ret inherited) ;;
  inheritedDiet <- (if isPlant then ret photosynthesis
                    else d <- inherit diet ;; ret (normalizeDiet animal d)) ;;
  let derivedSize := dec (EggGenes.size genes) in
  let derivedVision := if isPlant then 0%Q else dec (EggGenes.vision genes) in
  let derivedHostility := dec (EggGenes.hostility genes) in
  dietMutation <- (if isPlant then ret (photosynthesis, false)
                   else maybeMutateAnimalDiet s p1 inheritedDiet mr cls
                          derivedSize derivedVision derivedHostility) ;;
  let di := if isPlant then photosynthesis else fst dietMutation in
  rep <- inherit reproduction ;;
  act <- inherit activity ;;
  sid <- match p2, g2 with
         | Some q, Some h =>
           if Qle_bool (8 # 10) (geneticCompatibility s p1 q)
           then pick (speciesId g1) (speciesId h)
           else ret (Z.rem (Z.max (speciesId g1) (speciesId h) + 1) SPECIES_MAX)
         | _, _ => ret (speciesId g1)
         end ;;
  inheritedSupplementalCarn <- inherit supplementalCarnivory ;;
  let plantNutritionStress :=
    if isPlant
    then clamp01 (Qmax 0 ((52 # 100) - energyA (ent s p1)) * (18 # 10)
                  + Qmax 0 ((45 # 100) - hydrationA (ent s p1)) * (12 # 10))
    else 0%Q in
  let nearbyInsects :=
    if isPlant
    then count_of (findAllNeighbors s p1 2 (fun j =>
           bool_decide (lifeType (genomeA (ent s j)) = animal)
           && bool_decide (speciesClass (genomeA (ent s j)) = insect)))
    else 0%Q in
  su <- (if isPlant
         then if inheritedSupplementalCarn then ret true
              else u <- rng ;;
                   ret (Qlt_bool u (clamp01 (mr * (18 # 100)
                          * ((2 # 10) + plantNutritionStress + nearbyInsects / 7))))
         else ret false) ;;
  ret {| o_genome :=
           {| speciesId := sid; lifeType := lt; speciesClass := cls;
              diet := di; reproduction := rep;
              hostility := dec (EggGenes.hostility genes);
              speed := if isPlant then 0 else dec (EggGenes.speed genes);
              size := dec (EggGenes.size genes);
              vision := if isPlant then 0 else dec (EggGenes.vision genes);
              fertility := dec (EggGenes.fertility genes);
              maturityAge :=
                decodeAgeTrait (fst (EggGenes.maturityAge genes))
                               (snd (EggGenes.maturityAge genes))
                               MATURITY_MIN MATURITY_MAX;
              maxAge :=
                decodeAgeTrait (fst (EggGenes.maxAge genes))
                               (snd (EggGenes.maxAge genes))
                               MAX_AGE_MIN MAX_AGE_MAX;
              camouflage := dec (EggGenes.camouflage genes);
              sociality := dec (EggGenes.sociality genes);
              activity := act;
              temperatureTolerance := dec (EggGenes.temperatureTolerance genes);
              preferredBiome := pb;
              seedSpread := if isPlant then dec (EggGenes.seedSpread genes) else 0;
              mutationRate := dec (EggGenes.mutationRate genes);
              supplementalCarnivory := su |};
         o_genes := genes;
         o_shiftedDiet := snd dietMutation |}.

(** ** Mutation log and daily counters *)

(** [MUTATION_LOG.unshift(evt); if (MUTATION_LOG.length > 200) MUTATION_LOG.pop()] *)
Definition pushMutationEvent (evt : MutationEvent) (s : State) : State :=
  let l := evt :: MUTATION_LOG s in
  set_MUTATION_LOG (if decide (Z.of_nat (length l) > 200) then removelast l else l) s.

Definition recordBirth (lt : LifeType) (s : State) : State :=
  match currentDayStats s with
  | None => s
  | Some d =>
    set_currentDayStats
      (Some {| day := day d; births := births d + 1;
               birthsPlants :=
                 match lt with plant => birthsPlants d + 1 | animal => birthsPlants d end;
               birthsAnimals :=
                 match lt with animal => birthsAnimals d + 1 | plant => birthsAnimals d end;
               deaths := deaths d; deathsPlants := deathsPlants d;
               deathsAnimals := deathsAnimals d;
               startPopulation := startPopulation d;
               startPlants := startPlants d; startAnimals := startAnimals d |}) s
  end.

(** The tail shared by [birth] and [hatchEgg], from "mutation & glow
    detection" on: [k] is the child, [p1] the first parent, [shifted] the
    diet-shift flag, [reassign] whether a logged mutation below the distance
    threshold still reassigns the species ([egg.parentId2 !== null] in
    [hatchEgg], never in [birth]). *)
Definition detectMutation (k p1 : Z) (shifted reassign : bool) (s : State) : State :=
  let parentG := sn_genome (encodeEntity s p1) in
  let childG := sn_genome (encodeEntity s k) in
  let dist := genomeDistance parentG childG in
  let forcedAdaptiveShift :=
    shifted || negb (eqb (supplementalCarnivory parentG)
                         (supplementalCarnivory childG)) in
  let shouldLogMutation := Qlt_bool (12 # 100) dist || forcedAdaptiveShift in
  if negb shouldLogMutation then s
  else
    let s1 :=
      if Qlt_bool (12 # 100) dist || reassign then
        let (off, s') := draw (rng_index 97) s in
        upd k (set_species
                 (Z.rem (speciesId (genomeA (ent s' p1)) + off + 1) SPECIES_MAX)) s'
      else s in
    let s2 := upd k (with_glowUntil (tick s1 + MUT_GLW_TICKS)) s1 in
    pushMutationEvent
      {| m_tick := tick s2; parentSpeciesId := speciesId parentG;
         newSpeciesId := speciesId (genomeA (ent s2 k));
         entityId := idA (ent s2 k);
         m_lifeType := lifeType (genomeA (ent s2 k));
         countBorn := 1 |} s2.

(** ** Live birth *)

Definition set_dietShiftPenalty (k : Z) (shifted : bool) (s : State) : State :=
  if shifted then upd k (with_dietShiftPenaltyA DIET_SHIFT_PENALTY_TICKS) s else s.

(** [// counters] of [birth] and [hatchEgg]: the population counters, the
    daily birth counter and the diet-shift penalty of the child in slot [k]. *)
Definition register_birth (k : Z) (shifted : bool) (s : State) : State :=
  let s := count_birth k s in
  let s := recordBirth (lifeType (genomeA (ent s k))) s in
  set_dietShiftPenalty k shifted s.

(** [birth] from [const k = count++] up to the placement of the child:
    whether the child was placed, the offspring data, and the state. *)
Definition birth_spawn (p1 : Z) (p2 : option Z) (x y : Z) (s : State)
    : bool * OffspringData * State :=
  let k := count s in
  let s := set_count (k + 1) s in
  let (offspring, s) := draw (createOffspringData s p1 p2) s in
  let s := applyGenome k (o_genome offspring) s in
  let s := setTraitAlleles k (o_genes offspring) s in
  let s := applyPhenotypeFromGenes k s in
  let s := upd k (fun e =>
             with_adultA false (with_aliveA true (with_ageA 0
               (with_hydrationA 1 (with_energyA CHILD_ENERGY_START
                 (with_idA (k + 1) e)))))) s in
  (* fish must spawn in water *)
  let (placed, s) :=
    if is_fish (ent s k) && negb (is_water s x y) then
      match List.find (fun d : Z * Z =>
               in_bounds s (x + fst d) (y + snd d)
               && is_water s (x + fst d) (y + snd d)
               && is_free s (x + fst d) (y + snd d)) N8 with
      | Some d => placeAt k (x + fst d) (y + snd d) s
      | None => (false, s)
      end
    else placeAt k x y s in
  (placed, offspring, s).

Definition birth (p1 : Z) (p2 : option Z) (x y : Z) (s : State) : State :=
  if decide (count s >= MAX_ENTITIES) then s
  else
    let k := count s in
    let '(placed, offspring, s1) := birth_spawn p1 p2 x y s in
    if negb placed then set_count (count s1 - 1) s1
    else
      detectMutation k p1 (o_shiftedDiet offspring) false
        (register_birth k (o_shiftedDiet offspring) s1).

(** ** Eggs *)

(** [hatchEgg] from [const k = count++] up to the placement of the
    hatchling: whether it was placed, and the state. *)
Definition hatch_spawn (egg : EggData) (s : State) : bool * State :=
  let k := count s in
  let s := set_count (k + 1) s in
  let s := applyGenome k (e_genome egg) s in
  let s := setTraitAlleles k (e_genes egg) s in
  let s := applyPhenotypeFromGenes k s in
  let s := upd k (fun e =>
             with_lastReproTickA (tick s) (with_reproTimerA 0
               (with_reproStateA ready (with_adultA false
                 (with_aliveA true (with_ageA 0 (with_hydrationA (8 # 10)
                   (with_energyA (CHILD_ENERGY_START * viability egg)
                     (with_idA (k + 1) e))))))))) s in
  (* fish must hatch in water *)
  if is_fish (ent s k) && negb (is_water s (e_x egg) (e_y egg)) then
    match findNearbyWater s (e_x egg) (e_y egg) 2 with
    | Some (wx, wy) =>
      if is_free s wx wy then placeAt k wx wy s else (false, s)
    | None => (false, s)
    end
  else if is_free s (e_x egg) (e_y egg)
       then placeAt k (e_x egg) (e_y egg) s
       else (false, s).

Definition hatchEgg (egg : EggData) (s : State) : State :=
  if decide (count s >= MAX_ENTITIES) then s
  else
    let k := count s in
    let (placed, s1) := hatch_spawn egg s in
    if negb placed then set_count (count s1 - 1) s1   (* failed to hatch *)
    else
      detectMutation k (parentId1 egg) (shiftedDiet egg)
                     (bool_decide (parentId2 egg <> None))
        (register_birth k (shiftedDiet egg) s1).

Definition calculateTemperatureStress (tolerance tmp : Q) : Q :=
  (Qmax 0 (Qabs (tmp - tolerance) - (3 # 10)) * (2 # 1000))%Q.

Definition moistureNeeds (c : SpeciesClass) : Q :=
  match c with
  | fish => 0 | amphibian => 8 # 10 | mammal => 4 # 10
  | bird => 3 # 10 | reptile => 2 # 10 | insect => 3 # 10
  end.

Definition calculateMoistureStress (s : State) (c : SpeciesClass) (x y : Z) (b : Biome) : Q :=
  let need := moistureNeeds c in
  let localMoisture := default 0%Q (ta_get (moistureMap s) (idx s x y)) in
  let biomeBaseline := (1 / hydrationFactor (BIOME_PROPS b))%Q in
  let available := clamp01 ((biomeBaseline + localMoisture) * (5 # 10)) in
  (Qmax 0 (need - available) * (1 # 1000))%Q.

Definition with_incubation (v : Q) (t : Z) (egg : EggData) : EggData :=
  {| e_speciesId := e_speciesId egg; parentId1 := parentId1 egg;
     parentId2 := parentId2 egg; e_genome := e_genome egg;
     e_genes := e_genes egg; incubationTime := t;
     maxIncubationTime := maxIncubationTime egg;
     e_x := e_x egg; e_y := e_y egg; viability := v;
     shiftedDiet := shiftedDiet egg |}.

(** The stress and clock update that opens the body of the loop of
    [updateEggs], for an egg whose tile index is a cell of [biomeMap].
    (For another egg the source fails at this point; the value that the
    function gives there is never used: see [eggs_loop] in the tick, and
    the hypotheses of the properties of [updateEgg].) *)
Definition ageEgg (s : State) (egg : EggData) : EggData :=
  let biome := default grassland (ta_get (biomeMap s) (idx s (e_x egg) (e_y egg))) in
  let tmp := temp (BIOME_PROPS biome) in
  let tempStress :=
    calculateTemperatureStress (temperatureTolerance (e_genome egg)) tmp in
  let moistureStress :=
    calculateMoistureStress s (speciesClass (e_genome egg)) (e_x egg) (e_y egg) biome in
  with_incubation (clamp01 (viability egg - tempStress - moistureStress))
                  (incubationTime egg + 1) egg.

(** One iteration of the loop of [updateEggs]: the egg that stays in the
    list ([None] when it is spliced out) and the state after it. *)
Definition updateEgg (egg0 : EggData) (s : State) : option EggData * State :=
  let egg := ageEgg s egg0 in
  let predatorRisk :=
    (inject_Z (countAdjacentPredators s (e_x egg) (e_y egg)) * (5 # 100))%Q in
  let (u, s) := draw rng s in
  if Qlt_bool u predatorRisk then (None, s)              (* egg destroyed *)
  else if decide (incubationTime egg >= maxIncubationTime egg) then
    if Qlt_bool (3 # 10) (viability egg) then
      let (v, s) := draw rng s in
      if Qlt_bool v (viability egg) then (None, hatchEgg egg s)
      else (None, s)
    else (None, s)
  else (Some egg, s).

(** [updateEggs]: the list is walked from its last egg to its first. *)
Definition updateEggs (s : State) : State :=
  let (kept, s') :=
    fold_right (fun egg (acc : list EggData * State) =>
                  let (o, s1) := updateEgg egg (snd acc) in
                  (match o with Some e => e :: fst acc | None => fst acc end, s1))
               ([], s) (eggs s) in
  set_eggs kept s'.



(** ** Hydrology: the water-distance flood

    [precomputeHydrology] on an explicit grid size and water map.  The
    source stores [Math.hypot(dx, dy)] in a [Float32Array]; the model keeps
    the arguments of that call as the integer [dx * dx + dy * dy] and takes
    no square root, so that what is proved of it is exact.  [None] in the
    distance array is the source's [Number.POSITIVE_INFINITY].  The last
    statement of the source's last loop, which derives [moistureMap] from
    the stored distance, is not modelled. *)

Module Hydrology.

Record Flood : Type := mkFlood {
  nearestWater : TArr Z;
  distance2 : TArr (option Z);
  q : list Z;                     (* the cells [qHead .. qTail) of [q] *)
}.

(** The tiles in the order of [for y < H, for x < W], as indices [y * W + x]. *)
Definition tiles (W H : Z) : list Z :=
  flat_map (fun y => map (fun x => y * W + x) (seqZ 0 W)) (seqZ 0 H).

Definition squared (ax ay bx by' : Z) : Z :=
  (ax - bx) * (ax - bx) + (ay - by') * (ay - by').

(** The first loop: water tiles are their own source, at distance 0, and
    enter the queue; the others start at infinity. *)
Definition scan_tile (waterMap : TArr bool) (st : Flood) (p : Z) : Flood :=
  if bool_decide (ta_get waterMap p = Some true) then
    {| nearestWater := ta_set (nearestWater st) p p;
       distance2 := ta_set (distance2 st) p (Some 0);
       q := q st ++ [p] |}
  else
    {| nearestWater := nearestWater st;
       distance2 := ta_set (distance2 st) p None;
       q := q st |}.

Definition scan (W H : Z) (waterMap : TArr bool) : Flood :=
  fold_left (scan_tile waterMap) (tiles W H)
    {| nearestWater := ta_new (W * H) (-1);
       distance2 := ta_new (W * H) (Some 0);
       q := [] |}.

(** One neighbour of the tile [(px, py)] taken from the queue, whose
    source is [source]. *)
Definition relax (W H px py source : Z) (st : Flood) (d : Z * Z) : Flood :=
  let nx := px + fst d in
  let ny := py + snd d in
  if bool_decide (nx < 0 \/ ny < 0 \/ nx >= W \/ ny >= H) then st
  else
    let np := ny * W + nx in
    if bool_decide (ta_get (nearestWater st) np = Some (-1)) then
      let sx := source `mod` W in
      let sy := source `div` W in
      {| nearestWater := ta_set (nearestWater st) np source;
         distance2 := ta_set (distance2 st) np (Some (squared nx ny sx sy));
         q := q st ++ [np] |}
    else st.

(** The body of the [while] loop for the tile [p] just taken from the queue. *)
Definition visit (W H p : Z) (st : Flood) : Flood :=
  let px := p `mod` W in
  let py := p `div` W in
  let source := default (-1) (ta_get (nearestWater st) p) in
  fold_left (relax W H px py source) N8 st.

(** [while (qHead < qTail)], with fuel. *)
Fixpoint flood (fuel : nat) (W H : Z) (st : Flood) : Flood :=
  match fuel with
  | O => st
  | S n =>
    match q st with
    | [] => st
    | p :: rest =>
      flood n W H (visit W H p {| nearestWater := nearestWater st;
                                  distance2 := distance2 st; q := rest |})
    end
  end.

(** Every tile enters the queue at most once, so [W * H] rounds empty it
    (see [flood_enough_fuel]). *)
Definition precomputeHydrology (W H : Z) (waterMap : TArr bool) : Flood :=
  flood (Z.to_nat (W * H)) W H (scan W H waterMap).

(** What [waterDistanceMap[p]] holds after the last loop, as the integer
    [dx * dx + dy * dy] of the call [Math.hypot(dx, dy)] whose result was
    stored there ([W * W + H * H] for the cells that were still infinite and
    get [Math.hypot(W, H)]).  The cell itself is a [Float32Array] cell: it
    holds that square root as rounded by [Math.hypot] and by the store. *)
Definition stored2 (W H : Z) (r : Flood) (p : Z) : Z :=
  match ta_get (distance2 r) p with
  | Some (Some d) => d
  | _ => W * W + H * H
  end.

(** The squared Euclidean distance between two tiles. *)
Definition squared_distance (W p s : Z) : Z :=
  squared (p `mod` W) (p `div` W) (s `mod` W) (s `div` W).

(** The chessboard distance between two tiles: the number of 8-neighbour
    steps from one to the other. *)
Definition chebyshev (W p s : Z) : Z :=
  Z.max (Z.abs (p `mod` W - s `mod` W)) (Z.abs (p `div` W - s `div` W)).

Definition is_water_tile (W H : Z) (waterMap : TArr bool) (p : Z) : Prop :=
  0 <= p < W * H /\ ta_get waterMap p = Some true.

(** *** Vocabulary of the flood's correctness *)

Definition in_grid (W H p : Z) : Prop := 0 <= p < W * H.

(** [n] is the in-bounds neighbour of [p] in direction [d]. *)
Definition neighbour (W H p : Z) (d : Z * Z) (n : Z) : Prop :=
  d ∈ N8 /\ 0 <= p `mod` W + fst d < W /\ 0 <= p `div` W + snd d < H /\
  n = (p `div` W + snd d) * W + (p `mod` W + fst d).

(** The flood has given tile [p] a source. *)
Definition reached (st : Flood) (p : Z) : Prop :=
  exists s, ta_get (nearestWater st) p = Some s /\ s <> -1.

(** The state of the flood between two reads of the queue, or in the
    middle of a visit: [pre] are the tiles taken from the queue so far,
    [closed] those of them whose visit is over, [m] the chessboard distance
    of the tile visited last from its source. *)
Record flood_inv (W H : Z) (waterMap : TArr bool) (m : Z)
    (pre closed : list Z) (st : Flood) : Prop := mkFloodInv {
  fi_len_n : ta_len (nearestWater st) = W * H;
  fi_len_d : ta_len (distance2 st) = W * H;
  fi_src : forall p s, ta_get (nearestWater st) p = Some s -> s <> -1 ->
    is_water_tile W H waterMap s /\
    ta_get (distance2 st) p =
      Some (Some (squared (p `mod` W) (p `div` W) (s `mod` W) (s `div` W)));
  fi_water : forall p, is_water_tile W H waterMap p ->
    ta_get (nearestWater st) p = Some p;
  fi_inf : forall p, ta_get (nearestWater st) p = Some (-1) ->
    ta_get (distance2 st) p = Some None;
  fi_seen : forall p, p ∈ pre ++ q st <-> reached st p;
  fi_nodup : NoDup (pre ++ q st);
  fi_closed : forall p d n, p ∈ closed -> neighbour W H p d n -> reached st n;
  fi_best : forall p s w, ta_get (nearestWater st) p = Some s -> s <> -1 ->
    is_water_tile W H waterMap w -> chebyshev W p s <= chebyshev W p w;
  fi_near : forall v w, in_grid W H v -> is_water_tile W H waterMap w ->
    chebyshev W v w <= m -> reached st v;
  fi_pre_lvl : forall p s, p ∈ pre -> ta_get (nearestWater st) p = Some s ->
    chebyshev W p s <= m;
  fi_queue_lvl : exists a b, q st = a ++ b /\
    (forall p s, p ∈ a -> ta_get (nearestWater st) p = Some s ->
       chebyshev W p s = m) /\
    (forall p s, p ∈ b -> ta_get (nearestWater st) p = Some s ->
       chebyshev W p s = m + 1);
  fi_m : 0 <= m;
}.

(** A grid with two water tiles, [(13, 13)] and [(14, 10)]. *)
Definition two_ponds : TArr bool :=
  ta_set (ta_set (ta_new (120 * 120) false) (13 * 120 + 13) true)
         (10 * 120 + 14) true.

End Hydrology.

(** ** The tick ([stepOnce])

    More column and variable writes. *)

Definition with_plantFeedHistoryA (v : Q) (r : Entity) : Entity :=
  {| idA := idA r; xA := xA r; yA := yA r; energyA := energyA r;
     hydrationA := hydrationA r; ageA := ageA r; aliveA := aliveA r;
     adultA := adultA r; genomeA := genomeA r; genesA := genesA r;
     plantFeedHistoryA := v; preyFeedHistoryA := preyFeedHistoryA r;
     starvationStressA := starvationStressA r;
     dietShiftPenaltyA := dietShiftPenaltyA r;
     plantTrapCooldownA := plantTrapCooldownA r;
     reproStateA := reproStateA r; reproTimerA := reproTimerA r;
     gestationTimeA := gestationTimeA r;
     breedingReadinessA := breedingReadinessA r;
     lastReproTickA := lastReproTickA r; glowUntil := glowUntil r |}.
Definition with_preyFeedHistoryA (v : Q) (r : Entity) : Entity :=
  {| idA := idA r; xA := xA r; yA := yA r; energyA := energyA r;
     hydrationA := hydrationA r; ageA := ageA r; aliveA := aliveA r;
     adultA := adultA r; genomeA := genomeA r; genesA := genesA r;
     plantFeedHistoryA := plantFeedHistoryA r; preyFeedHistoryA := v;
     starvationStressA := starvationStressA r;
     dietShiftPenaltyA := dietShiftPenaltyA r;
     plantTrapCooldownA := plantTrapCooldownA r;
     reproStateA := reproStateA r; reproTimerA := reproTimerA r;
     gestationTimeA := gestationTimeA r;
     breedingReadinessA := breedingReadinessA r;
     lastReproTickA := lastReproTickA r; glowUntil := glowUntil r |}.
Definition with_starvationStressA (v : Q) (r : Entity) : Entity :=
  {| idA := idA r; xA := xA r; yA := yA r; energyA := energyA r;
     hydrationA := hydrationA r; ageA := ageA r; aliveA := aliveA r;
     adultA := adultA r; genomeA := genomeA r; genesA := genesA r;
     plantFeedHistoryA := plantFeedHistoryA r;
     preyFeedHistoryA := preyFeedHistoryA r; starvationStressA := v;
     dietShiftPenaltyA := dietShiftPenaltyA r;
     plantTrapCooldownA := plantTrapCooldownA r;
     reproStateA := reproStateA r; reproTimerA := reproTimerA r;
     gestationTimeA := gestationTimeA r;
     breedingReadinessA := breedingReadinessA r;
     lastReproTickA := lastReproTickA r; glowUntil := glowUntil r |}.
Definition with_plantTrapCooldownA (v : Z) (r : Entity) : Entity :=
  {| idA := idA r; xA := xA r; yA := yA r; energyA := energyA r;
     hydrationA := hydrationA r; ageA := ageA r; aliveA := aliveA r;
     adultA := adultA r; genomeA := genomeA r; genesA := genesA r;
     plantFeedHistoryA := plantFeedHistoryA r;
     preyFeedHistoryA := preyFeedHistoryA r;
     starvationStressA := starvationStressA r;
     dietShiftPenaltyA := dietShiftPenaltyA r; plantTrapCooldownA := v;
     reproStateA := reproStateA r; reproTimerA := reproTimerA r;
     gestationTimeA := gestationTimeA r;
     breedingReadinessA := breedingReadinessA r;
     lastReproTickA := lastReproTickA r; glowUntil := glowUntil r |}.
Definition with_gestationTimeA (v : Z) (r : Entity) : Entity :=
  {| idA := idA r; xA := xA r; yA := yA r; energyA := energyA r;
     hydrationA := hydrationA r; ageA := ageA r; aliveA := aliveA r;
     adultA := adultA r; genomeA := genomeA r; genesA := genesA r;
     plantFeedHistoryA := plantFeedHistoryA r;
     preyFeedHistoryA := preyFeedHistoryA r;
     starvationStressA := starvationStressA r;
     dietShiftPenaltyA := dietShiftPenaltyA r;
     plantTrapCooldownA := plantTrapCooldownA r;
     reproStateA := reproStateA r; reproTimerA := reproTimerA r;
     gestationTimeA := v; breedingReadinessA := breedingReadinessA r;
     lastReproTickA := lastReproTickA r; glowUntil := glowUntil r |}.
Definition with_breedingReadinessA (v : Q) (r : Entity) : Entity :=
  {| idA := idA r; xA := xA r; yA := yA r; energyA := energyA r;
     hydrationA := hydrationA r; ageA := ageA r; aliveA := aliveA r;
     adultA := adultA r; genomeA := genomeA r; genesA := genesA r;
     plantFeedHistoryA := plantFeedHistoryA r;
     preyFeedHistoryA := preyFeedHistoryA r;
     starvationStressA := starvationStressA r;
     dietShiftPenaltyA := dietShiftPenaltyA r;
     plantTrapCooldownA := plantTrapCooldownA r;
     reproStateA := reproStateA r; reproTimerA := reproTimerA r;
     gestationTimeA := gestationTimeA r; breedingReadinessA := v;
     lastReproTickA := lastReproTickA r; glowUntil := glowUntil r |}.
Definition set_tick (v : Z) (r : State) : State :=
  {| W := W r; H := H r; RNG_S := RNG_S r; tick := v; count := count r;
     total := total r; animals := animals r; plants := plants r;
     occ := occ r; ents := ents r; biomeMap := biomeMap r;
     waterMap := waterMap r; waterDistanceMap := waterDistanceMap r;
     moistureMap := moistureMap r; fireTTLMap := fireTTLMap r;
     activeFires := activeFires r; weatherSeed := weatherSeed r;
     lastLightningTick := lastLightningTick r; eggs := eggs r;
     MUTATION_LOG := MUTATION_LOG r; currentDayStats := currentDayStats r;
     lastDayStats := lastDayStats r; behaviorTuning := behaviorTuning r |}.
Definition set_fireTTLMap (v : TArr Z) (r : State) : State :=
  {| W := W r; H := H r; RNG_S := RNG_S r; tick := tick r;
     count := count r; total := total r; animals := animals r;
     plants := plants r; occ := occ r; ents := ents r;
     biomeMap := biomeMap r; waterMap := waterMap r;
     waterDistanceMap := waterDistanceMap r; moistureMap := moistureMap r;
     fireTTLMap := v; activeFires := activeFires r;
     weatherSeed := weatherSeed r;
     lastLightningTick := lastLightningTick r; eggs := eggs r;
     MUTATION_LOG := MUTATION_LOG r; currentDayStats := currentDayStats r;
     lastDayStats := lastDayStats r; behaviorTuning := behaviorTuning r |}.
Definition set_activeFires (v : list Z) (r : State) : State :=
  {| W := W r; H := H r; RNG_S := RNG_S r; tick := tick r;
     count := count r; total := total r; animals := animals r;
     plants := plants r; occ := occ r; ents := ents r;
     biomeMap := biomeMap r; waterMap := waterMap r;
     waterDistanceMap := waterDistanceMap r; moistureMap := moistureMap r;
     fireTTLMap := fireTTLMap r; activeFires := v;
     weatherSeed := weatherSeed r;
     lastLightningTick := lastLightningTick r; eggs := eggs r;
     MUTATION_LOG := MUTATION_LOG r; currentDayStats := currentDayStats r;
     lastDayStats := lastDayStats r; behaviorTuning := behaviorTuning r |}.
Definition set_lastLightningTick (v : Z) (r : State) : State :=
  {| W := W r; H := H r; RNG_S := RNG_S r; tick := tick r;
     count := count r; total := total r; animals := animals r;
     plants := plants r; occ := occ r; ents := ents r;
     biomeMap := biomeMap r; waterMap := waterMap r;
     waterDistanceMap := waterDistanceMap r; moistureMap := moistureMap r;
     fireTTLMap := fireTTLMap r; activeFires := activeFires r;
     weatherSeed := weatherSeed r; lastLightningTick := v; eggs := eggs r;
     MUTATION_LOG := MUTATION_LOG r; currentDayStats := currentDayStats r;
     lastDayStats := lastDayStats r; behaviorTuning := behaviorTuning r |}.
Definition set_lastDayStats (v : option DailyPopulationStats) (r : State) : State :=
  {| W := W r; H := H r; RNG_S := RNG_S r; tick := tick r;
     count := count r; total := total r; animals := animals r;
     plants := plants r; occ := occ r; ents := ents r;
     biomeMap := biomeMap r; waterMap := waterMap r;
     waterDistanceMap := waterDistanceMap r; moistureMap := moistureMap r;
     fireTTLMap := fireTTLMap r; activeFires := activeFires r;
     weatherSeed := weatherSeed r;
     lastLightningTick := lastLightningTick r; eggs := eggs r;
     MUTATION_LOG := MUTATION_LOG r; currentDayStats := currentDayStats r;
     lastDayStats := v; behaviorTuning := behaviorTuning r |}.

(** *** Constants and tables *)

Definition TICK_ENERGY_DECAY : Q := 58 # 100000.
Definition PLANT_PHOTOSYNTHESIS_RATE : Q := 54 # 10000.
Definition MOVE_ENERGY_COST : Q := 1 # 1000.
Definition PLANT_REPRO_MIN_ENERGY : Q := 66 # 100.
Definition PLANT_REPRO_MIN_HYDRATION : Q := 45 # 100.
Definition PLANT_REPRO_CROWD_LIMIT : Z := 7.
Definition PLANT_REPRO_BASE_CHANCE : Q := 2 # 1000.
Definition PLANT_REPRO_OCEAN_BASE_CHANCE : Q := 35 # 100000.
Definition PLANT_REPRO_MIN_COOLDOWN : Z := 650.
Definition PLANT_DAILY_BIRTH_RATE_CAP : Q := 3 # 10.
Definition PLANT_DAILY_BIRTH_MIN_CAP : Z := 2200.
Definition PLANT_DIGESTION_EFFICIENCY_HERB : Q := 9 # 10.
Definition PLANT_DIGESTION_EFFICIENCY_OMNI : Q := 76 # 100.
Definition MEAT_DIGESTION_EFFICIENCY_CARN : Q := 118 # 100.
Definition MEAT_DIGESTION_EFFICIENCY_OMNI : Q := 98 # 100.
Definition SUPPLEMENTAL_PLANT_CARNIVORY_GAIN : Q := 65 # 1000.
Definition SUPPLEMENTAL_PLANT_TRAP_CHANCE : Q := 13 # 100.
Definition SUPPLEMENTAL_PLANT_TRAP_COOLDOWN : Z := 16.
Definition DIET_SHIFT_EXTRA_METABOLISM : Q := 113 # 100.
Definition DIET_SHIFT_EXTRA_HYDRATION : Q := 109 # 100.
Definition DIET_SHIFT_FERTILITY_FACTOR : Q := 62 # 100.
Definition VISION_TILES_MAX : Z := 8.
Definition SIZE_BONUS_FACTOR : Q := 1 # 2.
Definition BASE_HYDRATION_DECAY : Q := 34 # 100000.
Definition DRINK_RATE : Q := 3 # 100.
Definition RAIN_HYDRATION_GAIN : Q := 24 # 10000.
Definition RAIN_PLANT_GROWTH_BONUS : Q := 45 # 100000.
Definition MOISTURE_REHYDRATION_GAIN : Q := 35 # 100000.
Definition LIGHTNING_STRIKE_CHANCE : Q := 35 # 100000.

Record ClassProps : Type := mkClassProps {
  moveSpeedBonus : Q; visionBonus : Q; hydrationUse : Q;
  mustStayOnWater : bool; canUseWater : bool;
}.

Definition CLASS_PROPS (c : SpeciesClass) : ClassProps :=
  match c with
  | fish => mkClassProps 1 0 (4 # 10) true true
  | mammal => mkClassProps 1 (1 # 10) (88 # 100) false true
  | bird => mkClassProps (14 # 10) (2 # 10) (95 # 100) false true
  | reptile => mkClassProps (9 # 10) 0 (62 # 100) false true
  | amphibian => mkClassProps (9 # 10) 0 (54 # 100) false true
  | insect => mkClassProps (12 # 10) 0 (62 # 100) false true
  end.

(** [isNight]: the tick is never negative, where [%] is [Z.rem]. *)
Definition isNight (t : Z) : bool := bool_decide (Z.rem t DAY_LENGTH >= 1600).

Definition getTemperatureStress (entityTemp biomeTemp biomeRange : Q) : Q :=
  let distance := Qabs (entityTemp - biomeTemp) in
  if Qle_bool distance biomeRange then 0%Q
  else Qmin 1 ((distance - biomeRange) / (1 - biomeRange)).

(** [Math.sign] of a number and the greatest of a list of numbers. *)
Definition Qsign (v : Q) : Z :=
  if Qlt_bool 0 v then 1 else if Qlt_bool v 0 then -1 else 0.
Definition Qmaxl (l : list Q) (d : Q) : Q := fold_left Qmax l d.

(** Reads of the terrain maps on a tile of the grid, where the index is
    in range.  The tick reads the biome of a row's tile first through
    [tile_biome], which fails where the source does; the later reads of a
    round are of the tile of that row, or of tiles in bounds. *)
Definition biomeAt (s : State) (x y : Z) : Biome :=
  default grassland (ta_get (biomeMap s) (idx s x y)).
Definition moistureAt (s : State) (x y : Z) : Q :=
  default 0%Q (ta_get (moistureMap s) (idx s x y)).
Definition waterDistanceAt (s : State) (x y : Z) : Q :=
  default 0%Q (ta_get (waterDistanceMap s) (idx s x y)).
Definition fireAt (s : State) (p : Z) : Z :=
  default 0 (ta_get (fireTTLMap s) p).

(** [Math.max(0, Math.min(W - 1, x))] *)
Definition clampX (s : State) (x : Z) : Z := Z.max 0 (Z.min (W s - 1) x).
Definition clampY (s : State) (y : Z) : Z := Z.max 0 (Z.min (H s - 1) y).

(** *** Commands

    The code of the tick reads and writes the module-level variables,
    draws from the generator, and fails with a [TypeError] where it
    dereferences a table entry that is [undefined] (an index equal to the
    length of the table, which a draw of exactly 1 produces).  A command
    ends in [Ok] with its result, in [Throw] when the error was raised, or
    in [Stuck] when a loop over the slots ran out of fuel; each carries
    the state at that point. *)

Inductive Res (A : Type) : Type :=
  | Ok (a : A) (s : State)
  | Throw (s : State)
  | Stuck (s : State).
Arguments Ok {A} _ _.
Arguments Throw {A} _.
Arguments Stuck {A} _.

Definition M (A : Type) : Type := State -> Res A.

Definition mret {A} (a : A) : M A := fun s => Ok a s.
Definition mbind {A B} (m : M A) (k : A -> M B) : M B :=
  fun s => match m s with
           | Ok a s' => k a s'
           | Throw s' => Throw s'
           | Stuck s' => Stuck s'
           end.
Definition get : M State := fun s => Ok s s.
Definition modify (f : State -> State) : M unit := fun s => Ok tt (f s).
Definition throw {A} : M A := fun s => Throw s.
(** Generator code, and generator code that also reads the state. *)
Definition rand {A} (m : Rand A) : M A :=
  fun s => let (a, s') := draw m s in Ok a s'.
Definition rand_in {A} (m : State -> Rand A) : M A :=
  fun s => let (a, s') := draw (m s) s in Ok a s'.
(** A command of the existing code that reports success. *)
Definition attempt (f : State -> bool * State) : M bool :=
  fun s => let (b, s') := f s in Ok b s'.
Definition when (b : bool) (m : M unit) : M unit := if b then m else mret tt.
(** [l[k]] followed by a dereference. *)
Definition deref {A} (l : list A) (k : Z) : M A :=
  match (if decide (0 <= k) then l !! Z.to_nat k else None) with
  | Some a => mret a
  | None => throw
  end.

(** [BIOME_PROPS[BIOMES[biomeMap[idx(x, y)]]]] followed by the read of a
    field: where the index is no cell of [biomeMap] the table entry is
    [undefined] and the read raises a [TypeError]. *)
Definition tile_biome (x y : Z) : M Biome :=
  fun s => match ta_get (biomeMap s) (idx s x y) with
           | Some b => Ok b s
           | None => Throw s
           end.

Declare Scope tick_scope.
Delimit Scope tick_scope with tick.
Notation "x <- m ;; k" := (mbind m (fun x => k))
  (at level 100, m at next level, right associativity) : tick_scope.
Notation "m ;;; k" := (mbind m (fun _ => k))
  (at level 100, right associativity) : tick_scope.

(** [for (const a of l)] with an accumulator. *)
Fixpoint foldM {A B} (f : B -> A -> M B) (l : list A) (b : B) : M B :=
  match l with
  | [] => mret b
  | a :: l' => mbind (f b a) (foldM f l')
  end.

(** [for (let n = n0; n < count; n++)]: the bound is read again at every
    round. *)
Fixpoint for_count {A} (fuel : nat) (body : Z -> A -> M A) (n : Z) (acc : A) : M A :=
  fun s =>
    if decide (n < count s) then
      match fuel with
      | O => Stuck s
      | S fuel' =>
        match body n acc s with
        | Ok acc' s' => for_count fuel' body (n + 1) acc' s'
        | Throw s' => Throw s'
        | Stuck s' => Stuck s'
        end
      end
    else Ok acc s.

(** A write to some of the columns of row [i]. *)
Definition updM (i : Z) (f : Entity -> Entity) : M unit := modify (upd i f).

(** *** Weather and fire *)

Record RainCell : Type := mkRainCell {
  rc_x : Z; rc_y : Z; rc_radius : Z; rc_intensity : Q;
}.

(** [Math.PI], the double nearest to pi. *)
Definition Math_PI : Q := 884279719003555 # 281474976710656.

Definition isFlammableBiome (b : option Biome) : bool :=
  match b with
  | Some (grassland | forest | desert | wetlands) => true
  | _ => false
  end.

Definition biomeDrynessFactor (b : option Biome) : Q :=
  match b with
  | Some forest => 58 # 100
  | Some grassland => 52 # 100
  | Some desert => 42 # 100
  | Some wetlands => 22 # 100
  | Some tundra => 2 # 10
  | _ => 15 # 100
  end.

(** [j !== -1 && lifeTypeA[j] === 0] for [j = occ[p]]. *)
Definition plant_on (s : State) (p : Z) : bool :=
  match ta_get (occ s) p with
  | Some j => negb (bool_decide (j = -1))
              && bool_decide (lifeType (genomeA (ent s j)) = plant)
  | None => false
  end.

Definition hasPlantFuelNear (s : State) (tileIndex : Z) : bool :=
  let x := Z.rem tileIndex (W s) in
  let y := Z.quot tileIndex (W s) in
  plant_on s tileIndex
  || existsb (fun d : Z * Z =>
                in_bounds s (x + fst d) (y + snd d)
                && plant_on s (idx s (x + fst d) (y + snd d))) N8.

Definition localDryness (s : State) (tileIndex : Z) (rainAmount : Q) : Q :=
  let b := ta_get (biomeMap s) tileIndex in
  let moisture := default 0%Q (ta_get (moistureMap s) tileIndex) in
  clamp01 ((1 - moisture) * (58 # 100) + biomeDrynessFactor b * (42 # 100)
           - rainAmount * (78 # 100)).

(** [addFireAt]; the counter [activeFireCount], read only by the weather
    report, is not carried. *)
Definition addFireAt (tileIndex ttl : Z) (s : State) : State :=
  if bool_decide (ta_get (waterMap s) tileIndex = Some true) then s
  else if negb (isFlammableBiome (ta_get (biomeMap s) tileIndex)) then s
  else
    let s1 := if decide (fireAt s tileIndex = 0)
              then set_activeFires (activeFires s ++ [tileIndex]) s else s in
    set_fireTTLMap (ta_set (fireTTLMap s1) tileIndex
                           (Z.max (fireAt s1 tileIndex) ttl)) s1.

Section Tick.

(** [Math.sin], [Math.cos] and [Math.hypot] are not modelled; the tick is
    a function of them. *)
Variables (Math_sin Math_cos : Q -> Q) (Math_hypot : Q -> Q -> Q).

Definition getRainCells (s : State) (t : Z) : list RainCell :=
  let phase := (inject_Z t * (35 # 10000))%Q in
  map (fun i : Z =>
    let p := (phase + inject_Z i * (21 # 10)
              + inject_Z (weatherSeed s) * (7 # 100000))%Q in
    let x := Math_floor (((Math_sin (p * (91 # 100)) * (1 # 2) + (1 # 2))
                          * (82 # 100) + (9 # 100)) * inject_Z (W s - 1))%Q in
    let y := Math_floor (((Math_cos (p * (113 # 100)) * (1 # 2) + (1 # 2))
                          * (82 # 100) + (9 # 100)) * inject_Z (H s - 1))%Q in
    let radius :=
      34 + Math_floor ((Math_sin (p * (57 # 100)) * (1 # 2) + (1 # 2)) * 22)%Q in
    let intensity :=
      ((45 # 100) + (Math_cos (p * (77 # 100)) * (1 # 2) + (1 # 2)) * (55 # 100))%Q in
    mkRainCell x y radius intensity) [0; 1; 2].

Definition getRainAmountAt (x y : Z) (rainCells : list RainCell) : Q :=
  clamp01 (fold_left (fun (amount : Q) (c : RainCell) =>
    let d := Math_hypot (inject_Z (x - rc_x c)) (inject_Z (y - rc_y c)) in
    if Qle_bool (inject_Z (rc_radius c)) d then amount
    else (amount + rc_intensity c * (1 - d / inject_Z (rc_radius c)))%Q)
    rainCells 0%Q).

(** The value that [stepOnce] stores in [rainCoverageNow]. *)
Definition rainCoverage (s : State) (rainCells : list RainCell) : Q :=
  Qmin 1 (fold_left (fun (sum : Q) (c : RainCell) =>
            (sum + Math_PI * inject_Z (rc_radius c) * inject_Z (rc_radius c))%Q)
            rainCells 0%Q / inject_Z (W s * H s))%Q.

(** One try of [spawnLightning] at the cell [cell]: [true] when the
    strike lit a fire, which ends the search. *)
Definition lightning_try (rainCells : list RainCell) (cell : RainCell) : M bool :=
  (a <- rand rng ;;
   b <- rand rng ;;
   s <- get ;;
   let rx := Math_floor (inject_Z (rc_x cell)
               + (a - (1 # 2)) * inject_Z (rc_radius cell) * (12 # 10))%Q in
   let ry := Math_floor (inject_Z (rc_y cell)
               + (b - (1 # 2)) * inject_Z (rc_radius cell) * (12 # 10))%Q in
   if negb (in_bounds s rx ry) then mret false
   else
     let p := idx s rx ry in
     if bool_decide (ta_get (waterMap s) p = Some true) then mret false
     else if negb (hasPlantFuelNear s p) then mret false
     else
       let bi := ta_get (biomeMap s) p in
       let rain := getRainAmountAt rx ry rainCells in
       let dryness := localDryness s p rain in
       if Qlt_bool dryness (28 # 100) then mret false
       else
         let strikeChance :=
           ((match bi with
             | Some forest => 52 # 100
             | Some grassland => 33 # 100
             | Some wetlands => 1 # 10
             | _ => 8 # 100
             end) * ((6 # 10) + dryness * (7 # 10)))%Q in
         c <- rand rng ;;
         if Qlt_bool c strikeChance then
           d <- rand rng ;;
           modify (fun s => set_lastLightningTick (tick s)
                              (addFireAt p (70 + trunc0 (d * 70)) s)) ;;;
           mret true
         else mret false)%tick.

Fixpoint lightning_tries (n : nat) (rainCells : list RainCell) (cell : RainCell) : M unit :=
  match n with
  | O => mret tt
  | S n' =>
    (hit <- lightning_try rainCells cell ;;
     if hit then mret tt else lightning_tries n' rainCells cell)%tick
  end.

(** [spawnLightning]; the markers [lastLightningX], [lastLightningY] and
    [lightningFlashUntil], used only for drawing, are not carried. *)
Definition spawnLightning (rainCells : list RainCell) : M unit :=
  (u <- rand rng ;;
   if Qlt_bool LIGHTNING_STRIKE_CHANCE u then mret tt
   else
     v <- rand rng ;;
     cell <- deref rainCells (trunc0 (v * inject_Z (Z.of_nat (length rainCells)))) ;;
     lightning_tries 20 rainCells cell)%tick.

(** One spread roll of a burning tile at [(x, y)]; the result is the tile
    that caught fire, if any. *)
Definition spread_roll (x y : Z) (rain : Q) : M (list Z) :=
  (u <- rand rng ;;
   dir <- deref N8 (trunc0 (u * inject_Z (Z.of_nat (length N8)))) ;;
   s <- get ;;
   let nx := x + fst dir in
   let ny := y + snd dir in
   if negb (in_bounds s nx ny) then mret []
   else
     let np := idx s nx ny in
     if bool_decide (ta_get (waterMap s) np = Some true)
        || bool_decide (fireAt s np > 0)
        || negb (isFlammableBiome (ta_get (biomeMap s) np)) then mret []
     else if negb (hasPlantFuelNear s np) then mret []
     else
       let bi := ta_get (biomeMap s) np in
       let dryness := localDryness s np rain in
       let baseSpread :=
         match bi with
         | Some forest => 18 # 100
         | Some grassland => 11 # 100
         | Some desert => 6 # 100
         | _ => 4 # 100
         end in
       let dampedSpread := (baseSpread * dryness * (1 - rain * (9 # 10)))%Q in
       v <- rand rng ;;
       if Qlt_bool v dampedSpread then
         w <- rand rng ;;
         let ttlNew := 80 + trunc0 (w * 80) in
         if decide (fireAt s np = 0) then
           modify (fun s => set_fireTTLMap (ta_set (fireTTLMap s) np ttlNew) s) ;;;
           mret [np]
         else
           modify (fun s => set_fireTTLMap
                              (ta_set (fireTTLMap s) np (Z.max (fireAt s np) ttlNew)) s) ;;;
           mret []
       else mret [])%tick.

(** The body of the loop of [updateFires] for the burning tile [p]; the
    accumulator is [(nextActive, newlyIgnited)]. *)
Definition burn (rainCells : list RainCell) (acc : list Z * list Z) (p : Z)
    : M (list Z * list Z) :=
  (s <- get ;;
   let ttl := fireAt s p in
   if decide (ttl <= 0) then mret acc
   else
     let x := Z.rem p (W s) in
     let y := Z.quot p (W s) in
     let rain := getRainAmountAt x y rainCells in
     let ttl := Z.max 0 (ttl - 1 - Math_floor (rain * 2)) in
     modify (fun s => set_fireTTLMap (ta_set (fireTTLMap s) p ttl) s) ;;;
     if decide (ttl > 0) then
       let spreadRolls := if decide (Z.rem ttl 9 = 0) then 2%nat else 1%nat in
       lit <- foldM (fun (lit : list Z) (_ : nat) =>
                       l <- spread_roll x y rain ;; mret (lit ++ l))
                    (seq 0 spreadRolls) [] ;;
       mret (fst acc ++ [p], snd acc ++ lit)
     else
       s <- get ;;
       (if decide (fireAt s p <> 0)
        then modify (fun s => set_fireTTLMap (ta_set (fireTTLMap s) p 0) s)
        else mret tt) ;;;
       mret acc)%tick.

Definition updateFires (rainCells : list RainCell) : M unit :=
  (s <- get ;;
   match activeFires s with
   | [] => mret tt
   | fires =>
     acc <- foldM (burn rainCells) fires ([], []) ;;
     modify (set_activeFires (fst acc ++ snd acc))
   end)%tick.

End Tick.

(** *** Perception and scoring *)

(** The vision radius in tiles that [canSee], [findPotentialMates],
    [findBestMate] and [stepOnce] each compute for an animal. *)
Definition maxVis (s : State) (i : Z) : Z :=
  let g := genomeA (ent s i) in
  1 + Math_floor (clamp01 (vision g + visionBonus (CLASS_PROPS (speciesClass g)))
                  * inject_Z VISION_TILES_MAX)%Q.

Definition canSee (s : State) (actor target dist : Z) : bool :=
  let vis := (inject_Z dist
              * (1 + camouflage (genomeA (ent s target)) * (15 # 10)))%Q in
  Qle_bool vis (inject_Z (maxVis s actor)).

(** The candidates of [findBestNeighborByScore] with their weights, in
    scan order. *)
Definition weighted_neighbors (s : State) (i radius : Z)
    (pred : Z -> bool) (scoreFn : Z -> Z -> Q) : list (Z * Q) :=
  let r := Z.max 1 radius in
  let cx := xA (ent s i) in
  let cy := yA (ent s i) in
  flat_map (fun d : Z * Z =>
    let (dx, dy) := d in
    if bool_decide (dx = 0) && bool_decide (dy = 0) then []
    else if in_bounds s (cx + dx) (cy + dy) then
      match occupant s (cx + dx) (cy + dy) with
      | Some j =>
        if pred j then
          let score := scoreFn j (Z.max (Z.abs dx) (Z.abs dy)) in
          if Qlt_bool 0 score then [(j, score)] else []
        else []
      | None => []
      end
    else []) (square r).

(** The roulette wheel: the first candidate at which the running value
    falls to 0 or below. *)
Fixpoint roulette (rv : Q) (l : list (Z * Q)) : option Z :=
  match l with
  | [] => None
  | (j, w) :: l' =>
    if Qle_bool (rv - w) 0 then Some j else roulette (rv - w)%Q l'
  end.

Definition sumQ (l : list (Z * Q)) : Q :=
  fold_left (fun (sum : Q) (c : Z * Q) => (sum + snd c)%Q) l 0%Q.

Definition spin (rv : Q) (l : list (Z * Q)) : Z :=
  match roulette rv l with
  | Some j => j
  | None => fst (List.last l (-1, 0%Q))
  end.

Definition findBestNeighborByScore (i radius : Z)
    (pred : State -> Z -> bool) (scoreFn : State -> Z -> Z -> Q) : M Z :=
  (s <- get ;;
   match weighted_neighbors s i radius (pred s) (scoreFn s) with
   | [] => mret (-1)
   | weighted =>
     u <- rand rng ;;
     mret (spin (u * sumQ weighted) weighted)
   end)%tick.

Definition countNearbyPredators (s : State) (i : Z) : Z :=
  Z.of_nat (length (findAllNeighbors s i 3 (fun j =>
    let gj := genomeA (ent s j) in
    bool_decide (lifeType gj = animal)
    && (bool_decide (diet gj = carnivore) || bool_decide (diet gj = omnivore))
    && Qle_bool (size (genomeA (ent s i))) (size gj)
    && Qlt_bool (5 # 10) (hostility gj)))).

Definition getBiomeReproductionBonus (s : State) (i : Z) : Q :=
  let e := ent s i in
  let biome := biomeAt s (xA e) (yA e) in
  let g := genomeA e in
  let bonus := if decide (biome = preferredBiome g) then 12 # 10 else 1%Q in
  let bonus :=
    match speciesClass g with
    | fish =>
      (bonus * (match biome with ocean | wetlands => 13 # 10 | _ => 7 # 10 end))%Q
    | amphibian =>
      match biome with
      | wetlands => (bonus * (14 # 10))%Q
      | desert => (bonus * (4 # 10))%Q
      | _ => bonus
      end
    | bird =>
      match biome with
      | grassland | tundra => (bonus * (11 # 10))%Q
      | _ => bonus
      end
    | reptile =>
      match biome with
      | desert => (bonus * (13 # 10))%Q
      | tundra => (bonus * (5 # 10))%Q
      | _ => bonus
      end
    | mammal =>
      match biome with
      | grassland | forest => (bonus * (11 # 10))%Q
      | desert | tundra => (bonus * (8 # 10))%Q
      | _ => bonus
      end
    | insect =>
      match biome with
      | forest | grassland => (bonus * (12 # 10))%Q
      | tundra => (bonus * (6 # 10))%Q
      | _ => bonus
      end
    end in
  let bp := BIOME_PROPS biome in
  let tempStress :=
    getTemperatureStress (temperatureTolerance g) (temp bp) (tempRange bp) in
  (bonus * Qmax (3 # 10) (1 - tempStress * (7 # 10)))%Q.

Definition calculateBreedingReadiness (s : State) (i : Z) : Q :=
  let e := ent s i in
  if negb (adultA e) || bool_decide (ageA e < maturityAge (genomeA e)) then 0%Q
  else
    let energySurplus := (Qmax 0 (energyA e - (42 # 100)) * (172 # 100))%Q in
    let hydrationGood := (Qmax 0 (hydrationA e - (24 # 100)) * (132 # 100))%Q in
    let predatorStress := countNearbyPredators s i in
    let lowStress := Qmax 0 (1 - inject_Z predatorStress * (2 # 10)) in
    let biomeBonus := getBiomeReproductionBonus s i in
    let socialBonus :=
      if Qlt_bool (6 # 10) (sociality (genomeA e)) then 116 # 100 else 1%Q in
    clamp01 (energySurplus * hydrationGood * lowStress * biomeBonus * socialBonus).

Definition findPotentialMates (s : State) (i searchRadius : Z) : list Z :=
  let radius := Z.min searchRadius (maxVis s i) in
  let ei := ent s i in
  findAllNeighbors s i radius (fun j =>
    let ej := ent s j in
    negb (bool_decide (j = i))
    && bool_decide (lifeType (genomeA ej) = lifeType (genomeA ei))
    && bool_decide (speciesClass (genomeA ej) = speciesClass (genomeA ei))
    && adultA ej
    && bool_decide (reproStateA ej = ready)
    && Qlt_bool (34 # 100) (energyA ej)
    && Qlt_bool (26 # 100) (hydrationA ej)
    && Qle_bool (45 # 100) (geneticCompatibility s i j)).

Definition calculateMateScore (s : State) (i j : Z) : Q :=
  let ei := ent s i in
  let ej := ent s j in
  let gi := genomeA ei in
  let gj := genomeA ej in
  let sizePreference := (1 + Qabs (size gj - size gi) * - (3 # 10))%Q in
  let healthBonus := (energyA ej * hydrationA ej)%Q in
  let activityMatch :=
    if decide (activity gi = activity gj) then 12 # 10 else 8 # 10 in
  let biomeMatch :=
    if decide (preferredBiome gi = preferredBiome gj) then 11 # 10 else 9 # 10 in
  let shifted :=
    if decide (dietShiftPenaltyA ej > 0) then DIET_SHIFT_FERTILITY_FACTOR else 1%Q in
  let fertilityBonus := (fertility gj * shifted)%Q in
  let compatibility := ((6 # 10) + geneticCompatibility s i j * (8 # 10))%Q in
  let dist := Z.max (Z.abs (xA ej - xA ei)) (Z.abs (yA ej - yA ei)) in
  let distanceWeight := (1 / (inject_Z dist + (1 # 2)))%Q in
  (sizePreference * healthBonus * activityMatch * biomeMatch * fertilityBonus
   * compatibility * distanceWeight)%Q.

Definition weightedRandomSelect (candidates : list (Z * Q)) : M Z :=
  match candidates with
  | [] => mret (-1)
  | [c] => mret (fst c)
  | _ =>
    let totalScore := sumQ candidates in
    if Qle_bool totalScore 0 then
      (u <- rand rng ;;
       c <- deref candidates
              (Math_floor (u * inject_Z (Z.of_nat (length candidates)))) ;;
       mret (fst c))%tick
    else
      (u <- rand rng ;;
       mret (spin (u * totalScore) candidates))%tick
  end.

Definition findBestMate (i : Z) : M Z :=
  (s <- get ;;
   match findPotentialMates s i (maxVis s i) with
   | [] => mret (-1)
   | candidates =>
     weightedRandomSelect (map (fun j => (j, calculateMateScore s i j)) candidates)
   end)%tick.

(** [findNearestWater]: the first tile of least Manhattan distance in the
    scan [for dx, for dy]. *)
Definition findNearestWater (s : State) (x y visionRange : Z) : option (Z * Z) :=
  fst (fold_left (fun (acc : option (Z * Z) * option Z) (d : Z * Z) =>
    let (dx, dy) := d in
    let nx := x + dx in
    let ny := y + dy in
    if in_bounds s nx ny && is_water s nx ny then
      let dist := Z.abs dx + Z.abs dy in
      match snd acc with
      | Some closestDist =>
        if decide (dist < closestDist) then (Some (nx, ny), Some dist) else acc
      | None => (Some (nx, ny), Some dist)
      end
    else acc)
    (flat_map (fun dx => map (fun dy => (dx, dy)) (span visionRange))
              (span visionRange))
    (None, None)).

Definition countPlantsAround (s : State) (x y radius : Z) : Z :=
  Z.of_nat (length (List.filter (fun d : Z * Z =>
    let (dx, dy) := d in
    negb (bool_decide (dx = 0) && bool_decide (dy = 0))
    && in_bounds s (x + dx) (y + dy)
    && match occupant s (x + dx) (y + dy) with
       | Some j => aliveA (ent s j)
                   && bool_decide (lifeType (genomeA (ent s j)) = plant)
       | None => false
       end) (square radius))).

Definition pickWaterGradientStep (s : State) (i : Z) : option (Z * Z) :=
  let cx := xA (ent s i) in
  let cy := yA (ent s i) in
  let currentDist := waterDistanceAt s cx cy in
  let '(bestScore, best) :=
    fold_left (fun (acc : Q * (Z * Z)) (d : Z * Z) =>
      let nx := cx + fst d in
      let ny := cy + snd d in
      if negb (in_bounds s nx ny) then acc
      else if negb (is_free s nx ny) then acc
      else if bool_decide (fireAt s (idx s nx ny) > 0) then acc
      else
        let dist := waterDistanceAt s nx ny in
        if Qlt_bool dist (fst acc) then (dist, d) else acc)
      N8 (currentDist, (0, 0)) in
  if Qlt_bool bestScore currentDist then Some best else None.

Definition habitatSuitabilityAt (s : State) (i x y : Z) : Q :=
  let p := idx s x y in
  let g := genomeA (ent s i) in
  if bool_decide (fireAt s p > 0) then (- 1)%Q
  else if is_water s x y && negb (bool_decide (speciesClass g = fish))
  then (- (2 # 10))%Q
  else
    let b := biomeAt s x y in
    let bp := BIOME_PROPS b in
    let clsP := CLASS_PROPS (speciesClass g) in
    let tempFit :=
      (1 - getTemperatureStress (temperatureTolerance g) (temp bp) (tempRange bp))%Q in
    let biomeFit := if decide (preferredBiome g = b) then 1%Q else 3 # 10 in
    let moisture := moistureAt s x y in
    let waterAccess :=
      if canUseWater clsP then clamp01 (1 - waterDistanceAt s x y / 90)
      else 45 # 100 in
    (biomeFit * (34 # 100) + tempFit * (34 # 100) + moisture * (18 # 100)
     + waterAccess * (14 # 100))%Q.

Definition pickHabitatStep (s : State) (i : Z) : option (Z * Z) :=
  let cx := xA (ent s i) in
  let cy := yA (ent s i) in
  let currentScore := habitatSuitabilityAt s i cx cy in
  let '(_, best) :=
    fold_left (fun (acc : Q * (Z * Z)) (d : Z * Z) =>
      let nx := cx + fst d in
      let ny := cy + snd d in
      if negb (in_bounds s nx ny) then acc
      else if negb (is_free s nx ny) then acc
      else
        let sc := habitatSuitabilityAt s i nx ny in
        if Qlt_bool (fst acc + (15 # 1000)) sc then (sc, d) else acc)
      N8 (currentScore, (0, 0)) in
  if negb (bool_decide (fst best = 0)) || negb (bool_decide (snd best = 0))
  then Some best else None.

(** *** Daily counters *)

(** [finalizeDayStats] fills in the closing population columns, which
    [DailyPopulationStats] does not carry. *)
Definition finalizeDayStats (stats : DailyPopulationStats)
    (endPopulation endPlants endAnimals : Z) : DailyPopulationStats := stats.

Definition startNextDayIfNeeded (s : State) : State :=
  let d := tick s / DAY_LENGTH + 1 in
  match currentDayStats s with
  | None =>
    set_currentDayStats
      (Some (makeDayStats d (total s) (plants s) (animals s))) s
  | Some cur =>
    if decide (d = day cur) then s
    else
      set_currentDayStats
        (Some (makeDayStats d (total s) (plants s) (animals s)))
        (set_lastDayStats
           (Some (finalizeDayStats cur (total s) (plants s) (animals s))) s)
  end.

Inductive DeathCause := starvation | dehydration | old_age | predation | fire.

(** [recordDeath]: the per-species table and the per-cause breakdown are
    not carried. *)
Definition recordDeath (entityIndex : Z) (cause : DeathCause) (s : State) : State :=
  match currentDayStats s with
  | None => s
  | Some d =>
    let lt := lifeType (genomeA (ent s entityIndex)) in
    set_currentDayStats
      (Some {| day := day d; births := births d;
               birthsPlants := birthsPlants d;
               birthsAnimals := birthsAnimals d;
               deaths := deaths d + 1;
               deathsPlants :=
                 match lt with plant => deathsPlants d + 1 | animal => deathsPlants d end;
               deathsAnimals :=
                 match lt with animal => deathsAnimals d + 1 | plant => deathsAnimals d end;
               startPopulation := startPopulation d;
               startPlants := startPlants d; startAnimals := startAnimals d |}) s
  end.

(** [recordDeath(j, cause); removeAt(j)] *)
Definition kill (j : Z) (cause : DeathCause) (s : State) : State :=
  removeAt j (recordDeath j cause s).

(** *** Reproduction *)

Definition getEggCount (c : SpeciesClass) (sz : Q) : Z :=
  let baseCount :=
    match c with
    | fish => 8 | mammal => 0 | bird => 3 | reptile => 6
    | amphibian => 12 | insect => 15
    end in
  Z.max 1 (Math_floor (inject_Z baseCount * ((5 # 10) + sz * (8 # 10)))%Q).

Definition getIncubationTime (c : SpeciesClass) : Rand Z :=
  let baseTime :=
    match c with
    | fish => 300 | mammal => 0 | bird => 800 | reptile => 1200
    | amphibian => 400 | insect => 200
    end in
  (u <- rng ;; ret (baseTime + Math_floor (u * 200 - 100)%Q))%rand.

Definition getCooldownTime (c : SpeciesClass) : Rand Z :=
  let baseCooldown :=
    match c with
    | fish => 600 | mammal => 1200 | bird => 900 | reptile => 1800
    | amphibian => 800 | insect => 400
    end in
  (u <- rng ;; ret (baseCooldown + Math_floor (u * 400 - 200)%Q))%rand.

Definition findNearbyEmpty (s : State) (x y radius : Z) : option (Z * Z) :=
  head (flat_map (fun r =>
          flat_map (fun d : Z * Z =>
            let nx := x + fst d in
            let ny := y + snd d in
            if in_bounds s nx ny && is_free s nx ny
            then [(nx, ny)] else [])
          (ring r))
        (seqZ 1 radius)).

Definition findEggLayingSpot (s : State) (parentId : Z) (c : SpeciesClass)
    : option (Z * Z) :=
  let x := xA (ent s parentId) in
  let y := yA (ent s parentId) in
  match c with
  | fish | amphibian => findNearbyWater s x y 2
  | _ => findNearbyEmpty s x y 1
  end.

Definition startMammalGestation (parentId : Z) (s : State) : State :=
  let baseGestationTime :=
    800 + Math_floor (size (genomeA (ent s parentId)) * 400)%Q in
  upd parentId (fun e =>
    with_lastReproTickA (tick s)
      (with_reproTimerA baseGestationTime
        (with_gestationTimeA baseGestationTime
          (with_reproStateA gestating e)))) s.

(** The egg that [layEggs] pushes for the offspring data [o]. *)
Definition new_egg (parentId : Z) (mateId : option Z) (o : OffspringData)
    (incubation : Z) (pos : Z * Z) : EggData :=
  {| e_speciesId := speciesId (o_genome o); parentId1 := parentId;
     parentId2 := mateId; e_genome := o_genome o; e_genes := o_genes o;
     incubationTime := 0; maxIncubationTime := incubation;
     e_x := fst pos; e_y := snd pos; viability := 1;
     shiftedDiet := o_shiftedDiet o |}.

(** One round of the loop of [layEggs]. *)
Definition lay_one (parentId : Z) (mateId : option Z) (c : SpeciesClass)
    (incubation : Z) : M unit :=
  (s <- get ;;
   match findEggLayingSpot s parentId c with
   | Some pos =>
     if decide (Z.of_nat (length (eggs s)) < MAX_EGGS) then
       o <- rand_in (fun s => createOffspringData s parentId mateId) ;;
       modify (fun s => set_eggs (eggs s ++ [new_egg parentId mateId o incubation pos]) s)
     else mret tt
   | None => mret tt
   end)%tick.

(** The parent or the mate enters its cooldown. *)
Definition start_cooldown (j : Z) (c : SpeciesClass) : M unit :=
  (t <- rand (getCooldownTime c) ;;
   s <- get ;;
   updM j (fun e =>
     with_lastReproTickA (tick s) (with_reproTimerA t (with_reproStateA cooldown e))))%tick.

Definition layEggs (parentId : Z) (mateId : option Z) : M unit :=
  (s <- get ;;
   let c := speciesClass (genomeA (ent s parentId)) in
   let eggCount := getEggCount c (size (genomeA (ent s parentId))) in
   incubation <- rand (getIncubationTime c) ;;
   foldM (fun (_ : unit) (_ : nat) => lay_one parentId mateId c incubation)
         (seq 0 (Z.to_nat eggCount)) tt ;;;
   start_cooldown parentId c ;;;
   match mateId with
   | Some mate => start_cooldown mate c
   | None => mret tt
   end)%tick.

(** [energyA[i] *= f] *)
Definition scale_energy (i : Z) (f : Q) : M unit :=
  updM i (fun e => with_energyA (energyA e * f)%Q e).

(** The seed spreading of a plant that passed the readiness gates. *)
Definition plant_seed (i : Z) (rainCoverageNow : Q) : M unit :=
  (s <- get ;;
   let e := ent s i in
   let c := speciesClass (genomeA e) in
   let biomeAtParent := biomeAt s (xA e) (yA e) in
   let capped :=
     match currentDayStats s with
     | Some d =>
       let dailyPlantCap :=
         Z.max PLANT_DAILY_BIRTH_MIN_CAP
               (Math_floor (inject_Z (plants s) * PLANT_DAILY_BIRTH_RATE_CAP)%Q) in
       bool_decide (birthsPlants d >= dailyPlantCap)
     | None => false
     end in
   if capped then mret tt
   else if isNight (tick s) then mret tt
   else if Qlt_bool (energyA e) PLANT_REPRO_MIN_ENERGY
           || Qlt_bool (hydrationA e) PLANT_REPRO_MIN_HYDRATION then mret tt
   else
     let nearbyPlants :=
       Z.of_nat (length (findAllNeighbors s i 2 (fun j =>
         bool_decide (lifeType (genomeA (ent s j)) = plant)))) in
     let marineCrowdLimit :=
       match biomeAtParent with
       | ocean => 5 | wetlands => 6 | _ => PLANT_REPRO_CROWD_LIMIT
       end in
     if decide (nearbyPlants >= marineCrowdLimit) then mret tt
     else if bool_decide (biomeAtParent = ocean)
             && Qlt_bool (energyA e) (74 # 100) then mret tt
     else
       let localMoisture := moistureAt s (xA e) (yA e) in
       let isOcean := bool_decide (biomeAtParent = ocean) in
       let baseChance :=
         if isOcean then PLANT_REPRO_OCEAN_BASE_CHANCE else PLANT_REPRO_BASE_CHANCE in
       let rainFactor := ((55 # 100) + rainCoverageNow * (9 # 10))%Q in
       let moistureFactor :=
         if isOcean then ((55 # 100) + localMoisture * (35 # 100))%Q
         else ((7 # 10) + localMoisture * (5 # 10))%Q in
       let energyFactor :=
         ((72 # 100) + (energyA e - PLANT_REPRO_MIN_ENERGY) * (9 # 10))%Q in
       let crowdFactor :=
         Qmax (15 # 100)
              (1 - inject_Z nearbyPlants / inject_Z (marineCrowdLimit + 1))%Q in
       let plantAnimalRatio :=
         (inject_Z (plants s) / inject_Z (Z.max 1 (animals s)))%Q in
       let ecologicalBrake :=
         if Qlt_bool 16 plantAnimalRatio then 55 # 100
         else if Qlt_bool 10 plantAnimalRatio then 68 # 100
         else if Qlt_bool 6 plantAnimalRatio then 8 # 10
         else 92 # 100 in
       let reproChance :=
         clamp01 (baseChance * rainFactor * moistureFactor * energyFactor
                  * crowdFactor * ecologicalBrake) in
       u <- rand rng ;;
       if Qlt_bool reproChance u then mret tt
       else
         let rad := Z.max 1 (1 + Math_floor (seedSpread (genomeA e) * 3)%Q) in
         a <- rand rng ;;
         b <- rand rng ;;
         let dx := trunc0 (a * inject_Z (rad * 2 + 1)) - rad in
         let dy := trunc0 (b * inject_Z (rad * 2 + 1)) - rad in
         let nx := clampX s (xA e + dx) in
         let ny := clampY s (yA e + dy) in
         if is_free s nx ny then
           modify (birth i None nx ny) ;;;
           scale_energy i (68 # 100) ;;;
           t <- rand (getCooldownTime c) ;;
           s <- get ;;
           updM i (fun e =>
             with_lastReproTickA (tick s)
               (with_reproTimerA (Z.max PLANT_REPRO_MIN_COOLDOWN (t + 280))
                 (with_reproStateA cooldown e)))
         else mret tt)%tick.

Definition tryReproduce (i : Z) (rainCoverageNow : Q) : M unit :=
  (s <- get ;;
   if negb (bool_decide (reproStateA (ent s i) = ready)) then mret tt
   else
     let g := genomeA (ent s i) in
     let isPlant := bool_decide (lifeType g = plant) in
     let c := speciesClass g in
     let readiness := calculateBreedingReadiness s i in
     let readinessWithDietPenalty :=
       if decide (dietShiftPenaltyA (ent s i) > 0)
       then (readiness * DIET_SHIFT_FERTILITY_FACTOR)%Q else readiness in
     updM i (with_breedingReadinessA readinessWithDietPenalty) ;;;
     if negb isPlant
        && (Qlt_bool readinessWithDietPenalty
                     (reproductionReadinessThreshold (behaviorTuning s))
            || Qlt_bool (energyA (ent s i)) (54 # 100)
            || Qlt_bool (hydrationA (ent s i)) (42 # 100)) then mret tt
     else if decide (count s >= MAX_ENTITIES) then mret tt
     else if bool_decide (reproduction g = asexual) || isPlant then
       if isPlant then plant_seed i rainCoverageNow
       else
         match c with
         | mammal =>
           modify (startMammalGestation i) ;;; scale_energy i (6 # 10)
         | _ => layEggs i None ;;; scale_energy i (6 # 10)
         end
     else
       mate <- findBestMate i ;;
       if decide (mate = -1) then mret tt
       else
         s <- get ;;
         if negb (bool_decide (reproStateA (ent s mate) = ready))
            || negb (adultA (ent s mate)) then mret tt
         else
           u <- rand rng ;;
           if Qlt_bool (clamp01 ((12 # 100) + fertility (genomeA (ent s i))
                                              * fertility (genomeA (ent s mate)))) u
           then mret tt
           else
             match c with
             | mammal =>
               modify (startMammalGestation i) ;;;
               scale_energy i (82 # 100) ;;;
               scale_energy mate (72 # 100)
             | _ =>
               layEggs i (Some mate) ;;;
               scale_energy i (82 # 100) ;;;
               scale_energy mate (74 # 100)
             end)%tick.

(** One round of the litter loop of [giveBirth], run while
    [count < MAX_ENTITIES]. *)
Definition bear_one (parentId : Z) (spots : list (Z * Z)) : M unit :=
  (u <- rand rng ;;
   spot <- deref spots (Math_floor (u * inject_Z (Z.of_nat (length spots)))) ;;
   s <- get ;;
   if is_free s (fst spot) (snd spot)
   then modify (birth parentId None (fst spot) (snd spot))
   else mret tt)%tick.

Fixpoint bear (n : nat) (parentId : Z) (spots : list (Z * Z)) : M unit :=
  match n with
  | O => mret tt
  | S n' =>
    (s <- get ;;
     if decide (count s < MAX_ENTITIES)
     then bear_one parentId spots ;;; bear n' parentId spots
     else mret tt)%tick
  end.

Definition giveBirth (parentId : Z) : M unit :=
  (s <- get ;;
   let e := ent s parentId in
   let c := speciesClass (genomeA e) in
   let spots :=
     flat_map (fun d : Z * Z =>
       let nx := xA e + fst d in
       let ny := yA e + snd d in
       if in_bounds s nx ny && is_free s nx ny then [(nx, ny)] else []) N8 in
   match spots with
   | [] =>
     t <- rand (getCooldownTime c) ;;
     updM parentId (fun e =>
       with_energyA (energyA e * (8 # 10))%Q
         (with_reproTimerA (trunc0 (inject_Z t * (15 # 10)))
           (with_reproStateA cooldown e)))
   | _ =>
     u <- rand rng ;;
     let litterSize := Z.max 1 (Math_floor (size (genomeA e) * (25 # 10) + u)%Q) in
     bear (Z.to_nat litterSize) parentId spots ;;;
     start_cooldown parentId c
   end)%tick.

Definition updateGestation (i : Z) : M unit :=
  (s <- get ;;
   if negb (bool_decide (reproStateA (ent s i) = gestating)) then mret tt
   else
     let dailyEnergyCost :=
       ((1 # 1000) + size (genomeA (ent s i)) * (5 # 10000))%Q in
     let dailyHydrationCost := 8 # 10000 in
     updM i (fun e =>
       with_reproTimerA (reproTimerA e - 1)
         (with_hydrationA (clamp01 (hydrationA e - dailyHydrationCost))
           (with_energyA (clamp01 (energyA e - dailyEnergyCost)) e))) ;;;
     s <- get ;;
     if decide (reproTimerA (ent s i) <= 0) then giveBirth i else mret tt)%tick.

Definition getParentalCareLevel (c : SpeciesClass) : Q :=
  match c with
  | mammal => 8 # 10 | bird => 6 # 10 | reptile => 2 # 10
  | amphibian => 1 # 10 | fish => 1 # 10 | insect => 0
  end.

Definition findNearbyOffspring (s : State) (i radius : Z) : list Z :=
  let ei := ent s i in
  findAllNeighbors s i radius (fun j =>
    let ej := ent s j in
    negb (bool_decide (j = i))
    && bool_decide (speciesId (genomeA ej) = speciesId (genomeA ei))
    && bool_decide (lifeType (genomeA ej) = lifeType (genomeA ei))
    && negb (adultA ej)
    && Qlt_bool (inject_Z (ageA ej))
                (inject_Z (maturityAge (genomeA ej)) * (3 # 10))).

Definition updateParentalCare (i : Z) : M unit :=
  (s <- get ;;
   if negb (bool_decide (reproStateA (ent s i) = cooldown)) then mret tt
   else
     let careIntensity := getParentalCareLevel (speciesClass (genomeA (ent s i))) in
     if Qlt_bool 0 careIntensity then
       match findNearbyOffspring s i 3 with
       | [] => mret tt
       | offspring =>
         updM i (fun e =>
           with_energyA (clamp01 (energyA e - careIntensity * (1 # 1000))) e) ;;;
         foldM (fun (_ : unit) (childId : Z) =>
                  updM childId (fun e =>
                    with_hydrationA (clamp01 (hydrationA e + (8 # 10000)))
                      (with_energyA (clamp01 (energyA e + (8 # 10000))) e)))
               offspring tt
       end
     else mret tt)%tick.

(** The body of the loop of [updateReproductionStates]. *)
Definition reproduction_state (i : Z) (_ : unit) : M unit :=
  (s <- get ;;
   let e := ent s i in
   if negb (aliveA e) then mret tt
   else
     match reproStateA e with
     | gestating => updateGestation i
     | cooldown =>
       updM i (fun e => with_reproTimerA (reproTimerA e - 1) e) ;;;
       s <- get ;;
       if decide (reproTimerA (ent s i) <= 0)
       then updM i (with_reproStateA ready)
       else mret tt
     | _ => mret tt
     end)%tick.

Definition updateReproductionStates (fuel : nat) : M unit :=
  for_count fuel reproduction_state 0 tt.

(** *** The body of the tick for one entity *)

(** The clock columns: age, adulthood, the two countdowns and the decay of
    the three memories. *)
Definition tick_clock (e : Entity) : Entity :=
  let age := ageA e + 1 in
  with_starvationStressA (starvationStressA e * (994 # 1000))%Q
    (with_preyFeedHistoryA (preyFeedHistoryA e * (992 # 1000))%Q
      (with_plantFeedHistoryA (plantFeedHistoryA e * (992 # 1000))%Q
        (with_plantTrapCooldownA
           (if decide (plantTrapCooldownA e > 0)
            then plantTrapCooldownA e - 1 else plantTrapCooldownA e)
           (with_dietShiftPenaltyA
              (if decide (dietShiftPenaltyA e > 0)
               then dietShiftPenaltyA e - 1 else dietShiftPenaltyA e)
              (with_adultA (bool_decide (age >= maturityAge (genomeA e)))
                 (with_ageA age e)))))).

(** The hydration block and the starvation stress that follows it. *)
Definition hydrate (bp : BiomeProps) (clsP : ClassProps) (onWater : bool)
    (moisture rainAmount : Q) (e : Entity) : Entity :=
  let hydUse :=
    (BASE_HYDRATION_DECAY * hydrationFactor bp * hydrationUse clsP
     * (1 - rainAmount * (35 # 100)))%Q in
  let h := clamp01 (hydrationA e - hydUse) in
  let h :=
    if onWater && canUseWater clsP then clamp01 (h + DRINK_RATE)
    else if canUseWater clsP
    then clamp01 (h + moisture * MOISTURE_REHYDRATION_GAIN)
    else h in
  let h :=
    if Qlt_bool 0 rainAmount then clamp01 (h + RAIN_HYDRATION_GAIN * rainAmount)
    else h in
  let h :=
    if mustStayOnWater clsP && negb onWater then clamp01 (h - (2 # 100))
    else h in
  let e := with_hydrationA h e in
  if Qlt_bool (energyA e) (22 # 100)
  then with_starvationStressA (clamp01 (starvationStressA e + (16 # 1000))) e
  else e.

(** Photosynthesis and the trap of a carnivorous plant. *)
Definition photosynthesize (i : Z) (night : bool) (b : Biome)
    (stressFactor rainAmount : Q) : M unit :=
  (s <- get ;;
   let e := ent s i in
   let nearbyPlants := countPlantsAround s (xA e) (yA e) 2 in
   let lightModifier := if night then 12 # 100 else 1%Q in
   let lightModifier :=
     match b with
     | grassland => (lightModifier * (11 # 10))%Q
     | forest => if night then lightModifier else (lightModifier * (9 # 10))%Q
     | desert => (lightModifier * (115 # 100))%Q
     | tundra => (lightModifier * (8 # 10))%Q
     | _ => lightModifier
     end in
   let crowdPenalty :=
     match b with ocean => 6 # 100 | wetlands => 55 # 1000 | _ => 4 # 100 end in
   let crowdFactor := Qmax (24 # 100) (1 - inject_Z nearbyPlants * crowdPenalty) in
   let coastNutrient := clamp01 (1 - waterDistanceAt s (xA e) (yA e) / 26) in
   let nutrientFactor :=
     if bool_decide (b = ocean) then ((34 # 100) + coastNutrient * (66 # 100))%Q
     else if is_water s (xA e) (yA e)
     then ((55 # 100) + coastNutrient * (45 # 100))%Q
     else 1%Q in
   let rate :=
     (PLANT_PHOTOSYNTHESIS_RATE * lightModifier * foodRegen (BIOME_PROPS b)
      * crowdFactor * nutrientFactor)%Q in
   let plantUpkeep := (TICK_ENERGY_DECAY * (5 # 10) * stressFactor)%Q in
   let bloomStress :=
     (inject_Z (Z.max 0 (nearbyPlants - (if bool_decide (b = ocean) then 7 else 10)))
      * (5 # 100000))%Q in
   updM i (fun e =>
     with_energyA (clamp01 (energyA e + rate - plantUpkeep - bloomStress
                            + rainAmount * RAIN_PLANT_GROWTH_BONUS)) e) ;;;
   s <- get ;;
   let e := ent s i in
   if supplementalCarnivory (genomeA e) && bool_decide (plantTrapCooldownA e <= 0)
   then
     insectPrey <- findBestNeighborByScore i 1
       (fun s j =>
          let gj := genomeA (ent s j) in
          bool_decide (lifeType gj = animal)
          && bool_decide (speciesClass gj = insect)
          && Qle_bool (size gj)
                      (Qmax (45 # 100) (size (genomeA (ent s i)) + (25 # 100))))
       (fun s j _ => ((4 # 10) + energyA (ent s j) * (6 # 10))%Q) ;;
     let trapDrive :=
       clamp01 ((35 # 100) + starvationStressA e
                + Qmax 0 ((7 # 10) - energyA e)) in
     if decide (insectPrey = -1) then mret tt
     else
       u <- rand rng ;;
       if Qlt_bool u (SUPPLEMENTAL_PLANT_TRAP_CHANCE * trapDrive) then
         s <- get ;;
         updM i (fun e =>
           with_energyA (clamp01 (energyA e + energyA (ent s insectPrey)
                                  * SUPPLEMENTAL_PLANT_CARNIVORY_GAIN)) e) ;;;
         modify (kill insectPrey predation) ;;;
         updM i (with_plantTrapCooldownA SUPPLEMENTAL_PLANT_TRAP_COOLDOWN)
       else mret tt
   else mret tt)%tick.

(** The upkeep of an animal. *)
Definition metabolize (tuning : BehaviorTuning) (stressFactor : Q) (e : Entity) : Entity :=
  let g := genomeA e in
  let baseUpkeep :=
    (TICK_ENERGY_DECAY * (1 + size g * SIZE_BONUS_FACTOR + speed g * (5 # 10)))%Q in
  let shiftPenalty :=
    if decide (dietShiftPenaltyA e > 0) then DIET_SHIFT_EXTRA_METABOLISM else 1%Q in
  let animalUpkeep :=
    (baseUpkeep * stressFactor * animalMetabolismMultiplier tuning * shiftPenalty)%Q in
  let e' := with_energyA (clamp01 (energyA e - animalUpkeep)) e in
  if decide (dietShiftPenaltyA e > 0)
  then with_hydrationA
         (clamp01 (hydrationA e' - BASE_HYDRATION_DECAY * (DIET_SHIFT_EXTRA_HYDRATION - 1)))
         e'
  else e'.

(** The prey that a hunter [i] accepts: [desperate] is the cannibalism
    fallback evaluated by the caller. *)
Definition is_prey (hungerDrive : Q) (i : Z) (s : State) (j : Z) : bool :=
  let gi := genomeA (ent s i) in
  let gj := genomeA (ent s j) in
  bool_decide (lifeType gj = animal)
  && negb (bool_decide (j = i))
  && Qlt_bool (size gj) (size gi)
  && ((negb (bool_decide (diet gj = carnivore))
       && negb (bool_decide (diet gi = omnivore) && bool_decide (diet gj = omnivore)))
      || (Qlt_bool (92 # 100) hungerDrive
          && Qlt_bool (energyA (ent s i)) (18 # 100)
          && Qlt_bool (85 # 100) (hostility gi))).

(** The herbivore bite: [taken] is read before the two energy writes. *)
Definition bite_plant (i plantAdj : Z) (s : State) : State :=
  let bite := plantBiteAmount (behaviorTuning s) in
  let taken := Qmin bite (energyA (ent s plantAdj)) in
  let plantDigest :=
    if decide (diet (genomeA (ent s i)) = herbivore)
    then PLANT_DIGESTION_EFFICIENCY_HERB else PLANT_DIGESTION_EFFICIENCY_OMNI in
  let s1 :=
    upd i (fun e =>
      with_plantFeedHistoryA (clamp01 (plantFeedHistoryA e + taken * (18 # 100)))
        (with_energyA (clamp01 (energyA e + taken * plantDigest)) e)) s in
  upd plantAdj (fun e => with_energyA (energyA e - taken)%Q e) s1.

(** The feeding of an animal from its adjacent tiles. *)
Definition feed (i : Z) (hungerDrive : Q) : M unit :=
  (s <- get ;;
   let di := diet (genomeA (ent s i)) in
   plantAdj <-
     (if bool_decide (di = herbivore) || bool_decide (di = omnivore) then
        findBestNeighborByScore i 1
          (fun s j => bool_decide (lifeType (genomeA (ent s j)) = plant))
          (fun s j _ => ((5 # 10) + energyA (ent s j))%Q)
      else mret (-1)) ;;
   preyAdj <-
     (if bool_decide (di = carnivore) || bool_decide (di = omnivore) then
        findBestNeighborByScore i 1 (is_prey hungerDrive i)
          (fun s j _ =>
             let sizeAdv :=
               Qmax (5 # 100) (size (genomeA (ent s i)) - size (genomeA (ent s j))
                               + (5 # 10)) in
             (sizeAdv * ((3 # 10) + energyA (ent s j) * (7 # 10)))%Q)
      else mret (-1)) ;;
   hungry <-
     (if Qlt_bool (16 # 100) hungerDrive then mret true
      else
        u <- rand rng ;;
        s <- get ;;
        mret (Qlt_bool u (opportunisticFeedChance (behaviorTuning s)))) ;;
   if hungry then
     if negb (bool_decide (plantAdj = -1)) then
       modify (bite_plant i plantAdj) ;;;
       s <- get ;;
       if Qle_bool (energyA (ent s plantAdj)) (5 # 100)
       then modify (kill plantAdj predation)
       else mret tt
     else if negb (bool_decide (preyAdj = -1)) then
       s <- get ;;
       let gi := genomeA (ent s i) in
       let gp := genomeA (ent s preyAdj) in
       let sizeAdv := Qmax 0 (size gi - size gp) in
       let stealthPenalty := (camouflage gp * (35 # 100) + speed gp * (25 # 100))%Q in
       let chance :=
         clamp01 ((8 # 100) + hostility gi * (42 # 100) + sizeAdv * (32 # 100)
                  - stealthPenalty) in
       u <- rand rng ;;
       if Qlt_bool u chance then
         let meatDigest :=
           if decide (diet gi = carnivore)
           then MEAT_DIGESTION_EFFICIENCY_CARN else MEAT_DIGESTION_EFFICIENCY_OMNI in
         updM i (fun e =>
           with_preyFeedHistoryA (clamp01 (preyFeedHistoryA e + (24 # 100)))
             (with_energyA
                (clamp01 (energyA e + energyA (ent s preyAdj)
                          * attackEnergyGain (behaviorTuning s) * meatDigest)) e)) ;;;
         modify (kill preyAdj predation)
       else
         updM i (fun e => with_energyA (clamp01 (energyA e - (3 # 100))) e)
     else mret tt
   else mret tt)%tick.

(** Behaviour and movement of an active animal. *)
Definition behave (i : Z) (b : Biome) (tempStress : Q) : M unit :=
  (s <- get ;;
   let bp := BIOME_PROPS b in
   let clsP := CLASS_PROPS (speciesClass (genomeA (ent s i))) in
   let maxV := maxVis s i in
   let mating := bool_decide (reproStateA (ent s i) = ready) && adultA (ent s i) in
   when mating (updM i (with_breedingReadinessA (calculateBreedingReadiness s i))) ;;;
   s <- get ;;
   let e := ent s i in
   let g := genomeA e in
   let tuning := behaviorTuning s in
   let readinessNow := breedingReadinessA e in
   let thirstDrive :=
     (clamp01 (((8 # 10) - hydrationA e) * (16 # 10)) * thirstWeight tuning)%Q in
   let hungerDrive :=
     (clamp01 (((82 # 100) - energyA e) * (155 # 100)) * hungerWeight tuning)%Q in
   let mateDrive :=
     if mating
     then (clamp01 (Qmax 0 (readinessNow * (12 # 10)
                            + (energyA e - (45 # 100)) * (6 # 10)))
           * mateWeight tuning)%Q
     else 0%Q in
   let predatorPressure := countNearbyPredators s i in
   let fearDrive :=
     (clamp01 (inject_Z predatorPressure * (18 # 100)
               + Qmax 0 ((45 # 100) - energyA e) * (25 # 100)
               - hostility g * (12 # 100)) * fearWeight tuning)%Q in
   let habitatMismatch :=
     if decide (preferredBiome g = b) then 0%Q else 35 # 100 in
   let waterStress :=
     if canUseWater clsP
     then Qmax 0 (waterDistanceAt s (xA e) (yA e) / 95 - (14 # 100))
     else 0%Q in
   let habitatDrive :=
     clamp01 (habitatMismatch + tempStress * (9 # 10) + waterStress) in
   let waterTarget :=
     if Qlt_bool (6 # 100) thirstDrive && canUseWater clsP
     then findNearestWater s (xA e) (yA e) maxV else None in
   foodTarget <-
     (if Qlt_bool (8 # 100) hungerDrive then
        plantTarget <-
          (if bool_decide (diet g = herbivore) || bool_decide (diet g = omnivore) then
             findBestNeighborByScore i maxV
               (fun s j =>
                  bool_decide (lifeType (genomeA (ent s j)) = plant)
                  && canSee s i j (Z.max (Z.abs (xA (ent s j) - xA (ent s i)))
                                         (Z.abs (yA (ent s j) - yA (ent s i)))))
               (fun s j dist =>
                  (hungerDrive * ((25 # 100) + energyA (ent s j) * (75 # 100))
                   * (1 / (inject_Z dist + (5 # 10))))%Q)
           else mret (-1)) ;;
        if bool_decide (plantTarget = -1)
           && (bool_decide (diet g = carnivore) || bool_decide (diet g = omnivore))
        then
          findBestNeighborByScore i maxV
            (fun s j =>
               is_prey hungerDrive i s j
               && canSee s i j (Z.max (Z.abs (xA (ent s j) - xA (ent s i)))
                                      (Z.abs (yA (ent s j) - yA (ent s i)))))
            (fun s j dist =>
               let preyValue := Qmax (1 # 10) (energyA (ent s j)) in
               let risk :=
                 Qmax (2 # 10)
                      (1 - Qmax 0 (size (genomeA (ent s j))
                                   - size (genomeA (ent s i))) * 2) in
               (hungerDrive * preyValue * risk
                * (1 / (inject_Z dist + (5 # 10))))%Q)
        else mret plantTarget
      else mret (-1)) ;;
   mateTarget <-
     (if Qlt_bool (32 # 100) mateDrive then findBestMate i else mret (-1)) ;;
   threatTarget <-
     (if Qlt_bool (15 # 100) fearDrive then
        findBestNeighborByScore i (Z.min 4 maxV)
          (fun s j =>
             let gj := genomeA (ent s j) in
             bool_decide (lifeType gj = animal)
             && negb (bool_decide (j = i))
             && (bool_decide (diet gj = carnivore) || bool_decide (diet gj = omnivore))
             && Qle_bool (size (genomeA (ent s i))) (size gj)
             && Qlt_bool (35 # 100) (hostility gj))
          (fun _ _ dist => (fearDrive * (1 / (inject_Z dist + (5 # 10))))%Q)
      else mret (-1)) ;;
   let baseMove := clamp01 ((speed g * moveSpeedBonus clsP) / moveCost bp) in
   let strongestDrive :=
     Qmaxl [hungerDrive; mateDrive; fearDrive; habitatDrive] thirstDrive in
   let motiveBoost :=
     ((12 # 100) + strongestDrive * motiveMoveBoostMax tuning)%Q in
   u <- rand rng ;;
   (if Qlt_bool u (clamp01 (baseMove + motiveBoost)) then
      s <- get ;;
      let x := xA (ent s i) in
      let y := yA (ent s i) in
      step <-
        (if negb (bool_decide (threatTarget = -1))
            && Qle_bool (Qmaxl [hungerDrive; mateDrive] thirstDrive) fearDrive
         then mret (Z.sgn (x - xA (ent s threatTarget)),
                    Z.sgn (y - yA (ent s threatTarget)))
         else if bool_decide (waterTarget <> None)
                 && Qle_bool (Qmax hungerDrive mateDrive) thirstDrive
         then mret (Z.sgn (fst (default (0, 0) waterTarget) - x),
                    Z.sgn (snd (default (0, 0) waterTarget) - y))
         else if Qlt_bool (12 # 100) thirstDrive && canUseWater clsP
         then mret (default (0, 0) (pickWaterGradientStep s i))
         else if Qlt_bool (18 # 100) habitatDrive
         then mret (default (0, 0) (pickHabitatStep s i))
         else if negb (bool_decide (foodTarget = -1))
         then mret (Z.sgn (xA (ent s foodTarget) - x),
                    Z.sgn (yA (ent s foodTarget) - y))
         else if negb (bool_decide (mateTarget = -1))
         then mret (Z.sgn (xA (ent s mateTarget) - x),
                    Z.sgn (yA (ent s mateTarget) - y))
         else
           a <- rand rng ;;
           c <- rand rng ;;
           mret (Qsign (a - (1 # 2)), Qsign (c - (1 # 2)))) ;;
      (* Fish avoid leaving water *)
      let step :=
        if mustStayOnWater clsP
           && negb (is_water s (clampX s (x + fst step)) (clampY s (y + snd step)))
        then (0, 0) else step in
      if negb (bool_decide (fst step = 0)) || negb (bool_decide (snd step = 0)) then
        moved <- attempt (moveEntity i (clampX s (x + fst step))
                                       (clampY s (y + snd step))) ;;
        if moved then
          updM i (fun e =>
            with_energyA
              (clamp01 (energyA e - MOVE_ENERGY_COST
                                    * (1 + size (genomeA e) * (5 # 10))
                                    * moveCost bp)) e)
        else mret tt
      else mret tt
    else mret tt) ;;;
   feed i hungerDrive ;;;
   (* Social bonus *)
   s <- get ;;
   (if Qlt_bool (6 # 10) (sociality (genomeA (ent s i))) then
      buddy <- findBestNeighborByScore i 2
        (fun s j =>
           negb (bool_decide (j = i))
           && bool_decide (lifeType (genomeA (ent s j))
                           = lifeType (genomeA (ent s i)))
           && Qlt_bool (7 # 10) (geneticCompatibility s i j))
        (fun s j dist =>
           (geneticCompatibility s i j * (1 / (inject_Z dist + (5 # 10))))%Q) ;;
      if negb (bool_decide (buddy = -1))
      then updM i (fun e => with_energyA (clamp01 (energyA e + (1 # 1000))) e)
      else mret tt
    else mret tt) ;;;
   updateParentalCare i)%tick.

(** Fire damage and evacuation: [true] when the entity died in the fire. *)
Definition fire_damage (i : Z) : M bool :=
  (s <- get ;;
   let e := ent s i in
   let tileFire := fireAt s (idx s (xA e) (yA e)) in
   if decide (tileFire > 0) then
     let isPlant := bool_decide (lifeType (genomeA e) = plant) in
     updM i (fun e =>
       with_energyA (clamp01 (energyA e - (if isPlant then 9 # 100 else 3 # 100)))
         (with_hydrationA (clamp01 (hydrationA e - (14 # 1000))) e)) ;;;
     (if isPlant then mret tt
      else
        s <- get ;;
        match pickWaterGradientStep s i with
        | Some escape =>
          attempt (moveEntity i (clampX s (xA (ent s i) + fst escape))
                                (clampY s (yA (ent s i) + snd escape))) ;;;
          mret tt
        | None => mret tt
        end) ;;;
     s <- get ;;
     if Qle_bool (energyA (ent s i)) 0 || Qle_bool (hydrationA (ent s i)) 0 then
       modify (kill i fire) ;;; mret true
     else mret false
   else mret false)%tick.

(** One round of the sweep: the entity in slot [i], with the tick's night
    flag and rain.  The accumulator is [(liveAnimals, livePlants)]. *)
Definition step_entity (rainAmountAt : Z -> Z -> Q) (rainCoverageNow : Q)
    (night : bool) (i : Z) (acc : Z * Z) : M (Z * Z) :=
  (s <- get ;;
   if negb (aliveA (ent s i)) then mret acc
   else
     updM i tick_clock ;;;
     s <- get ;;
     let e := ent s i in
     let g := genomeA e in
     b <- tile_biome (xA e) (yA e) ;;
     let bp := BIOME_PROPS b in
     let clsP := CLASS_PROPS (speciesClass g) in
     let onWater := is_water s (xA e) (yA e) in
     let rainAmount := rainAmountAt (xA e) (yA e) in
     updM i (hydrate bp clsP onWater (moistureAt s (xA e) (yA e)) rainAmount) ;;;
     let tempStress :=
       getTemperatureStress (temperatureTolerance g) (temp bp) (tempRange bp) in
     let stressFactor := (1 + tempStress * 2)%Q in
     let isPlant := bool_decide (lifeType g = plant) in
     (if isPlant then photosynthesize i night b stressFactor rainAmount
      else updM i (metabolize (behaviorTuning s) stressFactor)) ;;;
     let active :=
       match activity g with
       | diurnal => negb night
       | nocturnal => night
       | cathemeral => true
       end in
     when (negb isPlant && active) (behave i b tempStress) ;;;
     burnt <- fire_damage i ;;
     if burnt then mret acc
     else
       s <- get ;;
       when (bool_decide (count s < MAX_ENTITIES)) (tryReproduce i rainCoverageNow) ;;;
       let biomeTemp := temp bp in
       let tol := temperatureTolerance g in
       let coldStress := Qmax 0 ((3 # 10) - biomeTemp - (tol - (3 # 10))) in
       let heatStress := Qmax 0 (biomeTemp - (7 # 10) - (tol - (3 # 10))) in
       let tempPenalty := ((1 # 1000) * (coldStress + heatStress))%Q in
       updM i (fun e => with_energyA (clamp01 (energyA e - tempPenalty)) e) ;;;
       s <- get ;;
       let e := ent s i in
       if Qle_bool (energyA e) 0 then modify (kill i starvation) ;;; mret acc
       else if Qle_bool (hydrationA e) 0 then modify (kill i dehydration) ;;; mret acc
       else if bool_decide (ageA e >= maxAge (genomeA e))
       then modify (kill i old_age) ;;; mret acc
       else
         mret (if isPlant then (fst acc, snd acc + 1) else (fst acc + 1, snd acc)))%tick.

(** *** The egg pass of the tick

    The loop body of [updateEggs] opens with
    [BIOME_PROPS[BIOMES[biomeMap[idx(egg.x, egg.y)]]].temp]: for an egg
    whose tile index is no cell of [biomeMap] the table entry is
    [undefined] and the read of [.temp] raises a [TypeError], before
    anything of that egg is written. *)
Definition egg_on_map (s : State) (egg : EggData) : bool :=
  bool_decide (is_Some (ta_get (biomeMap s) (idx s (e_x egg) (e_y egg)))).

(** The loop of [updateEggs] over the eggs [todo], from the last egg of
    the list to the first ([todo] is in that order); [kept] are the eggs
    behind them that stay in the list.  When the loop fails, the eggs not
    yet visited and the egg at which it failed are still in the list. *)
Fixpoint eggs_loop (todo kept : list EggData) : M unit :=
  match todo with
  | [] => modify (set_eggs kept)
  | egg :: rest =>
    fun s =>
      if egg_on_map s egg then
        let (o, s1) := updateEgg egg s in
        eggs_loop rest (match o with Some e => e :: kept | None => kept end) s1
      else Throw (set_eggs (rev rest ++ egg :: kept) s)
  end.

(** [updateEggs] as [stepOnce] runs it.  Where every egg lies on the map
    it is [updateEggs] above (see [updateEggsM_on_map]). *)
Definition updateEggsM : M unit := fun s => eggs_loop (rev (eggs s)) [] s.

Section Step.

Variables (Math_sin Math_cos : Q -> Q) (Math_hypot : Q -> Q -> Q).

(** The sweep of [stepOnce]. *)
Definition sweep (fuel : nat) (rainCells : list RainCell) (rainCoverageNow : Q)
    (night : bool) (start : Z) : M (Z * Z) :=
  for_count fuel
    (fun n acc =>
       (s <- get ;;
        step_entity (fun x y => getRainAmountAt Math_hypot x y rainCells)
                    rainCoverageNow night (Z.rem (start + n) (count s)) acc)%tick)
    0 (0, 0).

(** [stepOnce]; the species statistics that [updateSpeciesStats] rebuilds
    are not carried.  A sweep visits at most [MAX_ENTITIES] slots, which
    is the fuel of its two loops over the slots. *)
Definition stepOnce : M unit :=
  (modify (fun s => set_tick (tick s + 1) s) ;;;
   modify startNextDayIfNeeded ;;;
   s <- get ;;
   let night := isNight (tick s) in
   let rainCells := getRainCells Math_sin Math_cos s (tick s) in
   let rainCoverageNow := rainCoverage s rainCells in
   spawnLightning Math_hypot rainCells ;;;
   updateFires Math_hypot rainCells ;;;
   s <- get ;;
   let start := Z.rem (tick s * 9973) (if decide (count s = 0) then 1 else count s) in
   live <- sweep (Z.to_nat MAX_ENTITIES) rainCells rainCoverageNow night start ;;
   modify (fun s => set_total (fst live + snd live)
                      (set_plants (snd live) (set_animals (fst live) s))) ;;;
   updateReproductionStates (Z.to_nat MAX_ENTITIES) ;;;
   updateEggsM)%tick.

End Step.

(** ** The tuning commands *)

Definition set_behaviorTuning (v : BehaviorTuning) (r : State) : State :=
  {| W := W r; H := H r; RNG_S := RNG_S r; tick := tick r;
     count := count r; total := total r; animals := animals r;
     plants := plants r; occ := occ r; ents := ents r;
     biomeMap := biomeMap r; waterMap := waterMap r;
     waterDistanceMap := waterDistanceMap r; moistureMap := moistureMap r;
     fireTTLMap := fireTTLMap r; activeFires := activeFires r;
     weatherSeed := weatherSeed r;
     lastLightningTick := lastLightningTick r; eggs := eggs r;
     MUTATION_LOG := MUTATION_LOG r; currentDayStats := currentDayStats r;
     lastDayStats := lastDayStats r; behaviorTuning := v |}.

(** A number that a caller hands to [Sim]: a finite number, or one of the
    three values of a JavaScript number that are not.  The state of the
    engine is modelled on finite numbers only. *)
Inductive Num : Type :=
| Finite (q : Q)
| NaN
| PosInfinity
| NegInfinity.

Definition finite (v : Num) : option Q :=
  match v with Finite q => Some q | _ => None end.

(** [Math.max(lo, v)] for a finite [lo]: [NaN] when [v] is. *)
Definition Math_max (lo : Q) (v : Num) : Num :=
  match v with
  | Finite q => Finite (Qmax lo q)
  | NaN => NaN
  | PosInfinity => PosInfinity
  | NegInfinity => Finite lo
  end.

(** [clamp01(n)], that is [n < 0 ? 0 : n > 1 ? 1 : n]: both comparisons
    are false on [NaN], which is returned. *)
Definition clamp01_num (v : Num) : Num :=
  match v with
  | Finite q => Finite (clamp01 q)
  | NaN => NaN
  | PosInfinity => Finite 1
  | NegInfinity => Finite 0
  end.

(** The argument of [setBehaviorTuning]: a [BehaviorTuning] object as the
    caller built it. *)
Record TuningArg : Type := mkTuningArg {
  a_thirstWeight : Num;
  a_hungerWeight : Num;
  a_mateWeight : Num;
  a_fearWeight : Num;
  a_motiveMoveBoostMax : Num;
  a_opportunisticFeedChance : Num;
  a_reproductionReadinessThreshold : Num;
  a_animalMetabolismMultiplier : Num;
  a_plantBiteAmount : Num;
  a_attackEnergyGain : Num;
}.

(** The object literal that [Sim.setBehaviorTuning(next)] assigns to
    [behaviorTuning]. *)
Definition clampBehaviorTuning (next : TuningArg) : TuningArg :=
  {| a_thirstWeight := Math_max 0 (a_thirstWeight next);
     a_hungerWeight := Math_max 0 (a_hungerWeight next);
     a_mateWeight := Math_max 0 (a_mateWeight next);
     a_fearWeight := Math_max 0 (a_fearWeight next);
     a_motiveMoveBoostMax := Math_max 0 (a_motiveMoveBoostMax next);
     a_opportunisticFeedChance := clamp01_num (a_opportunisticFeedChance next);
     a_reproductionReadinessThreshold :=
       clamp01_num (a_reproductionReadinessThreshold next);
     a_animalMetabolismMultiplier :=
       Math_max (2 # 10) (a_animalMetabolismMultiplier next);
     a_plantBiteAmount := Math_max (5 # 100) (a_plantBiteAmount next);
     a_attackEnergyGain := Math_max (1 # 10) (a_attackEnergyGain next) |}.

(** A tuning object all of whose numbers are finite. *)
Definition finite_tuning (t : TuningArg) : option BehaviorTuning :=
  match finite (a_thirstWeight t), finite (a_hungerWeight t),
        finite (a_mateWeight t), finite (a_fearWeight t),
        finite (a_motiveMoveBoostMax t), finite (a_opportunisticFeedChance t),
        finite (a_reproductionReadinessThreshold t),
        finite (a_animalMetabolismMultiplier t),
        finite (a_plantBiteAmount t), finite (a_attackEnergyGain t) with
  | Some v1, Some v2, Some v3, Some v4, Some v5,
    Some v6, Some v7, Some v8, Some v9, Some v10 =>
    Some {| thirstWeight := v1; hungerWeight := v2; mateWeight := v3;
            fearWeight := v4; motiveMoveBoostMax := v5;
            opportunisticFeedChance := v6;
            reproductionReadinessThreshold := v7;
            animalMetabolismMultiplier := v8; plantBiteAmount := v9;
            attackEnergyGain := v10 |}
  | _, _, _, _, _, _, _, _, _, _ => None
  end.

(** A tuning of the engine, as an argument. *)
Definition tuning_arg (t : BehaviorTuning) : TuningArg :=
  {| a_thirstWeight := Finite (thirstWeight t);
     a_hungerWeight := Finite (hungerWeight t);
     a_mateWeight := Finite (mateWeight t);
     a_fearWeight := Finite (fearWeight t);
     a_motiveMoveBoostMax := Finite (motiveMoveBoostMax t);
     a_opportunisticFeedChance := Finite (opportunisticFeedChance t);
     a_reproductionReadinessThreshold :=
       Finite (reproductionReadinessThreshold t);
     a_animalMetabolismMultiplier := Finite (animalMetabolismMultiplier t);
     a_plantBiteAmount := Finite (plantBiteAmount t);
     a_attackEnergyGain := Finite (attackEnergyGain t) |}.

(** [Sim.setBehaviorTuning(next)].  The result is [None] when the object
    that the command stores holds a number that is not finite: the engine
    goes on with that object, in a state that this model does not
    describe. *)
Definition setBehaviorTuning (next : TuningArg) (s : State) : option State :=
  match finite_tuning (clampBehaviorTuning next) with
  | Some t => Some (set_behaviorTuning t s)
  | None => None
  end.

(** [Sim.getBehaviorTuning()]: a copy of the record. *)
Definition getBehaviorTuning (s : State) : BehaviorTuning := behaviorTuning s.

(** [Sim.resetBehaviorTuning()] *)
Definition resetBehaviorTuning (s : State) : State :=
  set_behaviorTuning DEFAULT_BEHAVIOR_TUNING s.

(** ** Vocabulary of the properties

    Predicates and closed forms in which the properties below are stated. *)

(** [same_world s s']: only the generator, the mutation log, the daily
    counters and entity rows may differ. *)
Record same_world (s s' : State) : Prop := mkSameWorld {
  sw_W : W s' = W s;
  sw_H : H s' = H s;
  sw_tick : tick s' = tick s;
  sw_count : count s' = count s;
  sw_total : total s' = total s;
  sw_animals : animals s' = animals s;
  sw_plants : plants s' = plants s;
  sw_occ : occ s' = occ s;
  sw_water : waterMap s' = waterMap s;
  sw_biome : biomeMap s' = biomeMap s;
  sw_moist : moistureMap s' = moistureMap s;
  sw_eggs : eggs s' = eggs s;
}.

(** Rows: [species_glow e e'] says that [e'] is [e] up to its species id
    and its glow deadline. *)
Definition species_glow (e e' : Entity) : Prop :=
  e' = with_glowUntil (glowUntil e') (set_species (speciesId (genomeA e')) e).

(** The outcome of a placement attempt for slot [k] from state [s]. *)
Inductive placed_from (k : Z) (s : State) : bool -> State -> Prop :=
  | pf_no : placed_from k s false s
  | pf_yes x y :
      ta_get (occ s) (idx s x y) = Some (-1) ->
      placed_from k s true
        (set_occ (ta_set (occ s) (idx s x y) k)
                 (upd k (fun e => with_yA y (with_xA x e)) s)).

(** The row that [birth] writes into the slot of the child before placing
    it: [jit] are the alleles drawn in [applyGenome], overwritten by the
    recombined alleles of the offspring. *)
Definition birth_row (o : OffspringData) (jit : EggGenes.t) (k : Z) (e : Entity) : Entity :=
  with_adultA false (with_aliveA true (with_ageA 0
    (with_hydrationA 1 (with_energyA CHILD_ENERGY_START
      (with_idA (k + 1)
        (applyPhenotypeFromGenes_row (with_genesA (o_genes o)
          (applyPhenotypeFromGenes_row
             (applyGenome_cols (o_genome o) jit e))))))))).

(** The offspring data that [birth] draws in state [s]. *)
Definition birth_offspring (p1 : Z) (p2 : option Z) (s : State) : OffspringData :=
  fst (createOffspringData (set_count (count s + 1) s) p1 p2 (RNG_S s)).

(** The row that [hatchEgg] writes into the slot of the hatchling. *)
Definition hatch_row (egg : EggData) (jit : EggGenes.t) (k tk : Z) (e : Entity) : Entity :=
  with_lastReproTickA tk (with_reproTimerA 0
    (with_reproStateA ready (with_adultA false
      (with_aliveA true (with_ageA 0 (with_hydrationA (8 # 10)
        (with_energyA (CHILD_ENERGY_START * viability egg)
          (with_idA (k + 1)
            (applyPhenotypeFromGenes_row (with_genesA (e_genes egg)
              (applyPhenotypeFromGenes_row
                 (applyGenome_cols (e_genome egg) jit e)))))))))))).

(** The row that [addEntity] writes into the slot of a seeded entity. *)
Definition seed_row (g : Genome) (jit : EggGenes.t) (energy : Q) (age i : Z)
    (e : Entity) : Entity :=
  with_ageA age (with_hydrationA 1 (with_energyA energy
    (with_adultA false (with_aliveA true
      (applyPhenotypeFromGenes_row
         (applyGenome_cols g jit (with_idA (i + 1) e))))))).

Definition rows_ok (R : Entity -> Prop) (s : State) : Prop :=
  forall i, R (ent s i).

Definition lifespan_ok (e : Entity) : Prop :=
  maturityAge (genomeA e) + 200 <= maxAge (genomeA e).

(** Every live entity has a maximum age of at least its maturity age
    plus 200 ticks. *)
Definition lifespan_inv (s : State) : Prop :=
  rows_ok (fun e => aliveA e = true -> lifespan_ok e) s.

(** A plant has speed 0, vision 0 and diet photosynthesis; an animal has
    a diet other than photosynthesis. *)
Definition diet_ok (g : Genome) : Prop :=
  match lifeType g with
  | plant => speed g = 0%Q /\ vision g = 0%Q /\ diet g = photosynthesis
  | animal => diet g <> photosynthesis
  end.

Definition diet_inv (s : State) : Prop :=
  rows_ok (fun e => diet_ok (genomeA e)) s.

(** [rand_all m P]: every result of the generator code [m] satisfies [P]. *)
Definition rand_all {A} (m : Rand A) (P : A -> Prop) : Prop :=
  forall r, P (fst (m r)).

Definition egg_at_term (egg : EggData) : Prop :=
  incubationTime egg >= maxIncubationTime egg.

(** The predation roll of [updateEggs] for the aged egg in state [s]. *)
Definition predation_roll (s : State) (egg : EggData) : bool :=
  Qlt_bool (fst (rng (RNG_S s)))
           (inject_Z (countAdjacentPredators s (e_x egg) (e_y egg)) * (5 # 100)).

(** The hatch roll, drawn after the predation roll. *)
Definition hatch_roll (s : State) (egg : EggData) : bool :=
  Qlt_bool (fst (rng (rng_next (RNG_S s)))) (viability egg).

(** Whether the hatchling of [egg] is a fish: what
    [lifeTypeA[k] === 1 && classA[k] === 0] reads once
    [applyGenome(k, egg.genome)] has written the row. *)
Definition egg_is_fish (egg : EggData) : bool :=
  bool_decide (lifeType (e_genome egg) = animal)
  && bool_decide
       (normalizeSpeciesClass (lifeType (e_genome egg))
                              (speciesClass (e_genome egg)) = fish).

(** The tile that takes the hatchling of [egg] in state [s], if any: for
    a fish egg lying off water, the free water tile that
    [findNearbyWater] finds within radius 2; for any other egg its own
    tile, when that is free. *)
Definition hatch_tile (s : State) (egg : EggData) : option (Z * Z) :=
  if egg_is_fish egg && negb (is_water s (e_x egg) (e_y egg))
  then findNearbyWater s (e_x egg) (e_y egg) 2
  else if is_free s (e_x egg) (e_y egg)
       then Some (e_x egg, e_y egg) else None.

(** The tile stored for entity [i] points back to [i]. *)
Definition tile_ok (s : State) (i : Z) : Prop :=
  ta_get (occ s) (idx s (xA (ent s i)) (yA (ent s i))) = Some i.

(** Every live entity stands on a tile whose occupancy entry is its own
    index (so no two live entities share a tile). *)
Definition occupancy_inv (s : State) : Prop :=
  forall i, aliveA (ent s i) = true -> tile_ok s i.

(** *** Vocabulary of the tick *)

(** Energy and hydration are in [0, 1]. *)
Definition vit_ok (e : Entity) : Prop :=
  (0 <= energyA e <= 1)%Q /\ (0 <= hydrationA e <= 1)%Q.

(** What the tick may do to the row of an entity that it does not create
    or move: the position, the genome, the alleles, the identity and the
    glow deadline stay, a dead row stays dead, and energy and hydration
    stay in range if they were. *)
Record tick_row (e e' : Entity) : Prop := mkTickRow {
  tr_x : xA e' = xA e;
  tr_y : yA e' = yA e;
  tr_genome : genomeA e' = genomeA e;
  tr_genes : genesA e' = genesA e;
  tr_id : idA e' = idA e;
  tr_glow : glowUntil e' = glowUntil e;
  tr_alive : aliveA e' = true -> aliveA e = true;
  tr_vit : vit_ok e -> vit_ok e';
}.

(** What the tick may do to a row whatever the energy and hydration it
    holds. *)
Record stable_row (e e' : Entity) : Prop := mkStableRow {
  sr_genome : genomeA e' = genomeA e;
  sr_genes : genesA e' = genesA e;
  sr_id : idA e' = idA e;
  sr_glow : glowUntil e' = glowUntil e;
  sr_alive : aliveA e' = true -> aliveA e = true;
}.

(** The state invariant of the tick for a property [R] of rows, a
    property [E] of eggs and a property [T] of the tuning: besides them,
    the slot counter is within the arrays. *)
Record tick_inv (R : Entity -> Prop) (E : EggData -> Prop)
    (T : BehaviorTuning -> Prop) (s : State) : Prop := mkTickInv {
  ti_rows : rows_ok R s;
  ti_eggs : Forall E (eggs s);
  ti_tuning : T (behaviorTuning s);
  ti_count : count s <= MAX_ENTITIES;
}.

(** [hoare I m Q]: from a state in [I], the command [m] does not run out
    of fuel, ends (normally or in an error) in a state in [I], and a
    result it returns is in [Q]. *)
Definition hoare {A} (I : State -> Prop) (m : M A) (Q : A -> Prop) : Prop :=
  forall s, I s ->
    match m s with
    | Ok a s' => I s' /\ Q a
    | Throw s' => I s'
    | Stuck _ => False
    end.

Definition keeps {A} (I : State -> Prop) (m : M A) : Prop :=
  hoare I m (fun _ => True).

(** The states of the vitals claim: every live entity has energy and
    hydration in [0, 1], every egg a viability in [0, 1], and the bite of
    a herbivore is not negative. *)
Definition vitals_inv : State -> Prop :=
  tick_inv (fun e => aliveA e = true -> vit_ok e)
           (fun egg => (0 <= viability egg <= 1)%Q)
           (fun t => (0 <= plantBiteAmount t)%Q).

(** [bookkeeping s s']: only the population counters, the daily counters,
    the fire map, the list of burning tiles and the lightning tick may
    differ. *)
Record bookkeeping (s s' : State) : Prop := mkBookkeeping {
  bk_W : W s' = W s;
  bk_H : H s' = H s;
  bk_RNG_S : RNG_S s' = RNG_S s;
  bk_tick : tick s' = tick s;
  bk_count : count s' = count s;
  bk_occ : occ s' = occ s;
  bk_ents : ents s' = ents s;
  bk_biome : biomeMap s' = biomeMap s;
  bk_water : waterMap s' = waterMap s;
  bk_waterDistance : waterDistanceMap s' = waterDistanceMap s;
  bk_moisture : moistureMap s' = moistureMap s;
  bk_weatherSeed : weatherSeed s' = weatherSeed s;
  bk_eggs : eggs s' = eggs s;
  bk_log : MUTATION_LOG s' = MUTATION_LOG s;
  bk_tuning : behaviorTuning s' = behaviorTuning s;
}.

(** [tick_moves s s']: what the commands of the tick leave alone between
    two states, and how far they move the slot counter, the egg list and
    the mutation log. *)
Record tick_moves (s s' : State) : Prop := mkTickMoves {
  tm_W : W s' = W s;
  tm_H : H s' = H s;
  tm_tick : tick s' = tick s;
  tm_biome : biomeMap s' = biomeMap s;
  tm_water : waterMap s' = waterMap s;
  tm_waterDistance : waterDistanceMap s' = waterDistanceMap s;
  tm_moisture : moistureMap s' = moistureMap s;
  tm_weatherSeed : weatherSeed s' = weatherSeed s;
  tm_tuning : behaviorTuning s' = behaviorTuning s;
  tm_grid : ta_len (occ s') = ta_len (occ s);
  tm_count : count s <= count s';
  tm_count_max : count s <= MAX_ENTITIES -> count s' <= MAX_ENTITIES;
  tm_eggs : Z.of_nat (length (eggs s)) <= MAX_EGGS ->
            Z.of_nat (length (eggs s')) <= MAX_EGGS;
  tm_log : (length (MUTATION_LOG s) <= 200)%nat ->
           (length (MUTATION_LOG s') <= 200)%nat;
}.

(** [fails_at J m]: wherever the command [m] fails, the state it leaves
    satisfies [J]. *)
Definition fails_at {A} (J : State -> Prop) (m : M A) : Prop :=
  forall s, match m s with Throw s' => J s' | _ => True end.

(** The generator has just returned exactly 1: its state is [0xffffffff]. *)
Definition drew_one (s : State) : Prop := RNG_S s = 4294967295.

(** The ranges that [setBehaviorTuning] enforces. *)
Record tuning_ok (t : BehaviorTuning) : Prop := mkTuningOk {
  to_thirst : (0 <= thirstWeight t)%Q;
  to_hunger : (0 <= hungerWeight t)%Q;
  to_mate : (0 <= mateWeight t)%Q;
  to_fear : (0 <= fearWeight t)%Q;
  to_boost : (0 <= motiveMoveBoostMax t)%Q;
  to_feed : (0 <= opportunisticFeedChance t <= 1)%Q;
  to_ready : (0 <= reproductionReadinessThreshold t <= 1)%Q;
  to_metabolism : ((2 # 10) <= animalMetabolismMultiplier t)%Q;
  to_bite : ((5 # 100) <= plantBiteAmount t)%Q;
  to_attack : ((1 # 10) <= attackEnergyGain t)%Q;
}.

(** Two tunings with the same numbers. *)
Record tuning_eq (t t' : BehaviorTuning) : Prop := mkTuningEq {
  te_thirst : (thirstWeight t == thirstWeight t')%Q;
  te_hunger : (hungerWeight t == hungerWeight t')%Q;
  te_mate : (mateWeight t == mateWeight t')%Q;
  te_fear : (fearWeight t == fearWeight t')%Q;
  te_boost : (motiveMoveBoostMax t == motiveMoveBoostMax t')%Q;
  te_feed : (opportunisticFeedChance t == opportunisticFeedChance t')%Q;
  te_ready :
    (reproductionReadinessThreshold t == reproductionReadinessThreshold t')%Q;
  te_metabolism :
    (animalMetabolismMultiplier t == animalMetabolismMultiplier t')%Q;
  te_bite : (plantBiteAmount t == plantBiteAmount t')%Q;
  te_attack : (attackEnergyGain t == attackEnergyGain t')%Q;
}.

(** A number that is no [NaN] and at least [lo], and one within [0, 1]. *)
Definition num_ge (lo : Q) (v : Num) : Prop :=
  match v with
  | Finite q => (lo <= q)%Q
  | PosInfinity => True
  | NaN | NegInfinity => False
  end.

Definition num_01 (v : Num) : Prop :=
  match v with
  | Finite q => (0 <= q <= 1)%Q
  | NaN | PosInfinity | NegInfinity => False
  end.

(** The ranges of [setBehaviorTuning], on a tuning object. *)
Record arg_ok (t : TuningArg) : Prop := mkArgOk {
  ao_thirst : num_ge 0 (a_thirstWeight t);
  ao_hunger : num_ge 0 (a_hungerWeight t);
  ao_mate : num_ge 0 (a_mateWeight t);
  ao_fear : num_ge 0 (a_fearWeight t);
  ao_boost : num_ge 0 (a_motiveMoveBoostMax t);
  ao_feed : num_01 (a_opportunisticFeedChance t);
  ao_ready : num_01 (a_reproductionReadinessThreshold t);
  ao_metabolism : num_ge (2 # 10) (a_animalMetabolismMultiplier t);
  ao_bite : num_ge (5 # 100) (a_plantBiteAmount t);
  ao_attack : num_ge (1 # 10) (a_attackEnergyGain t);
}.

(** The numbers of a tuning object, in the order of the type. *)
Definition tuning_numbers (t : TuningArg) : list Num :=
  [a_thirstWeight t; a_hungerWeight t; a_mateWeight t; a_fearWeight t;
   a_motiveMoveBoostMax t; a_opportunisticFeedChance t;
   a_reproductionReadinessThreshold t; a_animalMetabolismMultiplier t;
   a_plantBiteAmount t; a_attackEnergyGain t].

(** Those of them that [setBehaviorTuning] bounds from below only. *)
Definition unbounded_numbers (t : TuningArg) : list Num :=
  [a_thirstWeight t; a_hungerWeight t; a_mateWeight t; a_fearWeight t;
   a_motiveMoveBoostMax t; a_animalMetabolismMultiplier t;
   a_plantBiteAmount t; a_attackEnergyGain t].

(** The states that the commands of [Sim] reach from the loaded module
    when they are called with integers and finite numbers: [init],
    [reseed], [place] (a [Genome] and a [Q] hold finite numbers), the
    tuning commands, where [setBehaviorTuning] counts when what it stores
    is finite, and [stepOnce] (which [stepTime] repeats), whether a tick
    returns or fails part-way. *)
Inductive reachable (buildEnv : Z -> Z -> Z -> Z -> World)
    (Math_sin Math_cos : Q -> Q) (Math_hypot : Q -> Q -> Q) : State -> Prop :=
| reach_loaded : reachable buildEnv Math_sin Math_cos Math_hypot loaded
| reach_init seed startPlants startAnimals w h s :
    reachable buildEnv Math_sin Math_cos Math_hypot s ->
    reachable buildEnv Math_sin Math_cos Math_hypot
      (init buildEnv seed startPlants startAnimals w h s)
| reach_reseed seed startPlants startAnimals w h s :
    reachable buildEnv Math_sin Math_cos Math_hypot s ->
    reachable buildEnv Math_sin Math_cos Math_hypot
      (reseed buildEnv seed startPlants startAnimals w h s)
| reach_place x y g energy q s :
    finite energy = Some q ->
    reachable buildEnv Math_sin Math_cos Math_hypot s ->
    reachable buildEnv Math_sin Math_cos Math_hypot (snd (place x y g q s))
| reach_setBehaviorTuning next s s' :
    reachable buildEnv Math_sin Math_cos Math_hypot s ->
    setBehaviorTuning next s = Some s' ->
    reachable buildEnv Math_sin Math_cos Math_hypot s'
| reach_resetBehaviorTuning s :
    reachable buildEnv Math_sin Math_cos Math_hypot s ->
    reachable buildEnv Math_sin Math_cos Math_hypot (resetBehaviorTuning s)
| reach_stepOnce s s' :
    reachable buildEnv Math_sin Math_cos Math_hypot s ->
    stepOnce Math_sin Math_cos Math_hypot s = Ok tt s' ->
    reachable buildEnv Math_sin Math_cos Math_hypot s'
| reach_stepOnce_failed s s' :
    reachable buildEnv Math_sin Math_cos Math_hypot s ->
    stepOnce Math_sin Math_cos Math_hypot s = Throw s' ->
    reachable buildEnv Math_sin Math_cos Math_hypot s'.

(** [calm s s']: [tick_moves s s'] with the egg list and the mutation log
    untouched. *)
Definition calm (s s' : State) : Prop :=
  tick_moves s s' /\ eggs s' = eggs s /\ MUTATION_LOG s' = MUTATION_LOG s.

(** The invariants of the engine state taken together. *)
Record sound (s : State) : Prop := mkSound {
  so_vitals : vitals_inv s;
  so_diet : diet_inv s;
  so_lifespan : lifespan_inv s;
  so_eggs : Z.of_nat (length (eggs s)) <= MAX_EGGS;
  so_log : (length (MUTATION_LOG s) <= 200)%nat;
  so_tuning : tuning_ok (behaviorTuning s);
}.

(** The occupancy grid and the rows agree: every live entity is registered
    on its tile, the index [-1] (a free tile) is no live entity, and the
    slot counter is not negative. *)
Definition grid_ok (s : State) : Prop :=
  occupancy_inv s /\ aliveA (ent s (-1)) = false /\ 0 <= count s.

(** The stored tile of a row is a cell of [biomeMap]. *)
Definition row_on_map (s : State) (e : Entity) : Prop :=
  is_Some (ta_get (biomeMap s) (idx s (xA e) (yA e))).

(** The grid is allocated (the terrain maps and [occ] have [W * H]
    cells), every row and every egg has a tile index inside it, and the
    slot counter is within the arrays.  On such a state the table reads
    [BIOME_PROPS[BIOMES[biomeMap[idx(x, y)]]]] of the tick are defined, and
    so are its reads of the terrain maps on the tiles of rows and eggs. *)
Record on_map (s : State) : Prop := mkOnMap {
  om_biome : ta_len (biomeMap s) = W s * H s;
  om_occ : ta_len (occ s) = W s * H s;
  om_rows : forall i, row_on_map s (ent s i);
  om_eggs : Forall (fun egg => egg_on_map s egg = true) (eggs s);
  om_count : count s <= MAX_ENTITIES;
  om_maps : ta_len (waterMap s) = W s * H s
            /\ ta_len (moistureMap s) = W s * H s
            /\ ta_len (waterDistanceMap s) = W s * H s;
}.

(** Where the tick can fail: the generator has just returned 1, or the
    sweep has met a row off the map, or the egg pass has met an egg off the
    map, which is still in the list. *)
Definition drew_one_or_stray (s : State) : Prop :=
  drew_one s
  \/ (exists i, ~ row_on_map s (ent s i))
  \/ (exists egg, egg ∈ eggs s /\ egg_on_map s egg = false).

(** ** Example states

    Small concrete states on which the theorems below are instantiated. *)

(** The loaded module with an empty 500 x 500 occupancy grid. *)
Definition empty_grid : State := set_occ (ta_new (500 * 500) (-1)) loaded.

(** A live adult mammal at (10, 10) whose alleles are all zero while its
    phenotype columns are at the top of their ranges. *)
Definition demo_parent : Entity :=
  {| idA := 1; xA := 10; yA := 10; energyA := 9 # 10; hydrationA := 9 # 10;
     ageA := 7000; aliveA := true; adultA := true;
     genomeA :=
       {| speciesId := 5; lifeType := animal; speciesClass := mammal;
          diet := herbivore; reproduction := asexual;
          hostility := 1; speed := 1; size := 1; vision := 1; fertility := 1;
          maturityAge := 6000; maxAge := 52000; camouflage := 1;
          sociality := 1; activity := diurnal; temperatureTolerance := 1;
          preferredBiome := grassland; seedSpread := 0; mutationRate := 0;
          supplementalCarnivory := false |};
     genesA := zeroGenes;
     plantFeedHistoryA := 0; preyFeedHistoryA := 0; starvationStressA := 0;
     dietShiftPenaltyA := 0; plantTrapCooldownA := 0;
     reproStateA := ready; reproTimerA := 0; gestationTimeA := 0;
     breedingReadinessA := 0; lastReproTickA := 0; glowUntil := 0 |}.

Definition demo_state : State :=
  set_count 1
    (set_occ (ta_set (ta_new (500 * 500) (-1)) (10 * 500 + 10) 0)
       (set_ents {[ 0 := demo_parent ]} loaded)).

(** An egg of [demo_parent] lying on (11, 10), at term after one more tick. *)
Definition demo_egg (v : Q) : EggData :=
  {| e_speciesId := 5; parentId1 := 0; parentId2 := None;
     e_genome := genomeA demo_parent; e_genes := zeroGenes;
     incubationTime := 299; maxIncubationTime := 300;
     e_x := 11; e_y := 10; viability := v; shiftedDiet := false |}.

(** An egg of [demo_parent] lying on the parent's own tile (10, 10). *)
Definition blocked_egg : EggData :=
  {| e_speciesId := 5; parentId1 := 0; parentId2 := None;
     e_genome := genomeA demo_parent; e_genes := zeroGenes;
     incubationTime := 299; maxIncubationTime := 300;
     e_x := 10; e_y := 10; viability := 1; shiftedDiet := false |}.

(** [demo_state] with a fire on (10, 10) that burns for 80 more ticks and
    the generator two draws before it returns 1. *)
Definition burning_state : State :=
  set_RNG_S 2480864133
    (set_activeFires [10 * 500 + 10]
       (set_fireTTLMap (ta_set (ta_new (500 * 500) 0) (10 * 500 + 10) 80)
          demo_state)).

(** A 500 x 500 grassland without entities whose only water tile is
    (12, 10). *)
Definition pond_world : State :=
  reseed (fun _ _ _ _ =>
            mkWorld (ta_new (500 * 500) grassland)
                    (ta_set (ta_new (500 * 500) false) (10 * 500 + 12) true)
                    (ta_new (500 * 500) 0%Q) (ta_new (500 * 500) 0%Q) 7)
         1 0 0 500 500 loaded.

(** [pond_world] with [demo_parent] in slot 0 on (10, 10): every map is
    allocated for the 500 x 500 grid. *)
Definition meadow_state : State :=
  set_count 1
    (set_occ (ta_set (occ pond_world) (10 * 500 + 10) 0)
       (set_ents {[ 0 := demo_parent ]} pond_world)).

(** [meadow_state] with one egg at term lying under [demo_parent]. *)
Definition nest_state : State := set_eggs [blocked_egg] meadow_state.

(** * Properties *)

(** ** Numbers and typed arrays *)

Lemma Qlt_bool_iff a b : Qlt_bool a b = true <-> (a < b)%Q.
Proof.
  unfold Qlt_bool. rewrite negb_true_iff. split.
  - intros Hf. apply Qnot_le_lt. intros Hle.
    apply Qle_bool_iff in Hle. congruence.
  - intros Hlt. destruct (Qle_bool b a) eqn:E; [|reflexivity].
    apply Qle_bool_iff in E. exfalso. exact (Qlt_not_le _ _ Hlt E).
Qed.

Lemma Qlt_bool_false a b : Qlt_bool a b = false <-> (b <= a)%Q.
Proof.
  unfold Qlt_bool. rewrite negb_false_iff. apply Qle_bool_iff.
Qed.

Lemma ta_len_set {A} (a : TArr A) k v : ta_len (ta_set a k v) = ta_len a.
Proof. unfold ta_set. case_decide; reflexivity. Qed.

Lemma ta_get_set_eq {A} (a : TArr A) k v :
  0 <= k < ta_len a -> ta_get (ta_set a k v) k = Some v.
Proof.
  intros Hk. unfold ta_set. rewrite decide_True by exact Hk.
  unfold ta_get. simpl. rewrite decide_True by exact Hk.
  by rewrite lookup_insert_eq.
Qed.

Lemma ta_get_set_ne {A} (a : TArr A) k j v :
  k <> j -> ta_get (ta_set a k v) j = ta_get a j.
Proof.
  intros Hne. unfold ta_get, ta_set.
  destruct (decide (0 <= k < ta_len a)); [|reflexivity]. simpl.
  case_decide; [|reflexivity]. by rewrite lookup_insert_ne.
Qed.

Lemma ta_get_Some_range {A} (a : TArr A) k v :
  ta_get a k = Some v -> 0 <= k < ta_len a.
Proof. unfold ta_get. case_decide; [tauto|discriminate]. Qed.

Lemma ta_get_new {A} n (v : A) k :
  0 <= k < n -> ta_get (ta_new n v) k = Some v.
Proof.
  intros Hk. unfold ta_get, ta_new. simpl.
  rewrite decide_True by exact Hk. by rewrite lookup_empty.
Qed.

Lemma clamp01_range n : (0 <= clamp01 n <= 1)%Q.
Proof.
  unfold clamp01.
  destruct (Qlt_bool n 0) eqn:E0; [split; discriminate|].
  destruct (Qlt_bool 1 n) eqn:E1; [split; discriminate|].
  apply Qlt_bool_false in E0, E1. split; assumption.
Qed.

(** ** The entity store *)

Lemma ent_upd_eq i f s : ent (upd i f s) i = f (ent s i).
Proof. unfold ent, upd. simpl. by rewrite lookup_insert_eq. Qed.

Lemma ent_upd_ne i j f s : i <> j -> ent (upd i f s) j = ent s j.
Proof. intros Hne. unfold ent, upd. simpl. by rewrite lookup_insert_ne. Qed.

Lemma ent_upd i j f s :
  ent (upd i f s) j = if decide (i = j) then f (ent s i) else ent s j.
Proof.
  case_decide; [subst; apply ent_upd_eq | by apply ent_upd_ne].
Qed.

Lemma ent_set_occ o s i : ent (set_occ o s) i = ent s i.
Proof. reflexivity. Qed.

Lemma ent_set_count c s i : ent (set_count c s) i = ent s i.
Proof. reflexivity. Qed.

Lemma ent_set_RNG_S r s i : ent (set_RNG_S r s) i = ent s i.
Proof. reflexivity. Qed.

Lemma sn_alive_encode s i : sn_alive (encodeEntity s i) = aliveA (ent s i).
Proof. reflexivity. Qed.

Lemma sn_age_encode s i : sn_age (encodeEntity s i) = ageA (ent s i).
Proof. reflexivity. Qed.

Lemma draw_spec {A} (m : Rand A) s :
  draw m s = (fst (m (RNG_S s)), set_RNG_S (snd (m (RNG_S s))) s).
Proof. unfold draw. destruct (m (RNG_S s)); reflexivity. Qed.

Lemma applyGenome_spec i g s :
  applyGenome i g s =
  upd i (fun e => applyPhenotypeFromGenes_row
                    (applyGenome_cols g (fst (genesFromGenome g (RNG_S s))) e))
      (set_RNG_S (snd (genesFromGenome g (RNG_S s))) s).
Proof. unfold applyGenome. rewrite draw_spec. reflexivity. Qed.

Lemma placeAt_spec i x y s :
  placeAt i x y s =
  if decide (ta_get (occ s) (idx s x y) = Some (-1))
  then (true, set_occ (ta_set (occ s) (idx s x y) i)
                      (upd i (fun e => with_yA y (with_xA x e)) s))
  else (false, s).
Proof. reflexivity. Qed.

Lemma count_birth_spec k s :
  total (count_birth k s) = total s + 1 /\
  count (count_birth k s) = count s /\
  occ (count_birth k s) = occ s /\
  ents (count_birth k s) = ents s /\
  W (count_birth k s) = W s.
Proof.
  unfold count_birth.
  destruct (lifeType (genomeA (ent (set_total (total s + 1) s) k)));
    repeat split; reflexivity.
Qed.

Lemma ent_count_birth k s i : ent (count_birth k s) i = ent s i.
Proof.
  unfold ent. destruct (count_birth_spec k s) as (_ & _ & _ & -> & _).
  reflexivity.
Qed.

(** ** [place] and [inspect] *)

Lemma place_success x y g energy s :
  count s < MAX_ENTITIES ->
  0 <= x < W s -> 0 <= y < H s ->
  ta_get (occ s) (idx s x y) = Some (-1) ->
  place x y g energy s =
  (true, count_birth (count s)
           (set_occ (ta_set (occ s) (idx s x y) (count s))
              (upd (count s) (fun e => with_yA y (with_xA x e))
                 (place_filled g energy s)))).
Proof.
  intros Hc Hx Hy Hfree. unfold place.
  rewrite decide_False by lia.
  rewrite decide_False by lia.
  rewrite decide_True by exact Hfree.
  fold (place_filled g energy s).
  rewrite placeAt_spec.
  assert (Hocc : occ (place_filled g energy s) = occ s).
  { unfold place_filled. rewrite applyGenome_spec. reflexivity. }
  assert (Hidx : idx (place_filled g energy s) x y = idx s x y).
  { unfold place_filled. rewrite applyGenome_spec. reflexivity. }
  rewrite Hocc, Hidx. rewrite decide_True by exact Hfree. reflexivity.
Qed.

Lemma place_refused x y g energy s :
  count s >= MAX_ENTITIES \/ x < 0 \/ y < 0 \/ x >= W s \/ y >= H s \/
  ta_get (occ s) (idx s x y) <> Some (-1) ->
  place x y g energy s = (false, s).
Proof.
  intros Href. unfold place.
  destruct (decide (count s >= MAX_ENTITIES)); [reflexivity|].
  destruct (decide (x < 0 \/ y < 0 \/ x >= W s \/ y >= H s)); [reflexivity|].
  destruct (decide (ta_get (occ s) (idx s x y) = Some (-1))); [|reflexivity].
  exfalso. intuition lia.
Qed.

Lemma ent_place_filled g energy s :
  let e := ent (place_filled g energy s) (count s) in
  aliveA e = true /\ ageA e = 0 /\ adultA e = false
  /\ hydrationA e = 1%Q /\ energyA e = clamp01 energy
  /\ idA e = count s + 1.
Proof.
  unfold place_filled. rewrite !ent_upd_eq. repeat split; reflexivity.
Qed.

(** C5. [place(x, y, genome, energy)] on an in-bounds, unoccupied tile with
    the slot counter below [MAX_ENTITIES] returns true, raises
    [getCounts().total] by one and makes [inspect(x, y)] return a snapshot
    with [alive = true] and [age = 0]; when the counter has reached the cap,
    the coordinates are out of bounds or the tile is not free, it returns
    false and the state is the one it was called in. *)
Theorem place_contract x y g energy s :
  0 <= count s ->
  (count s < MAX_ENTITIES -> 0 <= x < W s -> 0 <= y < H s ->
   ta_get (occ s) (idx s x y) = Some (-1) ->
   fst (place x y g energy s) = true /\
   fst (fst (getCounts (snd (place x y g energy s))))
     = fst (fst (getCounts s)) + 1 /\
   exists sn, inspect x y (snd (place x y g energy s)) = Some sn /\
              sn_alive sn = true /\ sn_age sn = 0)
  /\
  (count s >= MAX_ENTITIES \/ x < 0 \/ y < 0 \/ x >= W s \/ y >= H s \/
   ta_get (occ s) (idx s x y) <> Some (-1) ->
   place x y g energy s = (false, s)).
Proof.
  intros Hc0. split; [|apply place_refused].
  intros Hc Hx Hy Hfree.
  rewrite (place_success x y g energy s Hc Hx Hy Hfree). simpl fst; simpl snd.
  set (s1 := set_occ _ _).
  destruct (count_birth_spec (count s) s1) as (Htot & _ & Hocc & Hents & HW).
  split; [reflexivity|]. split.
  - unfold getCounts. simpl fst. rewrite Htot. subst s1.
    unfold place_filled. rewrite applyGenome_spec. reflexivity.
  - unfold inspect. unfold idx at 1. rewrite HW, Hocc.
    assert (Hidx : y * W s1 + x = idx s x y).
    { subst s1. unfold place_filled. rewrite applyGenome_spec. reflexivity. }
    rewrite Hidx.
    assert (Hget : ta_get (occ s1) (idx s x y) = Some (count s)).
    { subst s1. simpl occ. apply ta_get_set_eq.
      exact (ta_get_Some_range _ _ _ Hfree). }
    rewrite Hget. rewrite decide_False by lia.
    eexists. split; [reflexivity|].
    rewrite sn_alive_encode, sn_age_encode, !ent_count_birth. subst s1.
    rewrite !ent_set_occ, !ent_upd_eq.
    destruct (ent_place_filled g energy s) as (Ha & Hg & _).
    cbn [aliveA ageA with_yA with_xA]. split; assumption.
Qed.

Lemma place_contract_witness :
  let g := zeroGenome in
  let s := set_occ (ta_new (500 * 500) (-1)) loaded in
  fst (place 3 4 g (8 # 10) s) = true /\
  place 3 4 g (8 # 10) (set_count MAX_ENTITIES s) = (false, set_count MAX_ENTITIES s).
Proof.
  intros g s.
  destruct (place_contract 3 4 g (8 # 10) s) as [Hok _]; [vm_compute; discriminate|].
  destruct (place_contract 3 4 g (8 # 10) (set_count MAX_ENTITIES s)) as [_ Hno];
    [vm_compute; discriminate|].
  split.
  - apply Hok; [reflexivity | split; [discriminate|reflexivity]
               | split; [discriminate|reflexivity] | reflexivity].
  - apply Hno. left. vm_compute. discriminate.
Defined.

(** ** Frames: what the creation code leaves alone *)

Lemma same_world_refl s : same_world s s.
Proof. by constructor. Qed.

Lemma same_world_trans s1 s2 s3 :
  same_world s1 s2 -> same_world s2 s3 -> same_world s1 s3.
Proof.
  intros [] []. constructor; congruence.
Qed.

Lemma same_world_upd i f s : same_world s (upd i f s).
Proof. by constructor. Qed.

Lemma same_world_draw {A} (m : Rand A) s : same_world s (snd (draw m s)).
Proof. rewrite draw_spec. by constructor. Qed.

Lemma same_world_applyGenome i g s : same_world s (applyGenome i g s).
Proof. rewrite applyGenome_spec. by constructor. Qed.

Lemma same_world_push evt s : same_world s (pushMutationEvent evt s).
Proof. by constructor. Qed.

Lemma same_world_recordBirth lt s : same_world s (recordBirth lt s).
Proof. unfold recordBirth. destruct (currentDayStats s); by constructor. Qed.

Lemma same_world_penalty k b s : same_world s (set_dietShiftPenalty k b s).
Proof. unfold set_dietShiftPenalty. destruct b; by constructor. Qed.

Lemma same_world_detectMutation k p1 sh re s :
  same_world s (detectMutation k p1 sh re s).
Proof.
  unfold detectMutation.
  destruct (negb _); [apply same_world_refl|].
  destruct (Qlt_bool (12 # 100) _ || re).
  - rewrite draw_spec. by constructor.
  - by constructor.
Qed.

Lemma species_glow_refl e : species_glow e e.
Proof. unfold species_glow. destruct e as [? ? ? ? ? ? ? ? []]. reflexivity. Qed.

Lemma species_glow_set v t e : species_glow e (with_glowUntil t (set_species v e)).
Proof. unfold species_glow. destruct e as [? ? ? ? ? ? ? ? []]. reflexivity. Qed.

Lemma species_glow_glow t e : species_glow e (with_glowUntil t e).
Proof. unfold species_glow. destruct e as [? ? ? ? ? ? ? ? []]. reflexivity. Qed.

Lemma ent_push evt s i : ent (pushMutationEvent evt s) i = ent s i.
Proof. reflexivity. Qed.

Lemma ent_draw {A} (m : Rand A) s i : ent (snd (draw m s)) i = ent s i.
Proof. rewrite draw_spec. reflexivity. Qed.

Lemma detectMutation_rows k p1 sh re s i :
  (i <> k -> ent (detectMutation k p1 sh re s) i = ent s i) /\
  species_glow (ent s i) (ent (detectMutation k p1 sh re s) i).
Proof.
  unfold detectMutation.
  destruct (negb _); [split; [reflexivity | apply species_glow_refl]|].
  rewrite ent_push.
  destruct (decide (i = k)) as [->|Hne].
  - split; [congruence|].
    destruct (Qlt_bool (12 # 100) _ || re).
    + rewrite draw_spec. cbn [snd]. rewrite !ent_upd_eq, ent_set_RNG_S.
      apply species_glow_set.
    + rewrite ent_upd_eq. apply species_glow_glow.
  - assert (Hne' : k <> i) by congruence.
    destruct (Qlt_bool (12 # 100) _ || re).
    + rewrite draw_spec. cbn [snd]. rewrite !ent_upd_ne, ent_set_RNG_S by exact Hne'.
      split; [reflexivity | apply species_glow_refl].
    + rewrite ent_upd_ne by exact Hne'.
      split; [reflexivity | apply species_glow_refl].
Qed.

(** ** The generator *)

Lemma rng_next_range r : 0 <= rng_next r < 2 ^ 32.
Proof. unfold rng_next, to_uint32. apply Z.mod_pos_bound. reflexivity. Qed.

Lemma rng_range r : (0 <= fst (rng r) <= 1)%Q.
Proof.
  unfold rng. simpl fst. pose proof (rng_next_range r) as Hr.
  set (n := rng_next r) in *. clearbody n.
  unfold Qdiv, Qmult, Qinv, Qle, inject_Z. simpl. lia.
Qed.

Lemma Qfloor_between q (a b : Z) :
  (inject_Z a <= q)%Q -> (q <= inject_Z b)%Q -> a <= Qfloor q <= b.
Proof.
  intros Ha Hb. split.
  - rewrite <- (Qfloor_Z a). by apply Qfloor_resp_le.
  - rewrite <- (Qfloor_Z b). by apply Qfloor_resp_le.
Qed.



(** ** Speciation at birth and at hatching *)





Lemma birth_unfold p1 p2 x y s :
  count s < MAX_ENTITIES ->
  birth p1 p2 x y s =
  let r := birth_spawn p1 p2 x y s in
  if negb (fst (fst r)) then set_count (count (snd r) - 1) (snd r)
  else detectMutation (count s) p1 (o_shiftedDiet (snd (fst r))) false
         (register_birth (count s) (o_shiftedDiet (snd (fst r))) (snd r)).
Proof.
  intros Hc. unfold birth. rewrite decide_False by lia.
  destruct (birth_spawn p1 p2 x y s) as [[placed o] s1]. reflexivity.
Qed.

Lemma hatchEgg_unfold egg s :
  count s < MAX_ENTITIES ->
  hatchEgg egg s =
  let r := hatch_spawn egg s in
  if negb (fst r) then set_count (count (snd r) - 1) (snd r)
  else detectMutation (count s) (parentId1 egg) (shiftedDiet egg)
         (bool_decide (parentId2 egg <> None))
         (register_birth (count s) (shiftedDiet egg) (snd r)).
Proof.
  intros Hc. unfold hatchEgg. rewrite decide_False by lia.
  destruct (hatch_spawn egg s) as [placed s1]. reflexivity.
Qed.




(** ** Closed forms of the spawning code *)

Lemma upd_upd k f g s : upd k f (upd k g s) = upd k (fun e => f (g e)) s.
Proof.
  unfold upd at 1. rewrite ent_upd_eq. unfold upd. simpl.
  rewrite insert_insert_eq. reflexivity.
Qed.

Lemma placeAt_placed_from k x y s :
  placed_from k s (fst (placeAt k x y s)) (snd (placeAt k x y s)).
Proof.
  rewrite placeAt_spec. case_decide; simpl; by constructor.
Qed.

Lemma placed_from_pair k s (p : bool * State) :
  placed_from k s (fst p) (snd p) -> let (b, s1) := p in placed_from k s b s1.
Proof. by destruct p. Qed.

Lemma birth_spawn_spec p1 p2 x y s :
  snd (fst (birth_spawn p1 p2 x y s)) = birth_offspring p1 p2 s /\
  exists r jit,
    placed_from (count s)
      (upd (count s) (birth_row (birth_offspring p1 p2 s) jit (count s))
           (set_RNG_S r (set_count (count s + 1) s)))
      (fst (fst (birth_spawn p1 p2 x y s)))
      (snd (birth_spawn p1 p2 x y s)).
Proof.
  unfold birth_spawn. rewrite draw_spec.
  change (fst (createOffspringData (set_count (count s + 1) s) p1 p2
                 (RNG_S (set_count (count s + 1) s))))
    with (birth_offspring p1 p2 s).
  generalize (birth_offspring p1 p2 s) as o.
  generalize (snd (createOffspringData (set_count (count s + 1) s) p1 p2
                     (RNG_S (set_count (count s + 1) s)))) as r1.
  intros r1 o.
  rewrite applyGenome_spec. unfold setTraitAlleles, applyPhenotypeFromGenes.
  rewrite !upd_upd.
  generalize (fst (genesFromGenome (o_genome o)
                     (RNG_S (set_RNG_S r1 (set_count (count s + 1) s))))) as jit.
  generalize (snd (genesFromGenome (o_genome o)
                     (RNG_S (set_RNG_S r1 (set_count (count s + 1) s))))) as r2.
  intros r2 jit.
  change (set_RNG_S r2 (set_RNG_S r1 (set_count (count s + 1) s)))
    with (set_RNG_S r2 (set_count (count s + 1) s)).
  change (fun e : Entity => with_adultA false (with_aliveA true (with_ageA 0
            (with_hydrationA 1 (with_energyA CHILD_ENERGY_START
              (with_idA (count s + 1)
                (applyPhenotypeFromGenes_row (with_genesA (o_genes o)
                  (applyPhenotypeFromGenes_row
                    (applyGenome_cols (o_genome o) jit e)))))))))) 
    with (birth_row o jit (count s)).
  assert (Hgen : forall filled (p : bool * State),
            placed_from (count s) filled (fst p) (snd p) ->
            snd (fst (let (placed, s1) := p in (placed, o, s1))) = o /\
            placed_from (count s) filled
              (fst (fst (let (placed, s1) := p in (placed, o, s1))))
              (snd (let (placed, s1) := p in (placed, o, s1)))).
  { intros filled [b s1] Hp. split; [reflexivity | exact Hp]. }
  assert (Hpl : forall filled,
            placed_from (count s) filled
              (fst (if is_fish (ent filled (count s)) && negb (is_water filled x y)
                    then match List.find (fun d : Z * Z =>
                                   in_bounds filled (x + fst d) (y + snd d)
                                   && is_water filled (x + fst d) (y + snd d)
                                   && is_free filled (x + fst d) (y + snd d)) N8 with
                         | Some d => placeAt (count s) (x + fst d) (y + snd d) filled
                         | None => (false, filled)
                         end
                    else placeAt (count s) x y filled))
              (snd (if is_fish (ent filled (count s)) && negb (is_water filled x y)
                    then match List.find (fun d : Z * Z =>
                                   in_bounds filled (x + fst d) (y + snd d)
                                   && is_water filled (x + fst d) (y + snd d)
                                   && is_free filled (x + fst d) (y + snd d)) N8 with
                         | Some d => placeAt (count s) (x + fst d) (y + snd d) filled
                         | None => (false, filled)
                         end
                    else placeAt (count s) x y filled))).
  { intros filled.
    destruct (is_fish (ent filled (count s)) && negb (is_water filled x y)).
    - destruct (List.find _ N8) as [d|];
        [apply placeAt_placed_from | constructor].
    - apply placeAt_placed_from. }
  split.
  - apply (Hgen _ _ (Hpl _)).
  - exists r2, jit. apply (Hgen _ _ (Hpl _)).
Qed.

Lemma hatch_spawn_spec egg s :
  exists r jit,
    placed_from (count s)
      (upd (count s) (hatch_row egg jit (count s) (tick s))
           (set_RNG_S r (set_count (count s + 1) s)))
      (fst (hatch_spawn egg s)) (snd (hatch_spawn egg s)).
Proof.
  unfold hatch_spawn.
  rewrite applyGenome_spec. unfold setTraitAlleles, applyPhenotypeFromGenes.
  rewrite !upd_upd.
  generalize (fst (genesFromGenome (e_genome egg)
                     (RNG_S (set_count (count s + 1) s)))) as jit.
  generalize (snd (genesFromGenome (e_genome egg)
                     (RNG_S (set_count (count s + 1) s)))) as r2.
  intros r2 jit. exists r2, jit.
  change (tick (upd ?a ?b (set_RNG_S ?c (set_count ?d s)))) with (tick s).
  change (fun e : Entity =>
            with_lastReproTickA (tick s) (with_reproTimerA 0
              (with_reproStateA ready (with_adultA false
                (with_aliveA true (with_ageA 0 (with_hydrationA (8 # 10)
                  (with_energyA (CHILD_ENERGY_START * viability egg)
                    (with_idA (count s + 1)
                      (applyPhenotypeFromGenes_row (with_genesA (e_genes egg)
                        (applyPhenotypeFromGenes_row
                           (applyGenome_cols (e_genome egg) jit e)))))))))))))
    with (hatch_row egg jit (count s) (tick s)).
  generalize (upd (count s) (hatch_row egg jit (count s) (tick s))
                  (set_RNG_S r2 (set_count (count s + 1) s))) as filled.
  intros filled.
  destruct (is_fish (ent filled (count s)) && negb (is_water filled (e_x egg) (e_y egg))).
  - destruct (findNearbyWater filled (e_x egg) (e_y egg) 2) as [[wx wy]|];
      [|constructor].
    destruct (is_free filled wx wy); [apply placeAt_placed_from | constructor].
  - destruct (is_free filled (e_x egg) (e_y egg));
      [apply placeAt_placed_from | constructor].
Qed.

Lemma set_RNG_S_same s : set_RNG_S (RNG_S s) s = s.
Proof. by destruct s. Qed.

Lemma addEntity_tries_spec n i s :
  exists r b, placed_from i (set_RNG_S r s) b (addEntity_tries n i s).
Proof.
  revert s. induction n as [|n IH]; intros s.
  - exists (RNG_S s), false. cbn [addEntity_tries].
    rewrite set_RNG_S_same. constructor.
  - cbn [addEntity_tries]. rewrite !draw_spec.
    generalize (fst (rng_index (W s) (RNG_S s))) as x.
    generalize (snd (rng_index (W s) (RNG_S s))) as r1. intros r1 x.
    generalize (fst (rng_index (H (set_RNG_S r1 s)) (RNG_S (set_RNG_S r1 s)))) as y.
    generalize (snd (rng_index (H (set_RNG_S r1 s)) (RNG_S (set_RNG_S r1 s)))) as r2.
    intros r2 y.
    change (set_RNG_S r2 (set_RNG_S r1 s)) with (set_RNG_S r2 s).
    destruct (IH (set_RNG_S r2 s)) as (r & b & Hp).
    change (set_RNG_S r (set_RNG_S r2 s)) with (set_RNG_S r s) in Hp.
    destruct (is_fish (ent (set_RNG_S r2 s) i) && _).
    + exists r, b. exact Hp.
    + rewrite placeAt_spec. case_decide.
      * exists r2, true. by constructor.
      * exists r, b. exact Hp.
Qed.

Lemma set_RNG_S_upd r k f s : set_RNG_S r (upd k f s) = upd k f (set_RNG_S r s).
Proof. reflexivity. Qed.

Lemma addEntity_spec g energy age s :
  count s < MAX_ENTITIES ->
  exists r jit b s1,
    placed_from (count s)
      (upd (count s) (seed_row g jit energy age (count s))
           (set_RNG_S r (set_count (count s + 1) s))) b s1
    /\ addEntity g energy age s = count_birth (count s) s1.
Proof.
  intros Hc. unfold addEntity. rewrite decide_False by lia.
  rewrite applyGenome_spec.
  generalize (fst (genesFromGenome g (RNG_S (upd (count s) (with_idA (count s + 1))
                                      (set_count (count s + 1) s))))) as jit.
  generalize (snd (genesFromGenome g (RNG_S (upd (count s) (with_idA (count s + 1))
                                      (set_count (count s + 1) s))))) as r2.
  intros r2 jit.
  rewrite set_RNG_S_upd, !upd_upd.
  change (fun e : Entity =>
            with_ageA age (with_hydrationA 1 (with_energyA energy
              (with_adultA false (with_aliveA true
                (applyPhenotypeFromGenes_row
                   (applyGenome_cols g jit (with_idA (count s + 1) e))))))))
    with (seed_row g jit energy age (count s)).
  destruct (addEntity_tries_spec 20 (count s)
              (upd (count s) (seed_row g jit energy age (count s))
                   (set_RNG_S r2 (set_count (count s + 1) s))))
    as (r & b & Hp).
  rewrite set_RNG_S_upd in Hp.
  change (set_RNG_S r (set_RNG_S r2 (set_count (count s + 1) s)))
    with (set_RNG_S r (set_count (count s + 1) s)) in Hp.
  exists r, jit, b. eexists. split; [exact Hp | reflexivity].
Qed.

Lemma with_xy_eta e : with_yA (yA e) (with_xA (xA e) e) = e.
Proof. by destruct e. Qed.

(** What a placement attempt leaves of the state it started from. *)
Lemma placed_from_frame k row r s b s1 :
  placed_from k (upd k row (set_RNG_S r (set_count (k + 1) s))) b s1 ->
  count s1 = k + 1 /\ W s1 = W s /\ H s1 = H s /\ tick s1 = tick s
  /\ total s1 = total s /\ animals s1 = animals s /\ plants s1 = plants s
  /\ eggs s1 = eggs s /\ MUTATION_LOG s1 = MUTATION_LOG s
  /\ ta_len (occ s1) = ta_len (occ s)
  /\ (forall i, i <> k -> ent s1 i = ent s i)
  /\ (exists x y, ent s1 k = with_yA y (with_xA x (row (ent s k))))
  /\ (b = false -> occ s1 = occ s).
Proof.
  intros Hp. inversion Hp as [|x y Hfree]; subst.
  - do 10 (split; [reflexivity|]). split; [|split].
    + intros i Hi. rewrite ent_upd_ne by congruence. reflexivity.
    + exists (xA (row (ent s k))), (yA (row (ent s k))).
      rewrite ent_upd_eq, ent_set_RNG_S, ent_set_count.
      symmetry. apply with_xy_eta.
    + reflexivity.
  - do 9 (split; [reflexivity|]). split; [|split; [|split]].
    + cbn [occ set_occ]. apply ta_len_set.
    + intros i Hi. rewrite ent_set_occ, !ent_upd_ne by congruence. reflexivity.
    + exists x, y. rewrite ent_set_occ, !ent_upd_eq, ent_set_RNG_S, ent_set_count.
      reflexivity.
    + discriminate.
Qed.


(** ** The slot counter *)

Lemma register_birth_count k b s : count (register_birth k b s) = count s.
Proof.
  unfold register_birth.
  rewrite (sw_count _ _ (same_world_penalty _ _ _)).
  rewrite (sw_count _ _ (same_world_recordBirth _ _)).
  by destruct (count_birth_spec k s) as (_ & -> & _).
Qed.

Lemma removeAt_count i s : count (removeAt i s) = count s.
Proof.
  unfold removeAt. destruct (aliveA (ent s i)); [|reflexivity].
  destruct (lifeType _); case_decide; reflexivity.
Qed.

Lemma moveEntity_count i nx ny s : count (snd (moveEntity i nx ny s)) = count s.
Proof. unfold moveEntity. repeat case_decide; reflexivity. Qed.

Lemma birth_count p1 p2 x y s :
  count s < MAX_ENTITIES ->
  count (birth p1 p2 x y s)
  = if fst (fst (birth_spawn p1 p2 x y s)) then count s + 1 else count s.
Proof.
  intros Hc. rewrite birth_unfold by exact Hc. cbv zeta.
  destruct (birth_spawn_spec p1 p2 x y s) as (_ & r & jit & Hp).
  apply placed_from_frame in Hp. destruct Hp as (Hcnt & _).
  destruct (fst (fst (birth_spawn p1 p2 x y s))); cbn [negb].
  - rewrite (sw_count _ _ (same_world_detectMutation _ _ _ _ _)).
    by rewrite register_birth_count.
  - cbn [count set_count]. lia.
Qed.

Lemma hatchEgg_count egg s :
  count s < MAX_ENTITIES ->
  count (hatchEgg egg s)
  = if fst (hatch_spawn egg s) then count s + 1 else count s.
Proof.
  intros Hc. rewrite hatchEgg_unfold by exact Hc. cbv zeta.
  destruct (hatch_spawn_spec egg s) as (r & jit & Hp).
  apply placed_from_frame in Hp. destruct Hp as (Hcnt & _).
  destruct (fst (hatch_spawn egg s)); cbn [negb].
  - rewrite (sw_count _ _ (same_world_detectMutation _ _ _ _ _)).
    by rewrite register_birth_count.
  - cbn [count set_count]. lia.
Qed.

Lemma addEntity_count g energy age s :
  count s < MAX_ENTITIES -> count (addEntity g energy age s) = count s + 1.
Proof.
  intros Hc. destruct (addEntity_spec g energy age s Hc) as (r & jit & b & s1 & Hp & ->).
  apply placed_from_frame in Hp. destruct Hp as (Hcnt & _).
  by destruct (count_birth_spec (count s) s1) as (_ & -> & _).
Qed.

Lemma updateEgg_count egg s : count s <= count (snd (updateEgg egg s)).
Proof.
  assert (Hh : forall e t, count t <= count (hatchEgg e t)).
  { intros e t. destruct (decide (count t < MAX_ENTITIES)) as [Hc|Hc].
    - rewrite hatchEgg_count by exact Hc. destruct (fst _); lia.
    - unfold hatchEgg. rewrite decide_True by lia. lia. }
  unfold updateEgg. rewrite draw_spec.
  destruct (Qlt_bool _ _); [cbn; lia|].
  case_decide; [|cbn; lia].
  destruct (Qlt_bool (3 # 10) _); [|cbn; lia].
  rewrite draw_spec. destruct (Qlt_bool _ _); [|cbn; lia].
  cbn [snd]. etransitivity; [|apply Hh]. cbn. lia.
Qed.

Lemma updateEggs_count s : count s <= count (updateEggs s).
Proof.
  unfold updateEggs.
  assert (Hfold : forall l,
            count s <= count (snd (fold_right
              (fun egg (acc : list EggData * State) =>
                 let (o, s1) := updateEgg egg (snd acc) in
                 (match o with Some e => e :: fst acc | None => fst acc end, s1))
              ([], s) l))).
  { induction l as [|egg l IH]; [cbn; lia|].
    cbn [fold_right]. 
    pose proof (updateEgg_count egg (snd (fold_right
              (fun egg (acc : list EggData * State) =>
                 let (o, s1) := updateEgg egg (snd acc) in
                 (match o with Some e => e :: fst acc | None => fst acc end, s1))
              ([], s) l))) as Hstep.
    destruct (updateEgg egg _) as [o s1]. cbn [snd] in *. lia. }
  specialize (Hfold (eggs s)).
  destruct (fold_right _ _ _) as [kept s']. exact Hfold.
Qed.

(** C9. The slot counter [count] never decreases: removing an entity
    leaves it unchanged, and seeding, birth, hatching, [place] and the egg
    pass leave it unchanged or raise it; once it has reached
    [MAX_ENTITIES], every birth, hatching and [place] is refused and leaves
    the state as it was, whatever the number of live entities. *)
Theorem slot_counter_monotone :
  (forall i s, count (removeAt i s) = count s) /\
  (forall i nx ny s, count (snd (moveEntity i nx ny s)) = count s) /\
  (forall g energy age s, count s <= count (addEntity g energy age s)) /\
  (forall p1 p2 x y s, count s <= count (birth p1 p2 x y s)) /\
  (forall egg s, count s <= count (hatchEgg egg s)) /\
  (forall x y g energy s, count s <= count (snd (place x y g energy s))) /\
  (forall s, count s <= count (updateEggs s)) /\
  (forall s, count s >= MAX_ENTITIES ->
     (forall p1 p2 x y, birth p1 p2 x y s = s) /\
     (forall egg, hatchEgg egg s = s) /\
     (forall x y g energy, place x y g energy s = (false, s)) /\
     (forall g energy age, addEntity g energy age s = s)).
Proof.
  split; [exact removeAt_count|]. split; [exact moveEntity_count|].
  split; [|split; [|split; [|split; [|split]]]].
  - intros g energy age s. destruct (decide (count s < MAX_ENTITIES)) as [Hc|Hc].
    + rewrite addEntity_count by exact Hc. lia.
    + unfold addEntity. rewrite decide_True by lia. lia.
  - intros p1 p2 x y s. destruct (decide (count s < MAX_ENTITIES)) as [Hc|Hc].
    + rewrite birth_count by exact Hc. destruct (fst (fst _)); lia.
    + unfold birth. rewrite decide_True by lia. lia.
  - intros egg s. destruct (decide (count s < MAX_ENTITIES)) as [Hc|Hc].
    + rewrite hatchEgg_count by exact Hc. destruct (fst _); lia.
    + unfold hatchEgg. rewrite decide_True by lia. lia.
  - intros x y g energy s.
    destruct (decide (count s < MAX_ENTITIES /\ 0 <= x < W s /\ 0 <= y < H s
                      /\ ta_get (occ s) (idx s x y) = Some (-1)))
      as [(Hc & Hx & Hy & Hfree)|Hno].
    + rewrite (place_success x y g energy s Hc Hx Hy Hfree). cbn [snd].
      destruct (count_birth_spec (count s)
                  (set_occ (ta_set (occ s) (idx s x y) (count s))
                     (upd (count s) (fun e => with_yA y (with_xA x e))
                        (place_filled g energy s)))) as (_ & -> & _).
      unfold place_filled. rewrite applyGenome_spec. cbn [count set_occ upd set_ents set_count set_RNG_S]. lia.
    + rewrite place_refused; [cbn; lia|].
      destruct (decide (count s >= MAX_ENTITIES)); [by left|].
      destruct (decide (x < 0)); [by right; left|].
      destruct (decide (y < 0)); [by right; right; left|].
      destruct (decide (x >= W s)); [by right; right; right; left|].
      destruct (decide (y >= H s)); [by right; right; right; right; left|].
      right; right; right; right; right. intros Hfree. apply Hno.
      repeat split; try lia. exact Hfree.
  - exact updateEggs_count.
  - intros s Hc. repeat split.
    + intros. unfold birth. by rewrite decide_True by lia.
    + intros. unfold hatchEgg. by rewrite decide_True by lia.
    + intros. apply place_refused. by left.
    + intros. unfold addEntity. by rewrite decide_True by lia.
Qed.

Lemma slot_counter_monotone_witness :
  birth 0 None 11 10 (set_count MAX_ENTITIES demo_state)
  = set_count MAX_ENTITIES demo_state.
Proof.
  destruct slot_counter_monotone as (_ & _ & _ & _ & _ & _ & _ & Hcap).
  apply (Hcap (set_count MAX_ENTITIES demo_state)). vm_compute. discriminate.
Defined.

(** ** Row invariants

    A property [R] of entity rows that every row-writing path of the
    creation code respects holds of all rows after seeding, [place], birth,
    hatching, the egg pass, removal and movement.  [E] is the property of
    eggs that the hatching path may rely on. *)

Section RowInvariant.

Variable R : Entity -> Prop.
Variable E : EggData -> Prop.

Hypothesis R_seed : forall g jit energy age i e x y,
  (0 <= energy <= 1)%Q ->
  R (with_yA y (with_xA x (seed_row g jit energy age i e))).
Hypothesis R_place : forall g jit energy k e x y,
  R (with_yA y (with_xA x
       (set_species (Z.rem (speciesId (genomeA
          (applyPhenotypeFromGenes_row (applyGenome_cols g jit e)))) SPECIES_MAX)
          (with_adultA false (with_aliveA true (with_ageA 0
             (with_hydrationA 1 (with_energyA (clamp01 energy)
               (with_idA (k + 1)
                  (applyPhenotypeFromGenes_row (applyGenome_cols g jit e))))))))))).
Hypothesis R_birth : forall o jit k e x y,
  R (with_yA y (with_xA x (birth_row o jit k e))).
Hypothesis R_hatch : forall egg jit k tk e x y,
  E egg -> R (with_yA y (with_xA x (hatch_row egg jit k tk e))).
Hypothesis R_species_glow : forall e e', species_glow e e' -> R e -> R e'.
Hypothesis R_penalty : forall e v, R e -> R (with_dietShiftPenaltyA v e).
Hypothesis R_dead : forall e, R e -> R (with_aliveA false e).
Hypothesis R_move : forall e x y, R e -> R (with_yA y (with_xA x e)).
Hypothesis E_age : forall s egg, E egg -> E (ageEgg s egg).
Hypothesis R_zero : R zeroEnt.

Lemma rows_ok_spawn k row r s b s1 :
  (forall e x y, R (with_yA y (with_xA x (row e)))) ->
  placed_from k (upd k row (set_RNG_S r (set_count (k + 1) s))) b s1 ->
  rows_ok R s -> rows_ok R s1.
Proof using Type.
  intros Hrow Hp Hs i. apply placed_from_frame in Hp.
  destruct Hp as (_ & _ & _ & _ & _ & _ & _ & _ & _ & _ & Hother & (x & y & Hk) & _).
  destruct (decide (i = k)) as [->|Hne].
  - rewrite Hk. apply Hrow.
  - rewrite Hother by exact Hne. apply Hs.
Qed.

Lemma ent_register_birth k b s i :
  ent (register_birth k b s) i
  = if b && bool_decide (i = k)
    then with_dietShiftPenaltyA DIET_SHIFT_PENALTY_TICKS (ent s k)
    else ent s i.
Proof using Type.
  unfold register_birth, set_dietShiftPenalty.
  assert (Hrb : forall lt t j, ent (recordBirth lt t) j = ent t j).
  { intros lt t j. unfold recordBirth. by destruct (currentDayStats t). }
  destruct b; cbn [andb].
  - rewrite ent_upd. case_decide as Hd.
    + subst i. rewrite bool_decide_eq_true_2 by reflexivity.
      by rewrite Hrb, ent_count_birth.
    + rewrite bool_decide_eq_false_2 by congruence.
      by rewrite Hrb, ent_count_birth.
  - by rewrite Hrb, ent_count_birth.
Qed.

Lemma rows_ok_register_birth k b s :
  rows_ok R s -> rows_ok R (register_birth k b s).
Proof using R_penalty.
  intros Hs i. rewrite ent_register_birth.
  destruct (b && bool_decide (i = k)); [apply R_penalty|]; apply Hs.
Qed.

Lemma rows_ok_detectMutation k p1 sh re s :
  rows_ok R s -> rows_ok R (detectMutation k p1 sh re s).
Proof using R_species_glow.
  intros Hs i. destruct (detectMutation_rows k p1 sh re s i) as [_ Hsg].
  exact (R_species_glow _ _ Hsg (Hs i)).
Qed.

Lemma rows_ok_set_count c s : rows_ok R s -> rows_ok R (set_count c s).
Proof using Type. intros Hs i. apply Hs. Qed.

Lemma rows_ok_birth p1 p2 x y s : rows_ok R s -> rows_ok R (birth p1 p2 x y s).
Proof using R_birth R_species_glow R_penalty.
  intros Hs. destruct (decide (count s < MAX_ENTITIES)) as [Hc|Hc].
  - rewrite birth_unfold by exact Hc. cbv zeta.
    destruct (birth_spawn_spec p1 p2 x y s) as (_ & r & jit & Hp).
    assert (H1 : rows_ok R (snd (birth_spawn p1 p2 x y s))).
    { eapply rows_ok_spawn; [|exact Hp|exact Hs]. intros; apply R_birth. }
    destruct (negb _).
    + by apply rows_ok_set_count.
    + by apply rows_ok_detectMutation, rows_ok_register_birth.
  - unfold birth. by rewrite decide_True by lia.
Qed.

Lemma rows_ok_hatchEgg egg s :
  E egg -> rows_ok R s -> rows_ok R (hatchEgg egg s).
Proof using R_hatch R_species_glow R_penalty.
  intros He Hs. destruct (decide (count s < MAX_ENTITIES)) as [Hc|Hc].
  - rewrite hatchEgg_unfold by exact Hc. cbv zeta.
    destruct (hatch_spawn_spec egg s) as (r & jit & Hp).
    assert (H1 : rows_ok R (snd (hatch_spawn egg s))).
    { eapply rows_ok_spawn; [|exact Hp|exact Hs]. intros; by apply R_hatch. }
    destruct (negb _).
    + by apply rows_ok_set_count.
    + by apply rows_ok_detectMutation, rows_ok_register_birth.
  - unfold hatchEgg. by rewrite decide_True by lia.
Qed.

Lemma rows_ok_count_birth k s : rows_ok R s -> rows_ok R (count_birth k s).
Proof using Type. intros Hs i. rewrite ent_count_birth. apply Hs. Qed.

Lemma rows_ok_addEntity g energy age s :
  (0 <= energy <= 1)%Q ->
  rows_ok R s -> rows_ok R (addEntity g energy age s).
Proof using R_seed.
  intros He Hs. destruct (decide (count s < MAX_ENTITIES)) as [Hc|Hc].
  - destruct (addEntity_spec g energy age s Hc) as (r & jit & b & s1 & Hp & ->).
    apply rows_ok_count_birth.
    eapply rows_ok_spawn; [|exact Hp|exact Hs]. intros; by apply R_seed.
  - unfold addEntity. by rewrite decide_True by lia.
Qed.

Lemma rows_ok_place x y g energy s :
  rows_ok R s -> rows_ok R (snd (place x y g energy s)).
Proof using R_place.
  intros Hs.
  destruct (decide (count s < MAX_ENTITIES /\ 0 <= x < W s /\ 0 <= y < H s
                    /\ ta_get (occ s) (idx s x y) = Some (-1)))
    as [(Hc & Hx & Hy & Hfree)|Hno].
  - rewrite (place_success x y g energy s Hc Hx Hy Hfree). cbn [snd].
    apply rows_ok_count_birth. intros i.
    rewrite ent_set_occ. unfold place_filled. rewrite applyGenome_spec, !upd_upd.
    rewrite ent_upd. case_decide; [|apply Hs].
    rewrite ent_set_RNG_S, ent_set_count. apply R_place.
  - rewrite place_refused; [exact Hs|].
    destruct (decide (count s >= MAX_ENTITIES)); [by left|].
    destruct (decide (x < 0)); [by right; left|].
    destruct (decide (y < 0)); [by right; right; left|].
    destruct (decide (x >= W s)); [by right; right; right; left|].
    destruct (decide (y >= H s)); [by right; right; right; right; left|].
    right; right; right; right; right. intros Hfree. apply Hno.
    repeat split; try lia. exact Hfree.
Qed.

Lemma ents_removeAt j s :
  ents (removeAt j s)
  = if aliveA (ent s j) then ents (upd j (with_aliveA false) s) else ents s.
Proof using Type.
  unfold removeAt. destruct (aliveA (ent s j)); [|reflexivity].
  destruct (lifeType _); case_decide; reflexivity.
Qed.

Lemma ent_removeAt j s i :
  ent (removeAt j s) i
  = if aliveA (ent s j) && bool_decide (i = j)
    then with_aliveA false (ent s j) else ent s i.
Proof using Type.
  unfold ent at 1. rewrite ents_removeAt.
  destruct (aliveA (ent s j)); [|reflexivity]. cbn [andb].
  fold (ent (upd j (with_aliveA false) s) i). rewrite ent_upd.
  case_decide.
  - subst. by rewrite bool_decide_eq_true_2.
  - by rewrite bool_decide_eq_false_2 by congruence.
Qed.

Lemma rows_ok_removeAt j s : rows_ok R s -> rows_ok R (removeAt j s).
Proof using R_dead.
  intros Hs i. rewrite ent_removeAt.
  destruct (_ && _); [apply R_dead|]; apply Hs.
Qed.

Lemma rows_ok_moveEntity j nx ny s :
  rows_ok R s -> rows_ok R (snd (moveEntity j nx ny s)).
Proof using R_move.
  intros Hs i. unfold moveEntity. case_decide; [apply Hs|].
  case_decide; [|apply Hs]. cbn [snd]. rewrite ent_upd, ent_set_occ.
  case_decide; [apply R_move|]; apply Hs.
Qed.

Lemma rows_ok_updateEgg egg s :
  E egg -> rows_ok R s ->
  rows_ok R (snd (updateEgg egg s))
  /\ match fst (updateEgg egg s) with Some e => E e | None => True end.
Proof using R_hatch R_species_glow R_penalty E_age.
  intros He Hs. unfold updateEgg. rewrite draw_spec.
  destruct (Qlt_bool _ _); [by split|].
  case_decide.
  - destruct (Qlt_bool (3 # 10) _); [|by split].
    rewrite draw_spec. destruct (Qlt_bool _ _); [|by split].
    split; [|done]. cbn [snd]. apply rows_ok_hatchEgg; [by apply E_age|].
    intros i. apply Hs.
  - split; [exact Hs | by apply E_age].
Qed.

Lemma rows_ok_updateEggs s :
  Forall E (eggs s) -> rows_ok R s ->
  rows_ok R (updateEggs s) /\ Forall E (eggs (updateEggs s)).
Proof using R_hatch R_species_glow R_penalty E_age.
  intros HE Hs. unfold updateEggs.
  assert (Hfold : forall l, Forall E l ->
            let acc := fold_right
              (fun egg (acc : list EggData * State) =>
                 let (o, s1) := updateEgg egg (snd acc) in
                 (match o with Some e => e :: fst acc | None => fst acc end, s1))
              ([], s) l in
            rows_ok R (snd acc) /\ Forall E (fst acc)).
  { induction l as [|egg l IH]; intros Hl; [by split|].
    apply Forall_cons in Hl as [Hegg Hl]. specialize (IH Hl).
    cbv zeta in *. cbn [fold_right].
    destruct IH as [IH1 IH2].
    pose proof (rows_ok_updateEgg egg _ Hegg IH1) as Hstep.
    destruct (updateEgg egg _) as [o s1]. cbn [fst snd] in *.
    destruct Hstep as [H1 H2]. split; [exact H1|].
    destruct o; [by constructor | exact IH2]. }
  specialize (Hfold (eggs s) HE). cbv zeta in Hfold.
  destruct (fold_right _ _ _) as [kept s']. cbn [fst snd] in Hfold.
  destruct Hfold as [H1 H2]. split; [intros i; apply H1 | exact H2].
Qed.

Lemma rows_ok_seed_one life e0 de amax s :
  (0 <= e0)%Q -> (0 <= de)%Q -> (e0 + de <= 1)%Q ->
  rows_ok R s -> rows_ok R (seed_one life e0 de amax s).
Proof using R_seed.
  intros H0 Hd H1 Hs. unfold seed_one. rewrite !draw_spec.
  apply rows_ok_addEntity; [|intros i; apply Hs].
  unfold bind, ret. 
  pose proof (rng_range (RNG_S (set_RNG_S
                 (snd (randomGenome life (RNG_S s))) s))) as Hu.
  destruct (rng _) as [u r']. cbn [fst] in *. destruct Hu as [Hu0 Hu1].
  split.
  - apply Qle_trans with (e0 + 0)%Q; [rewrite Qplus_0_r; exact H0|].
    apply Qplus_le_r. by apply Qmult_le_0_compat.
  - apply Qle_trans with (e0 + de)%Q; [|exact H1].
    apply Qplus_le_r.
    apply Qle_trans with (1 * de)%Q;
      [by apply Qmult_le_compat_r | rewrite Qmult_1_l; apply Qle_refl].
Qed.

Lemma rows_ok_repeat n f s :
  (forall t, rows_ok R t -> rows_ok R (f t)) ->
  rows_ok R s -> rows_ok R (repeat_state n f s).
Proof using Type.
  intros Hf. revert s. induction n as [|n IH]; intros s Hs; [exact Hs|].
  cbn [repeat_state]. apply IH, Hf, Hs.
Qed.

Lemma rows_ok_seedWorld plantCount animalCount s :
  rows_ok R s -> rows_ok R (seedWorld plantCount animalCount s).
Proof using R_seed.
  intros Hs. unfold seedWorld.
  apply rows_ok_repeat; [intros t; by apply rows_ok_seed_one|].
  apply rows_ok_repeat; [intros t; by apply rows_ok_seed_one|]. exact Hs.
Qed.

Lemma rows_ok_init buildEnv seed startPlants startAnimals w h s :
  rows_ok R (init buildEnv seed startPlants startAnimals w h s).
Proof using R_seed R_zero.
  unfold init. intros i.
  change (ent (resetPopulationDiagnostics ?t) i) with (ent t i).
  apply rows_ok_seedWorld. intros j. exact R_zero.
Qed.

Lemma rows_ok_reseed buildEnv seed startPlants startAnimals w h s :
  rows_ok R (reseed buildEnv seed startPlants startAnimals w h s).
Proof using R_seed R_zero.
  unfold reseed. intros i.
  change (ent (resetPopulationDiagnostics ?t) i) with (ent t i).
  apply rows_ok_seedWorld. intros j. exact R_zero.
Qed.

End RowInvariant.

(** ** Lifespan floor (maturity + 200) *)

Lemma lifespan_pheno e : lifespan_ok (applyPhenotypeFromGenes_row e).
Proof. unfold lifespan_ok, applyPhenotypeFromGenes_row. cbn [genomeA with_genomeA maturityAge maxAge]. apply Z.le_max_l. Qed.

Lemma lifespan_species_glow e e' :
  species_glow e e' -> lifespan_ok e -> lifespan_ok e'.
Proof. unfold species_glow, lifespan_ok. intros ->. by destruct e. Qed.

Section LifespanRows.

Let R (e : Entity) : Prop := aliveA e = true -> lifespan_ok e.

Lemma lifespan_R_seed g jit energy age i e x y :
  R (with_yA y (with_xA x (seed_row g jit energy age i e))).
Proof. intros _. exact (lifespan_pheno (applyGenome_cols g jit (with_idA (i + 1) e))). Qed.

Lemma lifespan_R_place g jit energy k e x y :
  R (with_yA y (with_xA x
       (set_species (Z.rem (speciesId (genomeA
          (applyPhenotypeFromGenes_row (applyGenome_cols g jit e)))) SPECIES_MAX)
          (with_adultA false (with_aliveA true (with_ageA 0
             (with_hydrationA 1 (with_energyA (clamp01 energy)
               (with_idA (k + 1)
                  (applyPhenotypeFromGenes_row (applyGenome_cols g jit e))))))))))).
Proof. intros _. exact (lifespan_pheno (applyGenome_cols g jit e)). Qed.

Lemma lifespan_R_birth o jit k e x y :
  R (with_yA y (with_xA x (birth_row o jit k e))).
Proof.
  intros _.
  exact (lifespan_pheno (with_genesA (o_genes o)
           (applyPhenotypeFromGenes_row (applyGenome_cols (o_genome o) jit e)))).
Qed.

Lemma lifespan_R_hatch egg jit k tk e x y :
  R (with_yA y (with_xA x (hatch_row egg jit k tk e))).
Proof.
  intros _.
  exact (lifespan_pheno (with_genesA (e_genes egg)
           (applyPhenotypeFromGenes_row (applyGenome_cols (e_genome egg) jit e)))).
Qed.

Lemma lifespan_R_species_glow e e' : species_glow e e' -> R e -> R e'.
Proof.
  intros Hsg HR Ha. apply (lifespan_species_glow e e' Hsg), HR.
  unfold species_glow in Hsg. rewrite Hsg in Ha. exact Ha.
Qed.

Lemma lifespan_R_penalty e v : R e -> R (with_dietShiftPenaltyA v e).
Proof. intros HR Ha. exact (HR Ha). Qed.

Lemma lifespan_R_dead e : R e -> R (with_aliveA false e).
Proof. intros _ Ha. discriminate Ha. Qed.

Lemma lifespan_R_move e x y : R e -> R (with_yA y (with_xA x e)).
Proof. intros HR Ha. exact (HR Ha). Qed.

Lemma lifespan_R_zero : R zeroEnt.
Proof. intros Ha. discriminate Ha. Qed.

End LifespanRows.

(** C10. Whenever the phenotype of an entity is derived from its alleles,
    its maximum age is at least its maturity age plus 200 ticks; so it is
    for every live entity after seeding ([init], [reseed]), and it stays so
    through [place], birth, hatching, the egg pass, removal and movement. *)
Theorem lifespan_floor :
  (forall e, lifespan_ok (applyPhenotypeFromGenes_row e)) /\
  (forall buildEnv seed startPlants startAnimals w h s,
     lifespan_inv (init buildEnv seed startPlants startAnimals w h s) /\
     lifespan_inv (reseed buildEnv seed startPlants startAnimals w h s)) /\
  (forall s, lifespan_inv s ->
     (forall x y g energy, lifespan_inv (snd (place x y g energy s))) /\
     (forall p1 p2 x y, lifespan_inv (birth p1 p2 x y s)) /\
     (forall egg, lifespan_inv (hatchEgg egg s)) /\
     lifespan_inv (updateEggs s) /\
     (forall i, lifespan_inv (removeAt i s)) /\
     (forall i nx ny, lifespan_inv (snd (moveEntity i nx ny s)))).
Proof.
  pose (R := fun e : Entity => aliveA e = true -> lifespan_ok e).
  assert (Hseed : forall g jit energy age i e x y, (0 <= energy <= 1)%Q ->
            R (with_yA y (with_xA x (seed_row g jit energy age i e))))
    by (intros g jit energy age i e x y _; exact (lifespan_R_seed g jit energy age i e x y)).
  assert (Hhatch : forall egg jit k tk e x y, (fun _ : EggData => True) egg ->
            R (with_yA y (with_xA x (hatch_row egg jit k tk e))))
    by (intros egg jit k tk e x y _; exact (lifespan_R_hatch egg jit k tk e x y)).
  split; [exact lifespan_pheno|]. split.
  - intros. split.
    + exact (rows_ok_init R Hseed lifespan_R_zero _ _ _ _ _ _ _).
    + exact (rows_ok_reseed R Hseed lifespan_R_zero _ _ _ _ _ _ _).
  - intros s Hs. repeat split.
    + intros. exact (rows_ok_place R lifespan_R_place _ _ _ _ _ Hs).
    + intros. exact (rows_ok_birth R lifespan_R_birth lifespan_R_species_glow
                       lifespan_R_penalty _ _ _ _ _ Hs).
    + intros. exact (rows_ok_hatchEgg R _ Hhatch lifespan_R_species_glow
                       lifespan_R_penalty _ _ I Hs).
    + exact (proj1 (rows_ok_updateEggs R _ Hhatch lifespan_R_species_glow
                      lifespan_R_penalty (fun _ _ _ => I) s
                      (Forall_true _ _ (fun _ => I)) Hs)).
    + intros. exact (rows_ok_removeAt R lifespan_R_dead _ _ Hs).
    + intros. exact (rows_ok_moveEntity R lifespan_R_move _ _ _ _ Hs).
Qed.

Lemma lifespan_floor_witness :
  lifespan_inv empty_grid /\
  lifespan_inv (snd (place 3 4 zeroGenome (8 # 10) empty_grid)).
Proof.
  assert (Hinit : lifespan_inv empty_grid).
  { intros i Ha. vm_compute in Ha. discriminate Ha. }
  split; [exact Hinit|].
  destruct lifespan_floor as (_ & _ & Hstep).
  destruct (Hstep empty_grid Hinit) as (Hplace & _). apply Hplace.
Defined.

(** ** Diet and life type *)

Lemma rand_all_ret {A} (a : A) (P : A -> Prop) : P a -> rand_all (ret a) P.
Proof. intros Ha r. exact Ha. Qed.

Lemma rand_all_bind {A B} (m : Rand A) (k : A -> Rand B)
    (P1 : A -> Prop) (P : B -> Prop) :
  rand_all m P1 -> (forall a, P1 a -> rand_all (k a) P) -> rand_all (bind m k) P.
Proof.
  intros H1 H2 r. unfold bind. specialize (H1 r).
  destruct (m r) as [a r']. exact (H2 a H1 r').
Qed.

Lemma rand_all_bind_any {A B} (m : Rand A) (k : A -> Rand B) (P : B -> Prop) :
  (forall a, rand_all (k a) P) -> rand_all (bind m k) P.
Proof.
  intros H2. apply (rand_all_bind m k (fun _ => True)); [intros r; exact I|].
  intros a _. apply H2.
Qed.

Lemma normalizeDiet_animal d : normalizeDiet animal d <> photosynthesis.
Proof. by destruct d. Qed.

(** Diet drift never produces, and never leaves, photosynthesis. *)
Lemma maybeMutateAnimalDiet_animal s parentId d mr c sz vis host :
  d <> photosynthesis ->
  rand_all (maybeMutateAnimalDiet s parentId d mr c sz vis host)
           (fun res => fst res <> photosynthesis).
Proof.
  intros Hd. unfold maybeMutateAnimalDiet.
  destruct (getDietShiftContext s parentId) as [[sp po] pr].
  destruct d; [congruence| | |].
  - apply rand_all_bind_any. intros [|]; [by apply rand_all_ret|].
    apply rand_all_bind_any. intros [|]; by apply rand_all_ret.
  - apply rand_all_bind_any. intros [|]; by apply rand_all_ret.
  - apply rand_all_bind_any. intros [|]; [by apply rand_all_ret|].
    apply rand_all_bind_any. intros [|]; by apply rand_all_ret.
Qed.

Lemma createOffspringData_diet_ok s p1 p2 :
  rand_all (createOffspringData s p1 p2) (fun o => diet_ok (o_genome o)).
Proof.
  unfold createOffspringData.
  destruct (lifeType (sn_genome (encodeEntity s p1))) eqn:Elt.
  - (* plant *)
    rewrite bool_decide_eq_true_2 by reflexivity.
    do 6 (apply rand_all_bind_any; intros ?).
    do 4 (apply rand_all_bind_any; intros ?).
    apply rand_all_ret. unfold diet_ok. cbn. done.
  - (* animal *)
    rewrite bool_decide_eq_false_2 by discriminate.
    apply rand_all_bind_any; intros genes.
    apply rand_all_bind_any; intros cls.
    apply rand_all_bind_any; intros pb.
    apply (rand_all_bind _ _ (fun d => d <> photosynthesis)).
    { apply rand_all_bind_any; intros d. apply rand_all_ret.
      apply normalizeDiet_animal. }
    intros inheritedDiet Hinh.
    apply (rand_all_bind _ _ (fun res => fst res <> photosynthesis)).
    { by apply maybeMutateAnimalDiet_animal. }
    intros dm Hdm.
    do 5 (apply rand_all_bind_any; intros ?).
    apply rand_all_ret. unfold diet_ok. cbn. exact Hdm.
Qed.

Lemma diet_ok_cols g jit e :
  diet_ok (genomeA (applyPhenotypeFromGenes_row (applyGenome_cols g jit e))).
Proof.
  unfold diet_ok, applyPhenotypeFromGenes_row, applyGenome_cols.
  cbn [genomeA with_genomeA lifeType speed vision diet].
  destruct (lifeType g).
  - rewrite bool_decide_eq_true_2 by reflexivity. done.
  - apply normalizeDiet_animal.
Qed.

Lemma diet_ok_rederive genes e :
  diet_ok (genomeA e) ->
  diet_ok (genomeA (applyPhenotypeFromGenes_row (with_genesA genes e))).
Proof.
  unfold diet_ok, applyPhenotypeFromGenes_row.
  cbn [genomeA with_genomeA with_genesA lifeType speed vision diet].
  destruct (lifeType (genomeA e)).
  - rewrite bool_decide_eq_true_2 by reflexivity. intros (_ & _ & Hd). done.
  - done.
Qed.

Lemma diet_ok_species_glow e e' :
  species_glow e e' -> diet_ok (genomeA e) -> diet_ok (genomeA e').
Proof. unfold species_glow. intros ->. by destruct e as [? ? ? ? ? ? ? ? []]. Qed.

Section DietRows.

Let R (e : Entity) : Prop := diet_ok (genomeA e).

Lemma diet_R_seed g jit energy age i e x y :
  R (with_yA y (with_xA x (seed_row g jit energy age i e))).
Proof. exact (diet_ok_cols g jit (with_idA (i + 1) e)). Qed.

Lemma diet_R_place g jit energy k e x y :
  R (with_yA y (with_xA x
       (set_species (Z.rem (speciesId (genomeA
          (applyPhenotypeFromGenes_row (applyGenome_cols g jit e)))) SPECIES_MAX)
          (with_adultA false (with_aliveA true (with_ageA 0
             (with_hydrationA 1 (with_energyA (clamp01 energy)
               (with_idA (k + 1)
                  (applyPhenotypeFromGenes_row (applyGenome_cols g jit e))))))))))).
Proof. exact (diet_ok_cols g jit e). Qed.

Lemma diet_R_birth o jit k e x y :
  R (with_yA y (with_xA x (birth_row o jit k e))).
Proof. exact (diet_ok_rederive (o_genes o) _ (diet_ok_cols (o_genome o) jit e)). Qed.

Lemma diet_R_hatch egg jit k tk e x y :
  R (with_yA y (with_xA x (hatch_row egg jit k tk e))).
Proof. exact (diet_ok_rederive (e_genes egg) _ (diet_ok_cols (e_genome egg) jit e)). Qed.

Lemma diet_R_species_glow e e' : species_glow e e' -> R e -> R e'.
Proof. exact (diet_ok_species_glow e e'). Qed.

Lemma diet_R_penalty e v : R e -> R (with_dietShiftPenaltyA v e).
Proof. intros HR. exact HR. Qed.

Lemma diet_R_dead e : R e -> R (with_aliveA false e).
Proof. intros HR. exact HR. Qed.

Lemma diet_R_move e x y : R e -> R (with_yA y (with_xA x e)).
Proof. intros HR. exact HR. Qed.

Lemma diet_R_zero : R zeroEnt.
Proof. unfold R, diet_ok. cbn. done. Qed.

End DietRows.

(** C3. Every row of the entity arrays satisfies: a plant has speed 0,
    vision 0 and diet photosynthesis, an animal has a diet other than
    photosynthesis.  It holds after world seeding ([init], [reseed]) and is
    kept by [place] with an arbitrary genome, birth, hatching, the egg pass,
    removal and movement; the offspring genome that [createOffspringData]
    builds satisfies it as well, and diet drift maps a diet other than
    photosynthesis to a diet other than photosynthesis. *)
Theorem plant_animal_diet_invariant :
  (forall buildEnv seed startPlants startAnimals w h s,
     diet_inv (init buildEnv seed startPlants startAnimals w h s) /\
     diet_inv (reseed buildEnv seed startPlants startAnimals w h s)) /\
  (forall s, diet_inv s ->
     (forall x y g energy, diet_inv (snd (place x y g energy s))) /\
     (forall p1 p2 x y, diet_inv (birth p1 p2 x y s)) /\
     (forall egg, diet_inv (hatchEgg egg s)) /\
     diet_inv (updateEggs s) /\
     (forall i, diet_inv (removeAt i s)) /\
     (forall i nx ny, diet_inv (snd (moveEntity i nx ny s)))) /\
  (forall s p1 p2 r, diet_ok (o_genome (fst (createOffspringData s p1 p2 r)))) /\
  (forall s parentId d mr c sz vis host r,
     d <> photosynthesis ->
     fst (fst (maybeMutateAnimalDiet s parentId d mr c sz vis host r))
       <> photosynthesis).
Proof.
  pose (R := fun e : Entity => diet_ok (genomeA e)).
  assert (Hseed : forall g jit energy age i e x y, (0 <= energy <= 1)%Q ->
            R (with_yA y (with_xA x (seed_row g jit energy age i e))))
    by (intros g jit energy age i e x y _; exact (diet_R_seed g jit energy age i e x y)).
  assert (Hhatch : forall egg jit k tk e x y, (fun _ : EggData => True) egg ->
            R (with_yA y (with_xA x (hatch_row egg jit k tk e))))
    by (intros egg jit k tk e x y _; exact (diet_R_hatch egg jit k tk e x y)).
  split; [|split; [|split]].
  - intros. split.
    + exact (rows_ok_init R Hseed diet_R_zero _ _ _ _ _ _ _).
    + exact (rows_ok_reseed R Hseed diet_R_zero _ _ _ _ _ _ _).
  - intros s Hs. repeat split.
    + intros. exact (rows_ok_place R diet_R_place _ _ _ _ _ Hs).
    + intros. exact (rows_ok_birth R diet_R_birth diet_R_species_glow
                       diet_R_penalty _ _ _ _ _ Hs).
    + intros. exact (rows_ok_hatchEgg R _ Hhatch diet_R_species_glow
                       diet_R_penalty _ _ I Hs).
    + exact (proj1 (rows_ok_updateEggs R _ Hhatch diet_R_species_glow
                      diet_R_penalty (fun _ _ _ => I) s
                      (Forall_true _ _ (fun _ => I)) Hs)).
    + intros. exact (rows_ok_removeAt R diet_R_dead _ _ Hs).
    + intros. exact (rows_ok_moveEntity R diet_R_move _ _ _ _ Hs).
  - intros s p1 p2 r. exact (createOffspringData_diet_ok s p1 p2 r).
  - intros s parentId d mr c sz vis host r Hd.
    exact (maybeMutateAnimalDiet_animal s parentId d mr c sz vis host Hd r).
Qed.

Lemma plant_animal_diet_invariant_witness :
  diet_inv demo_state /\ diet_inv (birth 0 None 11 10 demo_state) /\
  fst (fst (maybeMutateAnimalDiet demo_state 0 herbivore (1 # 10) mammal
              1 1 1 (RNG_S demo_state))) <> photosynthesis.
Proof.
  assert (Hinit : diet_inv demo_state).
  { intros i. unfold ent, demo_state. cbn [ents set_count set_occ set_ents].
    destruct (decide (i = 0)) as [->|Hne].
    - rewrite lookup_singleton_eq. vm_compute. discriminate.
    - rewrite lookup_singleton_ne by congruence. vm_compute. done. }
  destruct plant_animal_diet_invariant as (_ & Hstep & _ & Hdrift).
  split; [exact Hinit|]. split.
  - destruct (Hstep demo_state Hinit) as (_ & Hbirth & _). apply Hbirth.
  - apply Hdrift. discriminate.
Defined.

(** ** Eggs at term *)

Lemma updateEgg_unfold egg0 s :
  updateEgg egg0 s =
  let egg := ageEgg s egg0 in
  let s1 := set_RNG_S (rng_next (RNG_S s)) s in
  if predation_roll s egg then (None, s1)
  else if decide (egg_at_term egg) then
    if Qlt_bool (3 # 10) (viability egg) then
      let s2 := set_RNG_S (rng_next (rng_next (RNG_S s))) s in
      if hatch_roll s egg then (None, hatchEgg egg s2) else (None, s2)
    else (None, s1)
  else (Some egg, s1).
Proof.
  unfold updateEgg, predation_roll, hatch_roll, egg_at_term.
  rewrite draw_spec. cbv zeta.
  change (snd (rng (RNG_S s))) with (rng_next (RNG_S s)).
  change (countAdjacentPredators s) with
    (countAdjacentPredators (set_RNG_S (rng_next (RNG_S s)) s)).
  destruct (Qlt_bool _ _); [reflexivity|].
  case_decide; [|reflexivity].
  destruct (Qlt_bool (3 # 10) _); [|reflexivity].
  rewrite draw_spec. reflexivity.
Qed.

Lemma register_birth_occ k b s : occ (register_birth k b s) = occ s.
Proof.
  unfold register_birth.
  rewrite (sw_occ _ _ (same_world_penalty _ _ _)).
  rewrite (sw_occ _ _ (same_world_recordBirth _ _)).
  by destruct (count_birth_spec k s) as (_ & _ & -> & _).
Qed.

(** ** [init] keeps the slot counter *)

Lemma repeat_state_one f s : repeat_state (Z.to_nat 1) f s = f s.
Proof. reflexivity. Qed.

Lemma repeat_state_zero f s : repeat_state (Z.to_nat 0) f s = s.
Proof. reflexivity. Qed.

Lemma seed_one_spec life e0 de amax s :
  count s < MAX_ENTITIES ->
  exists g jit energy age r b s1,
    placed_from (count s)
      (upd (count s) (seed_row g jit energy age (count s))
           (set_RNG_S r (set_count (count s + 1) s))) b s1
    /\ seed_one life e0 de amax s = count_birth (count s) s1.
Proof.
  intros Hc. unfold seed_one. rewrite !draw_spec.
  match goal with |- context [addEntity ?g ?en ?ag ?t] =>
    destruct (addEntity_spec g en ag t Hc) as (r & jit & b & s1 & Hp & Heq);
    exists g, jit, en, ag, r, b, s1 end.
  split; [exact Hp | exact Heq].
Qed.

(** One seeded entity: the slot [count s] is filled with a live entity
    whose id is [count s + 1]; the other rows are untouched. *)
Lemma seed_one_rows life e0 de amax s :
  count s < MAX_ENTITIES ->
  let s' := seed_one life e0 de amax s in
  count s' = count s + 1
  /\ ta_len (occ s') = ta_len (occ s)
  /\ W s' = W s
  /\ aliveA (ent s' (count s)) = true
  /\ idA (ent s' (count s)) = count s + 1
  /\ (forall i, i <> count s -> ent s' i = ent s i).
Proof.
  intros Hc. cbv zeta.
  destruct (seed_one_spec life e0 de amax s Hc)
    as (g & jit & energy & age & r & b & s1 & Hp & ->).
  apply placed_from_frame in Hp.
  destruct Hp as (Hcnt & HW & _ & _ & _ & _ & _ & _ & _ & Hlen & Hother & (x & y & Hk) & _).
  destruct (count_birth_spec (count s) s1) as (_ & Hc' & Hocc & _ & HW').
  rewrite Hc', Hocc, HW', !ent_count_birth, Hk.
  split; [exact Hcnt|]. split; [exact Hlen|]. split; [exact HW|].
  split; [reflexivity|]. split; [reflexivity|].
  intros i Hi. rewrite ent_count_birth. by apply Hother.
Qed.

Lemma init_keeps_slot_counter buildEnv seed w h s :
  count s < MAX_ENTITIES ->
  let s1 := init buildEnv seed 1 0 w h s in
  count s1 = count s + 1
  /\ tick s1 = tick s
  /\ idA (ent s1 (count s)) = count s + 1
  /\ aliveA (ent s1 (count s)) = true
  /\ (forall i, i <> count s -> ent s1 i = zeroEnt).
Proof.
  intros Hc. cbv zeta. unfold init, seedWorld.
  rewrite repeat_state_one, repeat_state_zero.
  set (s0 := fresh_world _ _ _ _ _ _ _ _ _ _ _ _).
  assert (Hc0 : count s0 = count s) by reflexivity.
  assert (Hz : forall i, ent s0 i = zeroEnt) by reflexivity.
  assert (Ht : tick (seed_one plant (62 # 100) (28 # 100) 40 s0) = tick s).
  { destruct (seed_one_spec plant (62 # 100) (28 # 100) 40 s0 ltac:(lia))
      as (g & jit & energy & age & r & b & s1 & Hp & ->).
    apply placed_from_frame in Hp.
    destruct Hp as (_ & _ & _ & Htk & _).
    unfold count_birth. destruct (lifeType _); cbn [tick set_plants set_animals set_total];
      exact Htk. }
  destruct (seed_one_rows plant (62 # 100) (28 # 100) 40 s0 ltac:(lia))
    as (Hcnt & _ & _ & Hal & Hid & Hother).
  rewrite Hc0 in *.
  change (count (resetPopulationDiagnostics ?t)) with (count t).
  change (tick (resetPopulationDiagnostics ?t)) with (tick t).
  repeat split; try assumption.
Qed.

(** C1 fails on the code.  Two successive [init] calls with the same
    arguments on one engine do not give the same entity arrays: the first
    fills slot 0 (id 1), the second leaves slot 0 zeroed and fills slot 1
    (id 2), because [init], unlike [reseed], keeps [count]. *)
Theorem init_twice_differs buildEnv :
  let s1 := init buildEnv 1 1 0 120 120 loaded in
  let s2 := init buildEnv 1 1 0 120 120 s1 in
  (aliveA (ent s1 0) = true /\ idA (ent s1 0) = 1 /\ ent s1 1 = zeroEnt)
  /\ (ent s2 0 = zeroEnt /\ aliveA (ent s2 1) = true /\ idA (ent s2 1) = 2)
  /\ count s1 = 1 /\ count s2 = 2.
Proof.
  cbv zeta.
  destruct (init_keeps_slot_counter buildEnv 1 120 120 loaded)
    as (Hc1 & _ & Hid1 & Hal1 & Hz1); [reflexivity|].
  change (count loaded) with 0 in *.
  destruct (init_keeps_slot_counter buildEnv 1 120 120
              (init buildEnv 1 1 0 120 120 loaded))
    as (Hc2 & _ & Hid2 & Hal2 & Hz2); [rewrite Hc1; reflexivity|].
  rewrite Hc1 in *. cbn [Z.add] in *.
  repeat split; try assumption.
  - apply Hz1. discriminate.
  - apply Hz2. discriminate.
Qed.

(** ** Occupancy *)

Lemma occupancy_inv_injective s i j :
  occupancy_inv s -> aliveA (ent s i) = true -> aliveA (ent s j) = true ->
  xA (ent s i) = xA (ent s j) -> yA (ent s i) = yA (ent s j) -> i = j.
Proof.
  intros Hinv Hi Hj Hx Hy. pose proof (Hinv i Hi) as Ti. pose proof (Hinv j Hj) as Tj.
  unfold tile_ok in *. rewrite Hx, Hy in Ti. congruence.
Qed.

Lemma pigeonhole (f : Z -> Z) (n m : Z) :
  0 <= n -> 0 <= m ->
  (forall i, 0 <= i < n -> 0 <= f i < m) ->
  (forall i j, 0 <= i < n -> 0 <= j < n -> f i = f j -> i = j) ->
  n <= m.
Proof.
  intros Hn Hm Hrange Hinj.
  assert (Hnd : NoDup (f <$> seqZ 0 n)).
  { apply NoDup_fmap_2_strong; [|apply NoDup_seqZ].
    intros x y Hx Hy. apply elem_of_seqZ in Hx, Hy. apply Hinj; lia. }
  assert (Hsub : f <$> seqZ 0 n ⊆+ seqZ 0 m).
  { apply NoDup_submseteq; [exact Hnd|].
    intros x Hx. apply list_elem_of_fmap in Hx as (i & -> & Hi).
    apply elem_of_seqZ in Hi. apply elem_of_seqZ.
    specialize (Hrange i ltac:(lia)). lia. }
  apply submseteq_length in Hsub.
  rewrite length_fmap, !length_seqZ in Hsub. lia.
Qed.

Lemma seeded_block life e0 de amax n s :
  count s + Z.of_nat n <= MAX_ENTITIES ->
  let s' := repeat_state n (seed_one life e0 de amax) s in
  count s' = count s + Z.of_nat n
  /\ ta_len (occ s') = ta_len (occ s)
  /\ W s' = W s
  /\ (forall i, count s <= i < count s + Z.of_nat n -> aliveA (ent s' i) = true)
  /\ (forall i, i < count s -> ent s' i = ent s i).
Proof.
  revert s. induction n as [|n IH]; intros s Hc; cbv zeta.
  - cbn [repeat_state]. repeat split; try lia.
  - cbn [repeat_state].
    destruct (seed_one_rows life e0 de amax s ltac:(lia))
      as (Hcnt & Hlen & HW & Hal & _ & Hother).
    destruct (IH (seed_one life e0 de amax s) ltac:(lia))
      as (Hcnt' & Hlen' & HW' & Hal' & Hbelow).
    rewrite Hcnt in *.
    split; [lia|]. split; [congruence|]. split; [congruence|]. split.
    + intros i Hi. destruct (decide (i = count s)) as [->|Hne].
      * rewrite Hbelow by lia. exact Hal.
      * apply Hal'. lia.
    + intros i Hi. rewrite Hbelow by lia. apply Hother. lia.
Qed.

(** C2 fails on the code.  [addEntity] counts an entity as alive even when
    none of its 20 placement tries succeeded, so seeding more plants than
    the grid has tiles leaves a live entity whose stored position is not a
    tile that points back to it. *)
Theorem seeding_leaves_unplaced_entities buildEnv seed n w h s :
  normalizeWorldSize w * normalizeWorldSize h < n <= MAX_ENTITIES ->
  ~ occupancy_inv (reseed buildEnv seed n 0 w h s).
Proof.
  intros [Hlt Hle] Hinv.
  set (s' := reseed buildEnv seed n 0 w h s) in *.
  assert (Hn : 0 <= n).
  { unfold normalizeWorldSize in Hlt. nia. }
  pose (s0 := fresh_world buildEnv seed w h 0 0 0 0 0 [] [] s).
  destruct (seeded_block plant (62 # 100) (28 # 100) 40 (Z.to_nat n) s0)
    as (Hcnt & Hlen & HW & Hal & _).
  { change (count s0) with 0. lia. }
  assert (Hs' : forall i, ent s' i
            = ent (repeat_state (Z.to_nat n) (seed_one plant (62 # 100) (28 # 100) 40) s0) i)
    by reflexivity.
  assert (Hocc : occ s'
            = occ (repeat_state (Z.to_nat n) (seed_one plant (62 # 100) (28 # 100) 40) s0))
    by reflexivity.
  assert (HW' : W s' = normalizeWorldSize w) by (exact HW).
  assert (Hlen' : ta_len (occ s') = normalizeWorldSize w * normalizeWorldSize h).
  { rewrite Hocc, Hlen. reflexivity. }
  assert (Halive : forall i, 0 <= i < n -> aliveA (ent s' i) = true).
  { intros i Hi. rewrite Hs'. apply Hal. change (count s0) with 0. lia. }
  pose (f := fun i => idx s' (xA (ent s' i)) (yA (ent s' i))).
  assert (Hpig : n <= normalizeWorldSize w * normalizeWorldSize h).
  { apply (pigeonhole f); [lia | unfold normalizeWorldSize; lia | |].
    - intros i Hi. pose proof (Hinv i (Halive i Hi)) as Ht.
      apply ta_get_Some_range in Ht. rewrite Hlen' in Ht. exact Ht.
    - intros i j Hi Hj Hf.
      pose proof (Hinv i (Halive i Hi)) as Ti.
      pose proof (Hinv j (Halive j Hj)) as Tj.
      unfold tile_ok in Ti, Tj. fold (f i) in Ti. fold (f j) in Tj.
      rewrite Hf in Ti. congruence. }
  lia.
Qed.

Lemma seeding_leaves_unplaced_entities_witness :
  ~ occupancy_inv
      (reseed (fun _ w h r => mkWorld (ta_new (w * h) grassland) (ta_new (w * h) false)
                                      (ta_new (w * h) 0%Q) (ta_new (w * h) 0%Q) r)
              42 14401 0 120 120 loaded).
Proof.
  apply seeding_leaves_unplaced_entities. vm_compute. split; [reflexivity | discriminate].
Defined.

(** * The water-distance flood *)

Section HydrologyFacts.
Import Hydrology.
Variables (W H : Z) (waterMap : TArr bool).
Hypotheses (HW : 0 < W) (HH : 0 < H).

Lemma coords_idx x y :
  0 <= x < W -> (y * W + x) `mod` W = x /\ (y * W + x) `div` W = y.
Proof.
  intros Hx. split.
  - rewrite Z.add_comm, Z.mod_add by lia. apply Z.mod_small; lia.
  - rewrite Z.add_comm, Z.div_add by lia. rewrite Z.div_small by lia. lia.
Qed.

Lemma grid_coords p :
  in_grid W H p ->
  0 <= p `mod` W < W /\ 0 <= p `div` W < H /\ p = p `div` W * W + p `mod` W.
Proof.
  unfold in_grid. intros Hp.
  pose proof (Z.mod_pos_bound p W HW) as Hm.
  pose proof (Z.div_mod p W ltac:(lia)) as Hd.
  split; [exact Hm|]. split; [|lia].
  split; [apply Z.div_pos; lia|].
  apply Z.div_lt_upper_bound; lia.
Qed.

Lemma idx_in_grid x y : 0 <= x < W -> 0 <= y < H -> in_grid W H (y * W + x).
Proof. unfold in_grid. intros Hx Hy. nia. Qed.

Lemma coords_inj p r :
  in_grid W H p -> in_grid W H r ->
  p `mod` W = r `mod` W -> p `div` W = r `div` W -> p = r.
Proof.
  intros Hp Hr Hm Hd.
  destruct (grid_coords p Hp) as (_ & _ & ->).
  destruct (grid_coords r Hr) as (_ & _ & ->).
  by rewrite Hm, Hd.
Qed.

Lemma chebyshev_nonneg p s : 0 <= chebyshev W p s.
Proof. unfold chebyshev. lia. Qed.

Lemma chebyshev_self p : chebyshev W p p = 0.
Proof. unfold chebyshev. lia. Qed.

Lemma chebyshev_zero p r :
  in_grid W H p -> in_grid W H r -> chebyshev W p r <= 0 -> p = r.
Proof.
  unfold chebyshev. intros Hp Hr Hc. apply coords_inj; [done|done|lia|lia].
Qed.

Lemma N8_king d : d ∈ N8 -> -1 <= fst d <= 1 /\ -1 <= snd d <= 1.
Proof.
  unfold N8. rewrite !elem_of_cons, elem_of_nil.
  intros Hd. repeat (destruct Hd as [-> | Hd]; [simpl; lia|]). done.
Qed.

Lemma neighbour_coords p d n :
  neighbour W H p d n ->
  in_grid W H n /\ n `mod` W = p `mod` W + fst d /\ n `div` W = p `div` W + snd d.
Proof.
  intros (_ & Hx & Hy & ->).
  destruct (coords_idx (p `mod` W + fst d) (p `div` W + snd d) Hx) as [Hm Hq].
  split; [by apply idx_in_grid|]. by split.
Qed.

Lemma chebyshev_step p d n s :
  neighbour W H p d n -> chebyshev W n s <= chebyshev W p s + 1.
Proof.
  intros Hn. destruct (neighbour_coords _ _ _ Hn) as (_ & Hm & Hd).
  destruct Hn as (Hk%N8_king & _). unfold chebyshev. rewrite Hm, Hd. lia.
Qed.

(** From a tile [v] at chessboard distance [k + 1] of [w], one king step
    leads to a tile at distance [k] of which [v] is a neighbour. *)
Lemma step_toward v w k :
  in_grid W H v -> in_grid W H w -> 0 <= k -> chebyshev W v w = k + 1 ->
  exists t d, in_grid W H t /\ neighbour W H t d v /\ chebyshev W t w = k.
Proof.
  intros Hv Hw Hk Hc.
  destruct (grid_coords v Hv) as (Hvx & Hvy & Hveq).
  destruct (grid_coords w Hw) as (Hwx & Hwy & _).
  set (sx := Z.sgn (w `mod` W - v `mod` W)).
  set (sy := Z.sgn (w `div` W - v `div` W)).
  assert (Htx : 0 <= v `mod` W + sx < W) by (unfold sx; lia).
  assert (Hty : 0 <= v `div` W + sy < H) by (unfold sy; lia).
  destruct (coords_idx _ (v `div` W + sy) Htx) as [Hm Hd].
  exists ((v `div` W + sy) * W + (v `mod` W + sx)), (- sx, - sy).
  split; [by apply idx_in_grid|]. split.
  - unfold neighbour. rewrite Hm, Hd. simpl. split.
    + unfold chebyshev in Hc. unfold N8. rewrite !elem_of_cons.
      assert (Hs : (sx = -1 \/ sx = 0 \/ sx = 1) /\ (sy = -1 \/ sy = 0 \/ sy = 1)
                   /\ (sx <> 0 \/ sy <> 0)) by (unfold sx, sy; lia).
      destruct Hs as ([-> | [-> | ->]] & [-> | [-> | ->]] & Hz); simpl;
        try (exfalso; lia); tauto.
    + split; [lia|]. split; [lia|].
      rewrite Hveq at 1. f_equal; lia.
  - unfold chebyshev in *. rewrite Hm, Hd. unfold sx, sy. lia.
Qed.


Lemma reached_in_grid m pre closed st p :
  flood_inv W H waterMap m pre closed st -> reached st p -> in_grid W H p.
Proof.
  intros Hi (s & Hs & _). apply ta_get_Some_range in Hs.
  rewrite (fi_len_n _ _ _ _ _ _ _ Hi) in Hs. exact Hs.
Qed.

Lemma unreached_or_reached m pre closed st p :
  flood_inv W H waterMap m pre closed st -> in_grid W H p ->
  ta_get (nearestWater st) p = Some (-1) \/ reached st p.
Proof.
  intros Hi Hp. unfold reached, ta_get.
  rewrite (fi_len_n _ _ _ _ _ _ _ Hi). rewrite decide_True by exact Hp.
  destruct (decide (default (ta_fill (nearestWater st))
                      (ta_cells (nearestWater st) !! p) = -1)) as [-> | Hne].
  - by left.
  - right. eauto.
Qed.

(** The two outcomes of looking at one neighbour. *)
Lemma relax_cases px py source st d :
  (relax W H px py source st d = st /\
   (0 <= px + fst d < W -> 0 <= py + snd d < H ->
    ta_get (nearestWater st) ((py + snd d) * W + (px + fst d)) <> Some (-1)))
  \/
  (0 <= px + fst d < W /\ 0 <= py + snd d < H /\
   ta_get (nearestWater st) ((py + snd d) * W + (px + fst d)) = Some (-1) /\
   relax W H px py source st d =
     {| nearestWater := ta_set (nearestWater st)
                          ((py + snd d) * W + (px + fst d)) source;
        distance2 := ta_set (distance2 st) ((py + snd d) * W + (px + fst d))
                       (Some (squared (px + fst d) (py + snd d)
                                (source `mod` W) (source `div` W)));
        q := q st ++ [(py + snd d) * W + (px + fst d)] |}).
Proof.
  unfold relax. case_bool_decide as Hb.
  - left. split; [reflexivity|]. lia.
  - case_bool_decide as Hn.
    + right. split; [lia|]. split; [lia|]. by split.
    + left. split; [reflexivity|]. done.
Qed.

(** Looking at one neighbour of the visited tile [p] keeps the invariant. *)
Lemma relax_inv m pre closed st p s d :
  flood_inv W H waterMap m pre closed st ->
  p ∈ pre -> ta_get (nearestWater st) p = Some s -> s <> -1 ->
  chebyshev W p s = m -> d ∈ N8 ->
  let st' := relax W H (p `mod` W) (p `div` W) s st d in
  flood_inv W H waterMap m pre closed st' /\
  ta_get (nearestWater st') p = Some s /\
  (forall r, reached st r -> reached st' r) /\
  (forall n, neighbour W H p d n -> reached st' n).
Proof.
  intros Hi Hp Hs Hs1 Hlvl Hd st'.
  assert (Hpg : in_grid W H p) by (eapply reached_in_grid; [exact Hi|red; eauto]).
  destruct (relax_cases (p `mod` W) (p `div` W) s st d)
    as [[Heq Hno] | (Hx & Hy & Hfree & Heq)]; subst st'; rewrite Heq; clear Heq.
  { split; [exact Hi|]. split; [exact Hs|]. split; [auto|].
    intros n (_ & Hx & Hy & ->).
    destruct (unreached_or_reached _ _ _ _ _ Hi (idx_in_grid _ _ Hx Hy))
      as [Hu | Hr]; [|exact Hr].
    by destruct (Hno Hx Hy). }
  set (np := (p `div` W + snd d) * W + (p `mod` W + fst d)) in *.
  assert (Hnb : neighbour W H p d np) by (unfold neighbour; tauto).
  clearbody np.
  destruct (neighbour_coords _ _ _ Hnb) as (Hnpg & Hnm & Hnd).
  assert (Hlen : 0 <= np < ta_len (nearestWater st))
    by (rewrite (fi_len_n _ _ _ _ _ _ _ Hi); exact Hnpg).
  assert (Hlend : 0 <= np < ta_len (distance2 st))
    by (rewrite (fi_len_d _ _ _ _ _ _ _ Hi); exact Hnpg).
  assert (Hnew : ~ reached st np).
  { intros (s0 & Hs0 & Hne). rewrite Hfree in Hs0. congruence. }
  assert (Hget : forall r, r <> np ->
    ta_get (ta_set (nearestWater st) np s) r = ta_get (nearestWater st) r)
    by (intros r Hr; by apply ta_get_set_ne).
  assert (Hmono : forall r, reached st r ->
    r <> np /\ reached {| nearestWater := ta_set (nearestWater st) np s;
        distance2 := ta_set (distance2 st) np
          (Some (squared (p `mod` W + fst d) (p `div` W + snd d)
                   (s `mod` W) (s `div` W)));
        q := q st ++ [np] |} r).
  { intros r Hr. assert (r <> np) by (intros ->; by apply Hnew).
    split; [done|]. destruct Hr as (s0 & Hs0 & Hne). exists s0.
    simpl. by rewrite Hget. }
  assert (Hsw : is_water_tile W H waterMap s)
    by (by destruct (fi_src _ _ _ _ _ _ _ Hi p s Hs Hs1)).
  assert (Hfar : forall w, is_water_tile W H waterMap w -> m + 1 <= chebyshev W np w).
  { intros w Hw. destruct (Z_lt_le_dec (chebyshev W np w) (m + 1)); [|done].
    destruct Hnew. eapply (fi_near _ _ _ _ _ _ _ Hi); [exact Hnpg|exact Hw|lia]. }
  assert (Hnlvl : chebyshev W np s = m + 1).
  { pose proof (chebyshev_step p d np s Hnb). pose proof (Hfar s Hsw). lia. }
  assert (Hp_ne : p <> np) by (intros ->; apply Hnew; red; eauto).
  split; [|split; [|split]].
  - constructor; simpl.
    + rewrite ta_len_set. eapply fi_len_n, Hi.
    + rewrite ta_len_set. eapply fi_len_d, Hi.
    + intros r s0 Hr Hne. destruct (decide (r = np)) as [-> | Hrn].
      * rewrite ta_get_set_eq in Hr by exact Hlen. injection Hr as <-.
        split; [exact Hsw|]. rewrite ta_get_set_eq by exact Hlend.
        by rewrite Hnm, Hnd.
      * rewrite Hget in Hr by exact Hrn. rewrite ta_get_set_ne by done.
        eapply fi_src; eauto.
    + intros r Hr. rewrite Hget; [eapply fi_water; eauto|].
      intros ->. pose proof (fi_water _ _ _ _ _ _ _ Hi np Hr) as Hnp.
      rewrite Hfree in Hnp. destruct Hr as [[? ?] _]. injection Hnp as Hnp. lia.
    + intros r Hr. destruct (decide (r = np)) as [-> | Hrn].
      * rewrite ta_get_set_eq in Hr by exact Hlen. congruence.
      * rewrite Hget in Hr by exact Hrn. rewrite ta_get_set_ne by done.
        eapply fi_inf; eauto.
    + intros r. rewrite app_assoc, elem_of_app, (fi_seen _ _ _ _ _ _ _ Hi).
      rewrite list_elem_of_singleton. split.
      * intros [Hr | ->]; [by apply Hmono|].
        exists s. simpl. by rewrite ta_get_set_eq.
      * intros (s0 & Hs0 & Hne). simpl in Hs0.
        destruct (decide (r = np)) as [-> | Hrn]; [by right|].
        left. rewrite Hget in Hs0 by exact Hrn. red; eauto.
    + rewrite app_assoc. apply NoDup_app. split; [eapply fi_nodup, Hi|].
      split; [|apply NoDup_singleton].
      intros r Hr ->%list_elem_of_singleton.
      apply Hnew. by apply (fi_seen _ _ _ _ _ _ _ Hi).
    + intros r d0 n Hr Hn. apply Hmono. eapply fi_closed; eauto.
    + intros r s0 w Hr Hne Hw. destruct (decide (r = np)) as [-> | Hrn].
      * rewrite ta_get_set_eq in Hr by exact Hlen. injection Hr as <-.
        pose proof (Hfar w Hw). lia.
      * rewrite Hget in Hr by exact Hrn. eapply fi_best; eauto.
    + intros v w Hv Hw Hc. apply Hmono. eapply fi_near; eauto.
    + intros r s0 Hr Hs0. rewrite Hget in Hs0; [eapply fi_pre_lvl; eauto|].
      intros ->. apply Hnew. apply (fi_seen _ _ _ _ _ _ _ Hi).
      apply elem_of_app. by left.
    + destruct (fi_queue_lvl _ _ _ _ _ _ _ Hi) as (a & b & Hq & Ha & Hb).
      assert (Hin : forall r, r ∈ q st -> r <> np).
      { intros r Hr ->. apply Hnew. apply (fi_seen _ _ _ _ _ _ _ Hi).
        apply elem_of_app. by right. }
      exists a, (b ++ [np]). rewrite Hq, app_assoc. split; [reflexivity|].
      split.
      * intros r s0 Hr Hs0. rewrite Hget in Hs0; [eauto|].
        apply Hin. rewrite Hq. apply elem_of_app. by left.
      * intros r s0 [Hr | ->%list_elem_of_singleton]%elem_of_app Hs0.
        -- rewrite Hget in Hs0; [eauto|].
           apply Hin. rewrite Hq. apply elem_of_app. by right.
        -- rewrite ta_get_set_eq in Hs0 by exact Hlen. by injection Hs0 as <-.
    + eapply fi_m, Hi.
  - simpl. by rewrite Hget.
  - intros r Hr. by apply Hmono.
  - intros n (_ & _ & _ & Hn). destruct Hnb as (_ & _ & _ & Hnp).
    rewrite Hn, <- Hnp. exists s. simpl. by rewrite ta_get_set_eq.
Qed.


Lemma fold_relax_inv m pre closed p s ds :
  forall st,
  (forall d, d ∈ ds -> d ∈ N8) ->
  flood_inv W H waterMap m pre closed st ->
  p ∈ pre -> ta_get (nearestWater st) p = Some s -> s <> -1 ->
  chebyshev W p s = m ->
  let st' := fold_left (relax W H (p `mod` W) (p `div` W) s) ds st in
  flood_inv W H waterMap m pre closed st' /\
  ta_get (nearestWater st') p = Some s /\
  (forall r, reached st r -> reached st' r) /\
  (forall d n, d ∈ ds -> neighbour W H p d n -> reached st' n).
Proof.
  induction ds as [|d ds IH]; intros st Hds Hi Hp Hs Hs1 Hlvl; simpl.
  - split; [done|]. split; [done|]. split; [auto|].
    intros d n Hd. by apply elem_of_nil in Hd.
  - destruct (relax_inv m pre closed st p s d Hi Hp Hs Hs1 Hlvl)
      as (Hi1 & Hs' & Hmono1 & Hnb1); [apply Hds; left|].
    destruct (IH _ (fun d0 Hd0 => Hds d0 (list_elem_of_further _ _ _ Hd0))
                Hi1 Hp Hs' Hs1 Hlvl) as (Hi2 & Hs2 & Hmono2 & Hnb2).
    split; [exact Hi2|]. split; [exact Hs2|]. split; [auto|].
    intros d0 n [-> | Hd0]%elem_of_cons Hn; [|eauto].
    apply Hmono2. by apply Hnb1.
Qed.

Lemma flood_inv_close m pre closed closed' st :
  flood_inv W H waterMap m pre closed st ->
  (forall p d n, p ∈ closed' -> neighbour W H p d n -> reached st n) ->
  flood_inv W H waterMap m pre closed' st.
Proof. intros [] Hc. by constructor. Qed.

(** A whole visit: afterwards every in-bounds neighbour of the visited
    tile has a source. *)
Lemma visit_inv m done p s st :
  flood_inv W H waterMap m (done ++ [p]) done st ->
  ta_get (nearestWater st) p = Some s -> s <> -1 -> chebyshev W p s = m ->
  flood_inv W H waterMap m (done ++ [p]) (done ++ [p]) (visit W H p st).
Proof.
  intros Hi Hs Hs1 Hlvl. unfold visit. rewrite Hs. simpl default.
  destruct (fold_relax_inv m (done ++ [p]) done p s N8 st (fun _ Hd => Hd) Hi)
    as (Hi' & _ & Hmono & Hnb); [apply elem_of_app; right; left|done..|].
  apply (flood_inv_close _ _ _ _ _ Hi').
  intros r d n [Hr | ->%list_elem_of_singleton]%elem_of_app Hn.
  - eapply fi_closed; eauto.
  - destruct Hn as (Hd & Hrest). apply (Hnb d n Hd). by split.
Qed.

(** Taking the next tile from the queue. *)
Lemma dequeue_inv m done st p rest :
  flood_inv W H waterMap m done done st -> q st = p :: rest ->
  exists m' s,
    flood_inv W H waterMap m' (done ++ [p]) done
      {| nearestWater := nearestWater st; distance2 := distance2 st; q := rest |} /\
    ta_get (nearestWater st) p = Some s /\ s <> -1 /\ chebyshev W p s = m'.
Proof.
  intros Hi Hq.
  assert (Hpq : p ∈ done ++ q st) by (rewrite Hq; apply elem_of_app; right; left).
  destruct (proj1 (fi_seen _ _ _ _ _ _ _ Hi p) Hpq) as (s & Hs & Hs1).
  assert (Happ : (done ++ [p]) ++ rest = done ++ q st)
    by (by rewrite <- app_assoc, Hq).
  destruct (fi_queue_lvl _ _ _ _ _ _ _ Hi) as (a & b & Hab & Ha & Hb).
  destruct a as [|p0 a].
  - simpl in Hab. rewrite Hq in Hab. exists (m + 1), s.
    assert (Hplvl : chebyshev W p s = m + 1).
    { apply Hb; [rewrite <- Hab; left|done]. }
    split; [|done]. destruct Hi. constructor; simpl; try done.
    + by rewrite Happ.
    + by rewrite Happ.
    + intros v w Hv Hw Hc.
      destruct (Z_le_gt_dec (chebyshev W v w) m) as [Hle | Hgt]; [eauto|].
      destruct (step_toward v w m Hv (proj1 Hw) fi_m0 ltac:(lia))
        as (t & d & Ht & Hn & Hct).
      destruct (fi_near0 t w Ht Hw ltac:(lia)) as (st0 & Hst0 & Hne0).
      assert (Htl : chebyshev W t st0 <= m).
      { pose proof (fi_best0 t st0 w Hst0 Hne0 Hw). lia. }
      assert (Htd : t ∈ done).
      { assert (Htq : t ∈ done ++ q st) by (apply fi_seen0; red; eauto).
        apply elem_of_app in Htq as [Htd | Htq]; [done|].
        rewrite Hq, Hab in Htq. pose proof (Hb t st0 Htq Hst0). lia. }
      eapply fi_closed0; eauto.
    + intros r s0 [Hr | ->%list_elem_of_singleton]%elem_of_app Hs0.
      * pose proof (fi_pre_lvl0 r s0 Hr Hs0). lia.
      * rewrite Hs in Hs0. injection Hs0 as <-. lia.
    + exists rest, []. rewrite app_nil_r. split; [done|]. split.
      * intros r s0 Hr Hs0. apply Hb; [|done]. rewrite <- Hab. by right.
      * intros r s0 Hr. by apply elem_of_nil in Hr.
    + lia.
  - simpl in Hab. rewrite Hq in Hab. injection Hab as <- ->.
    exists m, s.
    assert (Hplvl : chebyshev W p s = m) by (apply Ha; [left|done]).
    split; [|done]. destruct Hi. constructor; simpl; try done.
    + by rewrite Happ.
    + by rewrite Happ.
    + intros r s0 [Hr | ->%list_elem_of_singleton]%elem_of_app Hs0.
      * eauto.
      * rewrite Hs in Hs0. injection Hs0 as <-. lia.
    + exists a, b. split; [done|]. split.
      * intros r s0 Hr Hs0. apply Ha; [by right|done].
      * done.
Qed.


Lemma tiles_seqZ : tiles W H = seqZ 0 (W * H).
Proof.
  unfold tiles. rewrite <- (Z2Nat.id H) by lia.
  induction (Z.to_nat H) as [|n IH].
  - change (Z.of_nat 0) with 0. rewrite Z.mul_0_r. reflexivity.
  - rewrite seqZ_S, flat_map_app, IH. simpl flat_map. rewrite app_nil_r.
    rewrite Nat2Z.inj_succ, Z.mul_succ_r.
    rewrite seqZ_app by lia. f_equal.
    replace (0 + W * Z.of_nat n) with (Z.of_nat n * W + 0) by lia.
    rewrite <- (fmap_add_seqZ (Z.of_nat n * W) 0 W).
    rewrite Z.add_0_l. reflexivity.
Qed.

(** The first loop over a list of distinct tiles. *)
Lemma scan_fold l :
  NoDup l -> (forall p, p ∈ l -> in_grid W H p) ->
  let st := fold_left (scan_tile waterMap) l
              {| nearestWater := ta_new (W * H) (-1);
                 distance2 := ta_new (W * H) (Some 0); q := [] |} in
  ta_len (nearestWater st) = W * H /\ ta_len (distance2 st) = W * H /\
  (forall p, in_grid W H p ->
     (p ∈ l /\ ta_get waterMap p = Some true ->
      ta_get (nearestWater st) p = Some p /\
      ta_get (distance2 st) p = Some (Some 0)) /\
     (~ (p ∈ l /\ ta_get waterMap p = Some true) ->
      ta_get (nearestWater st) p = Some (-1)) /\
     (p ∈ l -> ta_get waterMap p <> Some true ->
      ta_get (distance2 st) p = Some None)) /\
  (forall p, p ∈ q st <-> p ∈ l /\ ta_get waterMap p = Some true) /\
  NoDup (q st).
Proof.
  induction l as [|x l IH] using rev_ind; intros Hnd Hin.
  - simpl. split; [done|]. split; [done|]. split; [|split].
    + intros p Hp. split; [|split].
      * intros [Hx _]. by apply elem_of_nil in Hx.
      * intros _. by apply ta_get_new.
      * intros Hx. by apply elem_of_nil in Hx.
    + intros p. rewrite elem_of_nil. tauto.
    + constructor.
  - apply NoDup_app in Hnd as (Hnd & Hx & _).
    assert (Hxl : x ∉ l).
    { intros Hxl. apply (Hx x Hxl). left. }
    assert (Hxg : in_grid W H x) by (apply Hin, elem_of_app; right; left).
    destruct (IH Hnd (fun p Hp => Hin p (proj2 (elem_of_app _ _ _) (or_introl Hp))))
      as (Hln & Hld & Hcell & Hq & Hqnd).
    rewrite fold_left_app. simpl fold_left.
    set (st := fold_left (scan_tile waterMap) l _) in *. clearbody st.
    assert (Hxn : 0 <= x < ta_len (nearestWater st)) by (by rewrite Hln).
    assert (Hxd : 0 <= x < ta_len (distance2 st)) by (by rewrite Hld).
    unfold scan_tile. case_bool_decide as Hw; simpl.
    + rewrite !ta_len_set. split; [done|]. split; [done|]. split; [|split].
      * intros p Hp. destruct (decide (p = x)) as [-> | Hpx].
        -- rewrite !ta_get_set_eq by done. split; [done|]. split.
           ++ intros Hn. destruct Hn. split; [|done]. apply elem_of_app. right. left.
           ++ done.
        -- rewrite !ta_get_set_ne by done.
           destruct (Hcell p Hp) as (H1 & H2 & H3).
           rewrite elem_of_app, list_elem_of_singleton. split; [|split].
           ++ intros [[Hl | Hl] Hpw]; [auto|done].
           ++ intros Hn. apply H2. tauto.
           ++ intros [Hl | Hl]; [auto|done].
      * intros p. rewrite !elem_of_app, !list_elem_of_singleton, Hq.
        split; [intros [[? ?] | ->]; tauto|]. tauto.
      * apply NoDup_app. split; [done|]. split; [|apply NoDup_singleton].
        intros p Hp ->%list_elem_of_singleton. apply Hq in Hp. tauto.
    + rewrite ta_len_set. split; [done|]. split; [done|]. split; [|split].
      * intros p Hp. destruct (decide (p = x)) as [-> | Hpx].
        -- rewrite ta_get_set_eq by done. split; [tauto|]. split; [|done].
           intros _. apply (Hcell x Hxg). tauto.
        -- rewrite ta_get_set_ne by done.
           destruct (Hcell p Hp) as (H1 & H2 & H3).
           rewrite elem_of_app, list_elem_of_singleton. split; [|split].
           ++ intros [[Hl | Hl] Hpw]; [auto|done].
           ++ intros Hn. apply H2. tauto.
           ++ intros [Hl | Hl]; [auto|done].
      * intros p. rewrite Hq, elem_of_app, list_elem_of_singleton.
        split; [tauto|]. intros [[Hl | ->] Hpw]; [tauto|done].
      * done.
Qed.

(** The state before the [while] loop. *)
Lemma scan_inv : flood_inv W H waterMap 0 [] [] (scan W H waterMap).
Proof.
  unfold scan. rewrite tiles_seqZ.
  destruct (scan_fold (seqZ 0 (W * H)) (NoDup_seqZ _ _))
    as (Hln & Hld & Hcell & Hq & Hqnd).
  { intros p Hp%elem_of_seqZ. unfold in_grid. lia. }
  set (st := fold_left (scan_tile waterMap) _ _) in *. clearbody st.
  assert (Hall : forall p, in_grid W H p -> p ∈ seqZ 0 (W * H)).
  { intros p Hp. apply elem_of_seqZ. unfold in_grid in Hp. lia. }
  assert (Hsrc : forall p s, ta_get (nearestWater st) p = Some s -> s <> -1 ->
            s = p /\ is_water_tile W H waterMap p /\
            ta_get (distance2 st) p = Some (Some 0)).
  { intros p s Hs Hne.
    assert (Hp : in_grid W H p).
    { apply ta_get_Some_range in Hs. by rewrite Hln in Hs. }
    destruct (Hcell p Hp) as (H1 & H2 & _).
    destruct (decide (ta_get waterMap p = Some true)) as [Hw | Hw].
    - destruct (H1 (conj (Hall p Hp) Hw)) as [Hn Hd].
      rewrite Hn in Hs. injection Hs as <-.
      split; [done|]. split; [by split|done].
    - rewrite H2 in Hs by tauto. congruence. }
  assert (Hwat : forall p, is_water_tile W H waterMap p ->
            ta_get (nearestWater st) p = Some p).
  { intros p [Hp Hw]. destruct (Hcell p Hp) as (H1 & _).
    by destruct (H1 (conj (Hall p Hp) Hw)). }
  constructor; simpl; try done.
  - intros p s Hs Hne. destruct (Hsrc p s Hs Hne) as (-> & Hw & Hd).
    split; [done|]. rewrite Hd. unfold squared. do 2 f_equal. lia.
  - intros p Hp.
    assert (Hpg : in_grid W H p).
    { apply ta_get_Some_range in Hp. by rewrite Hln in Hp. }
    destruct (Hcell p Hpg) as (H1 & _ & H3). apply H3; [by apply Hall|].
    intros Hw. destruct (H1 (conj (Hall p Hpg) Hw)) as [Hn _].
    rewrite Hp in Hn. injection Hn as Hn. unfold in_grid in Hpg. lia.
  - intros p. rewrite Hq. split.
    + intros [Hp%elem_of_seqZ Hw]. exists p.
      split; [apply Hwat; split; [unfold in_grid; lia|done]|lia].
    + intros (s & Hs & Hne). destruct (Hsrc p s Hs Hne) as (_ & [Hp Hw] & _).
      split; [by apply Hall|done].
  - intros p d n Hp. by apply elem_of_nil in Hp.
  - intros p s w Hs Hne Hw. destruct (Hsrc p s Hs Hne) as (-> & _).
    rewrite chebyshev_self. apply chebyshev_nonneg.
  - intros v w Hv Hw Hc.
    assert (v = w) as -> by (apply chebyshev_zero; [done|apply Hw|done]).
    exists w. split; [by apply Hwat|]. destruct Hw as [[? ?] _]. lia.
  - intros p s Hp. by apply elem_of_nil in Hp.
  - exists (q st), []. rewrite app_nil_r. split; [done|]. split.
    + intros p s Hp Hs. destruct (proj1 (Hq p) Hp) as [Hpl Hw].
      apply elem_of_seqZ in Hpl.
      rewrite Hwat in Hs by (split; [unfold in_grid; lia|done]).
      injection Hs as <-. apply chebyshev_self.
    + intros p s Hp. by apply elem_of_nil in Hp.
Qed.

(** The loop empties the queue within [W * H] rounds. *)
Lemma flood_enough_fuel fuel :
  forall m done st,
  flood_inv W H waterMap m done done st ->
  W * H <= Z.of_nat fuel + Z.of_nat (length done) ->
  exists m' done',
    flood_inv W H waterMap m' done' done' (flood fuel W H st) /\
    q (flood fuel W H st) = [].
Proof.
  induction fuel as [|fuel IH]; intros m done st Hi Hfuel.
  - simpl. exists m, done. split; [done|].
    assert (Hlen : (length (done ++ q st) <= Z.to_nat (W * H))%nat).
    { rewrite <- (length_seqZ 0 (W * H)). apply submseteq_length.
      apply NoDup_submseteq; [eapply fi_nodup, Hi|].
      intros p Hp. apply (fi_seen _ _ _ _ _ _ _ Hi) in Hp.
      apply elem_of_seqZ. pose proof (reached_in_grid _ _ _ _ _ Hi Hp) as Hg.
      unfold in_grid in Hg. lia. }
    rewrite length_app in Hlen. destruct (q st); [done|]. simpl in Hlen. lia.
  - simpl. destruct (q st) as [|p rest] eqn:Hq.
    + exists m, done. by split.
    + destruct (dequeue_inv m done st p rest Hi Hq) as (m' & s & Hi' & Hs & Hs1 & Hl).
      apply (IH m' (done ++ [p])).
      * by apply (visit_inv m' done p s).
      * rewrite length_app. simpl. lia.
Qed.


Lemma flood_result :
  exists m done,
    flood_inv W H waterMap m done done (precomputeHydrology W H waterMap) /\
    q (precomputeHydrology W H waterMap) = [].
Proof.
  unfold precomputeHydrology.
  apply (flood_enough_fuel _ 0 [] _ scan_inv). simpl. nia.
Qed.

(** Once the queue is empty, one water tile is enough for every tile to
    have a source. *)
Lemma flood_covers m done st w0 :
  flood_inv W H waterMap m done done st -> q st = [] ->
  is_water_tile W H waterMap w0 ->
  forall p, in_grid W H p -> reached st p.
Proof.
  intros Hi Hq Hw0.
  assert (Hk : forall k : nat, forall p, in_grid W H p ->
            chebyshev W p w0 <= Z.of_nat k -> reached st p).
  { induction k as [|k IH]; intros p Hp Hc.
    - assert (p = w0) as -> by (apply chebyshev_zero; [done|apply Hw0|lia]).
      exists w0. split; [eapply fi_water; eauto|]. destruct Hw0 as [[? ?] _]. lia.
    - destruct (Z_le_gt_dec (chebyshev W p w0) (Z.of_nat k)) as [Hle | Hgt];
        [by apply IH|].
      destruct (step_toward p w0 (Z.of_nat k) Hp (proj1 Hw0) ltac:(lia) ltac:(lia))
        as (t & d & Ht & Hn & Hct).
      assert (Htd : t ∈ done).
      { assert (Hr : reached st t) by (apply IH; [done|lia]).
        apply (fi_seen _ _ _ _ _ _ _ Hi) in Hr. by rewrite Hq, app_nil_r in Hr. }
      eapply fi_closed; eauto. }
  intros p Hp. apply (Hk (Z.to_nat (chebyshev W p w0)) p Hp).
  pose proof (chebyshev_nonneg p w0). lia.
Qed.

(** What the flood leaves at a tile when the map has water. *)
Lemma flood_source p :
  in_grid W H p -> (exists w, is_water_tile W H waterMap w) ->
  exists s,
    ta_get (nearestWater (precomputeHydrology W H waterMap)) p = Some s /\
    is_water_tile W H waterMap s /\
    (is_water_tile W H waterMap p -> s = p) /\
    stored2 W H (precomputeHydrology W H waterMap) p =
      squared (p `mod` W) (p `div` W) (s `mod` W) (s `div` W) /\
    forall w, is_water_tile W H waterMap w ->
      chebyshev W p s <= chebyshev W p w.
Proof.
  intros Hp [w0 Hw0]. destruct flood_result as (m & done & Hi & Hq).
  destruct (flood_covers _ _ _ _ Hi Hq Hw0 p Hp) as (s & Hs & Hne).
  destruct (fi_src _ _ _ _ _ _ _ Hi p s Hs Hne) as [Hsw Hd].
  exists s. split; [done|]. split; [done|]. split; [|split].
  - intros Hpw. pose proof (fi_water _ _ _ _ _ _ _ Hi p Hpw) as Hpp.
    rewrite Hs in Hpp. by injection Hpp.
  - unfold stored2. by rewrite Hd.
  - intros w Hw. eapply fi_best; eauto.
Qed.

(** What it leaves when the map has none. *)
Lemma flood_dry p :
  in_grid W H p -> (forall w, ~ is_water_tile W H waterMap w) ->
  stored2 W H (precomputeHydrology W H waterMap) p = W * W + H * H.
Proof.
  intros Hp Hdry. destruct flood_result as (m & done & Hi & Hq).
  destruct (unreached_or_reached _ _ _ _ _ Hi Hp) as [Hu | (s & Hs & Hne)].
  - unfold stored2. by rewrite (fi_inf _ _ _ _ _ _ _ Hi p Hu).
  - destruct (fi_src _ _ _ _ _ _ _ Hi p s Hs Hne) as [Hsw _].
    by destruct (Hdry s).
Qed.

Lemma squared_chebyshev p s :
  chebyshev W p s * chebyshev W p s
    <= squared (p `mod` W) (p `div` W) (s `mod` W) (s `div` W)
    <= 2 * (chebyshev W p s * chebyshev W p s).
Proof. unfold chebyshev, squared. nia. Qed.

End HydrologyFacts.

Lemma two_ponds_water w :
  Hydrology.is_water_tile 120 120 Hydrology.two_ponds w ->
  w = 13 * 120 + 13 \/ w = 10 * 120 + 14.
Proof.
  intros [Hw Hget]. unfold Hydrology.two_ponds in Hget.
  destruct (decide (w = 10 * 120 + 14)) as [|H1]; [by right|].
  destruct (decide (w = 13 * 120 + 13)) as [|H2]; [by left|].
  rewrite !ta_get_set_ne in Hget by congruence.
  rewrite ta_get_new in Hget by lia. discriminate.
Qed.

(** C8 fails on the code.  The flood is meant to store, for every tile,
    the distance to the nearest water (the declaration of [waterDistanceMap]
    calls it the distance to nearest water, and the source of a tile is
    kept in [nearestWater]), but it spreads by 8-neighbour steps and keeps the
    first source that reaches a tile.  On the 120 x 120 grid whose only water tiles are
    [(13, 13)] and [(14, 10)], the flood reaches tile [(10, 10)] from
    [(13, 13)], three king steps away, before it does from [(14, 10)],
    four steps away: [nearestWater] holds [(13, 13)] and the distance cell
    [Math.hypot(-3, -3)], the square root of 18, while the nearest water
    tile is [(14, 10)], at distance 4, the square root of 16. *)
Theorem flood_distance_not_nearest :
  let r := Hydrology.precomputeHydrology 120 120 Hydrology.two_ponds in
  let p := 10 * 120 + 10 in
  ta_get (Hydrology.nearestWater r) p = Some (13 * 120 + 13)
  /\ Hydrology.stored2 120 120 r p = 18
  /\ Hydrology.is_water_tile 120 120 Hydrology.two_ponds (10 * 120 + 14)
  /\ Hydrology.squared_distance 120 p (10 * 120 + 14) = 16
  /\ (forall w, Hydrology.is_water_tile 120 120 Hydrology.two_ponds w ->
        16 <= Hydrology.squared_distance 120 p w).
Proof.
  intros r p. split; [vm_compute; reflexivity|].
  split; [vm_compute; reflexivity|]. split; [|split].
  - split; [lia|]. vm_compute. reflexivity.
  - vm_compute. reflexivity.
  - intros w Hw. destruct (two_ponds_water w Hw) as [-> | ->];
      vm_compute; discriminate.
Qed.

(** X16. On a grid of positive size the flood gives every tile of a map
    with water a water tile as its source, one that is nearest in chessboard
    distance (the number of 8-neighbour steps), itself on a water tile; the
    distance cell holds [Math.hypot] of the offset to that source.  On a
    map without water no tile gets a source and every cell gets
    [Math.hypot(W, H)]. *)
Theorem flood_source_chessboard_nearest (W H : Z) (waterMap : TArr bool) (p : Z) :
  0 < W -> 0 < H -> 0 <= p < W * H ->
  let r := Hydrology.precomputeHydrology W H waterMap in
  ((exists w, Hydrology.is_water_tile W H waterMap w) ->
   exists s,
     ta_get (Hydrology.nearestWater r) p = Some s /\
     Hydrology.is_water_tile W H waterMap s /\
     (Hydrology.is_water_tile W H waterMap p -> s = p) /\
     Hydrology.stored2 W H r p = Hydrology.squared_distance W p s /\
     forall w, Hydrology.is_water_tile W H waterMap w ->
       Hydrology.chebyshev W p s <= Hydrology.chebyshev W p w) /\
  ((forall w, ~ Hydrology.is_water_tile W H waterMap w) ->
   Hydrology.stored2 W H r p = W * W + H * H).
Proof.
  intros HW HH Hp r. split.
  - intros Hw.
    destruct (flood_source W H waterMap HW HH p Hp Hw)
      as (s & Hs & Hsw & Hself & Hd & Hbest).
    exists s. split; [exact Hs|]. split; [exact Hsw|]. split; [exact Hself|].
    split; [exact Hd|exact Hbest].
  - intros Hdry. unfold r.
    by rewrite (flood_dry W H waterMap HW HH p Hp Hdry).
Qed.

Lemma flood_source_chessboard_nearest_witness :
  let r := Hydrology.precomputeHydrology 120 120 Hydrology.two_ponds in
  exists s,
    ta_get (Hydrology.nearestWater r) (10 * 120 + 10) = Some s /\
    Hydrology.is_water_tile 120 120 Hydrology.two_ponds s /\
    (Hydrology.is_water_tile 120 120 Hydrology.two_ponds (10 * 120 + 10) ->
     s = 10 * 120 + 10) /\
    Hydrology.stored2 120 120 r (10 * 120 + 10)
      = Hydrology.squared_distance 120 (10 * 120 + 10) s /\
    forall w, Hydrology.is_water_tile 120 120 Hydrology.two_ponds w ->
      Hydrology.chebyshev 120 (10 * 120 + 10) s
        <= Hydrology.chebyshev 120 (10 * 120 + 10) w.
Proof.
  intros r.
  destruct (flood_source_chessboard_nearest 120 120 Hydrology.two_ponds
              (10 * 120 + 10)) as [Hwet _]; [lia|lia|lia|].
  apply Hwet. exists (10 * 120 + 14). split; [lia|]. vm_compute. reflexivity.
Defined.

(** X1. The offset [(dx, dy)] whose [Math.hypot] the flood stores for a
    tile has [dx * dx + dy * dy] at most twice the squared distance from
    the tile to any water tile: before rounding, the stored distance
    overshoots the distance to the nearest water by a factor of at most
    the square root of 2. *)
Theorem flood_offset_within_factor2 (W H : Z) (waterMap : TArr bool) (p w : Z) :
  0 < W -> 0 < H -> 0 <= p < W * H ->
  Hydrology.is_water_tile W H waterMap w ->
  Hydrology.stored2 W H (Hydrology.precomputeHydrology W H waterMap) p
    <= 2 * Hydrology.squared_distance W p w.
Proof.
  intros HW HH Hp Hw.
  destruct (flood_source W H waterMap HW HH p Hp (ex_intro _ w Hw))
    as (s & _ & Hsw & _ & Hd & Hbest).
  rewrite Hd.
  pose proof (squared_chebyshev W p s) as Hps.
  pose proof (squared_chebyshev W p w) as Hpw.
  pose proof (Hbest w Hw) as Hb.
  pose proof (chebyshev_nonneg W p s) as H0.
  unfold Hydrology.squared_distance. nia.
Qed.

Lemma flood_offset_within_factor2_witness :
  Hydrology.stored2 120 120
    (Hydrology.precomputeHydrology 120 120 Hydrology.two_ponds) (10 * 120 + 10)
  <= 2 * Hydrology.squared_distance 120 (10 * 120 + 10) (10 * 120 + 14).
Proof.
  apply (flood_offset_within_factor2 120 120 Hydrology.two_ponds);
    [lia|lia|lia|].
  split; [lia|]. vm_compute. reflexivity.
Defined.

(** * The tick *)

(** ** Rules for commands *)

Section HoareRules.

Context {I : State -> Prop}.

Lemma hoare_weaken {A} (m : M A) (Q Q' : A -> Prop) :
  hoare I m Q -> (forall a, Q a -> Q' a) -> hoare I m Q'.
Proof.
  intros Hm HQ s Hs. specialize (Hm s Hs).
  destruct (m s); [|done..]. destruct Hm. split; auto.
Qed.

Lemma hoare_ret {A} (a : A) (Q : A -> Prop) : Q a -> hoare I (mret a) Q.
Proof. intros Ha s Hs. by split. Qed.

Lemma hoare_bind {A B} (m : M A) (k : A -> M B) (Q : A -> Prop) (Q' : B -> Prop) :
  hoare I m Q -> (forall a, Q a -> hoare I (k a) Q') -> hoare I (mbind m k) Q'.
Proof.
  intros Hm Hk s Hs. unfold mbind. specialize (Hm s Hs).
  destruct (m s) as [a s'| |]; [|done..]. destruct Hm as [Hs' Ha].
  exact (Hk a Ha s' Hs').
Qed.

Lemma keeps_ret {A} (a : A) : keeps I (mret a).
Proof. by apply hoare_ret. Qed.

Lemma keeps_bind {A B} (m : M A) (k : A -> M B) :
  keeps I m -> (forall a, keeps I (k a)) -> keeps I (mbind m k).
Proof.
  intros Hm Hk.
  apply (hoare_bind m k (fun _ => True)); [exact Hm | intros a _; apply Hk].
Qed.

Lemma keeps_let {A B} (v : B) (f : B -> M A) :
  (forall x, keeps I (f x)) -> keeps I (let x := v in f x).
Proof. intros Hf. apply Hf. Qed.

Lemma keeps_get : keeps I get.
Proof. intros s Hs. by split. Qed.

Lemma keeps_throw {A} : keeps I (@throw A).
Proof. intros s Hs. exact Hs. Qed.

Lemma keeps_modify (f : State -> State) :
  (forall s, I s -> I (f s)) -> keeps I (modify f).
Proof. intros Hf s Hs. split; auto. Qed.

Lemma keeps_updM i (f : Entity -> Entity) :
  (forall s, I s -> I (upd i f s)) -> keeps I (updM i f).
Proof. apply keeps_modify. Qed.

Lemma keeps_when (b : bool) (m : M unit) : keeps I m -> keeps I (when b m).
Proof. intros Hm. destruct b; [exact Hm | apply keeps_ret]. Qed.

Lemma keeps_deref {A} (l : list A) k : keeps I (deref l k).
Proof. unfold deref. destruct (if decide _ then _ else _); [apply keeps_ret | apply keeps_throw]. Qed.

Lemma keeps_tile_biome x y : keeps I (tile_biome x y).
Proof.
  intros s Hs. unfold tile_biome. destruct (ta_get _ _); [by split|exact Hs].
Qed.

Lemma keeps_foldM {A B} (f : B -> A -> M B) (l : list A) :
  (forall b a, keeps I (f b a)) -> forall b, keeps I (foldM f l b).
Proof.
  intros Hf. induction l as [|a l IH]; intros b; simpl.
  - apply keeps_ret.
  - apply keeps_bind; [apply Hf | exact IH].
Qed.

(** The generator state is no part of the invariant. *)
Hypothesis I_rng : forall s r, I s -> I (set_RNG_S r s).

Lemma hoare_rand_in {A} (m : State -> Rand A) (Q : A -> Prop) :
  (forall s r, I s -> Q (fst (m s r))) -> hoare I (rand_in m) Q.
Proof.
  intros HQ s Hs. unfold rand_in. rewrite draw_spec. split; [by apply I_rng|].
  by apply HQ.
Qed.

Lemma keeps_rand {A} (m : Rand A) : keeps I (rand m).
Proof.
  intros s Hs. unfold rand. rewrite draw_spec. split; [by apply I_rng|done].
Qed.

Lemma keeps_rand_in {A} (m : State -> Rand A) : keeps I (rand_in m).
Proof. by apply hoare_rand_in. Qed.

Lemma keeps_attempt (f : State -> bool * State) :
  (forall s, I s -> I (snd (f s))) -> keeps I (attempt f).
Proof.
  intros Hf s Hs. unfold attempt. specialize (Hf s Hs).
  destruct (f s). by split.
Qed.

(** A loop over the slots ends within its fuel when the slot counter is
    bounded. *)
Hypothesis I_count : forall s, I s -> count s <= MAX_ENTITIES.

Lemma keeps_for_count {A} (body : Z -> A -> M A) :
  (forall n acc, keeps I (body n acc)) ->
  forall fuel n acc,
    MAX_ENTITIES - n <= Z.of_nat fuel -> keeps I (for_count fuel body n acc).
Proof.
  intros Hb. induction fuel as [|fuel IH]; intros n acc Hf s Hs.
  - simpl. case_decide as Hn; [|by split].
    pose proof (I_count s Hs). lia.
  - simpl. case_decide as Hn; [|by split].
    specialize (Hb n acc s Hs). destruct (body n acc s) as [acc' s'| |]; [|done..].
    destruct Hb as [Hs' _]. apply IH; [lia|exact Hs'].
Qed.

End HoareRules.

Create HintDb tick.

(** One step of the proof that a command keeps an invariant: a rule for
    its head, or a case analysis on what it branches on. *)
Ltac keep_step :=
  first
    [ apply keeps_ret
    | apply keeps_get
    | apply keeps_throw
    | lazymatch goal with
      | |- keeps _ (deref _ _) => apply keeps_deref
      | |- keeps _ (tile_biome _ _) => apply keeps_tile_biome
      | |- keeps _ (mbind _ _) => apply keeps_bind; [|intros ?]
      end
    | lazymatch goal with
      | |- keeps _ (when _ _) => apply keeps_when
      | |- keeps _ (let _ := _ in _) => apply keeps_let; intros ?
      | |- keeps _ (if ?b then _ else _) => destruct b
      | |- keeps _ (match ?x with _ => _ end) => destruct x
      end ].

(** ** What birth, hatching and removal leave alone *)

Lemma tuning_detectMutation k p1 sh re s :
  behaviorTuning (detectMutation k p1 sh re s) = behaviorTuning s.
Proof.
  unfold detectMutation.
  destruct (negb _); [reflexivity|].
  destruct (Qlt_bool (12 # 100) _ || re).
  - rewrite draw_spec. reflexivity.
  - reflexivity.
Qed.

Lemma tuning_register_birth k b s :
  behaviorTuning (register_birth k b s) = behaviorTuning s
  /\ eggs (register_birth k b s) = eggs s.
Proof.
  unfold register_birth, set_dietShiftPenalty, recordBirth, count_birth.
  destruct b; destruct (lifeType _); destruct (currentDayStats _); by split.
Qed.

Lemma tuning_placed_from k s b s1 :
  placed_from k s b s1 -> behaviorTuning s1 = behaviorTuning s.
Proof. intros Hp. inversion Hp; reflexivity. Qed.

(** The state in which [birth] or [hatchEgg] ends, for the placement
    outcome [b] reached in [s1]. *)
Lemma spawn_setup k row r s b s1 (tail : State -> State) :
  count s < MAX_ENTITIES -> k = count s ->
  placed_from k (upd k row (set_RNG_S r (set_count (k + 1) s))) b s1 ->
  (forall t, behaviorTuning (tail t) = behaviorTuning t) ->
  (forall t, eggs (tail t) = eggs t) ->
  (forall t, count (tail t) = count t) ->
  let s' := if negb b then set_count (count s1 - 1) s1 else tail s1 in
  behaviorTuning s' = behaviorTuning s /\ eggs s' = eggs s
  /\ count s <= count s' <= MAX_ENTITIES.
Proof.
  intros Hc -> Hp Ht He Hn s'.
  pose proof (tuning_placed_from _ _ _ _ Hp) as Htu.
  apply placed_from_frame in Hp.
  destruct Hp as (Hcnt & _ & _ & _ & _ & _ & _ & Heggs & _).
  subst s'. destruct b; cbn [negb].
  - rewrite Ht, He, Hn, Htu, Heggs, Hcnt. split; [reflexivity|]. split; [reflexivity|]. lia.
  - cbn [behaviorTuning eggs count set_count].
    rewrite Htu, Heggs, Hcnt. split; [reflexivity|]. split; [reflexivity|]. lia.
Qed.

Lemma birth_setup p1 p2 x y s :
  count s <= MAX_ENTITIES ->
  behaviorTuning (birth p1 p2 x y s) = behaviorTuning s
  /\ eggs (birth p1 p2 x y s) = eggs s
  /\ count s <= count (birth p1 p2 x y s) <= MAX_ENTITIES.
Proof.
  intros Hle. destruct (decide (count s < MAX_ENTITIES)) as [Hc|Hc].
  - rewrite birth_unfold by exact Hc. cbv zeta.
    destruct (birth_spawn_spec p1 p2 x y s) as (_ & r & jit & Hp).
    apply (spawn_setup _ _ _ _ _ _
             (fun t => detectMutation (count s) p1
                         (o_shiftedDiet (snd (fst (birth_spawn p1 p2 x y s)))) false
                         (register_birth (count s)
                            (o_shiftedDiet (snd (fst (birth_spawn p1 p2 x y s)))) t))
             Hc eq_refl Hp).
    + intros t. rewrite tuning_detectMutation. apply tuning_register_birth.
    + intros t. rewrite (sw_eggs _ _ (same_world_detectMutation _ _ _ _ _)).
      apply tuning_register_birth.
    + intros t. rewrite (sw_count _ _ (same_world_detectMutation _ _ _ _ _)).
      apply register_birth_count.
  - unfold birth. rewrite decide_True by lia. split; [reflexivity|].
    split; [reflexivity|lia].
Qed.

Lemma hatchEgg_setup egg s :
  count s <= MAX_ENTITIES ->
  behaviorTuning (hatchEgg egg s) = behaviorTuning s
  /\ eggs (hatchEgg egg s) = eggs s
  /\ count s <= count (hatchEgg egg s) <= MAX_ENTITIES.
Proof.
  intros Hle. destruct (decide (count s < MAX_ENTITIES)) as [Hc|Hc].
  - rewrite hatchEgg_unfold by exact Hc. cbv zeta.
    destruct (hatch_spawn_spec egg s) as (r & jit & Hp).
    apply (spawn_setup _ _ _ _ _ _
             (fun t => detectMutation (count s) (parentId1 egg) (shiftedDiet egg)
                         (bool_decide (parentId2 egg <> None))
                         (register_birth (count s) (shiftedDiet egg) t))
             Hc eq_refl Hp).
    + intros t. rewrite tuning_detectMutation. apply tuning_register_birth.
    + intros t. rewrite (sw_eggs _ _ (same_world_detectMutation _ _ _ _ _)).
      apply tuning_register_birth.
    + intros t. rewrite (sw_count _ _ (same_world_detectMutation _ _ _ _ _)).
      apply register_birth_count.
  - unfold hatchEgg. rewrite decide_True by lia. split; [reflexivity|].
    split; [reflexivity|lia].
Qed.

Lemma updateEgg_setup egg s :
  count s <= MAX_ENTITIES ->
  behaviorTuning (snd (updateEgg egg s)) = behaviorTuning s
  /\ count (snd (updateEgg egg s)) <= MAX_ENTITIES.
Proof.
  intros Hle. unfold updateEgg. rewrite draw_spec.
  destruct (Qlt_bool _ _); [by split|].
  case_decide; [|by split].
  destruct (Qlt_bool (3 # 10) _); [|by split].
  rewrite draw_spec. destruct (Qlt_bool _ _); [|by split].
  cbn [snd].
  destruct (hatchEgg_setup (ageEgg s egg)
              (set_RNG_S (snd (rng (RNG_S (set_RNG_S (snd (rng (RNG_S s))) s))))
                         (set_RNG_S (snd (rng (RNG_S s))) s)) Hle)
    as (Ht & _ & Hn).
  split; [exact Ht|lia].
Qed.

Lemma updateEggs_setup s :
  count s <= MAX_ENTITIES ->
  behaviorTuning (updateEggs s) = behaviorTuning s
  /\ count (updateEggs s) <= MAX_ENTITIES.
Proof.
  intros Hle. unfold updateEggs.
  assert (Hfold : forall l,
            let acc := fold_right
              (fun egg (acc : list EggData * State) =>
                 let (o, s1) := updateEgg egg (snd acc) in
                 (match o with Some e => e :: fst acc | None => fst acc end, s1))
              ([], s) l in
            behaviorTuning (snd acc) = behaviorTuning s
            /\ count (snd acc) <= MAX_ENTITIES).
  { induction l as [|egg l IH]; [by split|].
    cbv zeta in *. cbn [fold_right]. destruct IH as [IH1 IH2].
    pose proof (updateEgg_setup egg _ IH2) as Hstep.
    destruct (updateEgg egg _) as [o s1]. cbn [snd] in *.
    destruct Hstep as [H1 H2]. split; [congruence|exact H2]. }
  specialize (Hfold (eggs s)). cbv zeta in Hfold.
  destruct (fold_right _ _ _) as [kept s']. exact Hfold.
Qed.

Lemma removeAt_setup i s :
  behaviorTuning (removeAt i s) = behaviorTuning s
  /\ eggs (removeAt i s) = eggs s.
Proof.
  unfold removeAt. destruct (aliveA (ent s i)); [|by split].
  destruct (lifeType _); case_decide; by split.
Qed.

Lemma recordDeath_setup i c s :
  behaviorTuning (recordDeath i c s) = behaviorTuning s
  /\ eggs (recordDeath i c s) = eggs s
  /\ count (recordDeath i c s) = count s
  /\ ents (recordDeath i c s) = ents s.
Proof. unfold recordDeath. destruct (currentDayStats s); by repeat split. Qed.

Lemma moveEntity_setup i nx ny s :
  behaviorTuning (snd (moveEntity i nx ny s)) = behaviorTuning s
  /\ eggs (snd (moveEntity i nx ny s)) = eggs s.
Proof. unfold moveEntity. repeat case_decide; by split. Qed.

(** ** Rows that the tick rewrites *)

Lemma tick_row_refl e : tick_row e e.
Proof. by constructor. Qed.

Lemma tick_row_trans e1 e2 e3 : tick_row e1 e2 -> tick_row e2 e3 -> tick_row e1 e3.
Proof. intros [] []. constructor; try congruence; auto. Qed.

Lemma scale_range (x f : Q) :
  (0 <= f <= 1)%Q -> (0 <= x <= 1)%Q -> (0 <= x * f <= 1)%Q.
Proof. intros [Hf0 Hf1] [Hx0 Hx1]. split; nra. Qed.

Lemma Qmin_spec (a b : Q) :
  (Qmin a b == a /\ a <= b)%Q \/ (Qmin a b == b /\ b <= a)%Q.
Proof.
  unfold Qmin. destruct (Qlt_bool b a) eqn:Hb.
  - right. apply Qlt_bool_iff in Hb. split; [reflexivity|lra].
  - left. apply Qlt_bool_false in Hb. split; [reflexivity|exact Hb].
Qed.

(** A write to columns that [tick_row] does not constrain, or of a
    clamped energy or hydration. *)
Ltac row_step :=
  intros; constructor; cbn;
  try reflexivity; try tauto; try discriminate;
  try (intros [[? ?] [? ?]]; repeat split;
       first [ assumption | apply clamp01_range | idtac ]).

Lemma tick_row_clock e : tick_row e (tick_clock e).
Proof. unfold tick_clock. row_step. Qed.

Lemma tick_row_hydrate bp clsP onWater moisture rainAmount e :
  tick_row e (hydrate bp clsP onWater moisture rainAmount e).
Proof.
  unfold hydrate. cbv zeta. repeat case_match; row_step.
Qed.

Lemma tick_row_metabolize tuning stressFactor e :
  tick_row e (metabolize tuning stressFactor e).
Proof.
  unfold metabolize. cbv zeta. repeat case_match; row_step.
Qed.

Lemma tick_row_scale f e :
  (0 <= f <= 1)%Q -> tick_row e (with_energyA (energyA e * f)%Q e).
Proof.
  intros Hf. constructor; try reflexivity; [tauto|].
  intros [He Hh]. split; [|exact Hh]. cbn. by apply scale_range.
Qed.

(** ** Properties of the rows that do not read energy or hydration *)

Lemma tick_row_stable e e' : tick_row e e' -> stable_row e e'.
Proof. intros []. by constructor. Qed.

Lemma stable_row_trans e1 e2 e3 :
  stable_row e1 e2 -> stable_row e2 e3 -> stable_row e1 e3.
Proof. intros [] []. constructor; try congruence; auto. Qed.

Lemma stable_bite (R : Entity -> Prop) :
  (forall e e', stable_row e e' -> R e -> R e') ->
  forall i p s, rows_ok R s -> rows_ok R (bite_plant i p s).
Proof.
  intros HR i p s Hs j. unfold bite_plant.
  set (taken := Qmin _ _).
  set (f1 := fun e : Entity => with_plantFeedHistoryA _ (with_energyA _ e)).
  assert (Hf1 : forall e, stable_row e (f1 e)) by (intros e; by constructor).
  assert (Hf2 : forall e, stable_row e (with_energyA (energyA e - taken)%Q e))
    by (intros e; by constructor).
  rewrite ent_upd. case_decide as Hj.
  - apply (HR _ _ (Hf2 _)). rewrite ent_upd. case_decide; [|apply Hs].
    apply (HR _ _ (Hf1 _)), Hs.
  - rewrite ent_upd. case_decide; [|apply Hs].
    apply (HR _ _ (Hf1 _)), Hs.
Qed.

(** ** The commands of the tick under an invariant

    Whatever invariant the writes of the tick keep, the tick keeps. *)

Lemma bookkeeping_recordDeath i c s : bookkeeping s (recordDeath i c s).
Proof. unfold recordDeath. destruct (currentDayStats s); by constructor. Qed.

Lemma bookkeeping_addFireAt p ttl s : bookkeeping s (addFireAt p ttl s).
Proof. unfold addFireAt. repeat case_match; by constructor. Qed.

Lemma bookkeeping_startNextDay s : bookkeeping s (startNextDayIfNeeded s).
Proof. unfold startNextDayIfNeeded. repeat case_match; by constructor. Qed.

Lemma bookkeeping_trans s1 s2 s3 :
  bookkeeping s1 s2 -> bookkeeping s2 s3 -> bookkeeping s1 s3.
Proof. intros [] []. constructor; congruence. Qed.

Section TickCommands.

Variable I : State -> Prop.

Hypothesis I_rng : forall s r, I s -> I (set_RNG_S r s).
Hypothesis I_count : forall s, I s -> count s <= MAX_ENTITIES.
Hypothesis I_upd : forall i f s,
  (forall e, tick_row e (f e)) -> I s -> I (upd i f s).
Hypothesis I_bookkeeping : forall s s', bookkeeping s s' -> I s -> I s'.
Hypothesis I_removeAt : forall j s, I s -> I (removeAt j s).
Hypothesis I_birth : forall p1 p2 x y s, I s -> I (birth p1 p2 x y s).
Hypothesis I_move : forall j nx ny s, I s -> I (snd (moveEntity j nx ny s)).
Hypothesis I_updateEggs : keeps I updateEggsM.
Hypothesis I_bite : forall i p s, I s -> I (bite_plant i p s).
Hypothesis I_lay_one : forall parentId mateId c incubation,
  keeps I (lay_one parentId mateId c incubation).

Lemma I_kill j c s : I s -> I (kill j c s).
Proof using I_bookkeeping I_removeAt.
  intros Hs. unfold kill. apply I_removeAt.
  exact (I_bookkeeping _ _ (bookkeeping_recordDeath j c s) Hs).
Qed.

Lemma I_addFireAt p ttl s : I s -> I (addFireAt p ttl s).
Proof using I_bookkeeping. apply I_bookkeeping, bookkeeping_addFireAt. Qed.

Lemma I_startNextDay s : I s -> I (startNextDayIfNeeded s).
Proof using I_bookkeeping. apply I_bookkeeping, bookkeeping_startNextDay. Qed.

Lemma I_startMammalGestation p s : I s -> I (startMammalGestation p s).
Proof using I_upd.
  intros Hs. unfold startMammalGestation. apply I_upd; [row_step|exact Hs].
Qed.

Local Hint Resolve I_rng I_kill I_birth I_move I_updateEggs I_bite
  I_addFireAt I_startNextDay I_startMammalGestation I_lay_one : tick.
Local Hint Resolve tick_row_clock tick_row_hydrate tick_row_metabolize : tick.

(** The leaves: a draw, a write to a row, a write to the state. *)
Ltac keep_leaf :=
  first
    [ apply (keeps_rand I_rng)
    | apply (keeps_rand_in I_rng)
    | apply keeps_updM; intros ? ?; apply I_upd;
      [first [solve [eauto with tick] | solve [row_step]] | assumption]
    | apply keeps_attempt; intros ? ?; solve [eauto with tick]
    | apply keeps_modify; intros ? ?;
      first [ solve [eauto with tick]
            | solve [eapply I_bookkeeping; [|eassumption]; by constructor] ]
    | solve [eauto with tick] ].

Ltac keep := repeat first [keep_step | keep_leaf].

Lemma keeps_findBestNeighborByScore i radius pred scoreFn :
  keeps I (findBestNeighborByScore i radius pred scoreFn).
Proof using I_rng. unfold findBestNeighborByScore. keep. Qed.

Lemma keeps_weightedRandomSelect candidates :
  keeps I (weightedRandomSelect candidates).
Proof using I_rng. unfold weightedRandomSelect. keep. Qed.

Local Hint Resolve keeps_findBestNeighborByScore keeps_weightedRandomSelect : tick.

Lemma keeps_findBestMate i : keeps I (findBestMate i).
Proof using I_rng. unfold findBestMate. keep. Qed.

Local Hint Resolve keeps_findBestMate : tick.

Section Weather.

Variables (Math_sin Math_cos : Q -> Q) (Math_hypot : Q -> Q -> Q).

Lemma keeps_lightning_try rainCells cell :
  keeps I (lightning_try Math_hypot rainCells cell).
Proof using I_rng I_bookkeeping.
  unfold lightning_try. keep.
  apply keeps_modify. intros s Hs.
  eapply I_bookkeeping; [|apply I_addFireAt, Hs]. by constructor.
Qed.

Lemma keeps_lightning_tries n rainCells cell :
  keeps I (lightning_tries Math_hypot n rainCells cell).
Proof using I_rng I_bookkeeping.
  induction n as [|n IH]; simpl; [apply keeps_ret|].
  apply keeps_bind; [apply keeps_lightning_try|].
  intros []; [apply keeps_ret | exact IH].
Qed.

Lemma keeps_spawnLightning rainCells :
  keeps I (spawnLightning Math_hypot rainCells).
Proof using I_rng I_bookkeeping.
  unfold spawnLightning. keep. apply keeps_lightning_tries.
Qed.

Lemma keeps_spread_roll x y rain : keeps I (spread_roll x y rain).
Proof using I_rng I_bookkeeping. unfold spread_roll. keep. Qed.

Lemma keeps_burn rainCells acc p : keeps I (burn Math_hypot rainCells acc p).
Proof using I_rng I_bookkeeping.
  unfold burn. keep.
  apply keeps_foldM. intros lit _. keep. apply keeps_spread_roll.
Qed.

Lemma keeps_updateFires rainCells : keeps I (updateFires Math_hypot rainCells).
Proof using I_rng I_bookkeeping.
  unfold updateFires. keep.
  apply keeps_foldM. intros. apply keeps_burn.
Qed.

End Weather.

Lemma keeps_start_cooldown j c : keeps I (start_cooldown j c).
Proof using I_rng I_upd. unfold start_cooldown. keep. Qed.

Local Hint Resolve keeps_start_cooldown : tick.

Lemma keeps_layEggs parentId mateId : keeps I (layEggs parentId mateId).
Proof using I_rng I_upd I_lay_one.
  unfold layEggs. keep.
  apply keeps_foldM. intros. apply I_lay_one.
Qed.

Lemma keeps_scale_energy i f : (0 <= f <= 1)%Q -> keeps I (scale_energy i f).
Proof using I_upd.
  intros Hf. unfold scale_energy. apply keeps_updM. intros s Hs.
  apply I_upd; [|exact Hs]. intros e. by apply tick_row_scale.
Qed.

Local Hint Resolve keeps_layEggs : tick.

Ltac scale := apply keeps_scale_energy; split; discriminate.

Lemma keeps_plant_seed i rainCoverageNow : keeps I (plant_seed i rainCoverageNow).
Proof using I_rng I_upd I_birth.
  unfold plant_seed. keep; scale.
Qed.

Lemma keeps_tryReproduce i rainCoverageNow : keeps I (tryReproduce i rainCoverageNow).
Proof using I_rng I_upd I_birth I_lay_one.
  unfold tryReproduce. keep;
    first [apply keeps_plant_seed | scale].
Qed.

Lemma keeps_bear_one parentId spots : keeps I (bear_one parentId spots).
Proof using I_rng I_birth. unfold bear_one. keep. Qed.

Lemma keeps_bear n parentId spots : keeps I (bear n parentId spots).
Proof using I_rng I_birth.
  induction n as [|n IH]; simpl; [apply keeps_ret|].
  keep; first [apply keeps_bear_one | exact IH].
Qed.

Lemma keeps_giveBirth parentId : keeps I (giveBirth parentId).
Proof using I_rng I_upd I_birth.
  unfold giveBirth. keep.
  - apply keeps_updM. intros s Hs. apply I_upd; [|exact Hs].
    intros e. constructor; try reflexivity; [tauto|].
    intros [He Hh]. split; [|exact Hh]. cbn.
    apply scale_range; [split; discriminate|exact He].
  - apply keeps_bear.
Qed.

Lemma keeps_updateGestation i : keeps I (updateGestation i).
Proof using I_rng I_upd I_birth.
  unfold updateGestation. keep. apply keeps_giveBirth.
Qed.

Lemma keeps_updateParentalCare i : keeps I (updateParentalCare i).
Proof using I_upd.
  unfold updateParentalCare. keep.
  apply keeps_foldM. intros. keep.
Qed.

Lemma keeps_reproduction_state i u : keeps I (reproduction_state i u).
Proof using I_rng I_upd I_birth.
  unfold reproduction_state. keep. apply keeps_updateGestation.
Qed.

Lemma keeps_updateReproductionStates :
  keeps I (updateReproductionStates (Z.to_nat MAX_ENTITIES)).
Proof using I_rng I_count I_upd I_birth.
  unfold updateReproductionStates.
  apply (keeps_for_count I_count); [apply keeps_reproduction_state|].
  rewrite Z2Nat.id by (unfold MAX_ENTITIES; lia). lia.
Qed.

Local Hint Resolve keeps_tryReproduce keeps_updateParentalCare : tick.

Lemma keeps_photosynthesize i night b stressFactor rainAmount :
  keeps I (photosynthesize i night b stressFactor rainAmount).
Proof using I_rng I_upd I_bookkeeping I_removeAt. unfold photosynthesize. keep. Qed.

Lemma keeps_feed i hungerDrive : keeps I (feed i hungerDrive).
Proof using I_rng I_upd I_bookkeeping I_removeAt I_bite. unfold feed. keep. Qed.

Local Hint Resolve keeps_photosynthesize keeps_feed : tick.

Lemma keeps_behave i b tempStress : keeps I (behave i b tempStress).
Proof using I_rng I_upd I_bookkeeping I_removeAt I_bite I_move.
  unfold behave. keep.
Qed.

Lemma keeps_fire_damage i : keeps I (fire_damage i).
Proof using I_upd I_bookkeeping I_removeAt I_move. unfold fire_damage. keep. Qed.

Local Hint Resolve keeps_behave keeps_fire_damage : tick.

Lemma keeps_step_entity rainAmountAt rainCoverageNow night i acc :
  keeps I (step_entity rainAmountAt rainCoverageNow night i acc).
Proof using I_rng I_upd I_bookkeeping I_removeAt I_bite I_move I_birth I_lay_one.
  unfold step_entity. keep.
Qed.

Section Sweep.

Variables (Math_sin Math_cos : Q -> Q) (Math_hypot : Q -> Q -> Q).

Lemma keeps_sweep rainCells rainCoverageNow night start :
  keeps I (sweep Math_hypot (Z.to_nat MAX_ENTITIES) rainCells rainCoverageNow
                 night start).
Proof using I_rng I_count I_upd I_bookkeeping I_removeAt I_bite I_move I_birth
  I_lay_one.
  unfold sweep.
  apply (keeps_for_count I_count).
  - intros n acc. keep. apply keeps_step_entity.
  - rewrite Z2Nat.id by (unfold MAX_ENTITIES; lia). lia.
Qed.

(** The tick from the state in which its clock has advanced: it keeps the
    invariant, whether it returns or fails, and does not run out of
    fuel. *)
Lemma stepOnce_from s :
  I (set_tick (tick s + 1) s) ->
  match stepOnce Math_sin Math_cos Math_hypot s with
  | Ok _ s' | Throw s' => I s'
  | Stuck _ => False
  end.
Proof using I_rng I_count I_upd I_bookkeeping I_removeAt I_bite I_move I_birth
  I_lay_one I_updateEggs.
  intros Hs.
  assert (Hrest : forall k : unit -> M unit, keeps I (k tt) ->
            match mbind (modify (fun s => set_tick (tick s + 1) s)) k s with
            | Ok _ s' | Throw s' => I s'
            | Stuck _ => False
            end).
  { intros k Hk. unfold mbind, modify. specialize (Hk _ Hs).
    destruct (k tt _); tauto. }
  unfold stepOnce. apply Hrest. keep.
  - apply keeps_spawnLightning.
  - apply keeps_updateFires.
  - apply keeps_sweep.
  - apply keeps_updateReproductionStates.
Qed.

End Sweep.

End TickCommands.

(** ** Row and egg properties through the tick *)

Section TickInvariant.

Variable R : Entity -> Prop.
Variable E : EggData -> Prop.
Variable T : BehaviorTuning -> Prop.

Hypothesis R_birth : forall o jit k e x y,
  R (with_yA y (with_xA x (birth_row o jit k e))).
Hypothesis R_hatch : forall egg jit k tk e x y,
  E egg -> R (with_yA y (with_xA x (hatch_row egg jit k tk e))).
Hypothesis R_species_glow : forall e e', species_glow e e' -> R e -> R e'.
Hypothesis R_tick : forall e e', tick_row e e' -> R e -> R e'.
Hypothesis R_move : forall e x y, R e -> R (with_yA y (with_xA x e)).
Hypothesis R_bite : forall i p s,
  T (behaviorTuning s) -> rows_ok R s -> rows_ok R (bite_plant i p s).
Hypothesis E_age : forall s egg, E egg -> E (ageEgg s egg).
Hypothesis E_lay : forall s p1 p2 r parent mate inc pos,
  rows_ok R s ->
  E (new_egg parent mate (fst (createOffspringData s p1 p2 r)) inc pos).

Local Abbreviation I := (tick_inv R E T).

Lemma R_penalty e v : R e -> R (with_dietShiftPenaltyA v e).
Proof using R_tick. apply R_tick. row_step. Qed.

Lemma R_dead e : R e -> R (with_aliveA false e).
Proof using R_tick. apply R_tick. row_step. Qed.

Lemma tick_inv_rng s r : I s -> I (set_RNG_S r s).
Proof using Type. intros []. by constructor. Qed.

Lemma tick_inv_upd i f s : (forall e, tick_row e (f e)) -> I s -> I (upd i f s).
Proof using R_tick.
  intros Hf []. constructor; try done.
  intros j. rewrite ent_upd. case_decide; [|done].
  apply (R_tick _ _ (Hf _)), ti_rows0.
Qed.

Lemma tick_inv_bookkeeping s s' : bookkeeping s s' -> I s -> I s'.
Proof using Type.
  intros Hb []. constructor.
  - intros j. unfold ent. rewrite (bk_ents _ _ Hb). apply ti_rows0.
  - by rewrite (bk_eggs _ _ Hb).
  - by rewrite (bk_tuning _ _ Hb).
  - by rewrite (bk_count _ _ Hb).
Qed.

Lemma tick_inv_removeAt j s : I s -> I (removeAt j s).
Proof using R_tick.
  intros []. destruct (removeAt_setup j s) as [Ht Hg].
  constructor.
  - by apply (rows_ok_removeAt R R_dead).
  - by rewrite Hg.
  - by rewrite Ht.
  - by rewrite removeAt_count.
Qed.

Lemma tick_inv_birth p1 p2 x y s : I s -> I (birth p1 p2 x y s).
Proof using R_birth R_species_glow R_tick.
  intros []. destruct (birth_setup p1 p2 x y s ti_count0) as (Ht & Hg & Hc).
  constructor.
  - by apply (rows_ok_birth R R_birth R_species_glow R_penalty).
  - by rewrite Hg.
  - by rewrite Ht.
  - lia.
Qed.

Lemma tick_inv_move j nx ny s : I s -> I (snd (moveEntity j nx ny s)).
Proof using R_move.
  intros []. destruct (moveEntity_setup j nx ny s) as [Ht Hg].
  constructor.
  - by apply (rows_ok_moveEntity R R_move).
  - by rewrite Hg.
  - by rewrite Ht.
  - by rewrite moveEntity_count.
Qed.

Lemma tick_inv_eggs_loop todo : forall kept s,
  rows_ok R s -> T (behaviorTuning s) -> count s <= MAX_ENTITIES ->
  Forall E todo -> Forall E kept ->
  match eggs_loop todo kept s with
  | Ok _ s' | Throw s' => I s'
  | Stuck _ => False
  end.
Proof using R_hatch R_species_glow R_tick E_age.
  induction todo as [|egg rest IH]; intros kept s Hr Ht Hc Htodo Hkept;
    cbn [eggs_loop].
  - unfold modify. by constructor.
  - apply Forall_cons in Htodo as [Hegg Hrest]. destruct (egg_on_map s egg).
    + pose proof (rows_ok_updateEgg R E R_hatch R_species_glow R_penalty E_age
                    egg s Hegg Hr) as [Hr1 Ho].
      destruct (updateEgg_setup egg s Hc) as [Ht1 Hc1].
      destruct (updateEgg egg s) as [o s1]. cbn [fst snd] in *.
      apply IH; try assumption; [by rewrite Ht1|].
      destruct o; [by constructor|assumption].
    + constructor; try assumption. cbn [eggs set_eggs].
      apply Forall_app. split; [by apply Forall_rev|by constructor].
Qed.

Lemma tick_inv_updateEggs : keeps I updateEggsM.
Proof using R_hatch R_species_glow R_tick E_age.
  intros s []. unfold updateEggsM.
  pose proof (tick_inv_eggs_loop (rev (eggs s)) [] s ti_rows0 ti_tuning0
                ti_count0 (Forall_rev ti_eggs0) (Forall_nil_2 _)) as Hl.
  destruct (eggs_loop _ _ s); [by split|exact Hl|exact Hl].
Qed.

Lemma tick_inv_bite i p s : I s -> I (bite_plant i p s).
Proof using R_bite.
  intros []. constructor; try done. by apply R_bite.
Qed.

Lemma tick_inv_lay_one parentId mateId c incubation :
  keeps I (lay_one parentId mateId c incubation).
Proof using E_lay.
  unfold lay_one. apply keeps_bind; [apply keeps_get|]. intros s0.
  destruct (findEggLayingSpot s0 parentId c) as [spot|]; [|apply keeps_ret].
  case_decide; [|apply keeps_ret].
  eapply hoare_bind.
  - apply (hoare_rand_in tick_inv_rng _
             (fun o => forall parent mate inc pos, E (new_egg parent mate o inc pos))).
    intros s r Hs parent mate inc pos. apply E_lay, Hs.
  - intros o Ho. apply keeps_modify. intros s [].
    constructor; try done.
    cbn. apply Forall_app. split; [done|]. constructor; [apply Ho|constructor].
Qed.

(** The tick keeps a property of the rows and of the eggs that its writes
    keep, whether it returns or fails, and does not run out of fuel. *)
Lemma tick_inv_stepOnce Math_sin Math_cos Math_hypot s :
  I s ->
  match stepOnce Math_sin Math_cos Math_hypot s with
  | Ok _ s' | Throw s' => I s'
  | Stuck _ => False
  end.
Proof using R_birth R_hatch R_species_glow R_tick R_move R_bite E_age E_lay.
  intros Hs.
  apply (stepOnce_from I tick_inv_rng (ti_count R E T) tick_inv_upd
           tick_inv_bookkeeping tick_inv_removeAt tick_inv_birth tick_inv_move
           tick_inv_updateEggs tick_inv_bite tick_inv_lay_one).
  destruct Hs. by constructor.
Qed.

End TickInvariant.

(** ** Energy and hydration stay in [0, 1] *)

Section VitalsRows.

Let R (e : Entity) : Prop := aliveA e = true -> vit_ok e.
Let E (egg : EggData) : Prop := (0 <= viability egg <= 1)%Q.

Lemma vitals_R_birth o jit k e x y :
  R (with_yA y (with_xA x (birth_row o jit k e))).
Proof.
  intros _. unfold vit_ok, birth_row.
  cbn [energyA hydrationA with_yA with_xA with_adultA with_aliveA with_ageA
       with_hydrationA with_energyA].
  repeat split; discriminate.
Qed.

Lemma vitals_R_hatch egg jit k tk e x y :
  E egg -> R (with_yA y (with_xA x (hatch_row egg jit k tk e))).
Proof.
  intros [Hv0 Hv1] _. unfold vit_ok, hatch_row.
  cbn [energyA hydrationA with_yA with_xA with_adultA with_aliveA with_ageA
       with_hydrationA with_energyA with_lastReproTickA with_reproTimerA
       with_reproStateA].
  unfold CHILD_ENERGY_START. repeat split; try discriminate; nra.
Qed.

Lemma vitals_R_species_glow e e' : species_glow e e' -> R e -> R e'.
Proof.
  unfold species_glow. intros -> HR Ha.
  exact (HR Ha).
Qed.

Lemma vitals_R_tick e e' : tick_row e e' -> R e -> R e'.
Proof. intros [] HR Ha. auto. Qed.

Lemma vitals_R_move e x y : R e -> R (with_yA y (with_xA x e)).
Proof. intros HR Ha. exact (HR Ha). Qed.

Lemma vitals_R_bite i p s :
  (0 <= plantBiteAmount (behaviorTuning s))%Q ->
  rows_ok R s -> rows_ok R (bite_plant i p s).
Proof.
  intros ti_tuning0 ti_rows0 j. unfold bite_plant.
  set (taken := Qmin _ _).
  set (f1 := fun e : Entity => with_plantFeedHistoryA _ (with_energyA _ e)).
  assert (Ht0 : (0 <= taken)%Q \/ ~ (0 <= energyA (ent s p))%Q).
  { subst taken. destruct (Qmin_spec (plantBiteAmount (behaviorTuning s))
                                     (energyA (ent s p))) as [[-> _]|[-> _]].
    - by left.
    - destruct (Qlt_le_dec (energyA (ent s p)) 0); [right; lra|by left]. }
  assert (Ht1 : (taken <= energyA (ent s p))%Q).
  { subst taken. destruct (Qmin_spec (plantBiteAmount (behaviorTuning s))
                                     (energyA (ent s p))) as [[-> ?]|[-> _]]; lra. }
  assert (Hf1 : forall e, tick_row e (f1 e)) by (subst f1; row_step).
  rewrite ent_upd. case_decide as Hj; [subst j|].
  - destruct (decide (i = p)) as [->|Hip].
    + rewrite ent_upd_eq.
      apply (vitals_R_tick (ent s p)); [|apply ti_rows0].
      constructor; try reflexivity; [tauto|].
      intros [[He0 He1] Hh]. split; [|exact Hh].
      subst f1. cbn.
      pose proof (clamp01_range (energyA (ent s p) + taken
         * (if decide (diet (genomeA (ent s p)) = herbivore)
            then PLANT_DIGESTION_EFFICIENCY_HERB
            else PLANT_DIGESTION_EFFICIENCY_OMNI))) as [Hc0 Hc1].
      destruct Ht0 as [Ht0|Hn]; [|contradiction].
      assert (Hge : (energyA (ent s p) <=
                 clamp01 (energyA (ent s p) + taken
                   * (if decide (diet (genomeA (ent s p)) = herbivore)
                      then PLANT_DIGESTION_EFFICIENCY_HERB
                      else PLANT_DIGESTION_EFFICIENCY_OMNI)))%Q).
      { unfold clamp01.
        destruct (Qlt_bool _ 0) eqn:H0.
        - apply Qlt_bool_iff in H0.
          destruct (decide _); unfold PLANT_DIGESTION_EFFICIENCY_HERB,
            PLANT_DIGESTION_EFFICIENCY_OMNI in *; nra.
        - destruct (Qlt_bool 1 _) eqn:H1; [lra|].
          destruct (decide _); unfold PLANT_DIGESTION_EFFICIENCY_HERB,
            PLANT_DIGESTION_EFFICIENCY_OMNI in *; nra. }
      split; lra.
    + rewrite ent_upd_ne by exact Hip.
      apply (vitals_R_tick (ent s p)); [|apply ti_rows0].
      constructor; try reflexivity; [tauto|].
      intros [[He0 He1] Hh]. split; [|exact Hh]. cbn.
      destruct Ht0 as [Ht0|Hn]; [|contradiction]. split; lra.
  - rewrite ent_upd. case_decide; [|apply ti_rows0].
    apply (vitals_R_tick _ _ (Hf1 _)), ti_rows0.
Qed.

Lemma vitals_E_age s egg : E egg -> E (ageEgg s egg).
Proof. intros _. apply clamp01_range. Qed.

Lemma vitals_E_lay parent mate o inc pos : E (new_egg parent mate o inc pos).
Proof. split; discriminate. Qed.

End VitalsRows.

(** C4. If every live entity has energy and hydration in [0, 1], every
    egg a viability in [0, 1], the herbivore bite of the tuning is not
    negative and the slot counter is within the arrays, then so it is after
    [stepOnce], whether the call returns or fails with a [TypeError]; the
    sweep over the slots ends within the [MAX_ENTITIES] rounds that the
    slot counter allows.  Every write of the tick to energy or hydration
    (metabolism, photosynthesis, drinking, rain, the herbivore bite and
    its subtraction from the bitten plant, predation, fire, parental care,
    gestation, reproduction costs) keeps the value in range. *)
Theorem vitals_stay_in_range (Math_sin Math_cos : Q -> Q) (Math_hypot : Q -> Q -> Q)
    (s : State) :
  vitals_inv s ->
  match stepOnce Math_sin Math_cos Math_hypot s with
  | Ok _ s' | Throw s' =>
    vitals_inv s' /\
    forall i, aliveA (ent s' i) = true ->
      (0 <= energyA (ent s' i) <= 1)%Q /\ (0 <= hydrationA (ent s' i) <= 1)%Q
  | Stuck _ => False
  end.
Proof.
  intros Hs.
  pose proof (tick_inv_stepOnce _ _ _ vitals_R_birth vitals_R_hatch
                vitals_R_species_glow vitals_R_tick vitals_R_move vitals_R_bite
                vitals_E_age
                (fun s p1 p2 r parent mate inc pos _ =>
                   vitals_E_lay parent mate _ inc pos)
                Math_sin Math_cos Math_hypot s Hs) as Hk.
  destruct (stepOnce Math_sin Math_cos Math_hypot s) as [[] s'|s'|s'];
    [| |exact Hk];
    (split; [exact Hk|]; intros i Ha; exact (ti_rows _ _ _ _ Hk i Ha)).
Qed.

Lemma vitals_stay_in_range_witness :
  vitals_inv demo_state /\
  match stepOnce (fun _ => 0%Q) (fun _ => 0%Q) (fun _ _ => 0%Q) demo_state with
  | Ok _ s' | Throw s' =>
    vitals_inv s' /\
    forall i, aliveA (ent s' i) = true ->
      (0 <= energyA (ent s' i) <= 1)%Q /\ (0 <= hydrationA (ent s' i) <= 1)%Q
  | Stuck _ => False
  end.
Proof.
  assert (Hinit : vitals_inv demo_state).
  { constructor.
    - intros i. unfold ent, demo_state. cbn [ents set_count set_occ set_ents].
      destruct (decide (i = 0)) as [->|Hne].
      + rewrite lookup_singleton_eq. intros _. vm_compute.
        repeat split; discriminate.
      + rewrite lookup_singleton_ne by congruence. intros Ha. discriminate Ha.
    - constructor.
    - vm_compute. discriminate.
    - vm_compute. discriminate. }
  split; [exact Hinit|].
  apply (vitals_stay_in_range (fun _ => 0%Q) (fun _ => 0%Q) (fun _ _ => 0%Q)).
  exact Hinit.
Defined.

(** ** What the tick leaves alone *)

Lemma tick_moves_refl s : tick_moves s s.
Proof. constructor; auto; lia. Qed.

Lemma tick_moves_trans s1 s2 s3 :
  tick_moves s1 s2 -> tick_moves s2 s3 -> tick_moves s1 s3.
Proof. intros [] []. constructor; try congruence; auto; lia. Qed.

Lemma tick_moves_bookkeeping s s' : bookkeeping s s' -> tick_moves s s'.
Proof.
  intros []. constructor; try congruence; try lia.
Qed.

Lemma tick_moves_upd i f s : tick_moves s (upd i f s).
Proof. constructor; auto; cbn; lia. Qed.

Lemma tick_moves_rng r s : tick_moves s (set_RNG_S r s).
Proof. constructor; auto; cbn; lia. Qed.

Lemma tick_moves_removeAt i s : tick_moves s (removeAt i s).
Proof.
  unfold removeAt. destruct (aliveA (ent s i)); [|apply tick_moves_refl].
  destruct (lifeType _); case_decide; constructor; auto; cbn;
    rewrite ?ta_len_set; lia.
Qed.

Lemma tick_moves_moveEntity i nx ny s : tick_moves s (snd (moveEntity i nx ny s)).
Proof.
  unfold moveEntity. repeat case_decide; try apply tick_moves_refl.
  constructor; auto; cbn; rewrite ?ta_len_set; lia.
Qed.

Lemma tick_moves_bite i p s : tick_moves s (bite_plant i p s).
Proof. unfold bite_plant. constructor; auto; cbn; lia. Qed.

Lemma length_push evt s :
  (length (MUTATION_LOG s) <= 200)%nat ->
  (length (MUTATION_LOG (pushMutationEvent evt s)) <= 200)%nat.
Proof.
  intros Hl. unfold pushMutationEvent. cbn [MUTATION_LOG set_MUTATION_LOG].
  case_decide as Hd.
  - rewrite removelast_firstn_len, length_take. cbn [length]. lia.
  - cbn [length] in *. lia.
Qed.

Lemma tick_moves_push evt s : tick_moves s (pushMutationEvent evt s).
Proof.
  constructor; auto; try (cbn; lia). apply length_push.
Qed.

Lemma tick_moves_detectMutation k p1 sh re s :
  tick_moves s (detectMutation k p1 sh re s).
Proof.
  unfold detectMutation.
  destruct (negb _); [apply tick_moves_refl|].
  eapply tick_moves_trans; [|apply tick_moves_push].
  eapply tick_moves_trans; [|apply tick_moves_upd].
  destruct (Qlt_bool (12 # 100) _ || re); [|apply tick_moves_refl].
  rewrite draw_spec.
  eapply tick_moves_trans; [apply tick_moves_rng|apply tick_moves_upd].
Qed.

Lemma tick_moves_register_birth k b s : tick_moves s (register_birth k b s).
Proof.
  unfold register_birth, set_dietShiftPenalty, recordBirth, count_birth.
  destruct b; destruct (lifeType _); destruct (currentDayStats _);
    constructor; auto; cbn; lia.
Qed.

(** A placement attempt for the slot [count s] followed by [tail], or by
    the restoration of the slot counter when it failed. *)
Lemma tick_moves_spawn row r s b s1 (tail : State -> State) :
  count s < MAX_ENTITIES ->
  placed_from (count s)
    (upd (count s) row (set_RNG_S r (set_count (count s + 1) s))) b s1 ->
  (forall t, tick_moves t (tail t)) ->
  tick_moves s (if negb b then set_count (count s1 - 1) s1 else tail s1).
Proof.
  intros Hc Hp Ht.
  assert (Hs1 : tick_moves s s1 /\ count s1 = count s + 1).
  { inversion Hp; subst; (split; [|reflexivity]);
      constructor; auto; cbn; rewrite ?ta_len_set; lia. }
  destruct Hs1 as [Hm Hcnt].
  destruct b; cbn [negb].
  - eapply tick_moves_trans; [exact Hm|apply Ht].
  - destruct Hm. constructor; auto; cbn; lia.
Qed.

Lemma tick_moves_birth p1 p2 x y s : tick_moves s (birth p1 p2 x y s).
Proof.
  destruct (decide (count s < MAX_ENTITIES)) as [Hc|Hc].
  - rewrite birth_unfold by exact Hc. cbv zeta.
    destruct (birth_spawn_spec p1 p2 x y s) as (_ & r & jit & Hp).
    apply (tick_moves_spawn _ _ _ _ _
             (fun t => detectMutation (count s) p1
                         (o_shiftedDiet (snd (fst (birth_spawn p1 p2 x y s)))) false
                         (register_birth (count s)
                            (o_shiftedDiet (snd (fst (birth_spawn p1 p2 x y s)))) t))
             Hc Hp).
    intros t. eapply tick_moves_trans;
      [apply tick_moves_register_birth|apply tick_moves_detectMutation].
  - unfold birth. rewrite decide_True by lia. apply tick_moves_refl.
Qed.

Lemma tick_moves_hatchEgg egg s : tick_moves s (hatchEgg egg s).
Proof.
  destruct (decide (count s < MAX_ENTITIES)) as [Hc|Hc].
  - rewrite hatchEgg_unfold by exact Hc. cbv zeta.
    destruct (hatch_spawn_spec egg s) as (r & jit & Hp).
    apply (tick_moves_spawn _ _ _ _ _
             (fun t => detectMutation (count s) (parentId1 egg) (shiftedDiet egg)
                         (bool_decide (parentId2 egg <> None))
                         (register_birth (count s) (shiftedDiet egg) t))
             Hc Hp).
    intros t. eapply tick_moves_trans;
      [apply tick_moves_register_birth|apply tick_moves_detectMutation].
  - unfold hatchEgg. rewrite decide_True by lia. apply tick_moves_refl.
Qed.

Lemma tick_moves_updateEgg egg s :
  tick_moves s (snd (updateEgg egg s))
  /\ eggs (snd (updateEgg egg s)) = eggs s.
Proof.
  unfold updateEgg. rewrite draw_spec.
  destruct (Qlt_bool _ _); [split; [apply tick_moves_rng|reflexivity]|].
  case_decide; [|split; [apply tick_moves_rng|reflexivity]].
  destruct (Qlt_bool (3 # 10) _); [|split; [apply tick_moves_rng|reflexivity]].
  rewrite draw_spec.
  destruct (Qlt_bool _ _);
    [|split; [eapply tick_moves_trans; apply tick_moves_rng|reflexivity]].
  cbn [snd]. split.
  - eapply tick_moves_trans; [apply tick_moves_rng|].
    eapply tick_moves_trans; [apply tick_moves_rng|apply tick_moves_hatchEgg].
  - destruct (decide (count s <= MAX_ENTITIES)) as [Hle|Hgt].
    + by destruct (hatchEgg_setup (ageEgg s egg)
                (set_RNG_S (snd (rng (RNG_S (set_RNG_S (snd (rng (RNG_S s))) s))))
                           (set_RNG_S (snd (rng (RNG_S s))) s)) Hle) as (_ & -> & _).
    + unfold hatchEgg. rewrite decide_True by (cbn; lia). reflexivity.
Qed.

(** The egg pass never lengthens the egg list. *)
Lemma tick_moves_updateEggs s :
  tick_moves s (updateEggs s)
  /\ (length (eggs (updateEggs s)) <= length (eggs s))%nat.
Proof.
  unfold updateEggs.
  assert (Hfold : forall l,
            let acc := fold_right
              (fun egg (acc : list EggData * State) =>
                 let (o, s1) := updateEgg egg (snd acc) in
                 (match o with Some e => e :: fst acc | None => fst acc end, s1))
              ([], s) l in
            tick_moves s (snd acc) /\ eggs (snd acc) = eggs s
            /\ (length (fst acc) <= length l)%nat).
  { induction l as [|egg l IH]; [split; [apply tick_moves_refl|split; [done|cbn; lia]]|].
    cbv zeta in *. cbn [fold_right]. destruct IH as (IH1 & IH2 & IH3).
    pose proof (tick_moves_updateEgg egg (snd (fold_right
              (fun egg (acc : list EggData * State) =>
                 let (o, s1) := updateEgg egg (snd acc) in
                 (match o with Some e => e :: fst acc | None => fst acc end, s1))
              ([], s) l))) as [H1 H2].
    destruct (updateEgg egg _) as [o s1]. cbn [fst snd] in *.
    split; [eapply tick_moves_trans; eassumption|]. split; [congruence|].
    destruct o; cbn [length]; lia. }
  specialize (Hfold (eggs s)). cbv zeta in Hfold.
  destruct (fold_right _ _ _) as [kept s']. cbn [fst snd] in Hfold.
  destruct Hfold as (Hm & He & Hl). split; [|exact Hl].
  destruct Hm. constructor; auto. cbn. intros Hcap. lia.
Qed.

Section TickMoves.

Variable s1 : State.

Let I (s : State) : Prop := tick_moves s1 s /\ count s <= MAX_ENTITIES.

Lemma moves_step (f : State -> State) :
  (forall s, tick_moves s (f s)) -> forall s, I s -> I (f s).
Proof.
  intros Hf s [Hm Hc]. split.
  - eapply tick_moves_trans; [exact Hm|apply Hf].
  - exact (tm_count_max _ _ (Hf s) Hc).
Qed.

Lemma moves_lay_one parentId mateId c incubation :
  keeps I (lay_one parentId mateId c incubation).
Proof.
  intros s Hs. unfold lay_one, mbind, get.
  destruct (findEggLayingSpot s parentId c) as [spot|]; [|exact (conj Hs Logic.I)].
  case_decide as Hroom; [|exact (conj Hs Logic.I)].
  unfold rand_in. rewrite draw_spec. unfold modify. split; [|exact Logic.I].
  destruct Hs as [[] Hc]. split; [|exact Hc].
  constructor; auto. intros _.
  cbn [eggs set_eggs set_RNG_S]. rewrite length_app. cbn [length]. lia.
Qed.

Lemma moves_eggs_loop todo : forall kept s,
  I s -> (length todo + length kept <= length (eggs s))%nat ->
  match eggs_loop todo kept s with
  | Ok _ s' | Throw s' => I s'
  | Stuck _ => False
  end.
Proof.
  induction todo as [|egg rest IH]; intros kept s [Hm Hc] Hlen; cbn [eggs_loop].
  - unfold modify. split; [|exact Hc]. destruct Hm. constructor; auto.
    cbn [eggs set_eggs length] in *. lia.
  - destruct (egg_on_map s egg).
    + destruct (tick_moves_updateEgg egg s) as [Hm1 He1].
      destruct (updateEgg egg s) as [o t1]. cbn [fst snd] in *.
      apply IH.
      * split; [eapply tick_moves_trans; eassumption|exact (tm_count_max _ _ Hm1 Hc)].
      * rewrite He1. destruct o; cbn [length] in *; lia.
    + split; [|exact Hc]. destruct Hm. constructor; auto.
      cbn [eggs set_eggs]. rewrite length_app, length_rev. cbn [length] in *. lia.
Qed.

Lemma moves_updateEggs : keeps I updateEggsM.
Proof.
  intros s Hs. unfold updateEggsM.
  pose proof (moves_eggs_loop (rev (eggs s)) [] s Hs) as Hl.
  rewrite length_rev in Hl. cbn [length] in Hl. specialize (Hl ltac:(lia)).
  destruct (eggs_loop _ _ s); [by split|exact Hl|exact Hl].
Qed.

Lemma stepOnce_moves Math_sin Math_cos Math_hypot s :
  s1 = set_tick (tick s + 1) s -> count s <= MAX_ENTITIES ->
  match stepOnce Math_sin Math_cos Math_hypot s with
  | Ok _ s' | Throw s' => tick_moves s1 s' /\ count s' <= MAX_ENTITIES
  | Stuck _ => False
  end.
Proof.
  intros Hs1 Hc.
  apply (stepOnce_from I).
  - intros t r. apply (moves_step (set_RNG_S r)). intros; apply tick_moves_rng.
  - intros t [_ Ht]. exact Ht.
  - intros i f t _. apply (moves_step (upd i f)). intros; apply tick_moves_upd.
  - intros t t' Hb [Hm Ht]. pose proof (tick_moves_bookkeeping _ _ Hb) as Hm'.
    split; [eapply tick_moves_trans; eassumption|exact (tm_count_max _ _ Hm' Ht)].
  - intros j. apply moves_step. intros; apply tick_moves_removeAt.
  - intros p1 p2 x y. apply moves_step. intros; apply tick_moves_birth.
  - intros j nx ny. apply (moves_step (fun t => snd (moveEntity j nx ny t))).
    intros; apply tick_moves_moveEntity.
  - exact moves_updateEggs.
  - intros i p. apply moves_step. intros; apply tick_moves_bite.
  - exact moves_lay_one.
  - subst s1. split; [apply tick_moves_refl|exact Hc].
Qed.

End TickMoves.

(** X2. One tick advances the clock by one and leaves the size of the
    world, the four terrain maps, the weather seed and the behaviour tuning
    as they were, whether [stepOnce] returns or fails part-way; started
    with at most [MAX_ENTITIES] slots it never runs out of loop rounds. *)
Theorem tick_advances_clock_only Math_sin Math_cos Math_hypot s :
  count s <= MAX_ENTITIES ->
  match stepOnce Math_sin Math_cos Math_hypot s with
  | Ok _ s' | Throw s' =>
    tick s' = tick s + 1 /\ W s' = W s /\ H s' = H s
    /\ biomeMap s' = biomeMap s /\ waterMap s' = waterMap s
    /\ waterDistanceMap s' = waterDistanceMap s /\ moistureMap s' = moistureMap s
    /\ weatherSeed s' = weatherSeed s /\ behaviorTuning s' = behaviorTuning s
    /\ ta_len (occ s') = ta_len (occ s)
  | Stuck _ => False
  end.
Proof.
  intros Hc.
  pose proof (stepOnce_moves _ Math_sin Math_cos Math_hypot s eq_refl Hc) as Hstep.
  destruct (stepOnce Math_sin Math_cos Math_hypot s) as [[] s'|s'|s'];
    [| |exact Hstep]; destruct Hstep as [[] _]; repeat split; assumption.
Qed.

Lemma tick_advances_clock_only_witness :
  match stepOnce (fun _ => 0%Q) (fun _ => 0%Q) (fun _ _ => 0%Q) demo_state with
  | Ok _ s' | Throw s' =>
    tick s' = tick demo_state + 1 /\ W s' = W demo_state /\ H s' = H demo_state
    /\ biomeMap s' = biomeMap demo_state /\ waterMap s' = waterMap demo_state
    /\ waterDistanceMap s' = waterDistanceMap demo_state
    /\ moistureMap s' = moistureMap demo_state
    /\ weatherSeed s' = weatherSeed demo_state
    /\ behaviorTuning s' = behaviorTuning demo_state
    /\ ta_len (occ s') = ta_len (occ demo_state)
  | Stuck _ => False
  end.
Proof.
  apply (tick_advances_clock_only (fun _ => 0%Q) (fun _ => 0%Q) (fun _ _ => 0%Q)).
  vm_compute. discriminate.
Defined.

(** X3. Through one tick the slot counter never decreases and never
    passes [MAX_ENTITIES]. *)
Theorem tick_slot_counter Math_sin Math_cos Math_hypot s :
  count s <= MAX_ENTITIES ->
  match stepOnce Math_sin Math_cos Math_hypot s with
  | Ok _ s' | Throw s' => count s <= count s' <= MAX_ENTITIES
  | Stuck _ => False
  end.
Proof.
  intros Hc.
  pose proof (stepOnce_moves _ Math_sin Math_cos Math_hypot s eq_refl Hc) as Hstep.
  destruct (stepOnce Math_sin Math_cos Math_hypot s) as [[] s'|s'|s'];
    [| |exact Hstep]; destruct Hstep as [[] Hc']; cbn [count set_tick] in *; lia.
Qed.

Lemma tick_slot_counter_witness :
  match stepOnce (fun _ => 0%Q) (fun _ => 0%Q) (fun _ _ => 0%Q) demo_state with
  | Ok _ s' | Throw s' => count demo_state <= count s' <= MAX_ENTITIES
  | Stuck _ => False
  end.
Proof.
  apply (tick_slot_counter (fun _ => 0%Q) (fun _ => 0%Q) (fun _ _ => 0%Q)).
  vm_compute. discriminate.
Defined.

(** X4. A tick keeps the two caps of the module: an egg list of at most
    [MAX_EGGS] eggs stays so (eggs are laid only below the cap, and the egg
    pass only removes eggs), and a mutation log of at most 200 events stays
    so. *)
Theorem tick_keeps_caps Math_sin Math_cos Math_hypot s :
  count s <= MAX_ENTITIES ->
  match stepOnce Math_sin Math_cos Math_hypot s with
  | Ok _ s' | Throw s' =>
    (Z.of_nat (length (eggs s)) <= MAX_EGGS ->
     Z.of_nat (length (eggs s')) <= MAX_EGGS)
    /\ ((length (MUTATION_LOG s) <= 200)%nat ->
        (length (MUTATION_LOG s') <= 200)%nat)
  | Stuck _ => False
  end.
Proof.
  intros Hc.
  pose proof (stepOnce_moves _ Math_sin Math_cos Math_hypot s eq_refl Hc) as Hstep.
  destruct (stepOnce Math_sin Math_cos Math_hypot s) as [[] s'|s'|s'];
    [| |exact Hstep]; destruct Hstep as [[] _]; split; assumption.
Qed.

Lemma tick_keeps_caps_witness :
  match stepOnce (fun _ => 0%Q) (fun _ => 0%Q) (fun _ _ => 0%Q) demo_state with
  | Ok _ s' | Throw s' =>
    (Z.of_nat (length (eggs demo_state)) <= MAX_EGGS ->
     Z.of_nat (length (eggs s')) <= MAX_EGGS)
    /\ ((length (MUTATION_LOG demo_state) <= 200)%nat ->
        (length (MUTATION_LOG s') <= 200)%nat)
  | Stuck _ => False
  end.
Proof.
  apply (tick_keeps_caps (fun _ => 0%Q) (fun _ => 0%Q) (fun _ _ => 0%Q)).
  vm_compute. discriminate.
Defined.

(** ** Diet and lifespan through the tick *)

Lemma demo_rows (R : Entity -> Prop) :
  R demo_parent -> R zeroEnt -> rows_ok R demo_state.
Proof.
  intros Hp Hz i. unfold ent, demo_state. cbn [ents set_count set_occ set_ents].
  destruct (decide (i = 0)) as [->|Hne].
  - rewrite lookup_singleton_eq. exact Hp.
  - rewrite lookup_singleton_ne by congruence. exact Hz.
Qed.

Lemma diet_stepOnce Math_sin Math_cos Math_hypot s :
  diet_inv s -> count s <= MAX_ENTITIES ->
  match stepOnce Math_sin Math_cos Math_hypot s with
  | Ok _ s' | Throw s' => diet_inv s'
  | Stuck _ => False
  end.
Proof.
  intros Hs Hc.
  pose (R := fun e : Entity => diet_ok (genomeA e)).
  assert (Hstable : forall e e', stable_row e e' -> R e -> R e').
  { intros e e' [Hg _ _ _ _]. unfold R. by rewrite Hg. }
  pose proof (tick_inv_stepOnce R (fun _ => True) (fun _ => True)
    diet_R_birth
    (fun egg jit k tk e x y _ => diet_R_hatch egg jit k tk e x y)
    diet_R_species_glow
    (fun e e' Hrow => Hstable e e' (tick_row_stable e e' Hrow))
    diet_R_move
    (fun i p t _ => stable_bite R Hstable i p t)
    (fun _ _ _ => Logic.I)
    (fun _ _ _ _ _ _ _ _ _ => Logic.I)
    Math_sin Math_cos Math_hypot s) as Hstep.
  assert (Hinit : tick_inv R (fun _ => True) (fun _ => True) s).
  { constructor; [exact Hs|by apply Forall_true|exact Logic.I|exact Hc]. }
  specialize (Hstep Hinit).
  destruct (stepOnce Math_sin Math_cos Math_hypot s) as [[] s'|s'|s'];
    [| |exact Hstep]; exact (ti_rows _ _ _ _ Hstep).
Qed.

(** X5. One tick keeps the diet rule of the rows: if in every row a plant
    has speed 0, vision 0 and diet photosynthesis and an animal a diet
    other than photosynthesis, then so it is after [stepOnce], whether it
    returns or fails part-way. *)
Theorem diet_kept_by_tick Math_sin Math_cos Math_hypot s :
  diet_inv s -> count s <= MAX_ENTITIES ->
  match stepOnce Math_sin Math_cos Math_hypot s with
  | Ok _ s' | Throw s' => diet_inv s'
  | Stuck _ => False
  end.
Proof. exact (diet_stepOnce Math_sin Math_cos Math_hypot s). Qed.

Lemma diet_kept_by_tick_witness :
  match stepOnce (fun _ => 0%Q) (fun _ => 0%Q) (fun _ _ => 0%Q) demo_state with
  | Ok _ s' | Throw s' => diet_inv s'
  | Stuck _ => False
  end.
Proof.
  apply (diet_kept_by_tick (fun _ => 0%Q) (fun _ => 0%Q) (fun _ _ => 0%Q)).
  - apply demo_rows; vm_compute; [discriminate|repeat split].
  - vm_compute. discriminate.
Defined.

Lemma lifespan_stepOnce Math_sin Math_cos Math_hypot s :
  lifespan_inv s -> count s <= MAX_ENTITIES ->
  match stepOnce Math_sin Math_cos Math_hypot s with
  | Ok _ s' | Throw s' => lifespan_inv s'
  | Stuck _ => False
  end.
Proof.
  intros Hs Hc.
  pose (R := fun e : Entity => aliveA e = true -> lifespan_ok e).
  assert (Hstable : forall e e', stable_row e e' -> R e -> R e').
  { intros e e' [Hg _ _ _ Ha] He Ha'. unfold lifespan_ok. rewrite Hg.
    exact (He (Ha Ha')). }
  pose proof (tick_inv_stepOnce R (fun _ => True) (fun _ => True)
    lifespan_R_birth
    (fun egg jit k tk e x y _ => lifespan_R_hatch egg jit k tk e x y)
    lifespan_R_species_glow
    (fun e e' Hrow => Hstable e e' (tick_row_stable e e' Hrow))
    lifespan_R_move
    (fun i p t _ => stable_bite R Hstable i p t)
    (fun _ _ _ => Logic.I)
    (fun _ _ _ _ _ _ _ _ _ => Logic.I)
    Math_sin Math_cos Math_hypot s) as Hstep.
  assert (Hinit : tick_inv R (fun _ => True) (fun _ => True) s).
  { constructor; [exact Hs|by apply Forall_true|exact Logic.I|exact Hc]. }
  specialize (Hstep Hinit).
  destruct (stepOnce Math_sin Math_cos Math_hypot s) as [[] s'|s'|s'];
    [| |exact Hstep]; exact (ti_rows _ _ _ _ Hstep).
Qed.

(** X6. One tick keeps the lifespan floor: if every live entity has a
    maximum age of at least its maturity age plus 200, then so it is after
    [stepOnce], for the entities born or hatched during the tick too. *)
Theorem lifespan_kept_by_tick Math_sin Math_cos Math_hypot s :
  lifespan_inv s -> count s <= MAX_ENTITIES ->
  match stepOnce Math_sin Math_cos Math_hypot s with
  | Ok _ s' | Throw s' => lifespan_inv s'
  | Stuck _ => False
  end.
Proof. exact (lifespan_stepOnce Math_sin Math_cos Math_hypot s). Qed.

Lemma lifespan_kept_by_tick_witness :
  match stepOnce (fun _ => 0%Q) (fun _ => 0%Q) (fun _ _ => 0%Q) demo_state with
  | Ok _ s' | Throw s' => lifespan_inv s'
  | Stuck _ => False
  end.
Proof.
  apply (lifespan_kept_by_tick (fun _ => 0%Q) (fun _ => 0%Q) (fun _ _ => 0%Q)).
  - apply demo_rows; [intros _; vm_compute; discriminate|intros Ha; discriminate Ha].
  - vm_compute. discriminate.
Defined.

(** ** Where the tick can fail *)

(** An index [floor (u * n)] drawn for a table of [n] entries is in range
    unless the generator returned exactly 1. *)
Lemma drawn_index_floor r n :
  0 < n ->
  0 <= Qfloor (fst (rng r) * inject_Z n)
  /\ (Qfloor (fst (rng r) * inject_Z n) < n \/ rng_next r = 4294967295).
Proof.
  intros Hn. unfold rng. cbn [fst].
  pose proof (rng_next_range r) as Hr. set (v := rng_next r) in *. clearbody v.
  assert (Hq : (inject_Z v / inject_Z 4294967295 * inject_Z n
                == (v * n) # 4294967295)%Q).
  { unfold Qeq, Qdiv, Qmult, Qinv, inject_Z. cbn. lia. }
  rewrite Hq. cbn [Qfloor]. split.
  - apply Z.div_pos; lia.
  - destruct (decide (v = 4294967295)) as [->|Hne]; [by right|left].
    apply Z.div_lt_upper_bound; [lia|]. change (Z.pos 4294967295) with 4294967295.
    nia.
Qed.

Lemma drawn_index_trunc r n :
  0 < n -> trunc0 (fst (rng r) * inject_Z n) = Qfloor (fst (rng r) * inject_Z n).
Proof.
  intros Hn. unfold trunc0.
  destruct (Qlt_bool _ 0) eqn:E; [|reflexivity].
  apply Qlt_bool_iff in E. exfalso.
  pose proof (rng_range r) as [Hu _].
  assert (0 <= fst (rng r) * inject_Z n)%Q; [|lra].
  apply Qmult_le_0_compat; [exact Hu|]. change 0%Q with (inject_Z 0).
  rewrite <- Zle_Qle. lia.
Qed.

Section FailRules.

Context {J : State -> Prop}.

Lemma fails_ret {A} (a : A) : fails_at J (mret a).
Proof. intros s. exact Logic.I. Qed.

Lemma fails_get : fails_at J get.
Proof. intros s. exact Logic.I. Qed.

Lemma fails_modify f : fails_at J (modify f).
Proof. intros s. exact Logic.I. Qed.

Lemma fails_updM i f : fails_at J (updM i f).
Proof. intros s. exact Logic.I. Qed.

Lemma fails_rand {A} (m : Rand A) : fails_at J (rand m).
Proof. intros s. unfold rand. by destruct (draw m s). Qed.

Lemma fails_rand_in {A} (m : State -> Rand A) : fails_at J (rand_in m).
Proof. intros s. unfold rand_in. by destruct (draw (m s) s). Qed.

Lemma fails_attempt f : fails_at J (attempt f).
Proof. intros s. unfold attempt. by destruct (f s). Qed.

Lemma fails_bind {A B} (m : M A) (k : A -> M B) :
  fails_at J m -> (forall a, fails_at J (k a)) -> fails_at J (mbind m k).
Proof.
  intros Hm Hk s. unfold mbind. specialize (Hm s).
  destruct (m s) as [a s'| |]; [apply Hk|exact Hm|exact Logic.I].
Qed.

Lemma fails_let {A B} (v : B) (f : B -> M A) :
  (forall x, fails_at J (f x)) -> fails_at J (let x := v in f x).
Proof. intros Hf. apply Hf. Qed.

Lemma fails_when (b : bool) (m : M unit) : fails_at J m -> fails_at J (when b m).
Proof. intros Hm. destruct b; [exact Hm | apply fails_ret]. Qed.

Lemma fails_foldM {A B} (f : B -> A -> M B) (l : list A) :
  (forall b a, fails_at J (f b a)) -> forall b, fails_at J (foldM f l b).
Proof.
  intros Hf. induction l as [|a l IH]; intros b; simpl.
  - apply fails_ret.
  - apply fails_bind; [apply Hf | exact IH].
Qed.

Lemma fails_for_count {A} (body : Z -> A -> M A) :
  (forall n acc, fails_at J (body n acc)) ->
  forall fuel n acc, fails_at J (for_count fuel body n acc).
Proof.
  intros Hb. induction fuel as [|fuel IH]; intros n acc s; simpl.
  - by case_decide.
  - case_decide; [|exact Logic.I]. specialize (Hb n acc s).
    destruct (body n acc s) as [acc' s'| |]; [apply IH|exact Hb|exact Logic.I].
Qed.

End FailRules.

Lemma fails_weaken {A} (J J' : State -> Prop) (m : M A) :
  (forall s, J s -> J' s) -> fails_at J m -> fails_at J' m.
Proof. intros HJ Hm s. specialize (Hm s). destruct (m s); auto. Qed.

(** The biome of a row's tile: the read fails only for a row off the
    map. *)
Lemma fails_tile_biome i :
  fails_at drew_one_or_stray
    (fun s => tile_biome (xA (ent s i)) (yA (ent s i)) s).
Proof.
  intros s. unfold tile_biome.
  destruct (ta_get _ _) eqn:E; [exact Logic.I|].
  right. left. exists i. unfold row_on_map. rewrite E. by intros [? ?].
Qed.

(** A table entry picked by a draw: the dereference fails only when the
    draw was 1. *)
Lemma fails_draw_floor {A B} (l : list A) (k : A -> M B) :
  l <> [] -> (forall x, fails_at drew_one (k x)) ->
  fails_at drew_one
    (mbind (rand rng) (fun u =>
       mbind (deref l (Math_floor (u * inject_Z (Z.of_nat (length l))))) k)).
Proof.
  intros Hl Hk s. unfold mbind at 1, rand. rewrite draw_spec.
  assert (Hn : 0 < Z.of_nat (length l)) by (destruct l; [done|cbn [length]; lia]).
  destruct (drawn_index_floor (RNG_S s) _ Hn) as [H0 Hlt].
  unfold Math_floor, mbind, deref. rewrite decide_True by exact H0.
  destruct (l !! Z.to_nat _) as [a|] eqn:E; [apply Hk|].
  unfold throw, drew_one. cbn [RNG_S set_RNG_S].
  apply lookup_ge_None in E. destruct Hlt as [Hlt|Hone]; [lia|exact Hone].
Qed.

Lemma fails_draw_trunc {A B} (l : list A) (k : A -> M B) :
  l <> [] -> (forall x, fails_at drew_one (k x)) ->
  fails_at drew_one
    (mbind (rand rng) (fun u =>
       mbind (deref l (trunc0 (u * inject_Z (Z.of_nat (length l))))) k)).
Proof.
  intros Hl Hk s.
  assert (Hn : 0 < Z.of_nat (length l)) by (destruct l; [done|cbn [length]; lia]).
  pose proof (fails_draw_floor l k Hl Hk s) as Hf.
  unfold mbind at 1 in Hf. unfold mbind at 1. unfold rand in *.
  rewrite draw_spec in *. rewrite (drawn_index_trunc _ _ Hn). exact Hf.
Qed.

Create HintDb fails.

#[local] Hint Resolve fails_ret fails_get fails_modify fails_updM fails_rand
  fails_rand_in fails_attempt : fails.

Ltac fail_step :=
  first
    [ lazymatch goal with
      | |- fails_at _ (mbind (rand rng) (fun _ => mbind (deref _ (Math_floor _)) _)) =>
        apply fails_draw_floor; [first [assumption | discriminate] | intros ?]
      | |- fails_at _ (mbind (rand rng) (fun _ => mbind (deref _ (trunc0 _)) _)) =>
        apply fails_draw_trunc; [first [assumption | discriminate] | intros ?]
      | |- fails_at _ (mbind _ _) => apply fails_bind; [|intros ?]
      end
    | lazymatch goal with
      | |- fails_at _ (when _ _) => apply fails_when
      | |- fails_at _ (let _ := _ in _) => apply fails_let; intros ?
      | |- fails_at _ (if ?b then _ else _) => destruct b
      | |- fails_at _ (match ?x with _ => _ end) => destruct x
      end
    | solve [eauto with fails] ].

Ltac fails := repeat fail_step.

Section TickFailures.

Variables (Math_sin Math_cos : Q -> Q) (Math_hypot : Q -> Q -> Q).

Lemma fails_findBestNeighborByScore i radius pred scoreFn :
  fails_at drew_one (findBestNeighborByScore i radius pred scoreFn).
Proof. unfold findBestNeighborByScore. fails. Qed.

Lemma fails_weightedRandomSelect candidates :
  fails_at drew_one (weightedRandomSelect candidates).
Proof. unfold weightedRandomSelect. fails. Qed.

Local Hint Resolve fails_findBestNeighborByScore fails_weightedRandomSelect : fails.

Lemma fails_findBestMate i : fails_at drew_one (findBestMate i).
Proof. unfold findBestMate. fails. Qed.

Local Hint Resolve fails_findBestMate : fails.

Lemma fails_lightning_try rainCells cell :
  fails_at drew_one (lightning_try Math_hypot rainCells cell).
Proof. unfold lightning_try. fails. Qed.

Lemma fails_lightning_tries n rainCells cell :
  fails_at drew_one (lightning_tries Math_hypot n rainCells cell).
Proof.
  induction n as [|n IH]; simpl; [apply fails_ret|].
  apply fails_bind; [apply fails_lightning_try|].
  intros []; [apply fails_ret | exact IH].
Qed.

Lemma fails_spawnLightning rainCells :
  rainCells <> [] -> fails_at drew_one (spawnLightning Math_hypot rainCells).
Proof.
  intros Hne. unfold spawnLightning. fails. apply fails_lightning_tries.
Qed.

Lemma fails_spread_roll x y rain : fails_at drew_one (spread_roll x y rain).
Proof. unfold spread_roll. fails. Qed.

Lemma fails_burn rainCells acc p :
  fails_at drew_one (burn Math_hypot rainCells acc p).
Proof.
  unfold burn. fails.
  apply fails_foldM. intros lit _. fails. apply fails_spread_roll.
Qed.

Lemma fails_updateFires rainCells :
  fails_at drew_one (updateFires Math_hypot rainCells).
Proof.
  unfold updateFires. fails.
  apply fails_foldM. intros. apply fails_burn.
Qed.

Lemma fails_start_cooldown j c : fails_at drew_one (start_cooldown j c).
Proof. unfold start_cooldown. fails. Qed.

Lemma fails_lay_one parentId mateId c incubation :
  fails_at drew_one (lay_one parentId mateId c incubation).
Proof. unfold lay_one. fails. Qed.

Local Hint Resolve fails_start_cooldown fails_lay_one : fails.

Lemma fails_layEggs parentId mateId : fails_at drew_one (layEggs parentId mateId).
Proof.
  unfold layEggs. fails.
  apply fails_foldM. intros. apply fails_lay_one.
Qed.

Lemma fails_scale_energy i f : fails_at drew_one (scale_energy i f).
Proof. unfold scale_energy. apply fails_updM. Qed.

Local Hint Resolve fails_layEggs fails_scale_energy : fails.

Lemma fails_plant_seed i rainCoverageNow :
  fails_at drew_one (plant_seed i rainCoverageNow).
Proof. unfold plant_seed. fails. Qed.

Local Hint Resolve fails_plant_seed : fails.

Lemma fails_tryReproduce i rainCoverageNow :
  fails_at drew_one (tryReproduce i rainCoverageNow).
Proof. unfold tryReproduce. fails. Qed.

Lemma fails_bear_one parentId spots :
  spots <> [] -> fails_at drew_one (bear_one parentId spots).
Proof. intros Hne. unfold bear_one. fails. Qed.

Lemma fails_bear n parentId spots :
  spots <> [] -> fails_at drew_one (bear n parentId spots).
Proof.
  intros Hne. induction n as [|n IH]; simpl; [apply fails_ret|].
  fails; first [by apply fails_bear_one | exact IH].
Qed.

Lemma fails_giveBirth parentId : fails_at drew_one (giveBirth parentId).
Proof.
  unfold giveBirth. fails. by apply fails_bear.
Qed.

Lemma fails_updateGestation i : fails_at drew_one (updateGestation i).
Proof. unfold updateGestation. fails. apply fails_giveBirth. Qed.

Lemma fails_updateParentalCare i : fails_at drew_one (updateParentalCare i).
Proof.
  unfold updateParentalCare. fails.
  apply fails_foldM. intros. fails.
Qed.

Lemma fails_reproduction_state i u : fails_at drew_one (reproduction_state i u).
Proof. unfold reproduction_state. fails. apply fails_updateGestation. Qed.

Lemma fails_updateReproductionStates fuel :
  fails_at drew_one (updateReproductionStates fuel).
Proof.
  unfold updateReproductionStates.
  apply fails_for_count. apply fails_reproduction_state.
Qed.

Local Hint Resolve fails_tryReproduce fails_updateParentalCare : fails.

Lemma fails_photosynthesize i night b stressFactor rainAmount :
  fails_at drew_one (photosynthesize i night b stressFactor rainAmount).
Proof. unfold photosynthesize. fails. Qed.

Lemma fails_feed i hungerDrive : fails_at drew_one (feed i hungerDrive).
Proof. unfold feed. fails. Qed.

Local Hint Resolve fails_photosynthesize fails_feed : fails.

Lemma fails_behave i b tempStress : fails_at drew_one (behave i b tempStress).
Proof. unfold behave. fails. Qed.

Lemma fails_fire_damage i : fails_at drew_one (fire_damage i).
Proof. unfold fire_damage. fails. Qed.

Local Hint Resolve fails_behave fails_fire_damage : fails.

Lemma fails_step_entity rainAmountAt rainCoverageNow night i acc :
  fails_at drew_one_or_stray
    (step_entity rainAmountAt rainCoverageNow night i acc).
Proof.
  unfold step_entity.
  apply fails_bind; [apply fails_get|intros s0].
  destruct (negb _); [apply fails_ret|].
  apply fails_bind; [apply fails_updM|intros _].
  intros s. unfold mbind at 1, get. unfold mbind at 1.
  pose proof (fails_tile_biome i s) as Hb. cbv beta in Hb.
  unfold tile_biome in Hb |- *.
  destruct (ta_get (biomeMap s) (idx s (xA (ent s i)) (yA (ent s i))))
    as [b|]; [clear Hb|exact Hb].
  refine (fails_weaken drew_one drew_one_or_stray _ (fun t Ht => or_introl Ht) _ s).
  fails.
Qed.

Lemma fails_sweep fuel rainCells rainCoverageNow night start :
  fails_at drew_one_or_stray
    (sweep Math_hypot fuel rainCells rainCoverageNow night start).
Proof.
  unfold sweep. apply fails_for_count. intros n acc. fails.
  apply fails_step_entity.
Qed.

End TickFailures.

Lemma fails_eggs_loop todo : forall kept,
  fails_at drew_one_or_stray (eggs_loop todo kept).
Proof.
  induction todo as [|egg rest IH]; intros kept s; cbn [eggs_loop].
  - exact Logic.I.
  - destruct (egg_on_map s egg) eqn:E.
    + destruct (updateEgg egg s) as [o s1]. apply IH.
    + right. right. exists egg. split; [|exact E].
      cbn [eggs set_eggs]. apply elem_of_app. right. by left.
Qed.

(** Wherever the tick fails, the generator has just returned 1 or the egg
    pass has met an egg off the map. *)
Lemma fails_stepOnce Math_sin Math_cos Math_hypot :
  fails_at drew_one_or_stray (stepOnce Math_sin Math_cos Math_hypot).
Proof.
  unfold stepOnce. fails.
  - apply (fails_weaken drew_one); [by left|]. by apply fails_spawnLightning.
  - apply (fails_weaken drew_one); [by left|]. apply fails_updateFires.
  - apply fails_sweep.
  - apply (fails_weaken drew_one); [by left|].
    apply fails_updateReproductionStates.
  - intros s. apply fails_eggs_loop.
Qed.

Lemma rng_one r : (fst (rng r) == 1)%Q <-> snd (rng r) = 4294967295.
Proof.
  unfold rng. cbn [fst snd].
  pose proof (rng_next_range r) as Hr. set (v := rng_next r) in *. clearbody v.
  unfold Qeq, Qdiv, Qmult, Qinv, inject_Z. cbn. lia.
Qed.

(** The tick does fail: with a burning tile, from the generator state
    whose second successor is [0xffffffff]. *)

Lemma mbind_ok {A B} (m : M A) (k : A -> M B) s a s' :
  m s = Ok a s' -> mbind m k s = k a s'.
Proof. intros Hm. unfold mbind. by rewrite Hm. Qed.

Lemma mbind_throw {A B} (m : M A) (k : A -> M B) s s' :
  m s = Throw s' -> mbind m k s = Throw s'.
Proof. intros Hm. unfold mbind. by rewrite Hm. Qed.

Lemma getRainAmountAt_range Math_hypot x y rainCells :
  (0 <= getRainAmountAt Math_hypot x y rainCells <= 1)%Q.
Proof. unfold getRainAmountAt. apply clamp01_range. Qed.

Lemma spawnLightning_quiet Math_hypot rainCells s :
  RNG_S s = 2480864133 ->
  spawnLightning Math_hypot rainCells s = Ok tt (set_RNG_S 653637408 s).
Proof.
  intros Hr. unfold spawnLightning.
  rewrite (mbind_ok _ _ s (fst (rng 2480864133)) (set_RNG_S 653637408 s)).
  - reflexivity.
  - unfold rand. rewrite draw_spec, Hr. reflexivity.
Qed.

Lemma spread_roll_throws x y rain s :
  RNG_S s = 653637408 ->
  spread_roll x y rain s = Throw (set_RNG_S 4294967295 s).
Proof.
  intros Hr. unfold spread_roll.
  rewrite (mbind_ok _ _ s (fst (rng 653637408)) (set_RNG_S 4294967295 s)).
  - reflexivity.
  - unfold rand. rewrite draw_spec, Hr. reflexivity.
Qed.

Lemma updateFires_throws Math_hypot rainCells s p rest :
  RNG_S s = 653637408 -> activeFires s = p :: rest -> 4 <= fireAt s p ->
  exists s', updateFires Math_hypot rainCells s = Throw s'.
Proof.
  intros Hr Ha Hf. unfold updateFires.
  rewrite (mbind_ok _ _ s s s) by reflexivity. rewrite Ha.
  cbn [foldM].
  set (rain := getRainAmountAt Math_hypot (Z.rem p (W s)) (Z.quot p (W s)) rainCells).
  assert (Hrain : 0 <= Math_floor (rain * 2) <= 2).
  { pose proof (getRainAmountAt_range Math_hypot (Z.rem p (W s))
                  (Z.quot p (W s)) rainCells) as [H0 H1].
    fold rain in H0, H1. unfold Math_floor. apply Qfloor_between.
    - change (inject_Z 0) with 0%Q. lra.
    - change (inject_Z 2) with 2%Q. lra. }
  set (ttl := Z.max 0 (fireAt s p - 1 - Math_floor (rain * 2))).
  assert (Httl : ttl > 0) by (unfold ttl; lia).
  set (s1 := set_fireTTLMap (ta_set (fireTTLMap s) p ttl) s).
  assert (Hburn : burn Math_hypot rainCells ([], []) p s
                  = Throw (set_RNG_S 4294967295 s1)).
  { unfold burn. rewrite (mbind_ok _ _ s s s) by reflexivity.
    cbv zeta. fold rain. fold ttl.
    rewrite decide_False by lia.
    rewrite (mbind_ok _ _ s tt s1) by reflexivity.
    rewrite decide_True by exact Httl.
    apply mbind_throw.
    destruct (decide (Z.rem ttl 9 = 0)); cbn [seq foldM];
      apply mbind_throw; apply mbind_throw; apply spread_roll_throws; exact Hr. }
  eexists. apply mbind_throw. apply mbind_throw. exact Hburn.
Qed.

(** X8. The tick does fail: started with the generator state
    [2480864133] and a first active fire with at least 4 ticks to burn,
    [stepOnce] stops in its fire pass on the direction [N8[8]], which is
    [undefined], whatever the rest of the state. *)
Theorem tick_fails_on_burning_tile Math_sin Math_cos Math_hypot s p rest :
  RNG_S s = 2480864133 -> activeFires s = p :: rest -> 4 <= fireAt s p ->
  exists s', stepOnce Math_sin Math_cos Math_hypot s = Throw s'.
Proof.
  intros Hr Ha Hf. unfold stepOnce.
  set (s1 := startNextDayIfNeeded (set_tick (tick s + 1) s)).
  assert (H1 : RNG_S s1 = RNG_S s /\ activeFires s1 = activeFires s
               /\ fireTTLMap s1 = fireTTLMap s).
  { unfold s1, startNextDayIfNeeded.
    destruct (currentDayStats _); [case_decide|]; by repeat split. }
  destruct H1 as (Hr1 & Ha1 & Hf1).
  rewrite (mbind_ok _ _ s tt (set_tick (tick s + 1) s)) by reflexivity.
  rewrite (mbind_ok _ _ _ tt s1) by reflexivity.
  rewrite (mbind_ok _ _ s1 s1 s1) by reflexivity. cbv zeta.
  rewrite (mbind_ok _ _ s1 tt (set_RNG_S 653637408 s1))
    by (apply spawnLightning_quiet; congruence).
  destruct (updateFires_throws Math_hypot
              (getRainCells Math_sin Math_cos s1 (tick s1))
              (set_RNG_S 653637408 s1) p rest) as [s' Hs'].
  - reflexivity.
  - cbn [activeFires set_RNG_S]. congruence.
  - unfold fireAt in *. cbn [fireTTLMap set_RNG_S]. by rewrite Hf1.
  - exists s'. by apply mbind_throw.
Qed.

Lemma tick_fails_on_burning_tile_witness :
  exists s', stepOnce (fun _ => 0%Q) (fun _ => 0%Q) (fun _ _ => 0%Q) burning_state
             = Throw s'.
Proof.
  apply (tick_fails_on_burning_tile (fun _ => 0%Q) (fun _ => 0%Q) (fun _ _ => 0%Q)
           burning_state (10 * 500 + 10) []).
  - reflexivity.
  - reflexivity.
  - vm_compute. discriminate.
Defined.

(** ** The tuning commands *)

Lemma Qmax_floor a b : (a <= Qmax a b)%Q.
Proof.
  unfold Qmax. destruct (Qlt_bool a b) eqn:E; [|lra].
  apply Qlt_bool_iff in E. lra.
Qed.

Lemma Qmax_above a b : (a <= b)%Q -> (Qmax a b == b)%Q.
Proof.
  intros Hab. unfold Qmax. destruct (Qlt_bool a b) eqn:E; [reflexivity|].
  assert (~ (a < b)%Q) by (rewrite <- Qlt_bool_iff; congruence). lra.
Qed.

Lemma clamp01_inside n : (0 <= n <= 1)%Q -> (clamp01 n == n)%Q.
Proof.
  intros [H0 H1]. unfold clamp01.
  destruct (Qlt_bool n 0) eqn:E0; [apply Qlt_bool_iff in E0; lra|].
  destruct (Qlt_bool 1 n) eqn:E1; [apply Qlt_bool_iff in E1; lra|reflexivity].
Qed.

Lemma Math_max_finite lo v q : Math_max lo v = Finite q -> (lo <= q)%Q.
Proof.
  destruct v; cbn; intros Heq; try discriminate; injection Heq as <-.
  - apply Qmax_floor.
  - lra.
Qed.

Lemma clamp01_num_finite v q : clamp01_num v = Finite q -> (0 <= q <= 1)%Q.
Proof.
  destruct v; cbn; intros Heq; try discriminate; injection Heq as <-.
  - apply clamp01_range.
  - lra.
  - lra.
Qed.

Lemma Math_max_range lo v : num_ge lo (Math_max lo v) <-> v <> NaN.
Proof.
  destruct v; cbn; split; try done; intros _;
    first [apply Qmax_floor | lra].
Qed.

Lemma clamp01_num_range v : num_01 (clamp01_num v) <-> v <> NaN.
Proof.
  destruct v; cbn; split; try done; intros _;
    first [apply clamp01_range | lra].
Qed.

Lemma Math_max_not_finite lo v :
  finite (Math_max lo v) = None <-> v = NaN \/ v = PosInfinity.
Proof. destruct v; cbn; split; intros H; try done; try tauto; by destruct H. Qed.

Lemma clamp01_num_not_finite v : finite (clamp01_num v) = None <-> v = NaN.
Proof. destruct v; cbn; split; intros H; done. Qed.

Lemma finite_Some v q : finite v = Some q -> v = Finite q.
Proof. destruct v; cbn; intros Heq; try discriminate. by injection Heq as ->. Qed.

(** [finite_tuning] gives the object back when all its numbers are finite. *)
Lemma finite_tuning_Some t b : finite_tuning t = Some b -> t = tuning_arg b.
Proof.
  unfold finite_tuning. destruct t as [v1 v2 v3 v4 v5 v6 v7 v8 v9 v10].
  cbn [a_thirstWeight a_hungerWeight a_mateWeight a_fearWeight
       a_motiveMoveBoostMax a_opportunisticFeedChance
       a_reproductionReadinessThreshold a_animalMetabolismMultiplier
       a_plantBiteAmount a_attackEnergyGain].
  destruct v1; [|discriminate..]. destruct v2; [|discriminate..].
  destruct v3; [|discriminate..]. destruct v4; [|discriminate..].
  destruct v5; [|discriminate..]. destruct v6; [|discriminate..].
  destruct v7; [|discriminate..]. destruct v8; [|discriminate..].
  destruct v9; [|discriminate..]. destruct v10; [|discriminate..].
  cbn. intros Heq. by injection Heq as <-.
Qed.

Lemma finite_tuning_None t :
  finite_tuning t = None <-> exists v, In v (tuning_numbers t) /\ finite v = None.
Proof.
  split.
  - intros Hnone.
    destruct (finite (a_thirstWeight t)) eqn:E1;
      [|eexists; split; [|exact E1]; cbn; tauto].
    destruct (finite (a_hungerWeight t)) eqn:E2;
      [|eexists; split; [|exact E2]; cbn; tauto].
    destruct (finite (a_mateWeight t)) eqn:E3;
      [|eexists; split; [|exact E3]; cbn; tauto].
    destruct (finite (a_fearWeight t)) eqn:E4;
      [|eexists; split; [|exact E4]; cbn; tauto].
    destruct (finite (a_motiveMoveBoostMax t)) eqn:E5;
      [|eexists; split; [|exact E5]; cbn; tauto].
    destruct (finite (a_opportunisticFeedChance t)) eqn:E6;
      [|eexists; split; [|exact E6]; cbn; tauto].
    destruct (finite (a_reproductionReadinessThreshold t)) eqn:E7;
      [|eexists; split; [|exact E7]; cbn; tauto].
    destruct (finite (a_animalMetabolismMultiplier t)) eqn:E8;
      [|eexists; split; [|exact E8]; cbn; tauto].
    destruct (finite (a_plantBiteAmount t)) eqn:E9;
      [|eexists; split; [|exact E9]; cbn; tauto].
    destruct (finite (a_attackEnergyGain t)) eqn:E10;
      [|eexists; split; [|exact E10]; cbn; tauto].
    unfold finite_tuning in Hnone.
    rewrite E1, E2, E3, E4, E5, E6, E7, E8, E9, E10 in Hnone. discriminate.
  - intros (v & Hin & Hv).
    destruct (finite_tuning t) as [b|] eqn:E; [|reflexivity].
    apply finite_tuning_Some in E. subst t. cbn in Hin.
    repeat (destruct Hin as [<-|Hin]; [discriminate|]). destruct Hin.
Qed.

(** What [setBehaviorTuning] stores, when it is finite, is within the
    ranges, and the command touches nothing else. *)
Lemma setBehaviorTuning_ok next s s' :
  setBehaviorTuning next s = Some s' ->
  tuning_ok (behaviorTuning s')
  /\ set_behaviorTuning (behaviorTuning s) s' = s.
Proof.
  unfold setBehaviorTuning.
  destruct (finite_tuning (clampBehaviorTuning next)) as [b|] eqn:E;
    [|discriminate].
  intros Heq. injection Heq as <-. apply finite_tuning_Some in E.
  split; [|by destruct s].
  cbn [behaviorTuning set_behaviorTuning].
  constructor.
  - apply (f_equal a_thirstWeight) in E. cbn in E.
    exact (Math_max_finite _ _ _ E).
  - apply (f_equal a_hungerWeight) in E. cbn in E.
    exact (Math_max_finite _ _ _ E).
  - apply (f_equal a_mateWeight) in E. cbn in E.
    exact (Math_max_finite _ _ _ E).
  - apply (f_equal a_fearWeight) in E. cbn in E.
    exact (Math_max_finite _ _ _ E).
  - apply (f_equal a_motiveMoveBoostMax) in E. cbn in E.
    exact (Math_max_finite _ _ _ E).
  - apply (f_equal a_opportunisticFeedChance) in E. cbn in E.
    exact (clamp01_num_finite _ _ E).
  - apply (f_equal a_reproductionReadinessThreshold) in E. cbn in E.
    exact (clamp01_num_finite _ _ E).
  - apply (f_equal a_animalMetabolismMultiplier) in E. cbn in E.
    exact (Math_max_finite _ _ _ E).
  - apply (f_equal a_plantBiteAmount) in E. cbn in E.
    exact (Math_max_finite _ _ _ E).
  - apply (f_equal a_attackEnergyGain) in E. cbn in E.
    exact (Math_max_finite _ _ _ E).
Qed.

(** [setBehaviorTuning] stores a number that is not finite exactly when it
    is given a [NaN], or [Infinity] for a number that it bounds from below
    only. *)
Lemma setBehaviorTuning_None next s :
  setBehaviorTuning next s = None
  <-> In NaN (tuning_numbers next) \/ In PosInfinity (unbounded_numbers next).
Proof.
  unfold setBehaviorTuning.
  destruct (finite_tuning (clampBehaviorTuning next)) as [b|] eqn:E.
  - split; [discriminate|]. intros Hbad. exfalso.
    assert (Hnone : finite_tuning (clampBehaviorTuning next) = None);
      [|congruence].
    apply finite_tuning_None. clear E b.
    cbn [In tuning_numbers unbounded_numbers] in Hbad.
    assert (Hm : forall lo v, v = NaN \/ v = PosInfinity ->
                   finite (Math_max lo v) = None)
      by (intros lo v; apply Math_max_not_finite).
    assert (Hc : forall v, v = NaN -> finite (clamp01_num v) = None)
      by (intros v; apply clamp01_num_not_finite).
    destruct Hbad as [Hnan|Hinf].
    + destruct Hnan as [H|[H|[H|[H|[H|[H|[H|[H|[H|[H|[]]]]]]]]]]];
        match type of H with
        | ?f next = _ => exists (f (clampBehaviorTuning next))
        end;
        (split; [cbn [In tuning_numbers]; tauto|]);
        first [apply Hm; left; exact H | apply Hc; exact H].
    + destruct Hinf as [H|[H|[H|[H|[H|[H|[H|[H|[]]]]]]]]];
        match type of H with
        | ?f next = _ => exists (f (clampBehaviorTuning next))
        end;
        (split; [cbn [In tuning_numbers]; tauto|]);
        apply Hm; right; exact H.
  - split; [intros _|reflexivity].
    apply finite_tuning_None in E as (v & Hin & Hv).
    cbn [In tuning_numbers clampBehaviorTuning a_thirstWeight a_hungerWeight
         a_mateWeight a_fearWeight a_motiveMoveBoostMax
         a_opportunisticFeedChance a_reproductionReadinessThreshold
         a_animalMetabolismMultiplier a_plantBiteAmount a_attackEnergyGain]
      in Hin.
    cbn [In tuning_numbers unbounded_numbers].
    destruct Hin as [H|[H|[H|[H|[H|[H|[H|[H|[H|[H|[]]]]]]]]]]];
      subst v;
      first [apply Math_max_not_finite in Hv as [Hv|Hv]
            |apply clamp01_num_not_finite in Hv];
      rewrite Hv; tauto.
Qed.

(** The ranges hold of the stored object exactly when no number of the
    argument is [NaN]. *)
Lemma clampBehaviorTuning_ok next :
  arg_ok (clampBehaviorTuning next) <-> ~ In NaN (tuning_numbers next).
Proof.
  split.
  - intros [H1 H2 H3 H4 H5 H6 H7 H8 H9 H10] Hin.
    cbn [clampBehaviorTuning a_thirstWeight a_hungerWeight
         a_mateWeight a_fearWeight a_motiveMoveBoostMax
         a_opportunisticFeedChance a_reproductionReadinessThreshold
         a_animalMetabolismMultiplier a_plantBiteAmount a_attackEnergyGain] in *.
    apply Math_max_range in H1, H2, H3, H4, H5, H8, H9, H10.
    apply clamp01_num_range in H6, H7.
    cbn [In tuning_numbers] in Hin.
    destruct Hin as [H|[H|[H|[H|[H|[H|[H|[H|[H|[H|[]]]]]]]]]]]; congruence.
  - intros Hno. cbn [In tuning_numbers] in Hno.
    constructor;
      cbn [clampBehaviorTuning a_thirstWeight a_hungerWeight
           a_mateWeight a_fearWeight a_motiveMoveBoostMax
           a_opportunisticFeedChance a_reproductionReadinessThreshold
           a_animalMetabolismMultiplier a_plantBiteAmount a_attackEnergyGain];
      first [apply Math_max_range | apply clamp01_num_range];
      intros Heq; apply Hno; rewrite Heq; tauto.
Qed.

(** A tuning within the ranges is stored with its numbers unchanged. *)
Lemma setBehaviorTuning_inside t s :
  tuning_ok t ->
  exists s', setBehaviorTuning (tuning_arg t) s = Some s'
             /\ tuning_eq (behaviorTuning s') t.
Proof.
  intros []. eexists. split; [reflexivity|].
  constructor; cbn;
    first [by apply Qmax_above | by apply clamp01_inside].
Qed.

Lemma default_tuning_ok : tuning_ok DEFAULT_BEHAVIOR_TUNING.
Proof. constructor; cbn; try split; discriminate. Qed.

(** ** The states that the commands reach *)

Lemma calm_refl s : calm s s.
Proof. split; [apply tick_moves_refl|by split]. Qed.

Lemma calm_trans s1 s2 s3 : calm s1 s2 -> calm s2 s3 -> calm s1 s3.
Proof.
  intros (Hm & He & Hl) (Hm' & He' & Hl').
  split; [eapply tick_moves_trans; eassumption|split; congruence].
Qed.

Lemma calm_rng r s : calm s (set_RNG_S r s).
Proof. split; [apply tick_moves_rng|by split]. Qed.

Lemma calm_upd i f s : calm s (upd i f s).
Proof. split; [apply tick_moves_upd|by split]. Qed.

Lemma calm_count_birth k s : calm s (count_birth k s).
Proof.
  unfold count_birth. destruct (lifeType _);
    (split; [constructor; auto; cbn; lia|by split]).
Qed.

Lemma calm_placed k row r s b s1 :
  k = count s -> count s < MAX_ENTITIES ->
  placed_from k (upd k row (set_RNG_S r (set_count (k + 1) s))) b s1 ->
  calm s s1.
Proof.
  intros -> Hc Hp.
  inversion Hp; subst;
    (split; [constructor; auto; cbn; rewrite ?ta_len_set; lia|by split]).
Qed.

Lemma calm_addEntity g energy age s : calm s (addEntity g energy age s).
Proof.
  destruct (decide (count s < MAX_ENTITIES)) as [Hc|Hc].
  - destruct (addEntity_spec g energy age s Hc) as (r & jit & b & s1 & Hp & ->).
    eapply calm_trans; [|apply calm_count_birth].
    exact (calm_placed _ _ _ _ _ _ eq_refl Hc Hp).
  - unfold addEntity. rewrite decide_True by lia. apply calm_refl.
Qed.

Lemma calm_seed_one life e0 de amax s : calm s (seed_one life e0 de amax s).
Proof.
  unfold seed_one. rewrite !draw_spec.
  eapply calm_trans; [|apply calm_addEntity].
  eapply calm_trans; [|apply calm_rng].
  eapply calm_trans; apply calm_rng.
Qed.

Lemma calm_repeat n f s :
  (forall t, calm t (f t)) -> calm s (repeat_state n f s).
Proof.
  intros Hf. revert s. induction n as [|n IH]; intros s; [apply calm_refl|].
  cbn [repeat_state]. eapply calm_trans; [apply Hf|apply IH].
Qed.

Lemma calm_seedWorld plantCount animalCount s :
  calm s (seedWorld plantCount animalCount s).
Proof.
  unfold seedWorld.
  eapply calm_trans; apply calm_repeat; intros t; apply calm_seed_one.
Qed.

Lemma calm_place x y g energy s : calm s (snd (place x y g energy s)).
Proof.
  destruct (decide (count s < MAX_ENTITIES /\ 0 <= x < W s /\ 0 <= y < H s
                    /\ ta_get (occ s) (idx s x y) = Some (-1)))
    as [(Hc & Hx & Hy & Hfree)|Hno].
  - rewrite (place_success x y g energy s Hc Hx Hy Hfree). cbn [snd].
    eapply calm_trans; [|apply calm_count_birth].
    unfold place_filled. rewrite applyGenome_spec.
    split; [constructor; auto; cbn; rewrite ?ta_len_set; lia|by split].
  - rewrite place_refused; [apply calm_refl|].
    destruct (decide (count s >= MAX_ENTITIES)); [by left|].
    destruct (decide (x < 0)); [by right; left|].
    destruct (decide (y < 0)); [by right; right; left|].
    destruct (decide (x >= W s)); [by right; right; right; left|].
    destruct (decide (y >= H s)); [by right; right; right; right; left|].
    right; right; right; right; right. intros Hfree. apply Hno.
    repeat split; try lia. exact Hfree.
Qed.

Section VitalsSeed.

Let R (e : Entity) : Prop := aliveA e = true -> vit_ok e.

Lemma vitals_R_seed g jit energy age i e x y :
  (0 <= energy <= 1)%Q ->
  R (with_yA y (with_xA x (seed_row g jit energy age i e))).
Proof.
  intros He _. unfold vit_ok, seed_row.
  cbn [energyA hydrationA with_yA with_xA with_adultA with_aliveA with_ageA
       with_hydrationA with_energyA].
  split; [exact He|split; discriminate].
Qed.

Lemma vitals_R_place g jit energy k e x y :
  R (with_yA y (with_xA x
       (set_species (Z.rem (speciesId (genomeA
          (applyPhenotypeFromGenes_row (applyGenome_cols g jit e)))) SPECIES_MAX)
          (with_adultA false (with_aliveA true (with_ageA 0
             (with_hydrationA 1 (with_energyA (clamp01 energy)
               (with_idA (k + 1)
                  (applyPhenotypeFromGenes_row (applyGenome_cols g jit e))))))))))).
Proof.
  intros _. unfold vit_ok, set_species.
  cbn [energyA hydrationA with_yA with_xA with_adultA with_aliveA with_ageA
       with_hydrationA with_energyA with_genomeA].
  split; [apply clamp01_range|split; discriminate].
Qed.

Lemma vitals_R_zero : R zeroEnt.
Proof. intros Ha. discriminate Ha. Qed.

End VitalsSeed.

(** The rows of the three row invariants, after a command that each of
    them survives. *)
Lemma sound_rows s s' :
  sound s ->
  (forall R : Entity -> Prop,
     R = (fun e => aliveA e = true -> vit_ok e)
     \/ R = (fun e => diet_ok (genomeA e))
     \/ R = (fun e => aliveA e = true -> lifespan_ok e) ->
     rows_ok R s') ->
  Forall (fun egg => (0 <= viability egg <= 1)%Q) (eggs s') ->
  count s' <= MAX_ENTITIES ->
  Z.of_nat (length (eggs s')) <= MAX_EGGS ->
  (length (MUTATION_LOG s') <= 200)%nat ->
  tuning_ok (behaviorTuning s') ->
  sound s'.
Proof.
  intros Hs Hrows Heggs Hc Hcap Hlog Ht. constructor; try assumption.
  - constructor; [apply Hrows; by left|exact Heggs| |exact Hc].
    pose proof (to_bite _ Ht). lra.
  - apply Hrows. right. by left.
  - apply Hrows. right. by right.
Qed.

Lemma sound_calm s s' :
  sound s -> calm s s' ->
  (forall R : Entity -> Prop,
     R = (fun e => aliveA e = true -> vit_ok e)
     \/ R = (fun e => diet_ok (genomeA e))
     \/ R = (fun e => aliveA e = true -> lifespan_ok e) ->
     rows_ok R s') ->
  sound s'.
Proof.
  intros Hs (Hm & He & Hl) Hrows. pose proof Hs as [[] ? ? ? ? ?].
  apply (sound_rows s); try assumption.
  - by rewrite He.
  - by apply (tm_count_max _ _ Hm).
  - by rewrite He.
  - by rewrite Hl.
  - by rewrite (tm_tuning _ _ Hm).
Qed.

Lemma sound_loaded : sound loaded.
Proof.
  assert (Hrows : forall R : Entity -> Prop, R zeroEnt -> rows_ok R loaded).
  { intros R Hz i. unfold ent, loaded. cbn [ents]. rewrite lookup_empty. exact Hz. }
  constructor.
  - constructor; [apply Hrows, vitals_R_zero|constructor| |]; vm_compute; discriminate.
  - apply Hrows, diet_R_zero.
  - apply Hrows, lifespan_R_zero.
  - vm_compute. discriminate.
  - cbn. lia.
  - apply default_tuning_ok.
Qed.

Section Reachable.

Variable buildEnv : Z -> Z -> Z -> Z -> World.
Variables (Math_sin Math_cos : Q -> Q) (Math_hypot : Q -> Q -> Q).

Lemma sound_seeded s0 s startPlants startAnimals :
  sound s0 ->
  eggs s = eggs s0 \/ eggs s = [] ->
  MUTATION_LOG s = MUTATION_LOG s0 \/ MUTATION_LOG s = [] ->
  behaviorTuning s = behaviorTuning s0 ->
  count s <= MAX_ENTITIES ->
  (forall i, ent s i = zeroEnt) ->
  sound (resetPopulationDiagnostics (seedWorld startPlants startAnimals s)).
Proof.
  intros Hs He Hl Ht Hc Hz.
  destruct (calm_seedWorld startPlants startAnimals s) as (Hm & He' & Hl').
  pose proof Hs as [[] ? ? ? ? ?].
  assert (Hrows : forall R : Entity -> Prop,
            (forall g jit energy age i e x y, (0 <= energy <= 1)%Q ->
               R (with_yA y (with_xA x (seed_row g jit energy age i e)))) ->
            R zeroEnt ->
            rows_ok R (resetPopulationDiagnostics
                         (seedWorld startPlants startAnimals s))).
  { intros R Hseed Hzero i.
    change (ent (resetPopulationDiagnostics ?t) i) with (ent t i).
    apply (rows_ok_seedWorld R Hseed). intros j. rewrite Hz. exact Hzero. }
  apply (sound_rows s0); [exact Hs| | | | | |].
  - intros R [->|[->| ->]]; apply Hrows.
    + exact vitals_R_seed.
    + exact vitals_R_zero.
    + intros g jit energy age i e x y _. exact (diet_R_seed g jit energy age i e x y).
    + exact diet_R_zero.
    + intros g jit energy age i e x y _. exact (lifespan_R_seed g jit energy age i e x y).
    + exact lifespan_R_zero.
  - cbn [eggs resetPopulationDiagnostics]. rewrite He'.
    destruct He as [-> | ->]; [assumption|constructor].
  - cbn [count resetPopulationDiagnostics]. by apply (tm_count_max _ _ Hm).
  - cbn [eggs resetPopulationDiagnostics]. rewrite He'.
    destruct He as [-> | ->]; [assumption|cbn; unfold MAX_EGGS; lia].
  - cbn [MUTATION_LOG resetPopulationDiagnostics]. rewrite Hl'.
    destruct Hl as [-> | ->]; [assumption|cbn; lia].
  - cbn [behaviorTuning resetPopulationDiagnostics].
    rewrite (tm_tuning _ _ Hm), Ht. assumption.
Qed.

Lemma sound_stepOnce s :
  sound s ->
  match stepOnce Math_sin Math_cos Math_hypot s with
  | Ok _ s' | Throw s' => sound s'
  | Stuck _ => False
  end.
Proof.
  intros Hs. pose proof Hs as [Hv Hd Hl He Hlog Ht].
  pose proof (ti_count _ _ _ _ Hv) as Hc.
  pose proof (tick_inv_stepOnce _ _ _ vitals_R_birth vitals_R_hatch
                vitals_R_species_glow vitals_R_tick vitals_R_move vitals_R_bite
                vitals_E_age
                (fun s p1 p2 r parent mate inc pos _ =>
                   vitals_E_lay parent mate _ inc pos)
                Math_sin Math_cos Math_hypot s Hv) as Hv'.
  pose proof (diet_stepOnce Math_sin Math_cos Math_hypot s Hd Hc) as Hd'.
  pose proof (lifespan_stepOnce Math_sin Math_cos Math_hypot s Hl Hc) as Hl'.
  pose proof (stepOnce_moves _ Math_sin Math_cos Math_hypot s eq_refl Hc) as Hm.
  destruct (stepOnce Math_sin Math_cos Math_hypot s) as [[] s'|s'|s'];
    [| |exact Hv'];
    (destruct Hm as [Hm _]; constructor; try assumption;
     [exact (tm_eggs _ _ Hm He)|exact (tm_log _ _ Hm Hlog)
     |rewrite (tm_tuning _ _ Hm); exact Ht]).
Qed.

Lemma reachable_sound s :
  reachable buildEnv Math_sin Math_cos Math_hypot s -> sound s.
Proof.
  induction 1 as [|seed sp sa w h s _ IH|seed sp sa w h s _ IH|x y g energy q s _ _ IH
                  |next s s' _ IH Hset|s _ IH|s s' _ IH Hstep|s s' _ IH Hstep].
  - exact sound_loaded.
  - unfold init. pose proof IH as [[] ? ? ? ? ?].
    apply (sound_seeded s); try assumption; try (by left); reflexivity.
  - unfold reseed.
    apply (sound_seeded s); try assumption; try (by right);
      first [reflexivity | cbn; unfold MAX_ENTITIES; lia].
  - apply (sound_calm s); [exact IH|apply calm_place|].
    pose proof IH as [[] ? ? ? ? ?].
    intros R [->|[->| ->]].
    + by apply (rows_ok_place _ vitals_R_place).
    + by apply (rows_ok_place _ diet_R_place).
    + by apply (rows_ok_place _ lifespan_R_place).
  - pose proof (setBehaviorTuning_ok _ _ _ Hset) as [Hok _].
    unfold setBehaviorTuning in Hset.
    destruct (finite_tuning _) as [b|]; [|discriminate]. injection Hset as <-.
    pose proof IH as [[] ? ? ? ? ?].
    apply (sound_rows s); try assumption.
    intros R [->|[->| ->]]; assumption.
  - pose proof IH as [[] ? ? ? ? ?].
    apply (sound_rows s); try assumption.
    + intros R [->|[->| ->]]; assumption.
    + apply default_tuning_ok.
  - pose proof (sound_stepOnce s IH) as Hs. by rewrite Hstep in Hs.
  - pose proof (sound_stepOnce s IH) as Hs. by rewrite Hstep in Hs.
Qed.

End Reachable.

(** X9. In every state that the commands of [Sim] reach from the loaded
    module when they are called with integers and finite numbers ([init],
    [reseed], [place] with a finite energy, [setBehaviorTuning] when what
    it stores is finite, [resetBehaviorTuning] and ticks that return or
    fail): live entities have energy and hydration in [0, 1], eggs a
    viability in [0, 1], the rows obey the diet rule and the lifespan
    floor, the slot counter is at most [MAX_ENTITIES], there are at most
    [MAX_EGGS] eggs and 200 logged mutations, the tuning is within the
    ranges of [setBehaviorTuning], and the loops of the next tick end
    within [MAX_ENTITIES] rounds. *)
Theorem reachable_states_sound buildEnv Math_sin Math_cos Math_hypot s :
  reachable buildEnv Math_sin Math_cos Math_hypot s ->
  (forall i, aliveA (ent s i) = true ->
     (0 <= energyA (ent s i) <= 1)%Q /\ (0 <= hydrationA (ent s i) <= 1)%Q)
  /\ Forall (fun egg => (0 <= viability egg <= 1)%Q) (eggs s)
  /\ diet_inv s /\ lifespan_inv s
  /\ count s <= MAX_ENTITIES
  /\ Z.of_nat (length (eggs s)) <= MAX_EGGS
  /\ (length (MUTATION_LOG s) <= 200)%nat
  /\ tuning_ok (behaviorTuning s)
  /\ match stepOnce Math_sin Math_cos Math_hypot s with
     | Stuck _ => False
     | _ => True
     end.
Proof.
  intros Hr. pose proof (reachable_sound _ _ _ _ s Hr) as Hs.
  pose proof (sound_stepOnce Math_sin Math_cos Math_hypot s Hs) as Hstep.
  destruct Hs as [[Hrows Heggs _ Hc] Hd Hl He Hlog Ht].
  split; [exact Hrows|]. do 7 (split; [assumption|]).
  by destruct (stepOnce Math_sin Math_cos Math_hypot s).
Qed.

Lemma reachable_states_sound_witness :
  let buildEnv := fun _ _ _ _ : Z =>
    mkWorld (ta_new (500 * 500) grassland) (ta_new (500 * 500) false)
            (ta_new (500 * 500) 0%Q) (ta_new (500 * 500) 0%Q) 7 in
  let s := snd (place 3 4 zeroGenome (8 # 10)
                  (set_behaviorTuning DEFAULT_BEHAVIOR_TUNING
                     (reseed buildEnv 1 2 2 500 500 loaded))) in
  (forall i, aliveA (ent s i) = true ->
     (0 <= energyA (ent s i) <= 1)%Q /\ (0 <= hydrationA (ent s i) <= 1)%Q)
  /\ Forall (fun egg => (0 <= viability egg <= 1)%Q) (eggs s)
  /\ diet_inv s /\ lifespan_inv s
  /\ count s <= MAX_ENTITIES
  /\ Z.of_nat (length (eggs s)) <= MAX_EGGS
  /\ (length (MUTATION_LOG s) <= 200)%nat
  /\ tuning_ok (behaviorTuning s)
  /\ match stepOnce (fun _ => 0%Q) (fun _ => 0%Q) (fun _ _ => 0%Q) s with
     | Stuck _ => False
     | _ => True
     end.
Proof.
  intros buildEnv s.
  apply (reachable_states_sound buildEnv
           (fun _ => 0%Q) (fun _ => 0%Q) (fun _ _ => 0%Q)).
  apply (reach_place _ _ _ _ 3 4 zeroGenome (Finite (8 # 10))); [reflexivity|].
  apply reach_resetBehaviorTuning, reach_reseed, reach_loaded.
Defined.

(** X10. [setBehaviorTuning] on the numbers of JavaScript.  The object
    that it stores is within the ranges (weights and the move boost at
    least 0, the two chances in [0, 1], metabolism at least 0.2, the bite
    at least 0.05, the attack gain at least 0.1) exactly when no number of
    its argument is [NaN]; it holds a number that is not finite exactly
    when the argument holds a [NaN], or [Infinity] for a number that is
    bounded from below only.  When all stored numbers are finite the
    stored tuning is within the ranges and nothing else of the state is
    touched, and a finite tuning that is within the ranges is stored with
    its numbers unchanged.  [resetBehaviorTuning] stores the default
    tuning, which is within the ranges. *)
Theorem setBehaviorTuning_contract next s :
  (arg_ok (clampBehaviorTuning next) <-> ~ In NaN (tuning_numbers next))
  /\ (setBehaviorTuning next s = None
      <-> In NaN (tuning_numbers next) \/ In PosInfinity (unbounded_numbers next))
  /\ (forall s', setBehaviorTuning next s = Some s' ->
        tuning_ok (getBehaviorTuning s')
        /\ set_behaviorTuning (behaviorTuning s) s' = s)
  /\ (forall t, next = tuning_arg t -> tuning_ok t ->
        exists s', setBehaviorTuning next s = Some s'
                   /\ tuning_eq (getBehaviorTuning s') t)
  /\ getBehaviorTuning (resetBehaviorTuning s) = DEFAULT_BEHAVIOR_TUNING
  /\ set_behaviorTuning (behaviorTuning s) (resetBehaviorTuning s) = s
  /\ tuning_ok DEFAULT_BEHAVIOR_TUNING.
Proof.
  split; [apply clampBehaviorTuning_ok|].
  split; [apply setBehaviorTuning_None|].
  split; [intros s'; apply setBehaviorTuning_ok|].
  split; [intros t ->; apply setBehaviorTuning_inside|].
  split; [reflexivity|]. split; [by destruct s|apply default_tuning_ok].
Qed.

Lemma setBehaviorTuning_contract_witness :
  exists s',
    setBehaviorTuning (tuning_arg DEFAULT_BEHAVIOR_TUNING) demo_state = Some s'
    /\ tuning_eq (getBehaviorTuning s') DEFAULT_BEHAVIOR_TUNING.
Proof.
  destruct (setBehaviorTuning_contract (tuning_arg DEFAULT_BEHAVIOR_TUNING)
              demo_state) as (_ & _ & _ & Hkeep & _).
  apply (Hkeep DEFAULT_BEHAVIOR_TUNING); [reflexivity|].
  constructor; cbn; try split; discriminate.
Defined.

(** ** Neighbourhood searches *)

Lemma elem_of_span r v : v ∈ span r <-> - r <= v <= r.
Proof. unfold span. rewrite elem_of_seqZ. lia. Qed.

Lemma elem_of_square r dx dy :
  (dx, dy) ∈ square r <-> - r <= dx <= r /\ - r <= dy <= r.
Proof.
  unfold square. rewrite list_elem_of_In, in_flat_map. split.
  - intros (v & Hv & Hin). apply in_map_iff in Hin as (u & Hu & Hin).
    inversion Hu; subst. apply list_elem_of_In, elem_of_span in Hv.
    apply list_elem_of_In, elem_of_span in Hin. lia.
  - intros [Hx Hy]. exists dy.
    split; [by apply list_elem_of_In, elem_of_span|]. apply in_map_iff. exists dx.
    split; [reflexivity|]. by apply list_elem_of_In, elem_of_span.
Qed.

(** The ring [r] holds the offsets at chessboard distance [r]. *)
Lemma elem_of_ring r dx dy :
  0 <= r -> (dx, dy) ∈ ring r <-> Z.max (Z.abs dx) (Z.abs dy) = r.
Proof.
  intros Hr. unfold ring. rewrite list_elem_of_In, filter_In.
  cbn [fst snd]. rewrite orb_true_iff, !bool_decide_eq_true.
  split.
  - intros [Hin Hd]. apply list_elem_of_In, elem_of_square in Hin. lia.
  - intros Hd. split; [apply list_elem_of_In, elem_of_square|]; lia.
Qed.

(** The first hit of a search that tries the keys of [l] in order. *)
Lemma head_flat_map {A B} (f : A -> list B) (l : list A) :
  match head (flat_map f l) with
  | Some v => exists l1 a l2, l = l1 ++ a :: l2 /\ head (f a) = Some v
                              /\ forall a', a' ∈ l1 -> f a' = []
  | None => forall a, a ∈ l -> f a = []
  end.
Proof.
  induction l as [|a l IH]; cbn [flat_map].
  - intros a Ha. by apply elem_of_nil in Ha.
  - destruct (f a) as [|v fa] eqn:E.
    + cbn [app]. destruct (head (flat_map f l)) as [v|].
      * destruct IH as (l1 & a0 & l2 & -> & Hv & Hl1).
        exists (a :: l1), a0, l2. split; [reflexivity|]. split; [exact Hv|].
        intros a' Ha'. apply elem_of_cons in Ha' as [->|Ha']; [exact E|by apply Hl1].
      * intros a' Ha'. apply elem_of_cons in Ha' as [->|Ha']; [exact E|by apply IH].
    + cbn [app head]. exists [], a, l. split; [reflexivity|].
      split; [by rewrite E|]. intros a' Ha'. by apply elem_of_nil in Ha'.
Qed.

Section RingSearch.

Variable s : State.
Variable ok : Z -> Z -> bool.
Variables x y radius : Z.

Let search : option (Z * Z) :=
  head (flat_map (fun r =>
          flat_map (fun d : Z * Z =>
            let nx := x + fst d in
            let ny := y + snd d in
            if ok nx ny then [(nx, ny)] else [])
          (ring r))
        (seqZ 1 radius)).

Let dist (nx ny : Z) : Z := Z.max (Z.abs (nx - x)) (Z.abs (ny - y)).

Lemma ring_hits r nx ny :
  0 <= r ->
  (nx, ny) ∈ flat_map (fun d : Z * Z =>
                if ok (x + fst d) (y + snd d) then [(x + fst d, y + snd d)] else [])
              (ring r)
  <-> dist nx ny = r /\ ok nx ny = true.
Proof.
  intros Hr. rewrite list_elem_of_In, in_flat_map. split.
  - intros ([dx dy] & Hd & Hin). apply list_elem_of_In in Hd.
    apply elem_of_ring in Hd; [|exact Hr].
    cbn [fst snd] in Hin. destruct (ok (x + dx) (y + dy)) eqn:E; [|destruct Hin].
    destruct Hin as [Heq|[]]. injection Heq as <- <-. split; [|exact E].
    unfold dist. replace (x + dx - x) with dx by lia.
    replace (y + dy - y) with dy by lia. exact Hd.
  - intros [Hd Hok]. exists (nx - x, ny - y).
    split; [apply list_elem_of_In, elem_of_ring; [exact Hr|exact Hd]|].
    cbn [fst snd]. replace (x + (nx - x)) with nx by lia.
    replace (y + (ny - y)) with ny by lia. rewrite Hok. by left.
Qed.

Lemma ring_search_spec :
  match search with
  | Some (nx, ny) =>
    ok nx ny = true /\ 1 <= dist nx ny <= radius
    /\ forall mx my, ok mx my = true -> 1 <= dist mx my -> dist nx ny <= dist mx my
  | None =>
    forall mx my, 1 <= dist mx my <= radius -> ok mx my = false
  end.
Proof.
  subst search.
  pose proof (head_flat_map (fun r =>
          flat_map (fun d : Z * Z =>
            if ok (x + fst d) (y + snd d) then [(x + fst d, y + snd d)] else [])
          (ring r)) (seqZ 1 radius)) as Hh.
  cbv zeta. destruct (head _) as [[nx ny]|].
  - destruct Hh as (l1 & r & l2 & Hl & Hv & Hl1).
    assert (Hr : r ∈ seqZ 1 radius) by (rewrite Hl; set_solver).
    apply elem_of_seqZ in Hr.
    assert (Hin : (nx, ny) ∈ flat_map (fun d : Z * Z =>
                if ok (x + fst d) (y + snd d) then [(x + fst d, y + snd d)] else [])
              (ring r)).
    { destruct (flat_map _ (ring r)); [discriminate|]. inversion Hv. by left. }
    apply ring_hits in Hin as [Hd Hok]; [|lia].
    split; [exact Hok|]. split; [lia|].
    intros mx my Hm Hm1.
    destruct (decide (dist nx ny <= dist mx my)) as [|Hlt]; [done|exfalso].
    assert (Hm_in : dist mx my ∈ l1).
    { assert (Hpre : forall k, 1 <= k < r -> k ∈ l1).
      { intros k Hk.
        assert (Hk_in : k ∈ seqZ 1 radius) by (apply elem_of_seqZ; lia).
        rewrite Hl in Hk_in. apply elem_of_app in Hk_in as [Hk_in|Hk_in]; [done|].
        exfalso.
        pose proof (NoDup_seqZ 1 radius) as Hnd. rewrite Hl in Hnd.
        assert (Hsorted : forall a b l', seqZ 1 radius = l1 ++ a :: l' -> b ∈ l' -> a < b).
        { clear. intros a b l' Heq Hb.
          apply list_elem_of_lookup in Hb as [j Hj].
          assert (H1 : seqZ 1 radius !! length l1 = Some a).
          { rewrite Heq. by rewrite list_lookup_middle. }
          assert (H2 : seqZ 1 radius !! (length l1 + S j)%nat = Some b).
          { rewrite Heq. rewrite lookup_app_r by lia.
            replace (length l1 + S j - length l1)%nat with (S j) by lia. exact Hj. }
          apply lookup_seqZ in H1, H2. lia. }
        apply elem_of_cons in Hk_in as [->|Hk_in]; [lia|].
        pose proof (Hsorted r k l2 Hl Hk_in). lia. }
      apply Hpre. lia. }
    specialize (Hl1 _ Hm_in).
    assert (Hhit : (mx, my) ∈ flat_map (fun d : Z * Z =>
                if ok (x + fst d) (y + snd d) then [(x + fst d, y + snd d)] else [])
              (ring (dist mx my))) by (apply ring_hits; [lia|by split]).
    rewrite Hl1 in Hhit. by apply elem_of_nil in Hhit.
  - intros mx my Hm. destruct (ok mx my) eqn:E; [exfalso|reflexivity].
    assert (Hk : dist mx my ∈ seqZ 1 radius) by (apply elem_of_seqZ; lia).
    specialize (Hh _ Hk).
    assert (Hhit : (mx, my) ∈ flat_map (fun d : Z * Z =>
                if ok (x + fst d) (y + snd d) then [(x + fst d, y + snd d)] else [])
              (ring (dist mx my))) by (apply ring_hits; [lia|by split]).
    rewrite Hh in Hhit. by apply elem_of_nil in Hhit.
Qed.

End RingSearch.

(** X11. [findNearbyEmpty] returns a free in-bounds tile other than
    [(x, y)] that is nearest in chessboard distance among those within
    [radius], and [null] only when there is none; [findNearbyWater] does
    the same for the free water tiles. *)
Theorem nearby_search_nearest s x y radius :
  let dist nx ny := Z.max (Z.abs (nx - x)) (Z.abs (ny - y)) in
  match findNearbyEmpty s x y radius with
  | Some (nx, ny) =>
    in_bounds s nx ny = true /\ is_free s nx ny = true
    /\ 1 <= dist nx ny <= radius
    /\ forall mx my, in_bounds s mx my = true -> is_free s mx my = true ->
         1 <= dist mx my -> dist nx ny <= dist mx my
  | None =>
    forall mx my, 1 <= dist mx my <= radius -> in_bounds s mx my = true ->
      is_free s mx my = false
  end
  /\
  match findNearbyWater s x y radius with
  | Some (nx, ny) =>
    in_bounds s nx ny = true /\ is_water s nx ny = true /\ is_free s nx ny = true
    /\ 1 <= dist nx ny <= radius
    /\ forall mx my, in_bounds s mx my = true -> is_water s mx my = true ->
         is_free s mx my = true -> 1 <= dist mx my -> dist nx ny <= dist mx my
  | None =>
    forall mx my, 1 <= dist mx my <= radius -> in_bounds s mx my = true ->
      is_water s mx my = true -> is_free s mx my = false
  end.
Proof.
  intros dist. split.
  - pose proof (ring_search_spec (fun nx ny => in_bounds s nx ny && is_free s nx ny)
                  x y radius) as Hs.
    unfold findNearbyEmpty. cbv zeta in Hs |- *.
    destruct (head _) as [[nx ny]|].
    + destruct Hs as (Hok & Hr & Hmin). apply andb_true_iff in Hok as [Hb Hf].
      split; [exact Hb|]. split; [exact Hf|]. split; [exact Hr|].
      intros mx my Hmb Hmf. apply Hmin. by rewrite Hmb, Hmf.
    + intros mx my Hm Hmb. specialize (Hs mx my Hm). by rewrite Hmb in Hs.
  - pose proof (ring_search_spec
                  (fun nx ny => in_bounds s nx ny && is_water s nx ny && is_free s nx ny)
                  x y radius) as Hs.
    unfold findNearbyWater. cbv zeta in Hs |- *.
    destruct (head _) as [[nx ny]|].
    + destruct Hs as (Hok & Hr & Hmin).
      apply andb_true_iff in Hok as [Hok Hf]. apply andb_true_iff in Hok as [Hb Hw].
      split; [exact Hb|]. split; [exact Hw|]. split; [exact Hf|]. split; [exact Hr|].
      intros mx my Hmb Hmw Hmf. apply Hmin. by rewrite Hmb, Hmw, Hmf.
    + intros mx my Hm Hmb Hmw. specialize (Hs mx my Hm). by rewrite Hmb, Hmw in Hs.
Qed.

Lemma nearby_search_nearest_witness :
  findNearbyEmpty demo_state 10 10 1 = Some (9, 9)
  /\ in_bounds demo_state 9 9 = true /\ is_free demo_state 9 9 = true
  /\ forall mx my, in_bounds demo_state mx my = true ->
       is_free demo_state mx my = true ->
       1 <= Z.max (Z.abs (mx - 10)) (Z.abs (my - 10)) ->
       Z.max (Z.abs (9 - 10)) (Z.abs (9 - 10))
       <= Z.max (Z.abs (mx - 10)) (Z.abs (my - 10)).
Proof.
  assert (E : findNearbyEmpty demo_state 10 10 1 = Some (9, 9))
    by (vm_compute; reflexivity).
  split; [exact E|].
  pose proof (nearby_search_nearest demo_state 10 10 1) as [Hs _].
  rewrite E in Hs. destruct Hs as (Hb & Hf & _ & Hmin).
  split; [exact Hb|]. split; [exact Hf|exact Hmin].
Defined.

(** X12. [findNearestWater] returns an in-bounds water tile of the square
    of half-width [visionRange] around [(x, y)] whose Manhattan distance to
    [(x, y)] is least among them, and [null] only when the square holds no
    water. *)
Theorem findNearestWater_least s x y visionRange :
  let dist nx ny := Z.abs (nx - x) + Z.abs (ny - y) in
  let seen nx ny :=
    Z.abs (nx - x) <= visionRange /\ Z.abs (ny - y) <= visionRange
    /\ in_bounds s nx ny = true /\ is_water s nx ny = true in
  match findNearestWater s x y visionRange with
  | Some (nx, ny) =>
    seen nx ny /\ forall mx my, seen mx my -> dist nx ny <= dist mx my
  | None => forall mx my, ~ seen mx my
  end.
Proof.
  intros dist seen. unfold findNearestWater.
  set (step := fun (acc : option (Z * Z) * option Z) (d : Z * Z) => _).
  set (l := flat_map _ _).
  assert (Hl : forall dx dy, (dx, dy) ∈ l <->
                 - visionRange <= dx <= visionRange /\ - visionRange <= dy <= visionRange).
  { intros dx dy. subst l. rewrite list_elem_of_In, in_flat_map. split.
    - intros (v & Hv & Hin). apply in_map_iff in Hin as (u & Hu & Hin).
      injection Hu as <- <-. apply list_elem_of_In, elem_of_span in Hv.
      apply list_elem_of_In, elem_of_span in Hin. lia.
    - intros [Hx Hy]. exists dx.
      split; [by apply list_elem_of_In, elem_of_span|]. apply in_map_iff. exists dy.
      split; [reflexivity|]. by apply list_elem_of_In, elem_of_span. }
  pose (hit := fun d : Z * Z =>
          in_bounds s (x + fst d) (y + snd d) = true
          /\ is_water s (x + fst d) (y + snd d) = true).
  assert (Hfold : forall l0,
    match fold_left step l0 (None, None) with
    | (Some (nx, ny), Some dm) =>
      (nx - x, ny - y) ∈ l0 /\ hit (nx - x, ny - y) /\ dm = dist nx ny
      /\ forall d, d ∈ l0 -> hit d -> dm <= Z.abs (fst d) + Z.abs (snd d)
    | (None, None) => forall d, d ∈ l0 -> ~ hit d
    | _ => False
    end).
  { induction l0 as [|d l0 IH] using rev_ind.
    - cbn. intros d Hd. by apply elem_of_nil in Hd.
    - rewrite fold_left_app. cbn [fold_left].
      destruct (fold_left step l0 (None, None)) as [[[nx ny]|] [dm|]];
        try contradiction.
      + destruct IH as (Hin & Hh & Hdm & Hmin).
        subst step. cbv beta. destruct d as [dx dy]. cbn [fst snd].
        destruct (in_bounds s (x + dx) (y + dy) && is_water s (x + dx) (y + dy)) eqn:E.
        * apply andb_true_iff in E as [Eb Ew]. case_decide as Hlt.
          -- replace (x + dx - x) with dx by lia. replace (y + dy - y) with dy by lia.
             split; [apply elem_of_app; right; by apply list_elem_of_singleton|].
             split; [by split|].
             split; [unfold dist; f_equal; f_equal; lia|].
             intros d Hd Hhd. apply elem_of_app in Hd as [Hd|Hd].
             ++ specialize (Hmin d Hd Hhd). lia.
             ++ apply list_elem_of_singleton in Hd as ->. cbn [fst snd]. lia.
          -- split; [apply elem_of_app; by left|]. split; [exact Hh|]. split; [exact Hdm|].
             intros d Hd Hhd. apply elem_of_app in Hd as [Hd|Hd]; [by apply Hmin|].
             apply list_elem_of_singleton in Hd as ->. cbn [fst snd]. lia.
        * split; [apply elem_of_app; by left|]. split; [exact Hh|]. split; [exact Hdm|].
          intros d Hd Hhd. apply elem_of_app in Hd as [Hd|Hd]; [by apply Hmin|].
          apply list_elem_of_singleton in Hd as ->. destruct Hhd as [Hb Hw].
          cbn [fst snd] in Hb, Hw. rewrite Hb, Hw in E. discriminate.
      + subst step. cbv beta. destruct d as [dx dy]. cbn [fst snd].
        destruct (in_bounds s (x + dx) (y + dy) && is_water s (x + dx) (y + dy)) eqn:E.
        * apply andb_true_iff in E as [Eb Ew].
          replace (x + dx - x) with dx by lia. replace (y + dy - y) with dy by lia.
          split; [apply elem_of_app; right; by apply list_elem_of_singleton|].
          split; [by split|].
          split; [unfold dist; f_equal; f_equal; lia|].
          intros d Hd Hhd. apply elem_of_app in Hd as [Hd|Hd]; [by destruct (IH d Hd)|].
          apply list_elem_of_singleton in Hd as ->. cbn [fst snd]. lia.
        * intros d Hd Hhd. apply elem_of_app in Hd as [Hd|Hd]; [by apply (IH d Hd)|].
          apply list_elem_of_singleton in Hd as ->. destruct Hhd as [Hb Hw].
          cbn [fst snd] in Hb, Hw. rewrite Hb, Hw in E. discriminate. }
  specialize (Hfold l).
  destruct (fold_left step l (None, None)) as [[[nx ny]|] [dm|]];
    try contradiction; cbn [fst].
  - destruct Hfold as (Hin & [Hb Hw] & Hdm & Hmin). apply Hl in Hin.
    cbn [fst snd] in Hb, Hw.
    replace (x + (nx - x)) with nx in Hb, Hw by lia.
    replace (y + (ny - y)) with ny in Hb, Hw by lia.
    split; [unfold seen; repeat split; try assumption; lia|].
    intros mx my (Hx & Hy & Hmb & Hmw). subst dm.
    assert (Hm : (mx - x, my - y) ∈ l) by (apply Hl; lia).
    specialize (Hmin _ Hm). cbn [fst snd] in Hmin. unfold hit in Hmin.
    cbn [fst snd] in Hmin.
    replace (x + (mx - x)) with mx in Hmin by lia.
    replace (y + (my - y)) with my in Hmin by lia.
    unfold dist. by apply Hmin.
  - intros mx my (Hx & Hy & Hmb & Hmw).
    assert (Hm : (mx - x, my - y) ∈ l) by (apply Hl; lia).
    apply (Hfold _ Hm). unfold hit. cbn [fst snd].
    replace (x + (mx - x)) with mx by lia.
    replace (y + (my - y)) with my by lia. by split.
Qed.

Lemma findNearestWater_least_witness :
  findNearestWater pond_world 10 10 3 = Some (12, 10)
  /\ forall mx my,
       Z.abs (mx - 10) <= 3 /\ Z.abs (my - 10) <= 3
       /\ in_bounds pond_world mx my = true /\ is_water pond_world mx my = true ->
       Z.abs (12 - 10) + Z.abs (10 - 10) <= Z.abs (mx - 10) + Z.abs (my - 10).
Proof.
  assert (E : findNearestWater pond_world 10 10 3 = Some (12, 10))
    by (vm_compute; reflexivity).
  split; [exact E|].
  pose proof (findNearestWater_least pond_world 10 10 3) as Hs.
  cbv zeta in Hs. rewrite E in Hs. exact (proj2 Hs).
Defined.

(** ** The occupancy grid *)

Lemma grid_ok_removeAt i s : grid_ok s -> grid_ok (removeAt i s).
Proof.
  intros (Hocc & Hm1 & Hc). split; [|split].
  - intros j Hj. rewrite ent_removeAt in Hj. unfold tile_ok.
    rewrite ent_removeAt.
    destruct (aliveA (ent s i)) eqn:Hi; cbn [andb] in *.
    + case_bool_decide as Hji; [discriminate Hj|].
      pose proof (Hocc j Hj) as Tj. pose proof (Hocc i Hi) as Ti.
      unfold tile_ok in Tj, Ti.
      unfold removeAt. rewrite Hi. cbv zeta.
      rewrite !ent_upd_eq. cbn [xA yA with_aliveA].
      change (idx (upd i (with_aliveA false) s)) with (idx s).
      change (occ (upd i (with_aliveA false) s)) with (occ s).
      rewrite decide_True by exact Ti.
      assert (Hne : idx s (xA (ent s i)) (yA (ent s i))
                    <> idx s (xA (ent s j)) (yA (ent s j))).
      { intros Heq. rewrite Heq in Ti. congruence. }
      destruct (lifeType _); cbn [occ set_plants set_animals set_total set_occ idx W];
        fold (idx s (xA (ent s j)) (yA (ent s j)));
        rewrite ta_get_set_ne by exact Hne; exact Tj.
    + unfold removeAt. rewrite Hi. by apply Hocc.
  - rewrite ent_removeAt. destruct (aliveA (ent s i) && _); [reflexivity|exact Hm1].
  - by rewrite removeAt_count.
Qed.

Lemma grid_ok_moveEntity i nx ny s :
  grid_ok s -> aliveA (ent s i) = true -> grid_ok (snd (moveEntity i nx ny s)).
Proof.
  intros (Hocc & Hm1 & Hc) Hi. unfold moveEntity.
  case_decide as Hout; [by split|].
  case_decide as Hfree; [|by split].
  cbn [snd]. pose proof (Hocc i Hi) as Ti. unfold tile_ok in Ti.
  pose proof (ta_get_Some_range _ _ _ Hfree) as Hto.
  assert (Hi1 : i <> -1) by (intros ->; congruence).
  split; [|split].
  - intros j Hj. unfold tile_ok. rewrite ent_upd in Hj |- *.
    cbn [occ upd set_ents set_occ]. change (idx (upd i ?f (set_occ ?o s))) with (idx s).
    case_decide as Hij.
    + subst j. cbn [xA yA with_xA with_yA]. apply ta_get_set_eq.
      by rewrite ta_len_set.
    + change (ent (set_occ ?o s) j) with (ent s j) in *.
      pose proof (Hocc j Hj) as Tj. unfold tile_ok in Tj.
      rewrite ta_get_set_ne; [rewrite ta_get_set_ne; [exact Tj|]|].
      * intros Heq. rewrite Heq in Ti. congruence.
      * intros Heq. rewrite Heq in Hfree.
        assert (j = -1) by congruence. subst j. congruence.
  - rewrite ent_upd_ne by exact Hi1. exact Hm1.
  - exact Hc.
Qed.

Lemma grid_ok_place x y g energy s : grid_ok s -> grid_ok (snd (place x y g energy s)).
Proof.
  intros (Hocc & Hm1 & Hc).
  destruct (decide (count s < MAX_ENTITIES /\ 0 <= x < W s /\ 0 <= y < H s
                    /\ ta_get (occ s) (idx s x y) = Some (-1)))
    as [(Hlt & Hx & Hy & Hfree)|Hno].
  - rewrite (place_success x y g energy s Hlt Hx Hy Hfree). cbn [snd].
    pose proof (ta_get_Some_range _ _ _ Hfree) as Hto.
    set (s1 := set_occ _ _).
    assert (HW1 : W s1 = W s).
    { subst s1. unfold place_filled. rewrite applyGenome_spec. reflexivity. }
    assert (Hrow : forall j, j <> count s -> ent s1 j = ent s j).
    { intros j Hj. subst s1. rewrite ent_set_occ, ent_upd_ne by congruence.
      unfold place_filled. rewrite applyGenome_spec, !ent_upd_ne by congruence.
      reflexivity. }
    assert (Hnew : xA (ent s1 (count s)) = x /\ yA (ent s1 (count s)) = y).
    { subst s1. rewrite ent_set_occ, ent_upd_eq. by split. }
    assert (Hocc1 : occ s1 = ta_set (occ s) (idx s x y) (count s)) by reflexivity.
    assert (Hcnt1 : count s1 = count s + 1).
    { subst s1. unfold place_filled. rewrite applyGenome_spec. reflexivity. }
    clearbody s1.
    destruct (count_birth_spec (count s) s1) as (_ & Hcnt & Ho & _ & HW).
    split; [|split].
    + intros j Hj. unfold tile_ok. rewrite ent_count_birth in Hj |- *.
      unfold idx. rewrite HW, HW1, Ho, Hocc1.
      fold (idx s (xA (ent s1 j)) (yA (ent s1 j))).
      destruct (decide (j = count s)) as [->|Hj'].
      * destruct Hnew as [-> ->]. by apply ta_get_set_eq.
      * rewrite Hrow in Hj |- * by exact Hj'.
        pose proof (Hocc j Hj) as Tj. unfold tile_ok in Tj.
        rewrite ta_get_set_ne; [exact Tj|].
        intros Heq. rewrite Heq in Hfree.
        assert (j = -1) by congruence. subst j. congruence.
    + rewrite ent_count_birth, Hrow by lia. exact Hm1.
    + rewrite Hcnt, Hcnt1. lia.
  - rewrite place_refused; [by split|].
    destruct (decide (count s >= MAX_ENTITIES)); [by left|].
    destruct (decide (x < 0)); [by right; left|].
    destruct (decide (y < 0)); [by right; right; left|].
    destruct (decide (x >= W s)); [by right; right; right; left|].
    destruct (decide (y >= H s)); [by right; right; right; right; left|].
    right; right; right; right; right. intros Hfree. apply Hno.
    repeat split; try lia. exact Hfree.
Qed.

(** X13. The grid commands keep the occupancy grid and the rows in
    agreement: if every live entity is registered on its own tile, then so
    it is after [removeAt], after [moveEntity] of a live entity (moved or
    refused) and after [place] (placed or refused); hence no two live
    entities ever share a tile through these commands. *)
Theorem grid_commands_keep_occupancy s :
  grid_ok s ->
  (forall i, grid_ok (removeAt i s))
  /\ (forall i nx ny, aliveA (ent s i) = true ->
        grid_ok (snd (moveEntity i nx ny s)))
  /\ (forall x y g energy, grid_ok (snd (place x y g energy s)))
  /\ (forall i j, aliveA (ent s i) = true -> aliveA (ent s j) = true ->
        xA (ent s i) = xA (ent s j) -> yA (ent s i) = yA (ent s j) -> i = j).
Proof.
  intros Hs. split; [intros; by apply grid_ok_removeAt|].
  split; [intros; by apply grid_ok_moveEntity|].
  split; [intros; by apply grid_ok_place|].
  intros i j Hi Hj Hx Hy. destruct Hs as (Hocc & _).
  pose proof (Hocc i Hi) as Ti. pose proof (Hocc j Hj) as Tj.
  unfold tile_ok in *. rewrite Hx, Hy in Ti. congruence.
Qed.

Lemma grid_commands_keep_occupancy_witness :
  grid_ok demo_state /\ grid_ok (snd (moveEntity 0 11 10 demo_state)).
Proof.
  assert (Hd : grid_ok demo_state).
  { split; [|split; [reflexivity|vm_compute; discriminate]].
    intros i. unfold ent, demo_state. cbn [ents set_count set_occ set_ents].
    destruct (decide (i = 0)) as [->|Hne].
    - intros _. unfold tile_ok. vm_compute. reflexivity.
    - rewrite lookup_singleton_ne by congruence. intros Ha. discriminate Ha. }
  split; [exact Hd|].
  destruct (grid_commands_keep_occupancy demo_state Hd) as (_ & Hmove & _).
  apply Hmove. reflexivity.
Defined.

(** ** The allele code *)

Lemma Qfloor_spec q : (inject_Z (Qfloor q) <= q /\ q < inject_Z (Qfloor q) + 1)%Q.
Proof.
  split; [apply Qfloor_le|].
  pose proof (Qlt_floor q) as H. rewrite inject_Z_plus in H. exact H.
Qed.

Lemma Qfloor_unique q (a : Z) :
  (inject_Z a <= q)%Q -> (q < inject_Z a + 1)%Q -> Qfloor q = a.
Proof.
  intros Ha Hb. destruct (Qfloor_spec q) as [H1 H2].
  assert (Hlo : (inject_Z a < inject_Z (Qfloor q) + 1)%Q) by lra.
  assert (Hhi : (inject_Z (Qfloor q) < inject_Z a + 1)%Q) by lra.
  change 1%Q with (inject_Z 1) in Hlo, Hhi.
  rewrite <- inject_Z_plus in Hlo, Hhi. rewrite <- Zlt_Qlt in Hlo, Hhi. lia.
Qed.

Lemma Math_round_between q (a b : Z) :
  (inject_Z a <= q)%Q -> (q <= inject_Z b)%Q -> a <= Math_round q <= b.
Proof.
  intros Ha Hb. unfold Math_round. destruct (Qfloor_spec (q + (1 # 2))) as [H1 H2].
  split.
  - assert (Hlt : (inject_Z a < inject_Z (Qfloor (q + (1 # 2))) + 1)%Q) by lra.
    change 1%Q with (inject_Z 1) in Hlt.
    rewrite <- inject_Z_plus, <- Zlt_Qlt in Hlt. lia.
  - assert (Hlt : (inject_Z (Qfloor (q + (1 # 2))) < inject_Z b + 1)%Q) by lra.
    change 1%Q with (inject_Z 1) in Hlt.
    rewrite <- inject_Z_plus, <- Zlt_Qlt in Hlt. lia.
Qed.

Lemma Math_round_near q : (Qabs (inject_Z (Math_round q) - q) <= 1 # 2)%Q.
Proof.
  unfold Math_round. destruct (Qfloor_spec (q + (1 # 2))) as [H1 H2].
  apply Qabs_Qle_condition. split; lra.
Qed.

Lemma clampU8_range v : 0 <= clampU8 v <= ALLELE_MAX.
Proof. unfold clampU8, ALLELE_MAX. lia. Qed.

Lemma decodeAllele01_range a :
  0 <= a <= ALLELE_MAX -> (0 <= decodeAllele01 a <= 1)%Q.
Proof.
  unfold decodeAllele01, ALLELE_MAX. intros Ha.
  unfold Qdiv, Qmult, Qinv, Qle, inject_Z. cbn. lia.
Qed.

Lemma decodeTrait_range a1 a2 :
  0 <= a1 <= ALLELE_MAX -> 0 <= a2 <= ALLELE_MAX ->
  (0 <= decodeTrait a1 a2 <= 1)%Q.
Proof.
  intros H1 H2. unfold decodeTrait.
  pose proof (decodeAllele01_range a1 H1). pose proof (decodeAllele01_range a2 H2).
  lra.
Qed.

(** X14. Alleles are bytes and the allele code is exact on them:
    decoding a byte and encoding it again gives the byte back, a decoded
    trait lies in [0, 1], a decoded age between its bounds, and
    [mutateAllele] keeps a byte a byte. *)
Theorem allele_code_round_trip :
  (forall a, 0 <= a <= ALLELE_MAX -> encodeAllele01 (decodeAllele01 a) = a)
  /\ (forall a1 a2, 0 <= a1 <= ALLELE_MAX -> 0 <= a2 <= ALLELE_MAX ->
        (0 <= decodeTrait a1 a2 <= 1)%Q)
  /\ (forall a1 a2 lo hi, 0 <= a1 <= ALLELE_MAX -> 0 <= a2 <= ALLELE_MAX ->
        lo <= hi -> lo <= decodeAgeTrait a1 a2 lo hi <= hi)
  /\ (forall a rate r, 0 <= a <= ALLELE_MAX ->
        0 <= fst (mutateAllele a rate r) <= ALLELE_MAX).
Proof.
  split; [|split; [|split]].
  - intros a Ha. unfold encodeAllele01, clampU8.
    assert (Hr : Math_round (clamp01 (decodeAllele01 a) * inject_Z ALLELE_MAX) = a).
    { unfold Math_round. apply Qfloor_unique.
      - pose proof (clamp01_inside _ (decodeAllele01_range a Ha)) as Hc.
        rewrite Hc. unfold decodeAllele01, ALLELE_MAX in *.
        unfold Qdiv, Qmult, Qinv, Qplus, Qle, inject_Z. cbn. lia.
      - pose proof (clamp01_inside _ (decodeAllele01_range a Ha)) as Hc.
        rewrite Hc. unfold decodeAllele01, ALLELE_MAX in *.
        unfold Qdiv, Qmult, Qinv, Qplus, Qlt, inject_Z. cbn. lia. }
    rewrite Hr. lia.
  - exact decodeTrait_range.
  - intros a1 a2 lo hi H1 H2 Hle. unfold decodeAgeTrait.
    pose proof (decodeTrait_range a1 a2 H1 H2) as [Ht0 Ht1].
    set (t := decodeTrait a1 a2) in *.
    assert (Hd : (0 <= inject_Z (hi - lo))%Q)
      by (change 0%Q with (inject_Z 0); rewrite <- Zle_Qle; lia).
    assert (Hhi : (inject_Z hi == inject_Z lo + inject_Z (hi - lo))%Q)
      by (rewrite <- inject_Z_plus; f_equiv; lia).
    apply Math_round_between.
    + nra.
    + rewrite Hhi. nra.
  - intros a rate r Ha. unfold mutateAllele, bind, ret.
    destruct (rng r) as [u r1]. destruct (Qlt_bool u rate); [|exact Ha].
    destruct (rng r1) as [v r2]. cbn [fst]. apply clampU8_range.
Qed.

Lemma allele_code_round_trip_witness :
  encodeAllele01 (decodeAllele01 200) = 200
  /\ 6000 <= decodeAgeTrait 0 255 6000 52000 <= 52000.
Proof.
  destruct allele_code_round_trip as (Hrt & _ & Hage & _). split.
  - apply Hrt. unfold ALLELE_MAX. lia.
  - apply Hage; unfold ALLELE_MAX; lia.
Defined.

(** ** Weighted choices *)

Lemma roulette_elem rv l j : roulette rv l = Some j -> j ∈ map fst l.
Proof.
  revert rv. induction l as [|[k w] l IH]; intros rv; cbn [roulette map fst].
  - discriminate.
  - destruct (Qle_bool (rv - w) 0).
    + intros [= ->]. by left.
    + intros Hr. right. by apply (IH _ Hr).
Qed.

Lemma last_elem {A} (l : list A) (d : A) : l <> [] -> List.last l d ∈ l.
Proof.
  induction l as [|a l IH]; [done|]. intros _. destruct l as [|b l].
  - by left.
  - right. by apply IH.
Qed.

Lemma spin_elem rv l : l <> [] -> spin rv l ∈ map fst l.
Proof.
  intros Hl. unfold spin. destruct (roulette rv l) as [j|] eqn:E.
  - by apply (roulette_elem rv).
  - apply list_elem_of_fmap_2. by apply last_elem.
Qed.

Lemma weighted_neighbors_elem s i radius pred scoreFn j w :
  (j, w) ∈ weighted_neighbors s i radius pred scoreFn ->
  exists dx dy,
    (dx <> 0 \/ dy <> 0)
    /\ Z.abs dx <= Z.max 1 radius /\ Z.abs dy <= Z.max 1 radius
    /\ in_bounds s (xA (ent s i) + dx) (yA (ent s i) + dy) = true
    /\ occupant s (xA (ent s i) + dx) (yA (ent s i) + dy) = Some j
    /\ pred j = true
    /\ w = scoreFn j (Z.max (Z.abs dx) (Z.abs dy)) /\ (0 < w)%Q.
Proof.
  unfold weighted_neighbors. rewrite list_elem_of_In, in_flat_map.
  intros ([dx dy] & Hd & Hin). apply list_elem_of_In, elem_of_square in Hd.
  exists dx, dy.
  destruct (bool_decide (dx = 0) && bool_decide (dy = 0)) eqn:E0; [destruct Hin|].
  destruct (in_bounds s _ _) eqn:Eb; [|destruct Hin].
  destruct (occupant s _ _) as [k|] eqn:Eo; [|destruct Hin].
  destruct (pred k) eqn:Ep; [|destruct Hin].
  destruct (Qlt_bool 0 _) eqn:Es; [|destruct Hin].
  destruct Hin as [Heq|[]]. injection Heq as -> <-.
  apply Qlt_bool_iff in Es.
  split.
  - apply andb_false_iff in E0 as [E0|E0]; apply bool_decide_eq_false in E0; tauto.
  - repeat split; try done; lia.
Qed.

(** X15. The weighted choices return one of their candidates:
    [findBestNeighborByScore] returns -1 exactly when no tile of the
    square holds an entity that passes the predicate with a positive
    score, and otherwise the index of such an entity, changing nothing but
    the generator; [weightedRandomSelect] returns -1 on an empty list and
    otherwise the id of one of the candidates, and can fail only on two or
    more candidates, when the draw was 1. *)
Theorem weighted_choice_is_candidate :
  (forall i radius pred scoreFn s,
     exists j r,
       findBestNeighborByScore i radius pred scoreFn s = Ok j (set_RNG_S r s)
       /\ ((j = -1 /\ weighted_neighbors s i radius (pred s) (scoreFn s) = [])
           \/ exists dx dy,
                (dx <> 0 \/ dy <> 0)
                /\ Z.abs dx <= Z.max 1 radius /\ Z.abs dy <= Z.max 1 radius
                /\ in_bounds s (xA (ent s i) + dx) (yA (ent s i) + dy) = true
                /\ occupant s (xA (ent s i) + dx) (yA (ent s i) + dy) = Some j
                /\ j <> -1 /\ pred s j = true
                /\ (0 < scoreFn s j (Z.max (Z.abs dx) (Z.abs dy)))%Q))
  /\ (forall candidates s,
        match weightedRandomSelect candidates s with
        | Ok j s' =>
          (exists r, s' = set_RNG_S r s)
          /\ ((candidates = [] /\ j = -1) \/ j ∈ map fst candidates)
        | Throw s' =>
          RNG_S s' = 4294967295 /\ (2 <= length candidates)%nat
        | Stuck _ => False
        end).
Proof.
  split.
  - intros i radius pred scoreFn s. unfold findBestNeighborByScore, mbind, get.
    destruct (weighted_neighbors s i radius (pred s) (scoreFn s)) as [|c l] eqn:E.
    + exists (-1), (RNG_S s). rewrite set_RNG_S_same. split; [reflexivity|]. by left.
    + unfold rand. rewrite draw_spec. unfold mret.
      eexists _, _. split; [reflexivity|]. right.
      assert (Hin : spin (fst (rng (RNG_S s)) * sumQ (c :: l)) (c :: l)
                    ∈ map fst (c :: l)) by (by apply spin_elem).
      apply list_elem_of_fmap_1 in Hin as ([j w] & Hj & Hin). cbn [fst] in Hj.
      rewrite Hj. rewrite <- E in Hin.
      apply weighted_neighbors_elem in Hin
        as (dx & dy & H0 & Hx & Hy & Hb & Ho & Hp & Hw & Hpos).
      exists dx, dy. repeat split; try assumption.
      * intros ->. unfold occupant in Ho.
        destruct (ta_get _ _) as [k|]; [|discriminate].
        case_decide; [discriminate|]. congruence.
      * by rewrite <- Hw.
  - intros candidates s. unfold weightedRandomSelect.
    destruct candidates as [|c [|c' l]].
    + split; [exists (RNG_S s); by rewrite set_RNG_S_same|]. by left.
    + split; [exists (RNG_S s); by rewrite set_RNG_S_same|]. right. by left.
    + cbv zeta. destruct (Qle_bool (sumQ (c :: c' :: l)) 0) eqn:Es.
      * apply Qle_bool_iff in Es.
        pose proof (fails_draw_floor (c :: c' :: l) (fun c0 => mret (fst c0))
                      ltac:(discriminate) (fun x => fails_ret (fst x)) s) as Hf.
        unfold mbind, rand, deref in Hf |- *. rewrite draw_spec in Hf |- *.
        destruct (if decide _ then _ else _) as [c0|] eqn:Ed.
        -- split; [by eexists|]. right. apply list_elem_of_fmap_2.
           case_decide; [|discriminate]. by apply list_elem_of_lookup_2 in Ed.
        -- split; [exact Hf|cbn [length]; lia].
      * unfold mbind, rand. rewrite draw_spec. split; [by eexists|]. right.
        by apply spin_elem.
Qed.

(** ** Rows and eggs on the map *)

Lemma in_bounds_on_map s x y :
  ta_len (biomeMap s) = W s * H s -> in_bounds s x y = true ->
  is_Some (ta_get (biomeMap s) (idx s x y)).
Proof.
  intros Hlen Hb. unfold in_bounds in Hb. apply negb_true_iff in Hb.
  apply bool_decide_eq_false in Hb.
  unfold ta_get, idx. rewrite decide_True; [by eexists|]. rewrite Hlen. nia.
Qed.

Lemma free_on_map s x y :
  ta_len (biomeMap s) = W s * H s -> ta_len (occ s) = W s * H s ->
  ta_get (occ s) (idx s x y) = Some (-1) ->
  is_Some (ta_get (biomeMap s) (idx s x y)).
Proof.
  intros Hb Ho Hfree. apply ta_get_Some_range in Hfree.
  unfold ta_get. rewrite decide_True; [by eexists|]. lia.
Qed.

(** A step that keeps the maps and the eggs, and whose rows stay where
    they were or stand on a tile that was free or in bounds. *)
Lemma on_map_step s s' :
  on_map s -> tick_moves s s' -> eggs s' = eggs s ->
  (forall i,
     (xA (ent s' i) = xA (ent s i) /\ yA (ent s' i) = yA (ent s i))
     \/ ta_get (occ s) (idx s (xA (ent s' i)) (yA (ent s' i))) = Some (-1)
     \/ in_bounds s (xA (ent s' i)) (yA (ent s' i)) = true) ->
  on_map s'.
Proof.
  intros [Hb Ho Hr He Hc Hmaps] Hm Heggs Hrows.
  pose proof (tm_W _ _ Hm) as HW. pose proof (tm_H _ _ Hm) as HH.
  pose proof (tm_biome _ _ Hm) as HB. pose proof (tm_grid _ _ Hm) as HG.
  constructor.
  - rewrite HB, HW, HH. exact Hb.
  - rewrite HG, HW, HH. exact Ho.
  - intros i. unfold row_on_map, idx. rewrite HB, HW.
    fold (idx s (xA (ent s' i)) (yA (ent s' i))).
    destruct (Hrows i) as [[-> ->]|[Hfree|Hin]].
    + apply Hr.
    + by apply free_on_map.
    + by apply in_bounds_on_map.
  - rewrite Heggs. eapply Forall_impl; [exact He|].
    intros egg Hegg. unfold egg_on_map, idx in *. by rewrite HB, HW.
  - exact (tm_count_max _ _ Hm Hc).
  - rewrite (tm_water _ _ Hm), (tm_moisture _ _ Hm), (tm_waterDistance _ _ Hm).
    rewrite HW, HH. exact Hmaps.
Qed.

Lemma species_glow_xy e e' :
  species_glow e e' -> xA e' = xA e /\ yA e' = yA e.
Proof. unfold species_glow. intros ->. by split. Qed.

Lemma birth_row_xy o jit k e :
  xA (birth_row o jit k e) = xA e /\ yA (birth_row o jit k e) = yA e.
Proof. by split. Qed.

Lemma hatch_row_xy egg jit k tk e :
  xA (hatch_row egg jit k tk e) = xA e /\ yA (hatch_row egg jit k tk e) = yA e.
Proof. by split. Qed.

Lemma register_detect_xy k p1 sh re b t j :
  xA (ent (detectMutation k p1 sh re (register_birth k b t)) j) = xA (ent t j)
  /\ yA (ent (detectMutation k p1 sh re (register_birth k b t)) j) = yA (ent t j).
Proof.
  destruct (detectMutation_rows k p1 sh re (register_birth k b t) j) as [_ Hsg].
  apply species_glow_xy in Hsg as [-> ->].
  rewrite ent_register_birth.
  destruct b; cbn [andb]; [|by split].
  case_bool_decide as Hj; [subst j|]; by split.
Qed.

(** Where the rows stand after a placement attempt for the slot
    [count s] and what follows it. *)
Lemma spawn_xy row r s b s1 (tail : State -> State) i :
  (forall e, xA (row e) = xA e /\ yA (row e) = yA e) ->
  placed_from (count s)
    (upd (count s) row (set_RNG_S r (set_count (count s + 1) s))) b s1 ->
  (forall t j, xA (ent (tail t) j) = xA (ent t j)
               /\ yA (ent (tail t) j) = yA (ent t j)) ->
  let s' := if negb b then set_count (count s1 - 1) s1 else tail s1 in
  (xA (ent s' i) = xA (ent s i) /\ yA (ent s' i) = yA (ent s i))
  \/ ta_get (occ s) (idx s (xA (ent s' i)) (yA (ent s' i))) = Some (-1).
Proof.
  intros Hrow Hp Htail. cbv zeta.
  inversion Hp as [|x y Hfree]; subst; cbn [negb].
  - left. rewrite ent_set_count, ent_upd. case_decide as Hi; [subst i|].
    + apply Hrow.
    + by split.
  - destruct (Htail
      (set_occ (ta_set (occ (upd (count s) row (set_RNG_S r (set_count (count s + 1) s))))
                  (idx (upd (count s) row (set_RNG_S r (set_count (count s + 1) s))) x y)
                  (count s))
         (upd (count s) (fun e => with_yA y (with_xA x e))
            (upd (count s) row (set_RNG_S r (set_count (count s + 1) s))))) i)
      as [-> ->].
    rewrite ent_set_occ, ent_upd. case_decide as Hi; [subst i|].
    + right. exact Hfree.
    + left. rewrite ent_upd_ne by exact Hi. by split.
Qed.

Lemma birth_xy p1 p2 x y s i :
  (xA (ent (birth p1 p2 x y s) i) = xA (ent s i)
   /\ yA (ent (birth p1 p2 x y s) i) = yA (ent s i))
  \/ ta_get (occ s) (idx s (xA (ent (birth p1 p2 x y s) i))
                      (yA (ent (birth p1 p2 x y s) i))) = Some (-1).
Proof.
  destruct (decide (count s < MAX_ENTITIES)) as [Hc|Hc].
  - rewrite birth_unfold by exact Hc. cbv zeta.
    destruct (birth_spawn_spec p1 p2 x y s) as (_ & r & jit & Hp).
    apply (spawn_xy _ _ _ _ _
             (fun t => detectMutation (count s) p1
                         (o_shiftedDiet (snd (fst (birth_spawn p1 p2 x y s)))) false
                         (register_birth (count s)
                            (o_shiftedDiet (snd (fst (birth_spawn p1 p2 x y s)))) t))
             i (birth_row_xy _ jit (count s)) Hp).
    intros t j. apply register_detect_xy.
  - unfold birth. rewrite decide_True by lia. by left.
Qed.

Lemma hatchEgg_xy egg s i :
  (xA (ent (hatchEgg egg s) i) = xA (ent s i)
   /\ yA (ent (hatchEgg egg s) i) = yA (ent s i))
  \/ ta_get (occ s) (idx s (xA (ent (hatchEgg egg s) i))
                      (yA (ent (hatchEgg egg s) i))) = Some (-1).
Proof.
  destruct (decide (count s < MAX_ENTITIES)) as [Hc|Hc].
  - rewrite hatchEgg_unfold by exact Hc. cbv zeta.
    destruct (hatch_spawn_spec egg s) as (r & jit & Hp).
    apply (spawn_xy _ _ _ _ _
             (fun t => detectMutation (count s) (parentId1 egg) (shiftedDiet egg)
                         (bool_decide (parentId2 egg <> None))
                         (register_birth (count s) (shiftedDiet egg) t))
             i (hatch_row_xy egg jit (count s) (tick s)) Hp).
    intros t j. apply register_detect_xy.
  - unfold hatchEgg. rewrite decide_True by lia. by left.
Qed.

Lemma on_map_rng s r : on_map s -> on_map (set_RNG_S r s).
Proof. intros []. by constructor. Qed.

Lemma on_map_upd i f s :
  (forall e, tick_row e (f e)) -> on_map s -> on_map (upd i f s).
Proof.
  intros Hf Hs. apply (on_map_step s); [exact Hs|apply tick_moves_upd|reflexivity|].
  intros j. left. rewrite ent_upd. case_decide; [subst j|by split].
  destruct (Hf (ent s i)). by split.
Qed.

Lemma on_map_bookkeeping s s' : bookkeeping s s' -> on_map s -> on_map s'.
Proof.
  intros Hb Hs.
  apply (on_map_step s); [exact Hs|by apply tick_moves_bookkeeping
                          |exact (bk_eggs _ _ Hb)|].
  intros j. left. unfold ent. by rewrite (bk_ents _ _ Hb).
Qed.

Lemma on_map_removeAt j s : on_map s -> on_map (removeAt j s).
Proof.
  intros Hs.
  apply (on_map_step s); [exact Hs|apply tick_moves_removeAt
                          |exact (proj2 (removeAt_setup j s))|].
  intros i. left. rewrite ent_removeAt. destruct (_ && _) eqn:E; [|by split].
  apply andb_true_iff in E as [_ E]. apply bool_decide_eq_true in E. by subst.
Qed.

Lemma on_map_birth p1 p2 x y s : on_map s -> on_map (birth p1 p2 x y s).
Proof.
  intros Hs.
  apply (on_map_step s); [exact Hs|apply tick_moves_birth| |].
  - by destruct (birth_setup p1 p2 x y s (om_count _ Hs)) as (_ & -> & _).
  - intros i. destruct (birth_xy p1 p2 x y s i) as [Hxy|Hfree]; [by left|].
    right. by left.
Qed.

Lemma on_map_hatchEgg egg s : on_map s -> on_map (hatchEgg egg s).
Proof.
  intros Hs.
  apply (on_map_step s); [exact Hs|apply tick_moves_hatchEgg| |].
  - by destruct (hatchEgg_setup egg s (om_count _ Hs)) as (_ & -> & _).
  - intros i. destruct (hatchEgg_xy egg s i) as [Hxy|Hfree]; [by left|].
    right. by left.
Qed.

Lemma on_map_move j nx ny s : on_map s -> on_map (snd (moveEntity j nx ny s)).
Proof.
  intros Hs.
  apply (on_map_step s); [exact Hs|apply tick_moves_moveEntity
                          |exact (proj2 (moveEntity_setup j nx ny s))|].
  intros i. unfold moveEntity.
  case_decide as Hout; [left; by split|].
  case_decide as Hfree; [|left; by split].
  cbn [snd]. rewrite ent_upd, ent_set_occ. case_decide; [subst i|left; by split].
  right. left. exact Hfree.
Qed.

Lemma on_map_bite i p s : on_map s -> on_map (bite_plant i p s).
Proof.
  intros Hs.
  apply (on_map_step s); [exact Hs|apply tick_moves_bite|reflexivity|].
  intros j. left. unfold bite_plant. cbv zeta.
  rewrite !ent_upd. repeat case_decide; subst; by split.
Qed.

Lemma findNearbyEmpty_in_bounds s x y radius :
  match findNearbyEmpty s x y radius with
  | Some spot => in_bounds s (fst spot) (snd spot) = true
                 /\ is_free s (fst spot) (snd spot) = true
  | None => True
  end.
Proof.
  pose proof (ring_search_spec (fun nx ny => in_bounds s nx ny && is_free s nx ny)
                x y radius) as Hs.
  unfold findNearbyEmpty. cbv zeta in Hs |- *.
  destruct (head _) as [[nx ny]|]; [|exact Logic.I].
  destruct Hs as (Hok & _). by apply andb_true_iff in Hok.
Qed.

Lemma findNearbyWater_in_bounds s x y radius :
  match findNearbyWater s x y radius with
  | Some spot => in_bounds s (fst spot) (snd spot) = true
                 /\ is_water s (fst spot) (snd spot) = true
                 /\ is_free s (fst spot) (snd spot) = true
  | None => True
  end.
Proof.
  pose proof (ring_search_spec
                (fun nx ny => in_bounds s nx ny && is_water s nx ny && is_free s nx ny)
                x y radius) as Hs.
  unfold findNearbyWater. cbv zeta in Hs |- *.
  destruct (head _) as [[nx ny]|]; [|exact Logic.I].
  destruct Hs as (Hok & _).
  apply andb_true_iff in Hok as [Hok Hf]. by apply andb_true_iff in Hok as [Hb Hw].
Qed.

Lemma findNearby_in_bounds s x y radius spot :
  findNearbyEmpty s x y radius = Some spot
  \/ findNearbyWater s x y radius = Some spot ->
  in_bounds s (fst spot) (snd spot) = true.
Proof.
  intros [Hf|Hf].
  - pose proof (findNearbyEmpty_in_bounds s x y radius) as Hs.
    rewrite Hf in Hs. tauto.
  - pose proof (findNearbyWater_in_bounds s x y radius) as Hs.
    rewrite Hf in Hs. tauto.
Qed.

Lemma findEggLayingSpot_in_bounds s parentId c spot :
  findEggLayingSpot s parentId c = Some spot ->
  in_bounds s (fst spot) (snd spot) = true.
Proof.
  unfold findEggLayingSpot. cbv zeta. intros Hf.
  destruct c; eapply findNearby_in_bounds; eauto.
Qed.

Lemma on_map_lay_one parentId mateId c incubation :
  keeps on_map (lay_one parentId mateId c incubation).
Proof.
  intros s Hs. unfold lay_one, mbind, get.
  destruct (findEggLayingSpot s parentId c) as [spot|] eqn:Hspot;
    [|exact (conj Hs Logic.I)].
  case_decide as Hroom; [|exact (conj Hs Logic.I)].
  unfold rand_in. rewrite draw_spec. unfold modify. split; [|exact Logic.I].
  apply findEggLayingSpot_in_bounds in Hspot.
  pose proof Hs as [Hb Ho Hr He Hc Hmaps]. constructor; try assumption.
  cbn [eggs set_eggs set_RNG_S]. apply Forall_app. split; [exact He|].
  constructor; [|constructor].
  unfold egg_on_map. apply bool_decide_eq_true.
  cbn [e_x e_y new_egg]. by apply (in_bounds_on_map s).
Qed.

Lemma on_map_updateEgg egg s : on_map s -> on_map (snd (updateEgg egg s)).
Proof.
  intros Hs. unfold updateEgg. rewrite draw_spec.
  destruct (Qlt_bool _ _); [by apply on_map_rng|].
  case_decide; [|by apply on_map_rng].
  destruct (Qlt_bool (3 # 10) _); [|by apply on_map_rng].
  rewrite draw_spec. destruct (Qlt_bool _ _); [|by do 2 apply on_map_rng].
  cbn [snd]. apply on_map_hatchEgg. by do 2 apply on_map_rng.
Qed.

Lemma egg_on_map_kept egg s :
  match fst (updateEgg egg s) with
  | Some e => e_x e = e_x egg /\ e_y e = e_y egg
  | None => True
  end.
Proof.
  unfold updateEgg. rewrite draw_spec.
  destruct (Qlt_bool _ _); [done|].
  case_decide; [|by split].
  destruct (Qlt_bool (3 # 10) _); [|done].
  rewrite draw_spec. by destruct (Qlt_bool _ _).
Qed.

(** On the map the egg pass does not fail. *)
Lemma on_map_eggs_loop todo : forall kept s,
  on_map s ->
  Forall (fun egg => egg_on_map s egg = true) todo ->
  Forall (fun egg => egg_on_map s egg = true) kept ->
  exists s', eggs_loop todo kept s = Ok tt s' /\ on_map s'.
Proof.
  induction todo as [|egg rest IH]; intros kept s Hs Htodo Hkept; cbn [eggs_loop].
  - eexists. split; [reflexivity|]. destruct Hs. by constructor.
  - apply Forall_cons in Htodo as [Hegg Hrest]. rewrite Hegg.
    pose proof (on_map_updateEgg egg s Hs) as Hs1.
    pose proof (egg_on_map_kept egg s) as Hxy.
    destruct (tick_moves_updateEgg egg s) as [Hm _].
    destruct (updateEgg egg s) as [o s1]. cbn [fst snd] in *.
    assert (Hsame : forall e, egg_on_map s1 e = egg_on_map s e).
    { intros e. unfold egg_on_map, idx.
      by rewrite (tm_biome _ _ Hm), (tm_W _ _ Hm). }
    apply IH; [exact Hs1| |].
    + eapply Forall_impl; [exact Hrest|]. intros e He. by rewrite Hsame.
    + assert (Hk : Forall (fun e => egg_on_map s1 e = true) kept).
      { eapply Forall_impl; [exact Hkept|]. intros e He. by rewrite Hsame. }
      destruct o as [e|]; [|exact Hk]. constructor; [|exact Hk].
      rewrite Hsame. destruct Hxy as [Hx Hy].
      unfold egg_on_map in *. by rewrite Hx, Hy.
Qed.

Lemma on_map_updateEggs s :
  on_map s -> exists s', updateEggsM s = Ok tt s' /\ on_map s'.
Proof.
  intros Hs. unfold updateEggsM.
  apply on_map_eggs_loop; [exact Hs| |constructor].
  apply Forall_rev. exact (om_eggs _ Hs).
Qed.

(** On the map, the egg pass of the tick is [updateEggs]. *)
Lemma eggs_loop_fold todo : forall kept s,
  Forall (fun egg => egg_on_map s egg = true) todo ->
  eggs_loop todo kept s
  = let (kept', s') :=
      fold_left (fun (acc : list EggData * State) egg =>
                   let (o, s1) := updateEgg egg (snd acc) in
                   (match o with Some e => e :: fst acc | None => fst acc end, s1))
                todo (kept, s) in
    Ok tt (set_eggs kept' s').
Proof.
  induction todo as [|egg rest IH]; intros kept s Htodo; cbn [eggs_loop fold_left].
  - reflexivity.
  - apply Forall_cons in Htodo as [Hegg Hrest]. rewrite Hegg. cbn [fst snd].
    destruct (tick_moves_updateEgg egg s) as [Hm _].
    destruct (updateEgg egg s) as [o s1]. cbn [fst snd] in *.
    apply IH. eapply Forall_impl; [exact Hrest|]. intros e He.
    unfold egg_on_map, idx in *. by rewrite (tm_biome _ _ Hm), (tm_W _ _ Hm).
Qed.

Lemma updateEggsM_on_map s :
  Forall (fun egg => egg_on_map s egg = true) (eggs s) ->
  updateEggsM s = Ok tt (updateEggs s).
Proof.
  intros He. unfold updateEggsM, updateEggs.
  rewrite eggs_loop_fold by (by apply Forall_rev).
  rewrite <- fold_left_rev_right, rev_involutive. by destruct (fold_right _ _ _).
Qed.

Lemma on_map_stepOnce Math_sin Math_cos Math_hypot s :
  on_map s ->
  match stepOnce Math_sin Math_cos Math_hypot s with
  | Ok _ s' | Throw s' => on_map s'
  | Stuck _ => False
  end.
Proof.
  intros Hs.
  apply (stepOnce_from on_map).
  - intros t r. apply on_map_rng.
  - exact om_count.
  - exact on_map_upd.
  - exact on_map_bookkeeping.
  - exact on_map_removeAt.
  - exact on_map_birth.
  - exact on_map_move.
  - intros t Ht. destruct (on_map_updateEggs t Ht) as (t' & -> & Ht').
    by split.
  - exact on_map_bite.
  - exact on_map_lay_one.
  - destruct Hs. by constructor.
Qed.

Lemma meadow_maps :
  W meadow_state = 500 /\ H meadow_state = 500
  /\ biomeMap meadow_state = ta_new (500 * 500) grassland
  /\ ta_len (occ meadow_state) = 500 * 500
  /\ ents meadow_state = {[ 0 := demo_parent ]}
  /\ count meadow_state = 1 /\ eggs meadow_state = [].
Proof. vm_compute. repeat split. Qed.

Lemma on_map_eggs egg l s :
  on_map s -> egg_on_map s egg = true -> l = [egg] -> on_map (set_eggs l s).
Proof.
  intros [Hb Ho Hr He Hc Hmaps] Hegg ->. constructor; try assumption.
  cbn [eggs set_eggs]. by constructor.
Qed.

Lemma on_map_meadow : on_map meadow_state.
Proof.
  destruct meadow_maps as (HW & HH & HB & HO & HE & HC & HG).
  constructor.
  - rewrite HB, HW, HH. reflexivity.
  - rewrite HO, HW, HH. reflexivity.
  - intros i. unfold row_on_map, ent, idx. rewrite HB, HE, HW.
    destruct (decide (i = 0)) as [->|Hi].
    + rewrite lookup_singleton_eq. by eexists.
    + rewrite lookup_singleton_ne by congruence. by eexists.
  - rewrite HG. constructor.
  - rewrite HC. unfold MAX_ENTITIES. lia.
  - vm_compute. by repeat split.
Qed.

Lemma on_map_nest : on_map nest_state.
Proof.
  apply (on_map_eggs blocked_egg); [exact on_map_meadow| |reflexivity].
  destruct meadow_maps as (HW & _ & HB & _).
  unfold egg_on_map, idx. rewrite HB, HW. reflexivity.
Qed.

(** X7. Started in a state whose terrain maps and occupancy grid have
    [W * H] cells and whose rows and eggs all lie on the map ([on_map]), [stepOnce] ends in such a state again,
    and it can fail (a [TypeError] on an [undefined] table entry) only at a
    point where the generator has just returned exactly 1, that is where
    its state is [0xffffffff]: every table index of the tick is
    [floor (rng () * length)] on a table that is not empty, and no egg and
    no row leaves the map. *)
Theorem tick_fails_only_on_draw_one Math_sin Math_cos Math_hypot s :
  (forall r, (fst (rng r) == 1)%Q <-> snd (rng r) = 4294967295)
  /\ (on_map s ->
      match stepOnce Math_sin Math_cos Math_hypot s with
      | Ok _ s' => on_map s'
      | Throw s' => on_map s' /\ RNG_S s' = 4294967295
      | Stuck _ => False
      end).
Proof.
  split; [exact rng_one|]. intros Hs.
  pose proof (on_map_stepOnce Math_sin Math_cos Math_hypot s Hs) as Hinv.
  pose proof (fails_stepOnce Math_sin Math_cos Math_hypot s) as Hfail.
  destruct (stepOnce Math_sin Math_cos Math_hypot s) as [[] s'|s'|s'];
    [exact Hinv| |exact Hinv].
  split; [exact Hinv|].
  destruct Hfail as [Hone|[(i & Hoff)|(egg & Hin & Hoff)]]; [exact Hone| |].
  { destruct Hoff. apply (om_rows _ Hinv). }
  pose proof (om_eggs _ Hinv) as He.
  rewrite Forall_forall in He.
  rewrite (He egg Hin) in Hoff. discriminate.
Qed.

Lemma tick_fails_only_on_draw_one_witness :
  on_map nest_state
  /\ match stepOnce (fun _ => 0%Q) (fun _ => 0%Q) (fun _ _ => 0%Q) nest_state with
     | Ok _ s' => on_map s'
     | Throw s' => on_map s' /\ RNG_S s' = 4294967295
     | Stuck _ => False
     end.
Proof.
  split; [exact on_map_nest|].
  apply (proj2 (tick_fails_only_on_draw_one
                  (fun _ => 0%Q) (fun _ => 0%Q) (fun _ _ => 0%Q) nest_state)).
  exact on_map_nest.
Defined.

(** ** Eggs at term *)

Lemma hatch_row_fish egg jit k tk e :
  is_fish (hatch_row egg jit k tk e) = egg_is_fish egg.
Proof. reflexivity. Qed.

Lemma hatch_row_alive egg jit k tk e :
  aliveA (hatch_row egg jit k tk e) = true.
Proof. reflexivity. Qed.

(** The placement of [hatchEgg], by the tile that takes the hatchling. *)
Lemma hatch_spawn_tile egg s :
  exists r jit,
    let filled := upd (count s) (hatch_row egg jit (count s) (tick s))
                      (set_RNG_S r (set_count (count s + 1) s)) in
    hatch_spawn egg s =
    match hatch_tile s egg with
    | Some (x, y) =>
      (true, set_occ (ta_set (occ s) (idx s x y) (count s))
               (upd (count s) (fun e => with_yA y (with_xA x e)) filled))
    | None => (false, filled)
    end.
Proof.
  unfold hatch_spawn.
  rewrite applyGenome_spec. unfold setTraitAlleles, applyPhenotypeFromGenes.
  rewrite !upd_upd.
  generalize (fst (genesFromGenome (e_genome egg)
                     (RNG_S (set_count (count s + 1) s)))) as jit.
  generalize (snd (genesFromGenome (e_genome egg)
                     (RNG_S (set_count (count s + 1) s)))) as r2.
  intros r2 jit. exists r2, jit.
  change (tick (upd ?a ?b (set_RNG_S ?c (set_count ?d s)))) with (tick s).
  change (fun e : Entity =>
            with_lastReproTickA (tick s) (with_reproTimerA 0
              (with_reproStateA ready (with_adultA false
                (with_aliveA true (with_ageA 0 (with_hydrationA (8 # 10)
                  (with_energyA (CHILD_ENERGY_START * viability egg)
                    (with_idA (count s + 1)
                      (applyPhenotypeFromGenes_row (with_genesA (e_genes egg)
                        (applyPhenotypeFromGenes_row
                           (applyGenome_cols (e_genome egg) jit e)))))))))))))
    with (hatch_row egg jit (count s) (tick s)).
  cbv zeta.
  set (filled := upd (count s) (hatch_row egg jit (count s) (tick s))
                     (set_RNG_S r2 (set_count (count s + 1) s))).
  assert (Hfish : is_fish (ent filled (count s)) = egg_is_fish egg).
  { subst filled. rewrite ent_upd_eq. apply hatch_row_fish. }
  assert (Hw : forall x y, is_water filled x y = is_water s x y) by reflexivity.
  assert (Hf : forall x y, is_free filled x y = is_free s x y) by reflexivity.
  assert (Hn : forall x y r, findNearbyWater filled x y r = findNearbyWater s x y r)
    by reflexivity.
  assert (Hp : forall x y, is_free s x y = true ->
    placeAt (count s) x y filled
    = (true, set_occ (ta_set (occ s) (idx s x y) (count s))
               (upd (count s) (fun e => with_yA y (with_xA x e)) filled))).
  { intros x y Hfree. apply bool_decide_eq_true in Hfree.
    rewrite placeAt_spec. rewrite decide_True by exact Hfree. reflexivity. }
  clearbody filled.
  rewrite Hfish, Hw, Hf, Hn. unfold hatch_tile.
  destruct (egg_is_fish egg && negb (is_water s (e_x egg) (e_y egg))).
  - pose proof (findNearbyWater_in_bounds s (e_x egg) (e_y egg) 2) as Hspot.
    destruct (findNearbyWater s (e_x egg) (e_y egg) 2) as [[wx wy]|];
      [|reflexivity].
    cbn [fst snd] in Hspot. destruct Hspot as (_ & _ & Hfree).
    rewrite Hf, Hfree. by apply Hp.
  - destruct (is_free s (e_x egg) (e_y egg)) eqn:Hfree; [|reflexivity].
    by apply Hp.
Qed.

Lemma hatch_tile_free s egg x y :
  hatch_tile s egg = Some (x, y) -> ta_get (occ s) (idx s x y) = Some (-1).
Proof.
  unfold hatch_tile. intros Ht.
  destruct (egg_is_fish egg && negb (is_water s (e_x egg) (e_y egg))).
  - pose proof (findNearbyWater_in_bounds s (e_x egg) (e_y egg) 2) as Hspot.
    rewrite Ht in Hspot. cbn [fst snd] in Hspot.
    destruct Hspot as (_ & _ & Hfree). by apply bool_decide_eq_true in Hfree.
  - destruct (is_free s (e_x egg) (e_y egg)) eqn:Hfree; [|discriminate].
    injection Ht as <- <-. by apply bool_decide_eq_true in Hfree.
Qed.

Lemma register_birth_total k b s : total (register_birth k b s) = total s + 1.
Proof.
  unfold register_birth.
  rewrite (sw_total _ _ (same_world_penalty _ _ _)).
  rewrite (sw_total _ _ (same_world_recordBirth _ _)).
  by destruct (count_birth_spec k s) as (-> & _).
Qed.

(** [hatchEgg] when a tile takes the hatchling and a slot is left. *)
Lemma hatchEgg_hatches egg s x y :
  count s < MAX_ENTITIES -> hatch_tile s egg = Some (x, y) ->
  count (hatchEgg egg s) = count s + 1
  /\ total (hatchEgg egg s) = total s + 1
  /\ aliveA (ent (hatchEgg egg s) (count s)) = true
  /\ xA (ent (hatchEgg egg s) (count s)) = x
  /\ yA (ent (hatchEgg egg s) (count s)) = y
  /\ ta_get (occ (hatchEgg egg s)) (idx s x y) = Some (count s).
Proof.
  intros Hc Ht. pose proof (hatch_tile_free _ _ _ _ Ht) as Hfree.
  rewrite hatchEgg_unfold by exact Hc. cbv zeta.
  destruct (hatch_spawn_tile egg s) as (r & jit & Heq). cbv zeta in Heq.
  rewrite Ht in Heq. rewrite Heq. cbn [fst snd negb].
  set (s1 := set_occ _ _).
  assert (Hcnt : count s1 = count s + 1) by reflexivity.
  assert (Htot : total s1 = total s) by reflexivity.
  assert (Hocc : ta_get (occ s1) (idx s x y) = Some (count s)).
  { subst s1. cbn [occ set_occ]. apply ta_get_set_eq.
    exact (ta_get_Some_range _ _ _ Hfree). }
  assert (Hrow : aliveA (ent s1 (count s)) = true
                 /\ xA (ent s1 (count s)) = x /\ yA (ent s1 (count s)) = y).
  { subst s1. rewrite ent_set_occ, !ent_upd_eq. by repeat split. }
  clearbody s1.
  rewrite (sw_count _ _ (same_world_detectMutation _ _ _ _ _)).
  rewrite (sw_total _ _ (same_world_detectMutation _ _ _ _ _)).
  rewrite (sw_occ _ _ (same_world_detectMutation _ _ _ _ _)).
  rewrite register_birth_count, register_birth_total, register_birth_occ.
  split; [exact Hcnt|]. split; [by rewrite Htot|].
  destruct (register_detect_xy (count s) (parentId1 egg) (shiftedDiet egg)
              (bool_decide (parentId2 egg <> None)) (shiftedDiet egg) s1 (count s))
    as [-> ->].
  destruct Hrow as (Hal & Hx & Hy).
  split; [|split; [exact Hx|split; [exact Hy|exact Hocc]]].
  destruct (detectMutation_rows (count s) (parentId1 egg) (shiftedDiet egg)
              (bool_decide (parentId2 egg <> None))
              (register_birth (count s) (shiftedDiet egg) s1)
              (count s)) as [_ Hsg].
  unfold species_glow in Hsg. rewrite Hsg.
  cbn [aliveA with_glowUntil set_species with_genomeA].
  rewrite ent_register_birth.
  destruct (_ && _); exact Hal.
Qed.

(** [hatchEgg] when no slot is left or no tile takes the hatchling. *)
Lemma hatchEgg_fails egg s :
  count s >= MAX_ENTITIES \/ hatch_tile s egg = None ->
  count (hatchEgg egg s) = count s
  /\ total (hatchEgg egg s) = total s
  /\ occ (hatchEgg egg s) = occ s
  /\ forall i, i <> count s -> ent (hatchEgg egg s) i = ent s i.
Proof.
  intros Hno. destruct (decide (count s < MAX_ENTITIES)) as [Hc|Hc].
  - destruct Hno as [Hfull|Ht]; [lia|].
    rewrite hatchEgg_unfold by exact Hc. cbv zeta.
    destruct (hatch_spawn_tile egg s) as (r & jit & Heq). cbv zeta in Heq.
    rewrite Ht in Heq. rewrite Heq. cbn [fst snd negb].
    split; [cbn; lia|]. split; [reflexivity|]. split; [reflexivity|].
    intros i Hi. rewrite ent_set_count, ent_upd_ne by congruence. reflexivity.
  - unfold hatchEgg. rewrite decide_True by lia. by repeat split.
Qed.

(** C6, as the code has it.  An egg on the map (its tile index is a
    cell of [biomeMap] and of [moistureMap]) that is at term after the
    tick's ageing leaves the list in every case, and the pass goes on with
    the eggs before it.  It hatches, that is the slot counter grows by
    one, exactly when the predation roll spares it, its viability exceeds
    0.3, the next draw is below its viability, the slot counter is below
    [MAX_ENTITIES] and a tile takes the hatchling: its own tile when that
    is free or, for a fish egg lying off water, the free water tile that
    [findNearbyWater] finds within radius 2.  The hatchling is then a live
    entity in the slot [count], standing on that tile, and [total] grows
    by one.  In every other case no entity is created: [count], [total],
    the occupancy grid and the rows of the other slots are as before. *)
Theorem egg_at_term_outcome egg0 s :
  egg_on_map s egg0 = true ->
  is_Some (ta_get (moistureMap s) (idx s (e_x egg0) (e_y egg0))) ->
  egg_at_term (ageEgg s egg0) ->
  let egg := ageEgg s egg0 in
  let s' := snd (updateEgg egg0 s) in
  (forall rest kept, eggs_loop (egg0 :: rest) kept s = eggs_loop rest kept s')
  /\ (count s' = count s + 1 <->
      predation_roll s egg = false /\ (3 # 10 < viability egg)%Q
      /\ hatch_roll s egg = true /\ count s < MAX_ENTITIES
      /\ is_Some (hatch_tile s egg))
  /\ (forall x y, count s' = count s + 1 -> hatch_tile s egg = Some (x, y) ->
      total s' = total s + 1
      /\ aliveA (ent s' (count s)) = true
      /\ xA (ent s' (count s)) = x /\ yA (ent s' (count s)) = y
      /\ ta_get (occ s) (idx s x y) = Some (-1)
      /\ ta_get (occ s') (idx s x y) = Some (count s))
  /\ (count s' <> count s + 1 ->
      count s' = count s /\ total s' = total s /\ occ s' = occ s
      /\ forall i, i <> count s -> ent s' i = ent s i).
Proof.
  intros Hmap _ Hterm egg s'.
  assert (Hnone : fst (updateEgg egg0 s) = None).
  { rewrite updateEgg_unfold. cbv zeta. fold egg.
    rewrite (decide_True (P := egg_at_term egg)) by exact Hterm.
    destruct (predation_roll s egg); [reflexivity|].
    destruct (Qlt_bool (3 # 10) (viability egg)); [|reflexivity].
    destruct (hatch_roll s egg); reflexivity. }
  split.
  { intros rest kept. cbn [eggs_loop]. rewrite Hmap. subst s'.
    destruct (updateEgg egg0 s) as [o s1]. cbn [fst snd] in *. by subst o. }
  clear Hnone. subst s'.
  rewrite updateEgg_unfold. cbv zeta. fold egg.
  rewrite (decide_True (P := egg_at_term egg)) by exact Hterm.
  assert (Hquiet : forall r,
    let t := set_RNG_S r s in
    ~ (predation_roll s egg = false /\ (3 # 10 < viability egg)%Q
       /\ hatch_roll s egg = true /\ count s < MAX_ENTITIES
       /\ is_Some (hatch_tile s egg)) ->
    (count t = count s + 1 <->
      predation_roll s egg = false /\ (3 # 10 < viability egg)%Q
      /\ hatch_roll s egg = true /\ count s < MAX_ENTITIES
      /\ is_Some (hatch_tile s egg))
    /\ (forall x y, count t = count s + 1 -> hatch_tile s egg = Some (x, y) ->
        total t = total s + 1
        /\ aliveA (ent t (count s)) = true
        /\ xA (ent t (count s)) = x /\ yA (ent t (count s)) = y
        /\ ta_get (occ s) (idx s x y) = Some (-1)
        /\ ta_get (occ t) (idx s x y) = Some (count s))
    /\ (count t <> count s + 1 ->
        count t = count s /\ total t = total s /\ occ t = occ s
        /\ forall i, i <> count s -> ent t i = ent s i)).
  { intros r t Hno. subst t. cbn [count total occ set_RNG_S].
    split; [split; [lia|tauto]|]. split; [intros; lia|].
    intros _. by repeat split. }
  cbv zeta in Hquiet.
  destruct (predation_roll s egg) eqn:Hp.
  { cbn [snd]. apply Hquiet. intros (? & _). discriminate. }
  destruct (Qlt_bool (3 # 10) (viability egg)) eqn:Hv.
  2:{ cbn [snd]. apply Hquiet. intros (_ & Hlt & _).
      apply Qlt_bool_iff in Hlt. congruence. }
  apply Qlt_bool_iff in Hv.
  destruct (hatch_roll s egg) eqn:Hh.
  2:{ cbn [snd]. apply Hquiet. intros (_ & _ & ? & _). discriminate. }
  cbn [snd]. clear Hquiet.
  set (s2 := set_RNG_S (rng_next (rng_next (RNG_S s))) s).
  assert (Hs2 : count s2 = count s /\ total s2 = total s /\ occ s2 = occ s
                /\ hatch_tile s2 egg = hatch_tile s egg
                /\ (forall x y, idx s2 x y = idx s x y)
                /\ (forall i, ent s2 i = ent s i)) by (by repeat split).
  destruct Hs2 as (Hc2 & Ht2 & Ho2 & Hh2 & Hi2 & He2). clearbody s2.
  destruct (decide (count s < MAX_ENTITIES)) as [Hc|Hc].
  - destruct (hatch_tile s egg) as [[x y]|] eqn:Ht.
    + destruct (hatchEgg_hatches egg s2 x y) as (Hcnt & Htot & Hal & Hx & Hy & Hocc);
        [lia|congruence|].
      rewrite Hc2, ?Hi2 in *. rewrite Ht2 in Htot.
      split; [split; [intros _|intros _; exact Hcnt]|].
      { split; [reflexivity|]. split; [exact Hv|]. split; [reflexivity|].
        split; [exact Hc|]. by eexists. }
      split; [|intros Hne; contradiction].
      intros x' y' _ Heq. injection Heq as <- <-.
      split; [exact Htot|]. split; [exact Hal|]. split; [exact Hx|].
      split; [exact Hy|]. split; [|exact Hocc].
      apply (hatch_tile_free s egg). exact Ht.
    + destruct (hatchEgg_fails egg s2) as (Hcnt & Htot & Hocc & Hrows);
        [right; congruence|].
      rewrite Hc2 in *. rewrite Ht2 in Htot. rewrite Ho2 in Hocc.
      split; [split; [lia|]|].
      { intros (_ & _ & _ & _ & [? ?]). discriminate. }
      split; [intros x y ?; lia|]. intros _.
      split; [exact Hcnt|]. split; [exact Htot|]. split; [exact Hocc|].
      intros i Hi. rewrite Hrows by exact Hi. apply He2.
  - destruct (hatchEgg_fails egg s2) as (Hcnt & Htot & Hocc & Hrows);
      [left; lia|].
    rewrite Hc2 in *. rewrite Ht2 in Htot. rewrite Ho2 in Hocc.
    split; [split; [lia|]|].
    { intros (_ & _ & _ & ? & _). lia. }
    split; [intros x y ?; lia|]. intros _.
    split; [exact Hcnt|]. split; [exact Htot|]. split; [exact Hocc|].
    intros i Hi. rewrite Hrows by exact Hi. apply He2.
Qed.

Lemma egg_at_term_outcome_witness :
  (forall rest kept,
     eggs_loop (demo_egg 1 :: rest) kept meadow_state
     = eggs_loop rest kept (snd (updateEgg (demo_egg 1) meadow_state)))
  /\ count (snd (updateEgg (demo_egg 1) meadow_state)) = count meadow_state + 1
  /\ xA (ent (snd (updateEgg (demo_egg 1) meadow_state)) (count meadow_state)) = 11
  /\ yA (ent (snd (updateEgg (demo_egg 1) meadow_state)) (count meadow_state)) = 10.
Proof.
  destruct (egg_at_term_outcome (demo_egg 1) meadow_state)
    as (Hloop & Hiff & Hrow & _).
  { vm_compute. reflexivity. }
  { eexists. vm_compute. reflexivity. }
  { vm_compute. discriminate. }
  assert (Ht : hatch_tile meadow_state (ageEgg meadow_state (demo_egg 1))
               = Some (11, 10)) by (vm_compute; reflexivity).
  assert (Hc : count (snd (updateEgg (demo_egg 1) meadow_state))
               = count meadow_state + 1).
  { apply Hiff. split; [vm_compute; reflexivity|].
    split; [vm_compute; reflexivity|]. split; [vm_compute; reflexivity|].
    split; [vm_compute; reflexivity|]. rewrite Ht. by eexists. }
  split; [exact Hloop|]. split; [exact Hc|].
  destruct (Hrow 11 10 Hc Ht) as (_ & _ & Hx & Hy & _). by split.
Defined.

(** C6 as stated fails.  The egg of [nest_state] lies on the map and is
    at term with viability above 0.3, the predation roll spares it and the
    hatch roll succeeds: yet the egg pass creates no entity, because the
    tile of the egg is occupied. *)
Lemma egg_hatch_roll_not_sufficient :
  let egg := ageEgg nest_state blocked_egg in
  eggs nest_state = [blocked_egg]
  /\ egg_on_map nest_state blocked_egg = true
  /\ ta_get (moistureMap nest_state) (idx nest_state 10 10) = Some 0%Q
  /\ egg_at_term egg /\ (3 # 10 < viability egg)%Q
  /\ predation_roll nest_state egg = false
  /\ hatch_roll nest_state egg = true
  /\ count nest_state < MAX_ENTITIES
  /\ match updateEggsM nest_state with
     | Ok _ s' =>
       eggs s' = [] /\ count s' = count nest_state
       /\ total s' = total nest_state /\ occ s' = occ nest_state
     | Throw _ | Stuck _ => False
     end.
Proof.
  cbv zeta. split; [reflexivity|]. split; [vm_compute; reflexivity|].
  split; [vm_compute; reflexivity|].
  split; [vm_compute; discriminate|]. split; [vm_compute; reflexivity|].
  split; [vm_compute; reflexivity|]. split; [vm_compute; reflexivity|].
  split; [vm_compute; reflexivity|].
  vm_compute. repeat split.
Qed.
